(** * StreamVByte encoders and the short varint codec: a shallow embedding

    The development follows the C sources:
    - [svb_internal.h]  key-block length, scalar and vector filters, transpose;
    - [svb.h]           [streamvbyte_compress_bound];
    - [svb1_enc.c]      the "1234 format" encoders (SSE4.1 and portable builds);
    - [svb0_enc.c]      the "0124 format" encoders (SSE4.1 and portable builds);
    - [contrib/short_varint.c]  the codec for 16-bit values.

    Fixed-width C integers are integers of [Z] with the wrap-around written
    out; a buffer is a total map from byte offsets to byte values and a
    pointer into it is an offset; an [__m128i] is the list of its sixteen
    bytes in memory order. *)

From Stdlib Require Import ZArith List Lia Bool.
Import ListNotations.
Local Open Scope Z_scope.

(** ** Fixed-width integers *)

Module Bits.

Definition u8 (x : Z) : Z := x mod 2 ^ 8.
Definition u16 (x : Z) : Z := x mod 2 ^ 16.
Definition u32 (x : Z) : Z := x mod 2 ^ 32.
Definition u64 (x : Z) : Z := x mod 2 ^ 64.

(** Two's complement reading of a [w]-bit pattern. *)
Definition signed (w : Z) (x : Z) : Z :=
  if x <? 2 ^ (w - 1) then x else x - 2 ^ w.

(** C truth values. *)
Definition b2z (b : bool) : Z := if b then 1 else 0.

(** Little-endian memory image of the low [n] bytes of [x]. *)
Fixpoint le_bytes (n : nat) (x : Z) : list Z :=
  match n with
  | O => []
  | S n' => u8 x :: le_bytes n' (Z.shiftr x 8)
  end.

(** Value of a little-endian byte string. *)
Fixpoint le_value (bs : list Z) : Z :=
  match bs with
  | [] => 0
  | b :: r => b + 2 ^ 8 * le_value r
  end.

(** [chunks k l] cuts [l] into consecutive pieces of [k] elements (the
    last one may be shorter); [fuel] bounds the number of pieces. *)
Fixpoint chunks_aux {A} (fuel : nat) (k : nat) (l : list A) : list (list A) :=
  match fuel with
  | O => []
  | S f =>
      match l with
      | [] => []
      | _ => firstn k l :: chunks_aux f k (skipn k l)
      end
  end.

Definition chunks {A} (k : nat) (l : list A) : list (list A) :=
  chunks_aux (length l) k l.

Definition is_u8 (x : Z) : Prop := 0 <= x < 2 ^ 8.
Definition is_u16 (x : Z) : Prop := 0 <= x < 2 ^ 16.
Definition is_u32 (x : Z) : Prop := 0 <= x < 2 ^ 32.

End Bits.

Import Bits.

(** ** Byte-addressed buffers *)

Module Mem.

(** A buffer maps every byte offset (relative to the pointer the caller
    passed) to the byte stored there. *)
Definition mem := Z -> Z.

Definition store8 (m : mem) (a : Z) (v : Z) : mem :=
  fun p => if p =? a then v else m p.

(** Consecutive byte stores, lowest address first ([memcpy] into the
    buffer, [_mm_storeu_si128], ...). *)
Fixpoint store_bytes (m : mem) (a : Z) (bs : list Z) : mem :=
  match bs with
  | [] => m
  | b :: r => store_bytes (store8 m a b) (a + 1) r
  end.

(** The [n] bytes at offsets [a], [a+1], ... *)
Fixpoint load_bytes (m : mem) (a : Z) (n : nat) : list Z :=
  match n with
  | O => []
  | S n' => m a :: load_bytes m (a + 1) n'
  end.

(** Arrays of 32-bit and 16-bit elements: [in[i]]; reading outside the
    array is not defined by C and yields 0 here. *)
Definition rd (l : list Z) (i : Z) : Z :=
  if i <? 0 then 0 else nth (Z.to_nat i) l 0.

End Mem.

Import Mem.

(** ** [svb_internal.h]: scalar helpers *)

Definition _svb_key_block_len (count : Z) : Z :=
  Z.shiftr (u64 (count + 3)) 2.

(** [(val + val) ^ ((int32_t)val >> 31)]: the arithmetic shift of the
    signed reading yields 0 or -1, converted back to [uint32_t]. *)
Definition _zigzag_encode_32 (val : Z) : Z :=
  Z.lxor (u32 (val + val)) (u32 (Z.shiftr (signed 32 val) 31)).

(** [(val >> 1) ^ -(val & 1)] *)
Definition _zigzag_decode_32 (val : Z) : Z :=
  Z.lxor (Z.shiftr val 1) (u32 (- (Z.land val 1))).

Definition _delta_encode_32 (val previous : Z) : Z := u32 (val - previous).

Definition _delta_decode_32 (val previous : Z) : Z := u32 (val + previous).

Definition _delta_zigzag_encode_32 (val previous : Z) : Z :=
  _zigzag_encode_32 (_delta_encode_32 val previous).

Definition _delta_zigzag_decode_32 (val previous : Z) : Z :=
  _delta_decode_32 (_zigzag_decode_32 val) previous.

(** The spec's wording of the zigzag filter: [(v << 1) ^ (v >> 31)] with an
    arithmetic right shift of the signed reading. *)
Definition zigzag_spec (v : Z) : Z :=
  Z.lxor (u32 (Z.shiftl v 1)) (u32 (Z.shiftr (signed 32 v) 31)).

(** ** [svb.h] *)

Definition streamvbyte_compress_bound (count : Z) : Z :=
  let key_len := _svb_key_block_len count in
  let data_len_max := u64 (Z.shiftl count 2) in
  u64 (key_len + data_len_max).

(** ** SSE intrinsics

    An [__m128i] is the list of its sixteen bytes, lowest address (least
    significant) first; every intrinsic is written on that image at the
    lane width it works on. *)

Module SSE.

Definition m128 := list Z.

Definition map2 {A B C} (f : A -> B -> C) (a : list A) (b : list B) : list C :=
  map (fun p => f (fst p) (snd p)) (combine a b).

(** Lanes of [k] bytes each, as unsigned values, and back. *)
Definition lanes (k : nat) (v : m128) : list Z := map le_value (chunks k v).
Definition unlanes (k : nat) (ws : list Z) : m128 := flat_map (le_bytes k) ws.

Definition _mm_setzero_si128 : m128 := repeat 0 16%nat.
Definition _mm_set1_epi8 (b : Z) : m128 := repeat (u8 b) 16%nat.
Definition _mm_set1_epi16 (w : Z) : m128 := unlanes 2 (repeat (u16 w) 8%nat).
Definition _mm_set1_epi32 (w : Z) : m128 := unlanes 4 (repeat (u32 w) 4%nat).

(** [_mm_set_epi8 (e15, ..., e0)]: the last argument is the lowest byte. *)
Definition _mm_set_epi8 (es : list Z) : m128 := rev (map u8 es).

Definition _mm_cvtsi32_si128 (x : Z) : m128 := le_bytes 4 x ++ repeat 0 12%nat.
Definition _mm_cvtsi64_si128 (x : Z) : m128 := le_bytes 8 x ++ repeat 0 8%nat.
Definition _mm_cvtsi128_si64 (a : m128) : Z := le_value (firstn 8 a).

Definition _mm_and_si128 (a b : m128) : m128 := map2 Z.land a b.
Definition _mm_or_si128 (a b : m128) : m128 := map2 Z.lor a b.
Definition _mm_xor_si128 (a b : m128) : m128 := map2 Z.lxor a b.

Definition _mm_min_epu8 (a b : m128) : m128 := map2 Z.min a b.
Definition _mm_cmpeq_epi8 (a b : m128) : m128 :=
  map2 (fun x y => if x =? y then 0xFF else 0) a b.
Definition _mm_avg_epu8 (a b : m128) : m128 :=
  map2 (fun x y => Z.shiftr (x + y + 1) 1) a b.

(** Saturation of a signed value to an unsigned [w]-bit one. *)
Definition sat_unsigned (w : Z) (x : Z) : Z :=
  if x <? 0 then 0 else if 2 ^ w <=? x then 2 ^ w - 1 else x.

Definition _mm_packus_epi16 (a b : m128) : m128 :=
  map (fun x => sat_unsigned 8 (signed 16 x)) (lanes 2 a ++ lanes 2 b).
Definition _mm_packus_epi32 (a b : m128) : m128 :=
  unlanes 2 (map (fun x => sat_unsigned 16 (signed 32 x)) (lanes 4 a ++ lanes 4 b)).

Definition _mm_min_epi16 (a b : m128) : m128 :=
  unlanes 2 (map2 (fun x y => u16 (Z.min (signed 16 x) (signed 16 y)))
                  (lanes 2 a) (lanes 2 b)).
Definition _mm_adds_epu16 (a b : m128) : m128 :=
  unlanes 2 (map2 (fun x y => Z.min (x + y) 0xFFFF) (lanes 2 a) (lanes 2 b)).
Definition _mm_slli_epi16 (a : m128) (n : Z) : m128 :=
  unlanes 2 (map (fun x => u16 (Z.shiftl x n)) (lanes 2 a)).
Definition _mm_slli_epi64 (a : m128) (n : Z) : m128 :=
  unlanes 8 (map (fun x => u64 (Z.shiftl x n)) (lanes 8 a)).
Definition _mm_srli_epi32 (a : m128) (n : Z) : m128 :=
  unlanes 4 (map (fun x => Z.shiftr x n) (lanes 4 a)).

Definition _mm_add_epi32 (a b : m128) : m128 :=
  unlanes 4 (map2 (fun x y => u32 (x + y)) (lanes 4 a) (lanes 4 b)).
Definition _mm_sub_epi32 (a b : m128) : m128 :=
  unlanes 4 (map2 (fun x y => u32 (x - y)) (lanes 4 a) (lanes 4 b)).
Definition _mm_cmpgt_epi32 (a b : m128) : m128 :=
  unlanes 4 (map2 (fun x y => if signed 32 y <? signed 32 x then 0xFFFFFFFF else 0)
                  (lanes 4 a) (lanes 4 b)).
Definition _mm_cmpeq_epi32 (a b : m128) : m128 :=
  unlanes 4 (map2 (fun x y => if x =? y then 0xFFFFFFFF else 0) (lanes 4 a) (lanes 4 b)).

(** [_MM_SHUFFLE(z, y, x, w)] and [pshufd]: lane [i] of the result is the
    lane of [a] that bits [2i+1 : 2i] of the immediate name. *)
Definition _MM_SHUFFLE (z y x w : Z) : Z :=
  Z.lor (Z.lor (Z.lor (Z.shiftl z 6) (Z.shiftl y 4)) (Z.shiftl x 2)) w.
Definition _mm_shuffle_epi32 (a : m128) (imm : Z) : m128 :=
  unlanes 4 (map (fun i => nth (Z.to_nat (Z.land (Z.shiftr imm (2 * i)) 3)) (lanes 4 a) 0)
                 [0; 1; 2; 3]).

(** [pslldq]: the whole register shifted left by [n] bytes. *)
Definition _mm_slli_si128 (a : m128) (n : nat) : m128 :=
  firstn 16 (repeat 0 n ++ a).

(** Bit [i] of the result is the top bit of byte [i]. *)
Fixpoint movemask_from (i : Z) (a : list Z) : Z :=
  match a with
  | [] => 0
  | x :: r => Z.shiftl (Z.shiftr x 7) i + movemask_from (i + 1) r
  end.
Definition _mm_movemask_epi8 (a : m128) : Z := movemask_from 0 a.

(** [pshufb]: a control byte with its top bit set yields zero, otherwise
    its low four bits select a source byte. *)
Definition _mm_shuffle_epi8 (a b : m128) : m128 :=
  map (fun c => if Z.testbit c 7 then 0 else nth (Z.to_nat (Z.land c 0x0F)) a 0) b.

(** [palignr]: the 32-byte value [a:b] shifted right by [n] bytes. *)
Definition _mm_alignr_epi8 (a b : m128) (n : nat) : m128 :=
  firstn 16 (skipn n (b ++ a ++ repeat 0 16%nat)).

Definition _mm_insert_epi32 (a : m128) (x : Z) (lane : nat) : m128 :=
  firstn (4 * lane) a ++ le_bytes 4 x ++ skipn (4 * lane + 4) a.
Definition _mm_extract_epi32 (a : m128) (lane : nat) : Z :=
  le_value (firstn 4 (skipn (4 * lane) a)).

Definition _mm_unpacklo_epi8 (a b : m128) : m128 :=
  flat_map (fun p => [fst p; snd p]) (combine (firstn 8 a) (firstn 8 b)).
Definition _mm_unpacklo_epi32 (a b : m128) : m128 :=
  firstn 4 a ++ firstn 4 b ++ firstn 4 (skipn 4 a) ++ firstn 4 (skipn 4 b).
Definition _mm_unpackhi_epi32 (a b : m128) : m128 :=
  firstn 4 (skipn 8 a) ++ firstn 4 (skipn 8 b) ++ skipn 12 a ++ skipn 12 b.
Definition _mm_unpacklo_epi64 (a b : m128) : m128 := firstn 8 a ++ firstn 8 b.
Definition _mm_unpackhi_epi64 (a b : m128) : m128 := skipn 8 a ++ skipn 8 b.

(** [psadbw]: per 64-bit half, the sum of the absolute byte differences. *)
Definition sad8 (a b : list Z) : Z :=
  fold_right Z.add 0 (map2 (fun x y => Z.abs (x - y)) a b).
Definition _mm_sad_epu8 (a b : m128) : m128 :=
  le_bytes 8 (sad8 (firstn 8 a) (firstn 8 b)) ++
  le_bytes 8 (sad8 (skipn 8 a) (skipn 8 b)).

(** Loads and stores. *)
Definition _mm_loadu_si128 (m : mem) (p : Z) : m128 := load_bytes m p 16.
Definition _mm_storeu_si128 (m : mem) (p : Z) (a : m128) : mem := store_bytes m p a.
Definition _mm_storel_epi64 (m : mem) (p : Z) (a : m128) : mem :=
  store_bytes m p (firstn 8 a).
Definition _mm_storeh_pi (m : mem) (p : Z) (a : m128) : mem :=
  store_bytes m p (skipn 8 a).

(** An unaligned 16-byte load from an array of [k]-byte elements: the
    [16/k] elements starting at index [i], in little-endian memory order. *)
Definition load_elems (k : nat) (inp : list Z) (i : Z) : m128 :=
  unlanes k (map (fun j => rd inp (i + Z.of_nat j)) (seq 0 (16 / k))).

End SSE.

Import SSE.

(** ** [svb_internal.h]: vector helpers and unaligned access *)

Definition _mm_zigzag_encode_epi32 (v : m128) : m128 :=
  let signmask := _mm_cmpgt_epi32 _mm_setzero_si128 v in
  _mm_xor_si128 (_mm_add_epi32 v v) signmask.

Definition _mm_delta_encode_epi32 (v prev : m128) : m128 :=
  _mm_sub_epi32 v (_mm_alignr_epi8 v prev 12).

Definition _mm_delta_zigzag_encode_epi32 (v prev : m128) : m128 :=
  _mm_zigzag_encode_epi32 (_mm_delta_encode_epi32 v prev).

Definition _mm_zigzag_decode_epi32 (v : m128) : m128 :=
  let m := _mm_set1_epi32 1 in
  let signmask := _mm_cmpeq_epi32 (_mm_and_si128 m v) m in
  _mm_xor_si128 (_mm_srli_epi32 v 1) signmask.

Definition _mm_delta_decode_epi32 (v prev : m128) : m128 :=
  let prev := _mm_shuffle_epi32 prev (_MM_SHUFFLE 3 3 3 3) in
  let v := _mm_add_epi32 v (_mm_slli_si128 v 4) in
  let prev := _mm_add_epi32 prev v in
  let v := _mm_slli_si128 v 8 in
  _mm_add_epi32 prev v.

Definition _mm_delta_zigzag_decode_epi32 (v prev : m128) : m128 :=
  _mm_delta_decode_epi32 (_mm_zigzag_decode_epi32 v) prev.

(** [SVB_TRANSPOSE(row0, row1, row2, row3)] *)
Definition SVB_TRANSPOSE (row0 row1 row2 row3 : m128) : m128 * m128 * m128 * m128 :=
  let t0 := _mm_unpacklo_epi32 row0 row1 in
  let t1 := _mm_unpacklo_epi32 row2 row3 in
  let t2 := _mm_unpackhi_epi32 row0 row1 in
  let t3 := _mm_unpackhi_epi32 row2 row3 in
  (_mm_unpacklo_epi64 t0 t1, _mm_unpackhi_epi64 t0 t1,
   _mm_unpacklo_epi64 t2 t3, _mm_unpackhi_epi64 t2 t3).

Definition svb_storeu_u16 (m : mem) (dst : Z) (src : Z) : mem :=
  store_bytes m dst (le_bytes 2 src).

Definition svb_storeu_u32 (m : mem) (dst : Z) (src : Z) : mem :=
  store_bytes m dst (le_bytes 4 src).

Definition svb_loadu_u16 (m : mem) (ptr : Z) : Z := le_value (load_bytes m ptr 2).

Definition svb_loadu_u32 (m : mem) (ptr : Z) : Z := le_value (load_bytes m ptr 4).

Definition svb_loadu_u64 (m : mem) (ptr : Z) : Z := le_value (load_bytes m ptr 8).

(** ** Control flow *)

(** [do body while (cond)], with a bound on the number of iterations. *)
Fixpoint do_while {St} (fuel : nat) (body : St -> St) (cond : St -> bool) (s : St) : St :=
  match fuel with
  | O => s
  | S f => let s' := body s in if cond s' then do_while f body cond s' else s'
  end.

(** [while (cond) body], with a bound on the number of iterations. *)
Fixpoint while {St} (fuel : nat) (cond : St -> bool) (body : St -> St) (s : St) : St :=
  match fuel with
  | O => s
  | S f => if cond s then while f cond body (body s) else s
  end.

(** The write cursors of an encoder and the buffer they point into. *)
Record cursor := Cursor { key_ptr : Z; data_ptr : Z; buf : mem }.

(** ** [svb1_enc.c]: the "1234 format" *)

Module Svb1.

Definition svb1_len_table : list Z :=
[
   4;  5;  6;  7;  5;  6;  7;  8;  6;  7;  8;  9;  7;  8;  9; 10;
   5;  6;  7;  8;  6;  7;  8;  9;  7;  8;  9; 10;  8;  9; 10; 11;
   6;  7;  8;  9;  7;  8;  9; 10;  8;  9; 10; 11;  9; 10; 11; 12;
   7;  8;  9; 10;  8;  9; 10; 11;  9; 10; 11; 12; 10; 11; 12; 13;
   5;  6;  7;  8;  6;  7;  8;  9;  7;  8;  9; 10;  8;  9; 10; 11;
   6;  7;  8;  9;  7;  8;  9; 10;  8;  9; 10; 11;  9; 10; 11; 12;
   7;  8;  9; 10;  8;  9; 10; 11;  9; 10; 11; 12; 10; 11; 12; 13;
   8;  9; 10; 11;  9; 10; 11; 12; 10; 11; 12; 13; 11; 12; 13; 14;
   6;  7;  8;  9;  7;  8;  9; 10;  8;  9; 10; 11;  9; 10; 11; 12;
   7;  8;  9; 10;  8;  9; 10; 11;  9; 10; 11; 12; 10; 11; 12; 13;
   8;  9; 10; 11;  9; 10; 11; 12; 10; 11; 12; 13; 11; 12; 13; 14;
   9; 10; 11; 12; 10; 11; 12; 13; 11; 12; 13; 14; 12; 13; 14; 15;
   7;  8;  9; 10;  8;  9; 10; 11;  9; 10; 11; 12; 10; 11; 12; 13;
   8;  9; 10; 11;  9; 10; 11; 12; 10; 11; 12; 13; 11; 12; 13; 14;
   9; 10; 11; 12; 10; 11; 12; 13; 11; 12; 13; 14; 12; 13; 14; 15;
  10; 11; 12; 13; 11; 12; 13; 14; 12; 13; 14; 15; 13; 14; 15; 16 ].

Definition svb1_enc_table : list Z :=
[
   0;  4;  8; 12; 13; 14; 15;  0;  0;  0;  0;  0;  0;  0;  0;  0;
   0;  1;  4;  8; 12; 13; 14; 15;  0;  0;  0;  0;  0;  0;  0;  0;
   0;  1;  2;  4;  8; 12; 13; 14; 15;  0;  0;  0;  0;  0;  0;  0;
   0;  1;  2;  3;  4;  8; 12; 13; 14; 15;  0;  0;  0;  0;  0;  0;
   0;  4;  5;  8; 12; 13; 14; 15;  0;  0;  0;  0;  0;  0;  0;  0;
   0;  1;  4;  5;  8; 12; 13; 14; 15;  0;  0;  0;  0;  0;  0;  0;
   0;  1;  2;  4;  5;  8; 12; 13; 14; 15;  0;  0;  0;  0;  0;  0;
   0;  1;  2;  3;  4;  5;  8; 12; 13; 14; 15;  0;  0;  0;  0;  0;
   0;  4;  5;  6;  8; 12; 13; 14; 15;  0;  0;  0;  0;  0;  0;  0;
   0;  1;  4;  5;  6;  8; 12; 13; 14; 15;  0;  0;  0;  0;  0;  0;
   0;  1;  2;  4;  5;  6;  8; 12; 13; 14; 15;  0;  0;  0;  0;  0;
   0;  1;  2;  3;  4;  5;  6;  8; 12; 13; 14; 15;  0;  0;  0;  0;
   0;  4;  5;  6;  7;  8; 12; 13; 14; 15;  0;  0;  0;  0;  0;  0;
   0;  1;  4;  5;  6;  7;  8; 12; 13; 14; 15;  0;  0;  0;  0;  0;
   0;  1;  2;  4;  5;  6;  7;  8; 12; 13; 14; 15;  0;  0;  0;  0;
   0;  1;  2;  3;  4;  5;  6;  7;  8; 12; 13; 14; 15;  0;  0;  0;
   0;  4;  8;  9; 12; 13; 14; 15;  0;  0;  0;  0;  0;  0;  0;  0;
   0;  1;  4;  8;  9; 12; 13; 14; 15;  0;  0;  0;  0;  0;  0;  0;
   0;  1;  2;  4;  8;  9; 12; 13; 14; 15;  0;  0;  0;  0;  0;  0;
   0;  1;  2;  3;  4;  8;  9; 12; 13; 14; 15;  0;  0;  0;  0;  0;
   0;  4;  5;  8;  9; 12; 13; 14; 15;  0;  0;  0;  0;  0;  0;  0;
   0;  1;  4;  5;  8;  9; 12; 13; 14; 15;  0;  0;  0;  0;  0;  0;
   0;  1;  2;  4;  5;  8;  9; 12; 13; 14; 15;  0;  0;  0;  0;  0;
   0;  1;  2;  3;  4;  5;  8;  9; 12; 13; 14; 15;  0;  0;  0;  0;
   0;  4;  5;  6;  8;  9; 12; 13; 14; 15;  0;  0;  0;  0;  0;  0;
   0;  1;  4;  5;  6;  8;  9; 12; 13; 14; 15;  0;  0;  0;  0;  0;
   0;  1;  2;  4;  5;  6;  8;  9; 12; 13; 14; 15;  0;  0;  0;  0;
   0;  1;  2;  3;  4;  5;  6;  8;  9; 12; 13; 14; 15;  0;  0;  0;
   0;  4;  5;  6;  7;  8;  9; 12; 13; 14; 15;  0;  0;  0;  0;  0;
   0;  1;  4;  5;  6;  7;  8;  9; 12; 13; 14; 15;  0;  0;  0;  0;
   0;  1;  2;  4;  5;  6;  7;  8;  9; 12; 13; 14; 15;  0;  0;  0;
   0;  1;  2;  3;  4;  5;  6;  7;  8;  9; 12; 13; 14; 15;  0;  0;
   0;  4;  8;  9; 10; 12; 13; 14; 15;  0;  0;  0;  0;  0;  0;  0;
   0;  1;  4;  8;  9; 10; 12; 13; 14; 15;  0;  0;  0;  0;  0;  0;
   0;  1;  2;  4;  8;  9; 10; 12; 13; 14; 15;  0;  0;  0;  0;  0;
   0;  1;  2;  3;  4;  8;  9; 10; 12; 13; 14; 15;  0;  0;  0;  0;
   0;  4;  5;  8;  9; 10; 12; 13; 14; 15;  0;  0;  0;  0;  0;  0;
   0;  1;  4;  5;  8;  9; 10; 12; 13; 14; 15;  0;  0;  0;  0;  0;
   0;  1;  2;  4;  5;  8;  9; 10; 12; 13; 14; 15;  0;  0;  0;  0;
   0;  1;  2;  3;  4;  5;  8;  9; 10; 12; 13; 14; 15;  0;  0;  0;
   0;  4;  5;  6;  8;  9; 10; 12; 13; 14; 15;  0;  0;  0;  0;  0;
   0;  1;  4;  5;  6;  8;  9; 10; 12; 13; 14; 15;  0;  0;  0;  0;
   0;  1;  2;  4;  5;  6;  8;  9; 10; 12; 13; 14; 15;  0;  0;  0;
   0;  1;  2;  3;  4;  5;  6;  8;  9; 10; 12; 13; 14; 15;  0;  0;
   0;  4;  5;  6;  7;  8;  9; 10; 12; 13; 14; 15;  0;  0;  0;  0;
   0;  1;  4;  5;  6;  7;  8;  9; 10; 12; 13; 14; 15;  0;  0;  0;
   0;  1;  2;  4;  5;  6;  7;  8;  9; 10; 12; 13; 14; 15;  0;  0;
   0;  1;  2;  3;  4;  5;  6;  7;  8;  9; 10; 12; 13; 14; 15;  0;
   0;  4;  8;  9; 10; 11; 12; 13; 14; 15;  0;  0;  0;  0;  0;  0;
   0;  1;  4;  8;  9; 10; 11; 12; 13; 14; 15;  0;  0;  0;  0;  0;
   0;  1;  2;  4;  8;  9; 10; 11; 12; 13; 14; 15;  0;  0;  0;  0;
   0;  1;  2;  3;  4;  8;  9; 10; 11; 12; 13; 14; 15;  0;  0;  0;
   0;  4;  5;  8;  9; 10; 11; 12; 13; 14; 15;  0;  0;  0;  0;  0;
   0;  1;  4;  5;  8;  9; 10; 11; 12; 13; 14; 15;  0;  0;  0;  0;
   0;  1;  2;  4;  5;  8;  9; 10; 11; 12; 13; 14; 15;  0;  0;  0;
   0;  1;  2;  3;  4;  5;  8;  9; 10; 11; 12; 13; 14; 15;  0;  0;
   0;  4;  5;  6;  8;  9; 10; 11; 12; 13; 14; 15;  0;  0;  0;  0;
   0;  1;  4;  5;  6;  8;  9; 10; 11; 12; 13; 14; 15;  0;  0;  0;
   0;  1;  2;  4;  5;  6;  8;  9; 10; 11; 12; 13; 14; 15;  0;  0;
   0;  1;  2;  3;  4;  5;  6;  8;  9; 10; 11; 12; 13; 14; 15;  0;
   0;  4;  5;  6;  7;  8;  9; 10; 11; 12; 13; 14; 15;  0;  0;  0;
   0;  1;  4;  5;  6;  7;  8;  9; 10; 11; 12; 13; 14; 15;  0;  0;
   0;  1;  2;  4;  5;  6;  7;  8;  9; 10; 11; 12; 13; 14; 15;  0;
   0;  1;  2;  3;  4;  5;  6;  7;  8;  9; 10; 11; 12; 13; 14; 15 ].

(** [SVB1_ENCODE8(key_ptr, data_ptr, src_a, src_b)] *)
Definition SVB1_ENCODE8 (c : cursor) (src_a src_b : m128) : cursor :=
  let mask_01 := _mm_set1_epi8 0x01 in
  let mask_7F00 := _mm_set1_epi16 0x7F00 in
  (* normalize each byte to 0 or 1 *)
  let a := _mm_min_epu8 mask_01 src_a in
  let b := _mm_min_epu8 mask_01 src_b in
  (* generate keys *)
  let a := _mm_packus_epi16 a b in
  let a := _mm_min_epi16 a mask_01 in
  let a := _mm_adds_epu16 a mask_7F00 in
  let keys := _mm_movemask_epi8 a in
  (* in-register shuffle *)
  let shuf_a := firstn 16 (skipn (Z.to_nat (Z.land (Z.shiftl keys 4) 0x03F0)) svb1_enc_table) in
  let shuf_b := firstn 16 (skipn (Z.to_nat (Z.land (Z.shiftr keys 4) 0x03F0)) svb1_enc_table) in
  let data_a := _mm_shuffle_epi8 src_a shuf_a in
  let data_b := _mm_shuffle_epi8 src_b shuf_b in
  (* store an entire xmmword, advance by the bytes wanted *)
  let m := _mm_storeu_si128 (buf c) (data_ptr c) data_a in
  let dp := data_ptr c + nth (Z.to_nat (Z.land keys 0xFF)) svb1_len_table 0 in
  let m := _mm_storeu_si128 m dp data_b in
  let dp := dp + nth (Z.to_nat (Z.shiftr keys 8)) svb1_len_table 0 in
  (* save keys *)
  let m := svb_storeu_u16 m (key_ptr c) (u16 keys) in
  Cursor (key_ptr c + 2) dp m.

(** [_svb1_encode1_x64(dst, dw)]: the buffer after the store, and the
    2-bit code. *)
Definition _svb1_encode1_x64 (m : mem) (dst : Z) (dw : Z) : mem * Z :=
  let m := svb_storeu_u32 m dst dw in
  let dw := Z.shiftr dw 8 in
  let a := u32 (dw + 0x00FFFF00) in
  let b := Z.land dw 0x00FF0000 in
  let a := Z.lor a 0x00FFFFFF in
  let dw := u32 (dw + a) in
  let dw := Z.lor dw 0x00FFFFFF in
  let dw := u32 (dw + b) in
  let dw := Z.shiftr dw 24 in
  (m, dw).

(** The body of the scalar tail loops of the SSE4.1 build:
    [code = _svb1_encode1_x64(data_ptr, dw); data_ptr += 1 + code;
     keys |= code << i*2;] ([shift] is [i*2]). *)
Definition svb1_tail_step (keys : Z) (dp : Z) (m : mem) (dw : Z) (shift : Z)
  : Z * Z * mem :=
  let '(m, code) := _svb1_encode1_x64 m dp dw in
  let dp := dp + (1 + code) in
  let keys := Z.lor keys (u32 (Z.shiftl code shift)) in
  (keys, dp, m).

(** [_svb1_encode1_generic(dst, dw)] *)
Definition _svb1_encode1_generic (m : mem) (dst : Z) (dw : Z) : mem * Z :=
  let code := b2z (0xFF <? dw) in
  let m := store8 m dst (u8 dw) in
  let m := store8 m (dst + 1) (u8 (Z.shiftr dw 8)) in
  let dw := Z.shiftr dw 16 in
  if negb (dw =? 0) then
    let code := u8 (code + (1 + b2z (0xFF <? dw))) in
    let m := store8 m (dst + 2) (u8 dw) in
    let m := store8 m (dst + 3) (u8 (Z.shiftr dw 8)) in
    (m, code)
  else (m, code).

(** The first two statements of the portable loops' bodies:
    [code = _svb1_encode1_generic(data_ptr, dw); data_ptr += 1 + code;] *)
Definition svb1_generic_step (dp : Z) (m : mem) (dw : Z) : Z * Z * mem :=
  let '(m, code) := _svb1_encode1_generic m dp dw in
  (code, dp + (1 + code), m).

End Svb1.

(** ** [svb0_enc.c]: the "0124 format" *)

Module Svb0.

Definition svb0_len_table : list Z :=
[
   0;  1;  2;  4;  1;  2;  3;  5;  2;  3;  4;  6;  4;  5;  6;  8;
   1;  2;  3;  5;  2;  3;  4;  6;  3;  4;  5;  7;  5;  6;  7;  9;
   2;  3;  4;  6;  3;  4;  5;  7;  4;  5;  6;  8;  6;  7;  8; 10;
   4;  5;  6;  8;  5;  6;  7;  9;  6;  7;  8; 10;  8;  9; 10; 12;
   1;  2;  3;  5;  2;  3;  4;  6;  3;  4;  5;  7;  5;  6;  7;  9;
   2;  3;  4;  6;  3;  4;  5;  7;  4;  5;  6;  8;  6;  7;  8; 10;
   3;  4;  5;  7;  4;  5;  6;  8;  5;  6;  7;  9;  7;  8;  9; 11;
   5;  6;  7;  9;  6;  7;  8; 10;  7;  8;  9; 11;  9; 10; 11; 13;
   2;  3;  4;  6;  3;  4;  5;  7;  4;  5;  6;  8;  6;  7;  8; 10;
   3;  4;  5;  7;  4;  5;  6;  8;  5;  6;  7;  9;  7;  8;  9; 11;
   4;  5;  6;  8;  5;  6;  7;  9;  6;  7;  8; 10;  8;  9; 10; 12;
   6;  7;  8; 10;  7;  8;  9; 11;  8;  9; 10; 12; 10; 11; 12; 14;
   4;  5;  6;  8;  5;  6;  7;  9;  6;  7;  8; 10;  8;  9; 10; 12;
   5;  6;  7;  9;  6;  7;  8; 10;  7;  8;  9; 11;  9; 10; 11; 13;
   6;  7;  8; 10;  7;  8;  9; 11;  8;  9; 10; 12; 10; 11; 12; 14;
   8;  9; 10; 12;  9; 10; 11; 13; 10; 11; 12; 14; 12; 13; 14; 16 ].

Definition svb0_enc_table : list Z :=
[
  12; 13; 14; 15;  0;  0;  0;  0;  0;  0;  0;  0;  0;  0;  0;  0;
   0; 12; 13; 14; 15;  0;  0;  0;  0;  0;  0;  0;  0;  0;  0;  0;
   0;  1; 12; 13; 14; 15;  0;  0;  0;  0;  0;  0;  0;  0;  0;  0;
   0;  1;  2;  3; 12; 13; 14; 15;  0;  0;  0;  0;  0;  0;  0;  0;
   4; 12; 13; 14; 15;  0;  0;  0;  0;  0;  0;  0;  0;  0;  0;  0;
   0;  4; 12; 13; 14; 15;  0;  0;  0;  0;  0;  0;  0;  0;  0;  0;
   0;  1;  4; 12; 13; 14; 15;  0;  0;  0;  0;  0;  0;  0;  0;  0;
   0;  1;  2;  3;  4; 12; 13; 14; 15;  0;  0;  0;  0;  0;  0;  0;
   4;  5; 12; 13; 14; 15;  0;  0;  0;  0;  0;  0;  0;  0;  0;  0;
   0;  4;  5; 12; 13; 14; 15;  0;  0;  0;  0;  0;  0;  0;  0;  0;
   0;  1;  4;  5; 12; 13; 14; 15;  0;  0;  0;  0;  0;  0;  0;  0;
   0;  1;  2;  3;  4;  5; 12; 13; 14; 15;  0;  0;  0;  0;  0;  0;
   4;  5;  6;  7; 12; 13; 14; 15;  0;  0;  0;  0;  0;  0;  0;  0;
   0;  4;  5;  6;  7; 12; 13; 14; 15;  0;  0;  0;  0;  0;  0;  0;
   0;  1;  4;  5;  6;  7; 12; 13; 14; 15;  0;  0;  0;  0;  0;  0;
   0;  1;  2;  3;  4;  5;  6;  7; 12; 13; 14; 15;  0;  0;  0;  0;
   8; 12; 13; 14; 15;  0;  0;  0;  0;  0;  0;  0;  0;  0;  0;  0;
   0;  8; 12; 13; 14; 15;  0;  0;  0;  0;  0;  0;  0;  0;  0;  0;
   0;  1;  8; 12; 13; 14; 15;  0;  0;  0;  0;  0;  0;  0;  0;  0;
   0;  1;  2;  3;  8; 12; 13; 14; 15;  0;  0;  0;  0;  0;  0;  0;
   4;  8; 12; 13; 14; 15;  0;  0;  0;  0;  0;  0;  0;  0;  0;  0;
   0;  4;  8; 12; 13; 14; 15;  0;  0;  0;  0;  0;  0;  0;  0;  0;
   0;  1;  4;  8; 12; 13; 14; 15;  0;  0;  0;  0;  0;  0;  0;  0;
   0;  1;  2;  3;  4;  8; 12; 13; 14; 15;  0;  0;  0;  0;  0;  0;
   4;  5;  8; 12; 13; 14; 15;  0;  0;  0;  0;  0;  0;  0;  0;  0;
   0;  4;  5;  8; 12; 13; 14; 15;  0;  0;  0;  0;  0;  0;  0;  0;
   0;  1;  4;  5;  8; 12; 13; 14; 15;  0;  0;  0;  0;  0;  0;  0;
   0;  1;  2;  3;  4;  5;  8; 12; 13; 14; 15;  0;  0;  0;  0;  0;
   4;  5;  6;  7;  8; 12; 13; 14; 15;  0;  0;  0;  0;  0;  0;  0;
   0;  4;  5;  6;  7;  8; 12; 13; 14; 15;  0;  0;  0;  0;  0;  0;
   0;  1;  4;  5;  6;  7;  8; 12; 13; 14; 15;  0;  0;  0;  0;  0;
   0;  1;  2;  3;  4;  5;  6;  7;  8; 12; 13; 14; 15;  0;  0;  0;
   8;  9; 12; 13; 14; 15;  0;  0;  0;  0;  0;  0;  0;  0;  0;  0;
   0;  8;  9; 12; 13; 14; 15;  0;  0;  0;  0;  0;  0;  0;  0;  0;
   0;  1;  8;  9; 12; 13; 14; 15;  0;  0;  0;  0;  0;  0;  0;  0;
   0;  1;  2;  3;  8;  9; 12; 13; 14; 15;  0;  0;  0;  0;  0;  0;
   4;  8;  9; 12; 13; 14; 15;  0;  0;  0;  0;  0;  0;  0;  0;  0;
   0;  4;  8;  9; 12; 13; 14; 15;  0;  0;  0;  0;  0;  0;  0;  0;
   0;  1;  4;  8;  9; 12; 13; 14; 15;  0;  0;  0;  0;  0;  0;  0;
   0;  1;  2;  3;  4;  8;  9; 12; 13; 14; 15;  0;  0;  0;  0;  0;
   4;  5;  8;  9; 12; 13; 14; 15;  0;  0;  0;  0;  0;  0;  0;  0;
   0;  4;  5;  8;  9; 12; 13; 14; 15;  0;  0;  0;  0;  0;  0;  0;
   0;  1;  4;  5;  8;  9; 12; 13; 14; 15;  0;  0;  0;  0;  0;  0;
   0;  1;  2;  3;  4;  5;  8;  9; 12; 13; 14; 15;  0;  0;  0;  0;
   4;  5;  6;  7;  8;  9; 12; 13; 14; 15;  0;  0;  0;  0;  0;  0;
   0;  4;  5;  6;  7;  8;  9; 12; 13; 14; 15;  0;  0;  0;  0;  0;
   0;  1;  4;  5;  6;  7;  8;  9; 12; 13; 14; 15;  0;  0;  0;  0;
   0;  1;  2;  3;  4;  5;  6;  7;  8;  9; 12; 13; 14; 15;  0;  0;
   8;  9; 10; 11; 12; 13; 14; 15;  0;  0;  0;  0;  0;  0;  0;  0;
   0;  8;  9; 10; 11; 12; 13; 14; 15;  0;  0;  0;  0;  0;  0;  0;
   0;  1;  8;  9; 10; 11; 12; 13; 14; 15;  0;  0;  0;  0;  0;  0;
   0;  1;  2;  3;  8;  9; 10; 11; 12; 13; 14; 15;  0;  0;  0;  0;
   4;  8;  9; 10; 11; 12; 13; 14; 15;  0;  0;  0;  0;  0;  0;  0;
   0;  4;  8;  9; 10; 11; 12; 13; 14; 15;  0;  0;  0;  0;  0;  0;
   0;  1;  4;  8;  9; 10; 11; 12; 13; 14; 15;  0;  0;  0;  0;  0;
   0;  1;  2;  3;  4;  8;  9; 10; 11; 12; 13; 14; 15;  0;  0;  0;
   4;  5;  8;  9; 10; 11; 12; 13; 14; 15;  0;  0;  0;  0;  0;  0;
   0;  4;  5;  8;  9; 10; 11; 12; 13; 14; 15;  0;  0;  0;  0;  0;
   0;  1;  4;  5;  8;  9; 10; 11; 12; 13; 14; 15;  0;  0;  0;  0;
   0;  1;  2;  3;  4;  5;  8;  9; 10; 11; 12; 13; 14; 15;  0;  0;
   4;  5;  6;  7;  8;  9; 10; 11; 12; 13; 14; 15;  0;  0;  0;  0;
   0;  4;  5;  6;  7;  8;  9; 10; 11; 12; 13; 14; 15;  0;  0;  0;
   0;  1;  4;  5;  6;  7;  8;  9; 10; 11; 12; 13; 14; 15;  0;  0;
   0;  1;  2;  3;  4;  5;  6;  7;  8;  9; 10; 11; 12; 13; 14; 15 ].

(** [SVB0_ENCODE8(key_ptr, data_ptr, src_a, src_b)] *)
Definition SVB0_ENCODE8 (c : cursor) (src_a src_b : m128) : cursor :=
  let mask_01 := _mm_set1_epi8 0x01 in
  let mask_0100 := _mm_slli_epi16 mask_01 8 in
  (* normalize each byte to 0 or 1 *)
  let a := _mm_min_epu8 mask_01 src_a in
  let b := _mm_min_epu8 mask_01 src_b in
  (* generate keys *)
  let a := _mm_packus_epi32 a b in
  let a := _mm_min_epi16 a mask_0100 in
  let a := _mm_slli_epi16 a 7 in
  let keys := _mm_movemask_epi8 a in
  (* in-register shuffle *)
  let shuf_a := firstn 16 (skipn (Z.to_nat (Z.land (Z.shiftl keys 4) 0x03F0)) svb0_enc_table) in
  let shuf_b := firstn 16 (skipn (Z.to_nat (Z.land (Z.shiftr keys 4) 0x03F0)) svb0_enc_table) in
  let data_a := _mm_shuffle_epi8 src_a shuf_a in
  let data_b := _mm_shuffle_epi8 src_b shuf_b in
  (* store an entire xmmword, advance by the bytes wanted *)
  let m := _mm_storeu_si128 (buf c) (data_ptr c) data_a in
  let dp := data_ptr c + nth (Z.to_nat (Z.land keys 0xFF)) svb0_len_table 0 in
  let m := _mm_storeu_si128 m dp data_b in
  let dp := dp + nth (Z.to_nat (Z.shiftr keys 8)) svb0_len_table 0 in
  (* save keys *)
  let m := svb_storeu_u16 m (key_ptr c) (u16 keys) in
  Cursor (key_ptr c + 2) dp m.

(** [SVB0_ENCODE1(keys, data_ptr, val, shift)] *)
Definition SVB0_ENCODE1 (keys : Z) (dp : Z) (m : mem) (val : Z) (shift : Z)
  : Z * Z * mem :=
  let x := val in
  let m := svb_storeu_u32 m dp x in
  let k := b2z (negb (x =? 0)) + b2z (0x000000FF <? x) + b2z (0x0000FFFF <? x) in
  let dp := dp + (k + b2z (0x0000FFFF <? x)) in
  let keys := u32 (Z.lor keys (u64 (Z.shiftl k shift))) in
  (keys, dp, m).

(** [_svb0_encode1_generic(&len, dst, dw)]: the length written to [*len],
    the buffer, and the code. *)
Definition _svb0_encode1_generic (m : mem) (dst : Z) (dw : Z) : Z * mem * Z :=
  let m := store8 m dst (u8 dw) in
  let m := store8 m (dst + 1) (u8 (Z.shiftr dw 8)) in
  if dw <=? 0x0000FFFF then
    let code := b2z (negb (dw =? 0)) + b2z (0xFF <? dw) in
    (code, m, code)
  else
    let dw := Z.shiftr dw 16 in
    let m := store8 m (dst + 2) (u8 dw) in
    let m := store8 m (dst + 3) (u8 (Z.shiftr dw 8)) in
    (4, m, 3).

(** The first two statements of the portable loops' bodies:
    [code = _svb0_encode1_generic(&len, data_ptr, dw); data_ptr += len;] *)
Definition svb0_generic_step (dp : Z) (m : mem) (dw : Z) : Z * Z * mem :=
  let '(len, m, code) := _svb0_encode1_generic m dp dw in
  (code, dp + len, m).

End Svb0.

(** ** The encoder bodies

    The ten encoders of each build are the same three loop nests, expanded
    in the sources once per format (1234 or 0124) and filter (none, zigzag,
    delta, delta then zigzag).  The loop nests are written here once over
    the format's encode steps and the filter, and instantiated below under
    the names of the sources. *)

Section Encoders.

(** [SVBx_ENCODE8]. *)
Variable ENCODE8 : cursor -> m128 -> m128 -> cursor.
(** The scalar step of the SSE4.1 build: keys, data pointer, buffer, value
    and shift to keys, data pointer and buffer. *)
Variable ENCODE1 : Z -> Z -> mem -> Z -> Z -> Z * Z * mem.
(** The scalar step of the portable build: data pointer, buffer and value
    to code, data pointer and buffer. *)
Variable encode1_generic : Z -> mem -> Z -> Z * Z * mem.

(** *** SSE4.1 build *)

(** [key_ptr[0] = (uint8_t)keys;
     if (count > 4) key_ptr[1] = (uint8_t)(keys >> 8);] *)
Definition store_tail_keys (kp : Z) (m : mem) (count keys : Z) : mem :=
  let m := store8 m kp (u8 keys) in
  if 4 <? count then store8 m (kp + 1) (u8 (Z.shiftr keys 8)) else m.

(** The scalar tail loop of the variants without an anchor:
    [do { dw = filter(in[i]); ENCODE1 } while (++i < count);] and the key
    store. [in_] is the offset the input pointer has reached. *)
Definition x64_tail (sf : Z -> Z) (inp : list Z) (in_ : Z) (count : Z)
    (c : cursor) : cursor :=
  if negb (count =? 0) then
    let '(i, keys, dp, m) :=
      do_while (Z.to_nat count)
        (fun s => let '(i, keys, dp, m) := s in
           let dw := sf (rd inp (in_ + i)) in
           let '(keys, dp, m) := ENCODE1 keys dp m dw (i * 2) in
           (i + 1, keys, dp, m))
        (fun s => let '(i, _, _, _) := s in i <? count)
        (0, 0, data_ptr c, buf c) in
    Cursor (key_ptr c) dp (store_tail_keys (key_ptr c) m count keys)
  else c.

(** [svb1_enc_x64], [svb1z_enc_x64], [svb0_enc_x64], [svb0z_enc_x64]:
    [vf] is the filter on an xmmword, [sf] the one on a word. *)
Definition enc_x64 (vf : m128 -> m128) (sf : Z -> Z)
    (inp : list Z) (count : Z) (out : mem) : Z * mem :=
  let key_block_len := _svb_key_block_len count in
  let c := Cursor 0 key_block_len out in
  let '(in_, c) :=
    if 8 <=? count then (* use chunking *)
      let end_ := Z.land count (u64 (Z.lnot 7)) in
      do_while (Z.to_nat count)
        (fun s => let '(in_, c) := s in
           let src_a := load_elems 4 inp in_ in
           let src_b := load_elems 4 inp (in_ + 4) in
           let in_ := in_ + 8 in
           let src_a := vf src_a in
           let src_b := vf src_b in
           (in_, ENCODE8 c src_a src_b))
        (fun s => let '(in_, _) := s in in_ <? end_)
        (0, c)
    else (0, c) in
  let count := Z.land count 7 in
  let c := x64_tail sf inp in_ count c in
  (data_ptr c, buf c).

(** The scalar tail loop of the variants with an anchor:
    [do { dw = filter(in[i], previous); previous = in[i]; ENCODE1 }
     while (++i < count);] and the key store. *)
Definition x64_tail_d (sf : Z -> Z -> Z) (inp : list Z) (in_ : Z) (count : Z)
    (previous : Z) (c : cursor) : cursor :=
  if negb (count =? 0) then
    let '(i, keys, previous, dp, m) :=
      do_while (Z.to_nat count)
        (fun s => let '(i, keys, previous, dp, m) := s in
           let dw := sf (rd inp (in_ + i)) previous in
           let previous := rd inp (in_ + i) in
           let '(keys, dp, m) := ENCODE1 keys dp m dw (i * 2) in
           (i + 1, keys, previous, dp, m))
        (fun s => let '(i, _, _, _, _) := s in i <? count)
        (0, 0, previous, data_ptr c, buf c) in
    Cursor (key_ptr c) dp (store_tail_keys (key_ptr c) m count keys)
  else c.

(** [svb1d_enc_x64], [svb1dz_enc_x64], [svb0d_enc_x64], [svb0dz_enc_x64].
    [undef] is the content of [_mm_undefined_si128()]. *)
Definition enc_d_x64 (vf : m128 -> m128 -> m128) (sf : Z -> Z -> Z) (undef : m128)
    (inp : list Z) (count : Z) (out : mem) (previous : Z) : Z * mem :=
  let key_block_len := _svb_key_block_len count in
  let c := Cursor 0 key_block_len out in
  let '(in_, previous, c) :=
    if 8 <=? count then (* use chunking *)
      let prev := undef in
      let prev := _mm_insert_epi32 prev previous 3 in
      let end_ := Z.land count (u64 (Z.lnot 7)) in
      let '(in_, prev, c) :=
        do_while (Z.to_nat count)
          (fun s => let '(in_, prev, c) := s in
             let src_a := load_elems 4 inp in_ in
             let src_b := load_elems 4 inp (in_ + 4) in
             let in_ := in_ + 8 in
             let diff_a := vf src_a prev in
             let diff_b := vf src_b src_a in
             let prev := src_b in
             (in_, prev, ENCODE8 c diff_a diff_b))
          (fun s => let '(in_, _, _) := s in in_ <? end_)
          (0, prev, c) in
      (in_, _mm_extract_epi32 prev 3, c)
    else (0, previous, c) in
  let count := Z.land count 7 in
  let c := x64_tail_d sf inp in_ count previous c in
  (data_ptr c, buf c).

(** One pass of the 64-element loop of [svb1dt_enc_x64] and
    [svb0dt_enc_x64]: sixteen loads, four transposes, row deltas and
    eight [ENCODE8]. *)
Definition dt_block_x64 (inp : list Z) (in_ : Z) (prev : m128) (c : cursor)
  : m128 * cursor :=
  let ld := fun k => load_elems 4 inp (in_ + k) in
  let r3 := ld 12 in let r7 := ld 28 in let rB := ld 44 in let rF := ld 60 in
  let '(r3, r7, rB, rF) := SVB_TRANSPOSE r3 r7 rB rF in
  let prev := _mm_alignr_epi8 rF prev 12 in

  let r0 := ld 0 in let r4 := ld 16 in let r8 := ld 32 in let rC := ld 48 in
  let '(r0, r4, r8, rC) := SVB_TRANSPOSE r0 r4 r8 rC in
  let temp := rC in
  let rC := _mm_sub_epi32 rC r8 in
  let r8 := _mm_sub_epi32 r8 r4 in
  let r4 := _mm_sub_epi32 r4 r0 in
  let r0 := _mm_sub_epi32 r0 prev in
  let c := ENCODE8 c r0 r4 in
  let c := ENCODE8 c r8 rC in

  let r1 := ld 4 in let r5 := ld 20 in let r9 := ld 36 in let rD := ld 52 in
  let '(r1, r5, r9, rD) := SVB_TRANSPOSE r1 r5 r9 rD in
  let prev := rD in
  let rD := _mm_sub_epi32 rD r9 in
  let r9 := _mm_sub_epi32 r9 r5 in
  let r5 := _mm_sub_epi32 r5 r1 in
  let r1 := _mm_sub_epi32 r1 temp in
  let c := ENCODE8 c r1 r5 in
  let c := ENCODE8 c r9 rD in

  let r2 := ld 8 in let r6 := ld 24 in let rA := ld 40 in let rE := ld 56 in
  let '(r2, r6, rA, rE) := SVB_TRANSPOSE r2 r6 rA rE in
  let temp := rE in
  let rE := _mm_sub_epi32 rE rA in
  let rA := _mm_sub_epi32 rA r6 in
  let r6 := _mm_sub_epi32 r6 r2 in
  let r2 := _mm_sub_epi32 r2 prev in
  let c := ENCODE8 c r2 r6 in
  let c := ENCODE8 c rA rE in

  (* finish the last four rows (already loaded and transposed) *)
  let prev := rF in
  let rF := _mm_sub_epi32 rF rB in
  let rB := _mm_sub_epi32 rB r7 in
  let r7 := _mm_sub_epi32 r7 r3 in
  let r3 := _mm_sub_epi32 r3 temp in
  let c := ENCODE8 c r3 r7 in
  let c := ENCODE8 c rB rF in
  (prev, c).

(** [svb1dt_enc_x64], [svb0dt_enc_x64]; the key block length is held in a
    [uint32_t] there. *)
Definition enc_dt_x64 (undef : m128)
    (inp : list Z) (count : Z) (out : mem) (previous : Z) : Z * mem :=
  let key_block_len := u32 (_svb_key_block_len count) in
  let c := Cursor 0 key_block_len out in
  let '(in_, previous, c) :=
    if 8 <=? count then
      let prev := undef in
      let prev := _mm_insert_epi32 prev previous 3 in
      (* for chunks of 64 elements: delta transpose and encode *)
      let end_ := Z.land count (u64 (Z.lnot 63)) in
      let '(in_, prev, c) :=
        while (Z.to_nat count)
          (fun s => let '(in_, _, _) := s in negb (in_ =? end_))
          (fun s => let '(in_, prev, c) := s in
             let '(prev, c) := dt_block_x64 inp in_ prev c in
             (in_ + 64, prev, c))
          (0, prev, c) in
      (* for any remaining chunks of 8 elements: delta and encode *)
      let end_ := in_ + Z.land count (Z.lxor 63 7) in
      let '(in_, prev, c) :=
        while (Z.to_nat count)
          (fun s => let '(in_, _, _) := s in negb (in_ =? end_))
          (fun s => let '(in_, prev, c) := s in
             let src_a := load_elems 4 inp in_ in
             let src_b := load_elems 4 inp (in_ + 4) in
             let diff_a := _mm_delta_encode_epi32 src_a prev in
             let diff_b := _mm_delta_encode_epi32 src_b src_a in
             let prev := src_b in
             (in_ + 8, prev, ENCODE8 c diff_a diff_b))
          (in_, prev, c) in
      (in_, _mm_extract_epi32 prev 3, c)
    else (0, previous, c) in
  let count := Z.land count 7 in
  let c := x64_tail_d _delta_encode_32 inp in_ count previous c in
  (data_ptr c, buf c).

(** *** Portable build *)

(** The key bit buffer of the portable loops:
    [if (shift != 8) { keys |= code << shift; shift += 2; }
     else { *key_ptr++ = keys; keys = code; shift = 2; }]
    on the state [(keys, shift, key_ptr, buffer)]. *)
Definition push_key (code : Z) (keys shift kp : Z) (m : mem) : Z * Z * Z * mem :=
  if negb (shift =? 8) then
    (u8 (Z.lor keys (Z.shiftl code shift)), u8 (shift + 2), kp, m)
  else
    (code, 2, kp + 1, store8 m kp keys).

(** The element loop of the portable encoders, from element [in_[0]] on:
    [keys = 0; shift = 0; i = 0;
     do { dw = filter(in[i], previous); previous = in[i]; encode; push }
     while (++i < count);  *key_ptr = keys;] *)
Definition generic_loop (sf : Z -> Z -> Z) (inp : list Z) (in_ : Z) (count : Z)
    (previous : Z) (c : cursor) : cursor :=
  if negb (count =? 0) then
    let '(i, keys, shift, previous, c) :=
      do_while (Z.to_nat count)
        (fun s => let '(i, keys, shift, previous, c) := s in
           let dw := sf (rd inp (in_ + i)) previous in
           let previous := rd inp (in_ + i) in
           let '(code, dp, m) := encode1_generic (data_ptr c) (buf c) dw in
           let '(keys, shift, kp, m) := push_key code keys shift (key_ptr c) m in
           (i + 1, keys, shift, previous, Cursor kp dp m))
        (fun s => let '(i, _, _, _, _) := s in i <? count)
        (0, 0, 0, previous, c) in
    Cursor (key_ptr c) (data_ptr c) (store8 (buf c) (key_ptr c) keys) (* flush *)
  else c.

(** [svb1_enc_generic], [svb1z_enc_generic], [svb0_enc_generic],
    [svb0z_enc_generic]: no anchor, [sf] filters a word. *)
Definition enc_generic (sf : Z -> Z)
    (inp : list Z) (count : Z) (out : mem) : Z * mem :=
  let key_block_len := _svb_key_block_len count in
  let c := Cursor 0 key_block_len out in
  let c := generic_loop (fun v _ => sf v) inp 0 count 0 c in
  (data_ptr c, buf c).

(** [svb1d_enc_generic], [svb1dz_enc_generic], [svb0d_enc_generic],
    [svb0dz_enc_generic]. *)
Definition enc_d_generic (sf : Z -> Z -> Z)
    (inp : list Z) (count : Z) (out : mem) (previous : Z) : Z * mem :=
  let key_block_len := _svb_key_block_len count in
  let c := Cursor 0 key_block_len out in
  let c := generic_loop sf inp 0 count previous c in
  (data_ptr c, buf c).

(** One pass of the 64-element loop of [svb1dt_enc_generic] and
    [svb0dt_enc_generic]: the transposed deltas go to [tile], then the
    tile is encoded. Returns the advanced input offset. *)
Definition dt_block_generic (inp : list Z) (in_ : Z) (previous : Z) (c : cursor)
  : Z * Z * cursor :=
  (* 1st pass *)
  let '(in_, previous, tile) :=
    fold_left
      (fun s j => let '(in_, previous, tile) := s in
         let '(previous, tile) :=
           fold_left
             (fun t i => let '(previous, tile) := t in
                let dw := rd inp (in_ + i) in
                (dw, store8 tile (i * 4 + j) (_delta_encode_32 dw previous)))
             (map Z.of_nat (seq 0 16)) (previous, tile) in
         (in_ + 16, previous, tile))
      (map Z.of_nat (seq 0 4)) (in_, previous, (fun _ => 0) : mem) in
  (* 2nd pass *)
  let '(keys, shift, c) :=
    fold_left
      (fun s i => let '(keys, shift, c) := s in
         let '(code, dp, m) := encode1_generic (data_ptr c) (buf c) (tile i) in
         let '(keys, shift, kp, m) := push_key code keys shift (key_ptr c) m in
         (keys, shift, Cursor kp dp m))
      (map Z.of_nat (seq 0 64)) (0, 0, c) in
  let c := Cursor (key_ptr c + 1) (data_ptr c) (store8 (buf c) (key_ptr c) keys) in
  (in_, previous, c).

(** [svb1dt_enc_generic], [svb0dt_enc_generic]. *)
Definition enc_dt_generic
    (inp : list Z) (count : Z) (out : mem) (previous : Z) : Z * mem :=
  let key_block_len := _svb_key_block_len count in
  let c := Cursor 0 key_block_len out in
  let '(in_, count, previous, c) :=
    if negb (Z.land count (u64 (Z.lnot 63)) =? 0) then
      let end_ := Z.land count (u64 (Z.lnot 63)) in
      let '(in_, previous, c) :=
        do_while (Z.to_nat count)
          (fun s => let '(in_, previous, c) := s in
             dt_block_generic inp in_ previous c)
          (fun s => let '(in_, _, _) := s in negb (in_ =? end_))
          (0, previous, c) in
      let previous := rd inp (in_ - 1) in
      (in_, Z.land count 63, previous, c)
    else (0, count, previous, c) in
  let c := generic_loop _delta_encode_32 inp in_ count previous c in
  (data_ptr c, buf c).

End Encoders.

(** *** The twenty encoders *)

Definition no_filter (v : Z) : Z := v.
Definition no_vfilter (v : m128) : m128 := v.

Definition svb1_enc_x64 := enc_x64 Svb1.SVB1_ENCODE8 Svb1.svb1_tail_step no_vfilter no_filter.
Definition svb1z_enc_x64 :=
  enc_x64 Svb1.SVB1_ENCODE8 Svb1.svb1_tail_step _mm_zigzag_encode_epi32 _zigzag_encode_32.
Definition svb1d_enc_x64 :=
  enc_d_x64 Svb1.SVB1_ENCODE8 Svb1.svb1_tail_step _mm_delta_encode_epi32 _delta_encode_32.
Definition svb1dz_enc_x64 :=
  enc_d_x64 Svb1.SVB1_ENCODE8 Svb1.svb1_tail_step
            _mm_delta_zigzag_encode_epi32 _delta_zigzag_encode_32.
Definition svb1dt_enc_x64 := enc_dt_x64 Svb1.SVB1_ENCODE8 Svb1.svb1_tail_step.

Definition svb1_enc_generic := enc_generic Svb1.svb1_generic_step no_filter.
Definition svb1z_enc_generic := enc_generic Svb1.svb1_generic_step _zigzag_encode_32.
Definition svb1d_enc_generic := enc_d_generic Svb1.svb1_generic_step _delta_encode_32.
Definition svb1dz_enc_generic :=
  enc_d_generic Svb1.svb1_generic_step _delta_zigzag_encode_32.
Definition svb1dt_enc_generic := enc_dt_generic Svb1.svb1_generic_step.

Definition svb0_enc_x64 := enc_x64 Svb0.SVB0_ENCODE8 Svb0.SVB0_ENCODE1 no_vfilter no_filter.
Definition svb0z_enc_x64 :=
  enc_x64 Svb0.SVB0_ENCODE8 Svb0.SVB0_ENCODE1 _mm_zigzag_encode_epi32 _zigzag_encode_32.
Definition svb0d_enc_x64 :=
  enc_d_x64 Svb0.SVB0_ENCODE8 Svb0.SVB0_ENCODE1 _mm_delta_encode_epi32 _delta_encode_32.
Definition svb0dz_enc_x64 :=
  enc_d_x64 Svb0.SVB0_ENCODE8 Svb0.SVB0_ENCODE1
            _mm_delta_zigzag_encode_epi32 _delta_zigzag_encode_32.
Definition svb0dt_enc_x64 := enc_dt_x64 Svb0.SVB0_ENCODE8 Svb0.SVB0_ENCODE1.

Definition svb0_enc_generic := enc_generic Svb0.svb0_generic_step no_filter.
Definition svb0z_enc_generic := enc_generic Svb0.svb0_generic_step _zigzag_encode_32.
Definition svb0d_enc_generic := enc_d_generic Svb0.svb0_generic_step _delta_encode_32.
Definition svb0dz_enc_generic :=
  enc_d_generic Svb0.svb0_generic_step _delta_zigzag_encode_32.
Definition svb0dt_enc_generic := enc_dt_generic Svb0.svb0_generic_step.

(** ** [contrib/short_varint.c] *)

Module Short.

(** [short_compress_bound(uint32_t count)]: the argument is converted to
    [uint32_t] at the call. *)
Definition short_compress_bound (count : Z) : Z :=
  let n := u32 count in
  u64 (u64 (Z.shiftl n 1) + Z.shiftr (u64 (n + 7)) 3).

Definition table : list Z :=
[
  0x00000001; 0x00000103; 0x00010203; 0x00000105;
  0x00010305; 0x01020305; 0x00010405; 0x01030405;
  0x02030415; 0x00000107; 0x00010307; 0x01020307;
  0x00010507; 0x01030507; 0x02030517; 0x01040507;
  0x03040517; 0x03041527; 0x00010607; 0x01030607;
  0x02030617; 0x01050607; 0x03050617; 0x03051627;
  0x04050617; 0x04051637; 0x04152637 ].

Definition separate : m128 :=
  _mm_set_epi8 [14; 12; 10; 8; 6; 4; 2; 0; 15; 13; 11; 9; 7; 5; 3; 1].
Definition sadmask : m128 := _mm_cvtsi64_si128 0x8989838381818080.
Definition neg1 : m128 := _mm_cmpeq_epi8 sadmask sadmask.

(** The body of the inner [for] loop of the 64-element path of
    [short_enc]: eight elements from [in], the key accumulator, the data
    pointer and the buffer. *)
Definition enc_group (inp : list Z) (in_ : Z) (keys : m128) (data : Z) (m : mem)
  : m128 * Z * mem :=
  let src := _mm_shuffle_epi8 (load_elems 2 inp in_) separate in
  let mask := _mm_cmpeq_epi8 _mm_setzero_si128 src in
  let keys := _mm_avg_epu8 keys mask in
  let pack := _mm_or_si128 (_mm_and_si128 (_mm_slli_epi16 src 8) mask) src in
  let desc := _mm_cvtsi128_si64 (_mm_sad_epu8 (_mm_and_si128 mask sadmask) sadmask) in
  let shuf := _mm_cvtsi32_si128 (nth (Z.to_nat (Z.land desc 0x1F)) table 0) in
  let shuf := _mm_or_si128 (_mm_slli_epi64 shuf 28) shuf in
  let m := _mm_storel_epi64 m data (_mm_shuffle_epi8 pack shuf) in
  let data := data + Z.shiftr desc 7 in
  let m := _mm_storeh_pi m data src in
  let data := data + 8 in
  (keys, data, m).

(** The state of [short_enc]: input offset, remaining count, key pointer
    ([out]), data pointer, buffer. *)
Definition enc_block (inp : list Z) (s : Z * Z * Z * Z * mem) : Z * Z * Z * Z * mem :=
  let '(in_, count, out, data, m) := s in
  let '(in_, keys, data, m) :=
    fold_left
      (fun t (_ : nat) => let '(in_, keys, data, m) := t in
         let '(keys, data, m) := enc_group inp in_ keys data m in
         (in_ + 8, keys, data, m))
      (seq 0 8) (in_, _mm_setzero_si128, data, m) in
  let m := _mm_storel_epi64 m out (_mm_xor_si128 keys neg1) in
  (in_, u64 (count - 64), out + 8, data, m).

(** [short_enc(out, in, count)]: the returned pointer (as an offset from
    [out]) and the buffer. *)
Definition short_enc (out : mem) (inp : list Z) (count : Z) : Z * mem :=
  let data := Z.shiftr (u64 (count + 7)) 3 in
  let '(in_, count, kp, data, m) :=
    if 64 <=? count then
      do_while (Z.to_nat count) (enc_block inp)
        (fun s => let '(_, count, _, _, _) := s in 64 <=? count)
        (0, count, 0, data, out)
    else (0, count, 0, data, out) in
  (* tail loop *)
  let '(i, keys, data, m) :=
    while (Z.to_nat count)
      (fun s => let '(i, _, _, _) := s in i <? count)
      (fun s => let '(i, keys, data, m) := s in
         let w := rd inp (in_ + i) in
         let m := store_bytes m data (le_bytes 2 w) in
         let k := Z.shiftr (u64 (w + 0xFF00)) 16 in
         let data := data + (1 + k) in
         let keys := Z.lor keys (u64 (Z.shiftl k i)) in
         (u32 (i + 1), keys, data, m))
      (0, 0, data, m) in
  let m := store_bytes m kp (le_bytes (Z.to_nat (Z.shiftr (u64 (count + 7)) 3)) keys) in
  (data, m).

Definition kx01 : Z := 0x0101010101010101.
Definition kmul : Z := Z.lor kx01 0x80.
Definition kx88 : Z := u64 (kx01 * 0x88).
Definition idx : m128 := _mm_cvtsi64_si128 0x0F0E0D0C0B0A0908.

(** The body of the inner [for] loop of the 64-element path of
    [short_dec]: key word, data pointer into the stream [inm], output
    offset (in bytes) and output buffer. *)
Definition dec_group (inm : mem) (s : Z * Z * Z * mem) : Z * Z * Z * mem :=
  let '(keys, data, out, om) := s in
  let rank := u64 (Z.land keys kx01 * kmul) in
  let keys := Z.shiftr keys 1 in
  let data := data + (8 + Z.shiftr (u64 (rank + rank)) 57) in
  let shuf := _mm_unpacklo_epi8 idx (_mm_cvtsi64_si128 (u64 (kx88 - rank))) in
  let src := _mm_loadu_si128 inm data in
  let om := _mm_storeu_si128 om out (_mm_shuffle_epi8 src shuf) in
  (keys, data, out + 16, om).

(** The state of [short_dec]: key pointer ([in]), remaining count, data
    pointer, output offset in bytes, output buffer. *)
Definition dec_block (inm : mem) (s : Z * Z * Z * Z * mem) : Z * Z * Z * Z * mem :=
  let '(in_, count, data, out, om) := s in
  let keys := le_value (load_bytes inm in_ 8) in
  let in_ := in_ + 8 in
  let '(_, data, out, om) :=
    fold_left (fun t (_ : nat) => dec_group inm t) (seq 0 8) (keys, data, out, om) in
  (in_, u64 (count - 64), data, out, om).

(** [short_dec(out, in, count)]: the returned pointer (as an offset from
    [in]) and the output array as the bytes of its elements. *)
Definition short_dec (om : mem) (inm : mem) (count : Z) : Z * mem :=
  let data := Z.shiftr (u64 (count + 7)) 3 in
  let '(in_, count, data, out, om) :=
    if 64 <=? count then
      let data := data - 16 in
      let '(in_, count, data, out, om) :=
        do_while (Z.to_nat count) (dec_block inm)
          (fun s => let '(_, count, _, _, _) := s in 64 <=? count)
          (0, count, data, 0, om) in
      (in_, count, data + 16, out, om)
    else (0, count, data, 0, om) in
  (* tail loop *)
  let '(i, keys, in_, data, om) :=
    while (Z.to_nat count)
      (fun s => let '(i, _, _, _, _) := s in i <? count)
      (fun s => let '(i, keys, in_, data, om) := s in
         let '(keys, in_) :=
           if Z.land i 7 =? 0 then (inm in_, in_ + 1) else (keys, in_) in
         let '(data, om) :=
           if negb (Z.land keys 1 =? 0)
           then (data + 2, store_bytes om (out + 2 * i) (load_bytes inm data 2))
           else (data + 1, store_bytes om (out + 2 * i) (le_bytes 2 (inm data))) in
         let keys := Z.shiftr keys 1 in
         (u32 (i + 1), keys, in_, data, om))
      (0, 0, in_, data, om) in
  (data, om).

(** The array the decoder produced: [out[0 .. n-1]]. *)
Definition out_array (om : mem) (n : nat) : list Z :=
  map (fun i => le_value (load_bytes om (2 * Z.of_nat i) 2)) (seq 0 n).

(** One pass of the loop of [short_test_roundtrip] with count [i] on the
    array [x] (the test's [buf0] read as 16-bit elements); [buf1] and
    [buf2] are the buffers after their [memset]: 0 when the four checks
    pass, else the value the function returns. *)
Definition short_test_pass (x : list Z) (i : Z) : Z :=
  let buf1 : mem := fun _ => 0xFE in
  let buf2 : mem := fun _ => 0xFD in
  let max_len := short_compress_bound i in
  let '(enc_end, buf1) := short_enc buf1 x i in
  let '(dec_end, buf2) := short_dec buf2 buf1 i in
  if negb (enc_end =? dec_end) then 1
  else if list_eq_dec Z.eq_dec
            (flat_map (le_bytes 2) (firstn (Z.to_nat i) x))
            (load_bytes buf2 0 (Z.to_nat (i * 2)))
  then
    if negb (buf1 max_len =? 0xFE) then 3
    else if negb (buf2 (i * 2) =? 0xFD) then 3
    else 0
  else 2.

End Short.

(** ** The stream format, in the words of the specification *)

Module Format.

Inductive format := F1234 | F0124.

(** Key derivation: 1234 format, key 0 if [v <= 0xFF], 1 if [v <= 0xFFFF],
    2 if [v <= 0xFFFFFF], else 3; 0124 format, key 0 if [v = 0], 1 if
    [v <= 0xFF], 2 if [v <= 0xFFFF], else 3. *)
Definition key (f : format) (v : Z) : Z :=
  match f with
  | F1234 =>
      if v <=? 0xFF then 0 else if v <=? 0xFFFF then 1
      else if v <=? 0xFFFFFF then 2 else 3
  | F0124 =>
      if v =? 0 then 0 else if v <=? 0xFF then 1
      else if v <=? 0xFFFF then 2 else 3
  end.

(** Bytes stored for a key. *)
Definition width (f : format) (k : Z) : Z :=
  match f with
  | F1234 => k + 1
  | F0124 => if k =? 3 then 4 else k
  end.

Definition len (f : format) (v : Z) : Z := width f (key f v).

(** The payload of an element: its low-order bytes, little-endian. *)
Definition payload (f : format) (v : Z) : list Z :=
  firstn (Z.to_nat (len f v)) (le_bytes 4 v).

Definition data_block (f : format) (vs : list Z) : list Z :=
  flat_map (payload f) vs.

(** Keys packed LSB-first: element [i] of a group of four occupies bits
    [2i] and [2i+1]; absent elements leave zero bits. *)
Definition pack_keys (ks : list Z) : Z :=
  fold_right (fun k acc => k + 4 * acc) 0 ks.

Definition key_block (f : format) (vs : list Z) : list Z :=
  map pack_keys (chunks 4 (map (key f) vs)).

Definition stream (f : format) (vs : list Z) : list Z :=
  key_block f vs ++ data_block f vs.

(** [ceil(N * 2 / 8)] *)
Definition key_block_len (n : Z) : Z := (n + 3) / 4.

Definition sum (l : list Z) : Z := fold_right Z.add 0 l.

(** The filters. *)
Inductive filter := Plain | Zigzag | Delta | DeltaZigzag | DeltaTranspose.

(** Differences of consecutive elements, the first one against the
    anchor, passed through [sf]. *)
Fixpoint deltas (sf : Z -> Z -> Z) (previous : Z) (l : list Z) : list Z :=
  match l with
  | [] => []
  | v :: r => sf v previous :: deltas sf v r
  end.

(** The order in which a block of 64 values is emitted by the [dt]
    variants: position [4i+j] receives value [16j+i]. *)
Definition tile_order (block : list Z) : list Z :=
  map (fun k => nth (16 * (k mod 4) + k / 4)%nat block 0) (seq 0 64).

(** Every full block of 64 values in tile order; the rest as it is. *)
Fixpoint transpose_blocks (fuel : nat) (d : list Z) : list Z :=
  match fuel with
  | O => d
  | S f =>
      if (64 <=? length d)%nat
      then tile_order (firstn 64 d) ++ transpose_blocks f (skipn 64 d)
      else d
  end.

(** The values handed to the format, in stream order. *)
Definition filtered (flt : filter) (previous : Z) (l : list Z) : list Z :=
  match flt with
  | Plain => l
  | Zigzag => map _zigzag_encode_32 l
  | Delta => deltas _delta_encode_32 previous l
  | DeltaZigzag => deltas _delta_zigzag_encode_32 previous l
  | DeltaTranspose =>
      transpose_blocks (length l) (deltas _delta_encode_32 previous l)
  end.

End Format.

Import Format.

(** ** The twenty encoders under one name *)

Inductive build := X64 | Generic.

Definition encode (b : build) (f : format) (flt : filter) (undef : m128)
    (inp : list Z) (count : Z) (out : mem) (previous : Z) : Z * mem :=
  match b, f, flt with
  | X64, F1234, Plain => svb1_enc_x64 inp count out
  | X64, F1234, Zigzag => svb1z_enc_x64 inp count out
  | X64, F1234, Delta => svb1d_enc_x64 undef inp count out previous
  | X64, F1234, DeltaZigzag => svb1dz_enc_x64 undef inp count out previous
  | X64, F1234, DeltaTranspose => svb1dt_enc_x64 undef inp count out previous
  | X64, F0124, Plain => svb0_enc_x64 inp count out
  | X64, F0124, Zigzag => svb0z_enc_x64 inp count out
  | X64, F0124, Delta => svb0d_enc_x64 undef inp count out previous
  | X64, F0124, DeltaZigzag => svb0dz_enc_x64 undef inp count out previous
  | X64, F0124, DeltaTranspose => svb0dt_enc_x64 undef inp count out previous
  | Generic, F1234, Plain => svb1_enc_generic inp count out
  | Generic, F1234, Zigzag => svb1z_enc_generic inp count out
  | Generic, F1234, Delta => svb1d_enc_generic inp count out previous
  | Generic, F1234, DeltaZigzag => svb1dz_enc_generic inp count out previous
  | Generic, F1234, DeltaTranspose => svb1dt_enc_generic inp count out previous
  | Generic, F0124, Plain => svb0_enc_generic inp count out
  | Generic, F0124, Zigzag => svb0z_enc_generic inp count out
  | Generic, F0124, Delta => svb0d_enc_generic inp count out previous
  | Generic, F0124, DeltaZigzag => svb0dz_enc_generic inp count out previous
  | Generic, F0124, DeltaTranspose => svb0dt_enc_generic inp count out previous
  end.

(** ** Stores relative to the cursors

    An encoder only ever stores at its data pointer, which it then
    advances by no more than it stored, or at its key pointer. *)

Inductive event :=
| Emit (w : list Z) (l : Z)   (* store [w] at the data pointer, advance by [l] *)
| Key (bs : list Z).          (* store [bs] at the key pointer, advance past them *)

Definition run_event (c : cursor) (e : event) : cursor :=
  match e with
  | Emit w l => Cursor (key_ptr c) (data_ptr c + l) (store_bytes (buf c) (data_ptr c) w)
  | Key bs => Cursor (key_ptr c + Z.of_nat (length bs)) (data_ptr c)
                     (store_bytes (buf c) (key_ptr c) bs)
  end.

Definition run_events (es : list event) (c : cursor) : cursor :=
  fold_left run_event es c.

(** The bytes an event list leaves in the data block and in the key block. *)
Definition data_of (es : list event) : list Z :=
  flat_map (fun e => match e with Emit w l => firstn (Z.to_nat l) w | Key _ => [] end) es.

Definition keys_of (es : list event) : list Z :=
  flat_map (fun e => match e with Emit _ _ => [] | Key bs => bs end) es.

(** How far past the starting data pointer the stores of an event list reach. *)
Fixpoint span (es : list event) : Z :=
  match es with
  | [] => 0
  | Emit w l :: r => Z.max (Z.of_nat (length w)) (l + span r)
  | Key _ :: r => span r
  end.

(** Every emit advances by no more than it stored. *)
Definition wf_event (e : event) : Prop :=
  match e with
  | Emit w l => 0 <= l <= Z.of_nat (length w)
  | Key _ => True
  end.

(** A list of bytes is what a buffer holds from an offset on. *)
Definition holds (m : mem) (a : Z) (bs : list Z) : Prop :=
  load_bytes m a (length bs) = bs.

(** What the portable scalar steps store: the two low bytes, and the two
    high bytes when they are not both zero. *)
Definition generic_bytes (v : Z) : list Z :=
  if v <=? 0xFFFF then le_bytes 2 v else le_bytes 4 v.

(** The key of a 32-bit lane read off its four bytes. *)
Definition key_of_bytes (f : format) (b0 b1 b2 b3 : Z) : Z :=
  match f with
  | F1234 =>
      if negb (b3 =? 0) then 3 else if negb (b2 =? 0) then 2
      else if negb (b1 =? 0) then 1 else 0
  | F0124 =>
      if negb (b3 =? 0) || negb (b2 =? 0) then 3
      else if negb (b1 =? 0) then 2 else if negb (b0 =? 0) then 1 else 0
  end.

(** ** The group encoders as pure functions

    The sixteen key bits [SVBx_ENCODE8] derives from two xmmwords, and
    its three stores as events. *)

Definition svb1_keys (src_a src_b : m128) : Z :=
  let mask_01 := _mm_set1_epi8 0x01 in
  let mask_7F00 := _mm_set1_epi16 0x7F00 in
  let a := _mm_min_epu8 mask_01 src_a in
  let b := _mm_min_epu8 mask_01 src_b in
  let a := _mm_packus_epi16 a b in
  let a := _mm_min_epi16 a mask_01 in
  let a := _mm_adds_epu16 a mask_7F00 in
  _mm_movemask_epi8 a.

Definition svb0_keys (src_a src_b : m128) : Z :=
  let mask_01 := _mm_set1_epi8 0x01 in
  let mask_0100 := _mm_slli_epi16 mask_01 8 in
  let a := _mm_min_epu8 mask_01 src_a in
  let b := _mm_min_epu8 mask_01 src_b in
  let a := _mm_packus_epi32 a b in
  let a := _mm_min_epi16 a mask_0100 in
  let a := _mm_slli_epi16 a 7 in
  _mm_movemask_epi8 a.

(** The three stores of [SVBx_ENCODE8] for given key bits and tables. *)
Definition e8_events (enc_table len_table : list Z) (keys : Z) (src_a src_b : m128)
  : list event :=
  let shuf_a := firstn 16 (skipn (Z.to_nat (Z.land (Z.shiftl keys 4) 0x03F0)) enc_table) in
  let shuf_b := firstn 16 (skipn (Z.to_nat (Z.land (Z.shiftr keys 4) 0x03F0)) enc_table) in
  [ Emit (_mm_shuffle_epi8 src_a shuf_a) (nth (Z.to_nat (Z.land keys 0xFF)) len_table 0);
    Emit (_mm_shuffle_epi8 src_b shuf_b) (nth (Z.to_nat (Z.shiftr keys 8)) len_table 0);
    Key (le_bytes 2 (u16 keys)) ].

Definition svb1_e8 (src_a src_b : m128) : list event :=
  e8_events Svb1.svb1_enc_table Svb1.svb1_len_table (svb1_keys src_a src_b) src_a src_b.

Definition svb0_e8 (src_a src_b : m128) : list event :=
  e8_events Svb0.svb0_enc_table Svb0.svb0_len_table (svb0_keys src_a src_b) src_a src_b.

(** The two bytes whose top bits are the key of one 32-bit lane with bytes
    [a0 .. a3], as the key generation of [SVB1_ENCODE8] computes them. *)
Definition svb1_lane (a0 a1 a2 a3 : Z) : list Z :=
  let p0 := sat_unsigned 8 (signed 16 (le_value [Z.min (u8 1) a0; Z.min (u8 1) a1])) in
  let p1 := sat_unsigned 8 (signed 16 (le_value [Z.min (u8 1) a2; Z.min (u8 1) a3])) in
  let r := u16 (Z.min (signed 16 (le_value [p0; p1])) (signed 16 (le_value [u8 1; u8 1]))) in
  let t := Z.min (le_value [u8 r; u8 (Z.shiftr r 8)] +
                  le_value [u8 (u16 32512); u8 (Z.shiftr (u16 32512) 8)]) 65535 in
  [u8 t; u8 (Z.shiftr t 8)].

(** The same for [SVB0_ENCODE8]. *)
Definition svb0_lane (a0 a1 a2 a3 : Z) : list Z :=
  let p := sat_unsigned 16
             (signed 32 (le_value [Z.min (u8 1) a0; Z.min (u8 1) a1;
                                   Z.min (u8 1) a2; Z.min (u8 1) a3])) in
  let m := u16 (Z.shiftl (le_value [u8 1; u8 1]) 8) in
  let r := u16 (Z.min (signed 16 (le_value [u8 p; u8 (Z.shiftr p 8)]))
                      (signed 16 (le_value [u8 m; u8 (Z.shiftr m 8)]))) in
  let t := u16 (Z.shiftl (le_value [u8 r; u8 (Z.shiftr r 8)]) 7) in
  [u8 t; u8 (Z.shiftr t 8)].

(** The payloads of the four lanes of an xmmword [b] with keys [k0 .. k3]. *)
Definition half_payload (f : format) (k0 k1 k2 k3 : Z) (b : list Z) : list Z :=
  firstn (Z.to_nat (width f k0)) (firstn 4 b) ++
  firstn (Z.to_nat (width f k1)) (firstn 4 (skipn 4 b)) ++
  firstn (Z.to_nat (width f k2)) (firstn 4 (skipn 8 b)) ++
  firstn (Z.to_nat (width f k3)) (firstn 4 (skipn 12 b)).

(** The total advance of the data pointer over an event list. *)
Fixpoint adv (es : list event) : Z :=
  match es with
  | [] => 0
  | Emit _ l :: r => l + adv r
  | Key _ :: r => adv r
  end.

(** [body] applied [n] times, the first application innermost. *)
Fixpoint iter {St} (n : nat) (body : St -> St) (s : St) : St :=
  match n with
  | O => s
  | S n' => iter n' body (body s)
  end.

(** ** The stores of the encoders as event lists

    [f] is the format and [e8] the events of its group encoder. *)

Section EncoderEvents.

Variable f : format.
Variable e8 : m128 -> m128 -> list event.

(** The value the scalar loops hand to the format for element [i] past
    input offset [in_]: the filter [sf] applied to the element and its
    predecessor, the anchor for the first one. *)
Definition fval (sf : Z -> Z -> Z) (inp : list Z) (in_ : Z) (previous : Z) (i : Z) : Z :=
  sf (rd inp (in_ + i)) (if i =? 0 then previous else rd inp (in_ + i - 1)).

Definition fvals (sf : Z -> Z -> Z) (inp : list Z) (in_ : Z) (previous : Z) (n : nat)
  : list Z :=
  map (fun i => fval sf inp in_ previous (Z.of_nat i)) (seq 0 n).

(** [k] passes of the 8-element loop of the SSE4.1 encoders from input
    offset [in_], with [prev] the xmmword before it. *)
Fixpoint ev_chunks (vf : m128 -> m128 -> m128) (inp : list Z) (in_ : Z) (prev : m128)
    (k : nat) : list event :=
  match k with
  | O => []
  | S k' =>
      let src_a := load_elems 4 inp in_ in
      let src_b := load_elems 4 inp (in_ + 4) in
      e8 (vf src_a prev) (vf src_b src_a) ++ ev_chunks vf inp (in_ + 8) src_b k'
  end.

(** The scalar tail of the SSE4.1 encoders on the filtered values [vs]. *)
Definition ev_tail (vs : list Z) : list event :=
  map (fun v => Emit (le_bytes 4 v) (len f v)) vs ++ [Key (key_block f vs)].

(** The element loop of the portable encoders on the filtered values
    [vs], with the codes [pending] in the key bit buffer. *)
Fixpoint ev_gen (pending : list Z) (vs : list Z) : list event :=
  match vs with
  | [] => [Key [pack_keys pending]]
  | v :: r =>
      Emit (generic_bytes v) (len f v) ::
      (if (length pending =? 4)%nat
       then Key [pack_keys pending] :: ev_gen [key f v] r
       else ev_gen (pending ++ [key f v]) r)
  end.

(** One pass of the 64-element loop of the SSE4.1 [dt] encoders. *)
Definition ev_dt_block (inp : list Z) (in_ : Z) (prev : m128) : list event :=
  let ld := fun k => load_elems 4 inp (in_ + k) in
  let r3 := ld 12 in let r7 := ld 28 in let rB := ld 44 in let rF := ld 60 in
  let '(r3, r7, rB, rF) := SVB_TRANSPOSE r3 r7 rB rF in
  let prev := _mm_alignr_epi8 rF prev 12 in
  let r0 := ld 0 in let r4 := ld 16 in let r8 := ld 32 in let rC := ld 48 in
  let '(r0, r4, r8, rC) := SVB_TRANSPOSE r0 r4 r8 rC in
  let temp := rC in
  let rC := _mm_sub_epi32 rC r8 in
  let r8 := _mm_sub_epi32 r8 r4 in
  let r4 := _mm_sub_epi32 r4 r0 in
  let r0 := _mm_sub_epi32 r0 prev in
  let es1 := e8 r0 r4 ++ e8 r8 rC in
  let r1 := ld 4 in let r5 := ld 20 in let r9 := ld 36 in let rD := ld 52 in
  let '(r1, r5, r9, rD) := SVB_TRANSPOSE r1 r5 r9 rD in
  let prev := rD in
  let rD := _mm_sub_epi32 rD r9 in
  let r9 := _mm_sub_epi32 r9 r5 in
  let r5 := _mm_sub_epi32 r5 r1 in
  let r1 := _mm_sub_epi32 r1 temp in
  let es2 := e8 r1 r5 ++ e8 r9 rD in
  let r2 := ld 8 in let r6 := ld 24 in let rA := ld 40 in let rE := ld 56 in
  let '(r2, r6, rA, rE) := SVB_TRANSPOSE r2 r6 rA rE in
  let temp := rE in
  let rE := _mm_sub_epi32 rE rA in
  let rA := _mm_sub_epi32 rA r6 in
  let r6 := _mm_sub_epi32 r6 r2 in
  let r2 := _mm_sub_epi32 r2 prev in
  let es3 := e8 r2 r6 ++ e8 rA rE in
  let rF' := _mm_sub_epi32 rF rB in
  let rB := _mm_sub_epi32 rB r7 in
  let r7 := _mm_sub_epi32 r7 r3 in
  let r3 := _mm_sub_epi32 r3 temp in
  let es4 := e8 r3 r7 ++ e8 rB rF' in
  es1 ++ es2 ++ es3 ++ es4.

(** The xmmword the 64-element pass leaves in [prev]: the transposed
    last row. *)
Definition dt_block_prev (inp : list Z) (in_ : Z) : m128 :=
  let ld := fun k => load_elems 4 inp (in_ + k) in
  let '(_, _, _, rF) := SVB_TRANSPOSE (ld 12) (ld 28) (ld 44) (ld 60) in rF.

Fixpoint ev_dt_blocks (inp : list Z) (in_ : Z) (prev : m128) (k : nat) : list event :=
  match k with
  | O => []
  | S k' => ev_dt_block inp in_ prev ++
            ev_dt_blocks inp (in_ + 64) (dt_block_prev inp in_) k'
  end.

(** The SSE4.1 encoders on the filtered values [vs]: groups of eight,
    then the scalar tail. *)
Fixpoint ev_x64 (vs : list Z) : list event :=
  match vs with
  | v0 :: v1 :: v2 :: v3 :: v4 :: v5 :: v6 :: v7 :: r =>
      e8 (unlanes 4 [v0; v1; v2; v3]) (unlanes 4 [v4; v5; v6; v7]) ++ ev_x64 r
  | [] => []
  | _ => ev_tail vs
  end.

(** The portable encoders on the filtered values [vs]: [k] blocks of 64
    values, each with its own key bit buffer, then the element loop on
    the rest. *)
Fixpoint ev_generic (k : nat) (vs : list Z) : list event :=
  match k with
  | O => match vs with [] => [] | _ => ev_gen [] vs end
  | S k' => ev_gen [] (firstn 64 vs) ++ ev_generic k' (skipn 64 vs)
  end.

End EncoderEvents.

Definition e8 (f : format) : m128 -> m128 -> list event :=
  match f with F1234 => svb1_e8 | F0124 => svb0_e8 end.

(** The stores of an encoder, and where its data block starts. *)
Definition events (b : build) (f : format) (flt : filter) (previous : Z)
    (inp : list Z) : list event :=
  match b with
  | X64 => ev_x64 f (e8 f) (filtered flt previous inp)
  | Generic =>
      ev_generic f (match flt with DeltaTranspose => length inp / 64 | _ => 0 end)
                 (filtered flt previous inp)
  end.

Definition data_start (b : build) (flt : filter) (count : Z) : Z :=
  match b, flt with
  | X64, DeltaTranspose => u32 (_svb_key_block_len count)
  | _, _ => _svb_key_block_len count
  end.

(** The filter outputs in input order: the [dt] variants compute the
    deltas of the [d] variants and only emit them in another order. *)
Definition filter_values (flt : filter) (previous : Z) (l : list Z) : list Z :=
  match flt with
  | DeltaTranspose => deltas _delta_encode_32 previous l
  | _ => filtered flt previous l
  end.

(** An event list lays down the keys and payloads of the values [vs]
    and stores nothing more than four bytes per value past its data
    pointer. *)
Definition encodes (f : format) (es : list event) (vs : list Z) : Prop :=
  Forall wf_event es /\
  data_of es = data_block f vs /\
  keys_of es = key_block f vs /\
  span es <= 4 * Z.of_nat (length vs).

(** An xmmword whose top lane holds [p]. *)
Definition top_lane (prev : m128) (p : Z) : Prop :=
  length prev = 16%nat /\ skipn 12 prev = le_bytes 4 p.

(** A vector filter [vf] computes the scalar filter [sf] lane by lane,
    each lane against its predecessor. *)
Definition vf_ok (vf : m128 -> m128 -> m128) (sf : Z -> Z -> Z) : Prop :=
  forall a0 a1 a2 a3 prev p,
    is_u32 a0 -> is_u32 a1 -> is_u32 a2 -> is_u32 a3 -> is_u32 p ->
    top_lane prev p ->
    vf (unlanes 4 [a0; a1; a2; a3]) prev =
    unlanes 4 [sf a0 p; sf a1 a0; sf a2 a1; sf a3 a2].



(** ** The stream of the 16-bit codec

    [short_enc] lays full blocks of 64 elements down eight at a time, and
    the rest element by element; the two paths place key bits and high
    bytes differently, and [short_dec] reads each the way it was
    written. *)

Module ShortFormat.

Definition is_u16 (x : Z) : Prop := 0 <= x < 2 ^ 16.

Definition lo (x : Z) : Z := u8 x.
Definition hi (x : Z) : Z := u8 (Z.shiftr x 8).

(** The key bit of an element: set when it takes two bytes. *)
Definition wide (x : Z) : bool := negb (hi x =? 0).

Definition pack_bits (bs : list bool) : Z :=
  fold_right (fun b acc => b2z b + 2 * acc) 0 bs.

(** Eight elements of a full block: the high bytes that are not zero,
    the one of the first such element last, then the eight low bytes. *)
Definition group_data (g : list Z) : list Z :=
  rev (List.filter (fun h => negb (h =? 0)) (map hi g)) ++ map lo g.

Definition block_data (blk : list Z) : list Z := flat_map group_data (chunks 8 blk).

(** The eight key bytes of a full block: bit [i] of byte [j] belongs to
    element [8i + j]. *)
Definition block_keys (blk : list Z) : list Z :=
  map (fun j => pack_bits (map (fun i => wide (nth (8 * i + j) blk 0)) (seq 0 8)))
      (seq 0 8).

(** The rest: low byte, then the high byte when it is not zero; key bit
    [i mod 8] of byte [i / 8] belongs to element [i]. *)
Definition tail_data (t : list Z) : list Z :=
  flat_map (fun x => if wide x then [lo x; hi x] else [lo x]) t.

Definition tail_keys (t : list Z) : list Z :=
  le_bytes ((length t + 7) / 8) (pack_bits (map wide t)).

Fixpoint keys (fuel : nat) (l : list Z) : list Z :=
  match fuel with
  | O => tail_keys l
  | S f =>
      if (64 <=? length l)%nat
      then block_keys (firstn 64 l) ++ keys f (skipn 64 l)
      else tail_keys l
  end.

Fixpoint data (fuel : nat) (l : list Z) : list Z :=
  match fuel with
  | O => tail_data l
  | S f =>
      if (64 <=? length l)%nat
      then block_data (firstn 64 l) ++ data f (skipn 64 l)
      else tail_data l
  end.

Definition stream (l : list Z) : list Z := keys (length l) l ++ data (length l) l.

(** The array as it lies in memory. *)
Definition array_bytes (l : list Z) : list Z := flat_map (le_bytes 2) l.

End ShortFormat.

(** *** The stores of [short_enc] as events *)

(** The xmmword [src] of the inner loop for the eight elements [g]: their
    high bytes, then their low bytes. *)
Definition group_src (g : list Z) : m128 :=
  _mm_shuffle_epi8 (unlanes 2 g) Short.separate.

Definition group_mask (src : m128) : m128 := _mm_cmpeq_epi8 _mm_setzero_si128 src.

Definition group_desc (src : m128) : Z :=
  _mm_cvtsi128_si64
    (_mm_sad_epu8 (_mm_and_si128 (group_mask src) Short.sadmask) Short.sadmask).

Definition group_pack (src : m128) : m128 :=
  _mm_or_si128 (_mm_and_si128 (_mm_slli_epi16 src 8) (group_mask src)) src.

Definition group_shuf (src : m128) : m128 :=
  let shuf := _mm_cvtsi32_si128
                (nth (Z.to_nat (Z.land (group_desc src) 0x1F)) Short.table 0) in
  _mm_or_si128 (_mm_slli_epi64 shuf 28) shuf.

Definition group_events (src : m128) : list event :=
  [ Emit (firstn 8 (_mm_shuffle_epi8 (group_pack src) (group_shuf src)))
         (Z.shiftr (group_desc src) 7);
    Emit (skipn 8 src) 8 ].

(** The key accumulator after the groups [gs]. *)
Definition group_keys (gs : list (list Z)) : m128 :=
  fold_left (fun k g => _mm_avg_epu8 k (group_mask (group_src g))) gs _mm_setzero_si128.

Definition block_events (blk : list Z) : list event :=
  flat_map (fun g => group_events (group_src g)) (chunks 8 blk) ++
  [Key (firstn 8 (_mm_xor_si128 (group_keys (chunks 8 blk)) Short.neg1))].

Definition tail_events (t : list Z) : list event :=
  map (fun w => Emit (le_bytes 2 w) (1 + b2z (ShortFormat.wide w))) t ++
  [Key (ShortFormat.tail_keys t)].

Fixpoint short_events (fuel : nat) (l : list Z) : list event :=
  match fuel with
  | O => tail_events l
  | S f =>
      if (64 <=? length l)%nat
      then block_events (firstn 64 l) ++ short_events f (skipn 64 l)
      else tail_events l
  end.

(** The elements [in[i] .. in[i + n - 1]]. *)
Definition elems (inp : list Z) (i : Z) (n : nat) : list Z :=
  map (fun j => rd inp (i + Z.of_nat j)) (seq 0 n).

(** ** [test.c]: the input of the round-trip test

    Row [i] of [buf0], for [i] from 0 to 0xFFFF, as [main] fills it:
    [p[j] = (uint8_t)(((i >> j) & 1) - 1) & mask_j]. *)
Definition pattern_masks : list Z :=
  [0x80; 0x11; 0x22; 0x33; 0x44; 0x55; 0x66; 0x77;
   0x88; 0x99; 0xAA; 0xBB; 0xCC; 0xDD; 0xEE; 0xFF].

Definition pattern_byte (i : Z) (j : Z) (mask : Z) : Z :=
  u8 (Z.land (u8 (Z.land (Z.shiftr i j) 1 - 1)) mask).

Definition pattern_row (i : Z) : list Z :=
  map2 (pattern_byte i) (map Z.of_nat (seq 0 16)) pattern_masks.

(** * Properties *)

(** ** Arithmetic of fixed-width integers *)

(** Shifts by a constant as division and multiplication, casts as
    remainders; what is left is linear arithmetic with [/] and [mod]. *)
Ltac pow2_consts :=
  change (2 ^ 0) with 1 in *; change (2 ^ 1) with 2 in *;
  change (2 ^ 2) with 4 in *; change (2 ^ 3) with 8 in *;
  change (2 ^ 4) with 16 in *; change (2 ^ 5) with 32 in *;
  change (2 ^ 6) with 64 in *; change (2 ^ 7) with 128 in *;
  change (2 ^ 8) with 256 in *; change (2 ^ 16) with 65536 in *;
  change (2 ^ 24) with 16777216 in *; change (2 ^ 31) with 2147483648 in *;
  change (2 ^ 32) with 4294967296 in *; change (2 ^ 33) with 8589934592 in *;
  change (2 ^ 34) with 17179869184 in *;
  change (2 ^ 57) with 144115188075855872 in *;
  change (2 ^ 64) with 18446744073709551616 in *.

Ltac to_arith :=
  unfold u8, u16, u32, u64, is_u8, is_u16, is_u32 in *;
  repeat rewrite Z.shiftr_div_pow2 in * by lia;
  repeat rewrite Z.shiftl_mul_pow2 in * by lia;
  pow2_consts.

Ltac arith := to_arith; Z.div_mod_to_equations; lia.

Lemma u8_small x : 0 <= x < 2 ^ 8 -> u8 x = x.
Proof. intros; unfold u8; apply Z.mod_small; lia. Qed.

Lemma u16_small x : 0 <= x < 2 ^ 16 -> u16 x = x.
Proof. intros; unfold u16; apply Z.mod_small; lia. Qed.

Lemma u32_small x : 0 <= x < 2 ^ 32 -> u32 x = x.
Proof. intros; unfold u32; apply Z.mod_small; lia. Qed.

Lemma u64_small x : 0 <= x < 2 ^ 64 -> u64 x = x.
Proof. intros; unfold u64; apply Z.mod_small; lia. Qed.

Lemma u8_range x : 0 <= u8 x < 2 ^ 8.
Proof. unfold u8; apply Z.mod_pos_bound; lia. Qed.

Lemma u32_range x : 0 <= u32 x < 2 ^ 32.
Proof. unfold u32; apply Z.mod_pos_bound; lia. Qed.

(** Exclusive or with an all-ones word is subtraction from it. *)
Lemma lxor_ones n x : 0 <= n -> 0 <= x < 2 ^ n ->
  Z.lxor x (2 ^ n - 1) = 2 ^ n - 1 - x.
Proof.
  intros Hn Hx.
  replace (2 ^ n - 1 - x) with (Z.lnot x mod 2 ^ n).
  2:{ unfold Z.lnot. rewrite <- Z.sub_1_r.
      replace (- x - 1) with ((2 ^ n - 1 - x) + (-1) * 2 ^ n) by lia.
      rewrite Z.mod_add by lia. apply Z.mod_small; lia. }
  rewrite <- Z.land_ones by lia.
  replace (2 ^ n - 1) with (Z.ones n) by (rewrite Z.ones_equiv; lia).
  apply Z.bits_inj'; intros i Hi.
  rewrite Z.lxor_spec, Z.land_spec, Z.lnot_spec by lia.
  destruct (Z.ltb_spec i n).
  - rewrite Z.ones_spec_low by lia. now rewrite xorb_true_r, andb_true_r.
  - rewrite Z.ones_spec_high by lia.
    rewrite xorb_false_r, andb_false_r.
    destruct (Z.eq_dec x 0) as [->|]; [apply Z.bits_0|].
    apply Z.bits_above_log2; [lia|].
    apply Z.lt_le_trans with n; [|lia]. apply Z.log2_lt_pow2; lia.
Qed.

Lemma lor_0_l' x : Z.lor 0 x = x.
Proof. apply Z.lor_0_l. Qed.

(** Disjoint bit fields are combined by addition. *)
Lemma lor_add_disjoint a b : Z.land a b = 0 -> Z.lor a b = a + b.
Proof.
  intros H. rewrite <- Z.lxor_lor by exact H. symmetry.
  apply Z.add_nocarry_lxor; exact H.
Qed.

(** Setting the low [n] bits keeps the bits above them. *)
Lemma lor_ones n x : 0 <= n -> 0 <= x ->
  Z.lor x (2 ^ n - 1) = x / 2 ^ n * 2 ^ n + (2 ^ n - 1).
Proof.
  intros Hn Hx.
  replace (2 ^ n - 1) with (Z.ones n) by (rewrite Z.ones_equiv; lia).
  rewrite <- Z.shiftl_mul_pow2, <- Z.shiftr_div_pow2 by lia.
  rewrite <- lor_add_disjoint.
  - apply Z.bits_inj'; intros i Hi.
    rewrite !Z.lor_spec.
    destruct (Z.ltb_spec i n).
    + rewrite Z.ones_spec_low by lia. now rewrite !orb_true_r.
    + rewrite Z.ones_spec_high by lia.
      rewrite Z.shiftl_spec, Z.shiftr_spec by lia.
      now replace (i - n + n) with i by lia.
  - apply Z.bits_inj'; intros i Hi. rewrite Z.land_spec, Z.bits_0.
    destruct (Z.ltb_spec i n).
    + rewrite Z.shiftl_spec_low by lia. reflexivity.
    + rewrite Z.ones_spec_high by lia. apply andb_false_r.
Qed.

(** Masking a byte field. *)
Lemma land_field x k w : 0 <= k -> 0 <= w ->
  Z.land x ((2 ^ w - 1) * 2 ^ k) = (x / 2 ^ k) mod 2 ^ w * 2 ^ k.
Proof.
  intros Hk Hw.
  replace (2 ^ w - 1) with (Z.ones w) by (rewrite Z.ones_equiv; lia).
  rewrite <- !Z.shiftl_mul_pow2, <- Z.shiftr_div_pow2, <- Z.land_ones by lia.
  apply Z.bits_inj'; intros i Hi.
  rewrite Z.land_spec.
  destruct (Z.ltb_spec i k).
  - rewrite !Z.shiftl_spec_low by lia. apply andb_false_r.
  - rewrite !Z.shiftl_spec by lia.
    rewrite Z.land_spec, Z.shiftr_spec by lia.
    now replace (i - k + k) with i by lia.
Qed.

Lemma land_low_shiftl a b k : 0 <= k -> 0 <= a < 2 ^ k -> Z.land a (Z.shiftl b k) = 0.
Proof.
  intros Hk Ha. apply Z.bits_inj'; intros i Hi.
  rewrite Z.land_spec, Z.bits_0.
  destruct (Z.ltb_spec i k).
  - rewrite Z.shiftl_spec_low by lia. apply andb_false_r.
  - replace (Z.testbit a i) with false; auto.
    symmetry. destruct (Z.eq_dec a 0) as [->|]; [apply Z.bits_0|].
    apply Z.bits_above_log2; [lia|].
    apply Z.lt_le_trans with k; [|lia]. apply Z.log2_lt_pow2; lia.
Qed.

Lemma lor_shiftl_add a b k : 0 <= k -> 0 <= a < 2 ^ k ->
  Z.lor a (Z.shiftl b k) = a + b * 2 ^ k.
Proof.
  intros. rewrite lor_add_disjoint by (apply land_low_shiftl; lia).
  now rewrite Z.shiftl_mul_pow2 by lia.
Qed.

Lemma signed_small w x : 0 <= x < 2 ^ (w - 1) -> signed w x = x.
Proof. intros. unfold signed. destruct (Z.ltb_spec x (2 ^ (w - 1))); lia. Qed.

Lemma signed_big w x : 2 ^ (w - 1) <= x -> signed w x = x - 2 ^ w.
Proof. intros. unfold signed. destruct (Z.ltb_spec x (2 ^ (w - 1))); lia. Qed.

(** ** Little-endian byte strings *)

Lemma le_bytes_length n : forall x, length (le_bytes n x) = n.
Proof. induction n; simpl; intros; auto. Qed.

Lemma le_bytes_range n : forall x b, In b (le_bytes n x) -> 0 <= b < 2 ^ 8.
Proof.
  induction n; simpl; intros x b H; [tauto|].
  destruct H as [<-|H]; [apply u8_range | eauto].
Qed.

Lemma le_value_bytes n : forall x, le_value (le_bytes n x) = x mod 2 ^ (8 * Z.of_nat n).
Proof.
  induction n; intros x.
  - simpl. now rewrite Z.mod_1_r.
  - cbn [le_bytes le_value]. rewrite IHn.
    replace (8 * Z.of_nat (S n)) with (8 + 8 * Z.of_nat n) by lia.
    rewrite Z.pow_add_r by lia.
    rewrite Z.shiftr_div_pow2 by lia. unfold u8.
    rewrite Z.rem_mul_r by lia. lia.
Qed.

Lemma le_bytes_value : forall bs, Forall is_u8 bs ->
  le_bytes (length bs) (le_value bs) = bs.
Proof.
  induction 1 as [|b r Hb Hr IH]; [reflexivity|].
  cbn [le_bytes le_value length]. unfold is_u8 in Hb.
  replace (b + 2 ^ 8 * le_value r) with (b + le_value r * 2 ^ 8) by lia.
  f_equal.
  - unfold u8. rewrite Z.mod_add by lia. apply Z.mod_small; lia.
  - rewrite Z.shiftr_div_pow2 by lia.
    rewrite Z.div_add by lia.
    rewrite Z.div_small by lia. exact IH.
Qed.

Lemma le_value_range : forall bs, Forall is_u8 bs ->
  0 <= le_value bs < 2 ^ (8 * Z.of_nat (length bs)).
Proof.
  induction 1 as [|b r Hb Hr IH]; [simpl; lia|].
  cbn [le_value length]. unfold is_u8 in Hb.
  replace (8 * Z.of_nat (S (length r))) with (8 + 8 * Z.of_nat (length r)) by lia.
  rewrite Z.pow_add_r by lia. nia.
Qed.

Lemma le_bytes_4 x :
  le_bytes 4 x = [u8 x; u8 (Z.shiftr x 8); u8 (Z.shiftr x 16); u8 (Z.shiftr x 24)].
Proof.
  cbn [le_bytes]. rewrite !Z.shiftr_shiftr by lia. reflexivity.
Qed.

Lemma le_bytes_2 x : le_bytes 2 x = [u8 x; u8 (Z.shiftr x 8)].
Proof. reflexivity. Qed.

(** ** Buffers *)

Lemma store_bytes_at : forall bs m a p,
  store_bytes m a bs p =
  if (a <=? p) && (p <? a + Z.of_nat (length bs))
  then nth (Z.to_nat (p - a)) bs 0 else m p.
Proof.
  induction bs as [|b r IH]; intros m a p.
  - simpl. destruct (a <=? p) eqn:E1, (p <? a + 0) eqn:E2; simpl; auto; lia.
  - cbn [store_bytes length]. rewrite IH. unfold store8.
    rewrite Nat2Z.inj_succ.
    destruct (Z.lt_trichotomy p a) as [Hlt|[->|Hgt]].
    + destruct (Z.leb_spec (a + 1) p); [lia|].
      destruct (Z.leb_spec a p); [lia|].
      cbn [andb]. destruct (Z.eqb_spec p a); [lia|reflexivity].
    + destruct (Z.leb_spec (a + 1) a); [lia|].
      destruct (Z.leb_spec a a); [|lia].
      destruct (Z.ltb_spec a (a + Z.succ (Z.of_nat (length r)))); [|lia].
      cbn [andb]. rewrite Z.eqb_refl, Z.sub_diag. reflexivity.
    + destruct (Z.leb_spec (a + 1) p); [|lia].
      destruct (Z.leb_spec a p); [|lia].
      cbn [andb].
      destruct (Z.ltb_spec p (a + 1 + Z.of_nat (length r)));
        destruct (Z.ltb_spec p (a + Z.succ (Z.of_nat (length r)))); try lia.
      * replace (Z.to_nat (p - a)) with (S (Z.to_nat (p - (a + 1)))) by lia.
        reflexivity.
      * destruct (Z.eqb_spec p a); [lia|reflexivity].
Qed.

Lemma store_bytes_out bs m a p :
  p < a \/ a + Z.of_nat (length bs) <= p -> store_bytes m a bs p = m p.
Proof.
  intros H. rewrite store_bytes_at.
  destruct (Z.leb_spec a p), (Z.ltb_spec p (a + Z.of_nat (length bs))); simpl; auto; lia.
Qed.

Lemma store_bytes_in bs m a p :
  a <= p < a + Z.of_nat (length bs) ->
  store_bytes m a bs p = nth (Z.to_nat (p - a)) bs 0.
Proof.
  intros H. rewrite store_bytes_at.
  destruct (Z.leb_spec a p), (Z.ltb_spec p (a + Z.of_nat (length bs))); simpl; auto; lia.
Qed.

Lemma store8_as_bytes m a v : store8 m a v = store_bytes m a [v].
Proof. reflexivity. Qed.

Lemma store8_eq m a v : store8 m a v a = v.
Proof. unfold store8. now rewrite Z.eqb_refl. Qed.

Lemma store8_neq m a v p : p <> a -> store8 m a v p = m p.
Proof. unfold store8. intros. destruct (Z.eqb_spec p a); congruence. Qed.

Lemma load_bytes_length m : forall n a, length (load_bytes m a n) = n.
Proof. induction n; simpl; intros; auto. Qed.

Lemma load_bytes_nth m : forall n a i d, (i < n)%nat ->
  nth i (load_bytes m a n) d = m (a + Z.of_nat i).
Proof.
  induction n; intros a i d H; [lia|].
  destruct i; simpl.
  - f_equal; lia.
  - rewrite IHn by lia. f_equal; lia.
Qed.

Lemma load_bytes_ext m1 m2 : forall n a,
  (forall p, a <= p < a + Z.of_nat n -> m1 p = m2 p) ->
  load_bytes m1 a n = load_bytes m2 a n.
Proof.
  induction n; intros a H; simpl; auto.
  f_equal; [apply H; lia | apply IHn; intros; apply H; lia].
Qed.

Lemma load_bytes_app m : forall n1 n2 a,
  load_bytes m a (n1 + n2) = load_bytes m a n1 ++ load_bytes m (a + Z.of_nat n1) n2.
Proof.
  induction n1; intros n2 a.
  - simpl. f_equal; lia.
  - cbn [Nat.add load_bytes app]. rewrite IHn1. do 3 f_equal. lia.
Qed.

Lemma load_store_bytes m a bs : load_bytes (store_bytes m a bs) a (length bs) = bs.
Proof.
  apply nth_ext with (d := 0) (d' := 0); [apply load_bytes_length|].
  rewrite load_bytes_length. intros i Hi.
  rewrite load_bytes_nth by lia. rewrite store_bytes_in by lia.
  f_equal. lia.
Qed.

Lemma holds_nth m a bs : holds m a bs <->
  forall i, (i < length bs)%nat -> m (a + Z.of_nat i) = nth i bs 0.
Proof.
  unfold holds. split.
  - intros H i Hi. rewrite <- (load_bytes_nth m (length bs) a i 0 Hi).
    now rewrite H.
  - intros H. apply nth_ext with (d := 0) (d' := 0); [apply load_bytes_length|].
    rewrite load_bytes_length. intros i Hi. rewrite load_bytes_nth by lia. auto.
Qed.

Lemma app_eq_parts {A} (x1 y1 x2 y2 : list A) :
  length x1 = length x2 -> x1 ++ y1 = x2 ++ y2 -> x1 = x2 /\ y1 = y2.
Proof.
  revert x2. induction x1 as [|a r IH]; intros [|b s] L E; simpl in *; try lia; auto.
  injection E as -> E. destruct (IH s) as [-> ->]; auto.
Qed.

Lemma holds_app m a xs ys :
  holds m a (xs ++ ys) <-> holds m a xs /\ holds m (a + Z.of_nat (length xs)) ys.
Proof.
  unfold holds. rewrite length_app, load_bytes_app. split.
  - intros H. apply app_eq_parts in H; auto. apply load_bytes_length.
  - intros [-> ->]. reflexivity.
Qed.

Lemma holds_ext m1 m2 a bs :
  (forall p, a <= p < a + Z.of_nat (length bs) -> m1 p = m2 p) ->
  holds m1 a bs -> holds m2 a bs.
Proof.
  unfold holds. intros H E.
  rewrite <- (load_bytes_ext m1 m2 _ _ H). exact E.
Qed.

(** ** The scalar filters *)

Lemma zigzag_encode_low v : 0 <= v < 2 ^ 31 -> _zigzag_encode_32 v = 2 * v.
Proof.
  intros H. unfold _zigzag_encode_32.
  rewrite signed_small by (change (32 - 1) with 31; lia).
  rewrite Z.shiftr_div_pow2, Z.div_small by lia.
  change (u32 0) with 0. rewrite Z.lxor_0_r. rewrite u32_small; lia.
Qed.

Lemma zigzag_encode_high v : 2 ^ 31 <= v < 2 ^ 32 ->
  _zigzag_encode_32 v = 2 ^ 33 - 1 - 2 * v.
Proof.
  intros H. unfold _zigzag_encode_32.
  rewrite signed_big by (change (32 - 1) with 31; lia).
  replace (u32 (Z.shiftr (v - 2 ^ 32) 31)) with (2 ^ 32 - 1) by arith.
  replace (u32 (v + v)) with (2 * v - 2 ^ 32) by arith.
  rewrite lxor_ones; lia.
Qed.

Lemma zigzag_encode_range v : is_u32 v -> is_u32 (_zigzag_encode_32 v).
Proof.
  unfold is_u32. intros H.
  destruct (Z.lt_ge_cases v (2 ^ 31)).
  - rewrite zigzag_encode_low; lia.
  - rewrite zigzag_encode_high; lia.
Qed.

Lemma land_1 x : Z.land x 1 = x mod 2.
Proof. change 1 with (Z.ones 1). now rewrite Z.land_ones by lia. Qed.

Lemma zigzag_roundtrip v : is_u32 v -> _zigzag_decode_32 (_zigzag_encode_32 v) = v.
Proof.
  unfold is_u32. intros H.
  destruct (Z.lt_ge_cases v (2 ^ 31)).
  - rewrite zigzag_encode_low by lia. unfold _zigzag_decode_32.
    replace (Z.land (2 * v) 1) with 0.
    2:{ rewrite land_1. arith. }
    change (u32 (- 0)) with 0. rewrite Z.lxor_0_r. arith.
  - rewrite zigzag_encode_high by lia. unfold _zigzag_decode_32.
    replace (Z.land (2 ^ 33 - 1 - 2 * v) 1) with 1.
    2:{ rewrite land_1. arith. }
    change (u32 (- (1))) with (2 ^ 32 - 1).
    replace (Z.shiftr (2 ^ 33 - 1 - 2 * v) 1) with (2 ^ 32 - 1 - v) by arith.
    rewrite lxor_ones; lia.
Qed.

Lemma zigzag_encode_spec v : _zigzag_encode_32 v = zigzag_spec v.
Proof.
  unfold _zigzag_encode_32, zigzag_spec. do 2 f_equal.
  rewrite Z.shiftl_mul_pow2 by lia. lia.
Qed.

Lemma delta_roundtrip v p : is_u32 v -> _delta_decode_32 (_delta_encode_32 v p) p = v.
Proof.
  unfold is_u32, _delta_decode_32, _delta_encode_32, u32. intros H.
  rewrite Zplus_mod_idemp_l. replace (v - p + p) with v by lia.
  apply Z.mod_small; lia.
Qed.

Lemma delta_encode_range v p : is_u32 (_delta_encode_32 v p).
Proof. apply u32_range. Qed.

Lemma delta_zigzag_encode_range v p : is_u32 (_delta_zigzag_encode_32 v p).
Proof. apply zigzag_encode_range, delta_encode_range. Qed.

(** ** Keys and widths of the formats *)

Lemma key_range f v : 0 <= key f v <= 3.
Proof.
  destruct f; unfold key;
    repeat match goal with |- context [if ?b then _ else _] => destruct b end; lia.
Qed.

Lemma len_range f v : 0 <= len f v <= 4.
Proof.
  unfold len. pose proof (key_range f v). destruct f; unfold width; [lia|].
  destruct (Z.eqb_spec (key F0124 v) 3); lia.
Qed.

Lemma payload_length f v : Z.of_nat (length (payload f v)) = len f v.
Proof.
  unfold payload. rewrite length_firstn, le_bytes_length.
  pose proof (len_range f v). lia.
Qed.

(** ** The scalar encode steps *)

(** The bit trick of [_svb1_encode1_x64] computes the key of the 1234
    format. *)
Lemma svb1_encode1_x64_code m dst v : is_u32 v ->
  snd (Svb1._svb1_encode1_x64 m dst v) = key F1234 v.
Proof.
  unfold is_u32. intros H. unfold Svb1._svb1_encode1_x64. cbn [snd].
  set (d := Z.shiftr v 8).
  assert (Hd : 0 <= d < 2 ^ 24 /\ d = v / 2 ^ 8) by (subst d; arith).
  destruct Hd as [Hd Hdv]. clearbody d.
  change 0x00FF0000 with ((2 ^ 8 - 1) * 2 ^ 16).
  rewrite land_field by lia.
  change 0x00FFFFFF with (2 ^ 24 - 1).
  rewrite (u32_small (d + 0x00FFFF00)) by lia.
  rewrite (lor_ones 24 (d + 0x00FFFF00)) by lia.
  set (a := (d + 16776960) / 2 ^ 24 * 2 ^ 24 + (2 ^ 24 - 1)).
  assert (Ha : a = if d <? 256 then 2 ^ 24 - 1 else 2 ^ 25 - 1).
  { subst a. destruct (Z.ltb_spec d 256); arith. }
  clearbody a.
  assert (Hs : 0 <= d + a < 2 ^ 32) by (destruct (Z.ltb_spec d 256); lia).
  rewrite (u32_small (d + a)) by lia.
  rewrite (lor_ones 24 (d + a)) by lia.
  unfold key.
  destruct (Z.leb_spec v 255); [subst a; destruct (Z.ltb_spec d 256); arith|].
  destruct (Z.leb_spec v 65535); [subst a; destruct (Z.ltb_spec d 256); arith|].
  destruct (Z.leb_spec v 16777215); subst a; destruct (Z.ltb_spec d 256); arith.
Qed.

Lemma svb1_encode1_x64_mem m dst v :
  fst (Svb1._svb1_encode1_x64 m dst v) = store_bytes m dst (le_bytes 4 v).
Proof. reflexivity. Qed.

(** The tail step of the SSE4.1 build, 1234 format. *)
Lemma svb1_tail_step_eq keys dp m v shift : is_u32 v ->
  Svb1.svb1_tail_step keys dp m v shift =
  (Z.lor keys (u32 (Z.shiftl (key F1234 v) shift)), dp + len F1234 v,
   store_bytes m dp (le_bytes 4 v)).
Proof.
  intros H. unfold Svb1.svb1_tail_step.
  pose proof (svb1_encode1_x64_code m dp v H) as Hc.
  pose proof (svb1_encode1_x64_mem m dp v) as Hm.
  destruct (Svb1._svb1_encode1_x64 m dp v) as [m' code]. cbn [fst snd] in *.
  subst. unfold len, width. do 2 f_equal. lia.
Qed.

Lemma store8_twice m a x y : store8 (store8 m a x) (a + 1) y = store_bytes m a [x; y].
Proof. reflexivity. Qed.

Lemma store8_four m a x y z t :
  store8 (store8 (store8 (store8 m a x) (a + 1) y) (a + 2) z) (a + 3) t =
  store_bytes m a [x; y; z; t].
Proof.
  cbn [store_bytes]. now replace (a + 1 + 1) with (a + 2) by lia;
    replace (a + 2 + 1) with (a + 3) by lia.
Qed.

Lemma svb1_encode1_generic_eq m dst v : is_u32 v ->
  Svb1._svb1_encode1_generic m dst v =
  (store_bytes m dst (generic_bytes v), key F1234 v).
Proof.
  unfold is_u32. intros H. unfold Svb1._svb1_encode1_generic, generic_bytes, key.
  destruct (Z.eqb_spec (Z.shiftr v 16) 0) as [E|E]; cbn [negb].
  - destruct (Z.leb_spec v 0xFFFF); [|arith].
    f_equal. unfold b2z.
    destruct (Z.ltb_spec 255 v), (Z.leb_spec v 255); try lia; reflexivity.
  - destruct (Z.leb_spec v 0xFFFF); [arith|].
    rewrite store8_four, le_bytes_4.
    rewrite !Z.shiftr_shiftr by lia. change (16 + 8) with 24.
    f_equal. unfold b2z.
    destruct (Z.ltb_spec 255 v); [|lia].
    destruct (Z.leb_spec v 255); [lia|].
    destruct (Z.ltb_spec 255 (Z.shiftr v 16)), (Z.leb_spec v 16777215);
      try reflexivity; arith.
Qed.

Lemma svb1_generic_step_eq dp m v : is_u32 v ->
  Svb1.svb1_generic_step dp m v =
  (key F1234 v, dp + len F1234 v, store_bytes m dp (generic_bytes v)).
Proof.
  intros H. unfold Svb1.svb1_generic_step. rewrite svb1_encode1_generic_eq by auto.
  unfold len, width. do 2 f_equal. lia.
Qed.

(** The code and the advance of [SVB0_ENCODE1]. *)
Lemma svb0_code v : 0 <= v ->
  b2z (negb (v =? 0)) + b2z (0x000000FF <? v) + b2z (0x0000FFFF <? v) = key F0124 v.
Proof.
  intros H. unfold key, b2z.
  destruct (Z.eqb_spec v 0), (Z.ltb_spec 255 v), (Z.ltb_spec 65535 v),
    (Z.leb_spec v 255), (Z.leb_spec v 65535); cbn [negb]; lia.
Qed.

Lemma svb0_advance v : 0 <= v ->
  key F0124 v + b2z (0x0000FFFF <? v) = len F0124 v.
Proof.
  intros H. unfold len, width, key, b2z.
  destruct (Z.eqb_spec v 0), (Z.ltb_spec 65535 v),
    (Z.leb_spec v 255), (Z.leb_spec v 65535); cbn; lia.
Qed.

Lemma SVB0_ENCODE1_eq keys dp m v shift : is_u32 v ->
  Svb0.SVB0_ENCODE1 keys dp m v shift =
  (u32 (Z.lor keys (u64 (Z.shiftl (key F0124 v) shift))), dp + len F0124 v,
   store_bytes m dp (le_bytes 4 v)).
Proof.
  unfold is_u32. intros H. unfold Svb0.SVB0_ENCODE1.
  rewrite svb0_code, svb0_advance by lia. reflexivity.
Qed.

Lemma svb0_encode1_generic_eq m dst v : is_u32 v ->
  Svb0._svb0_encode1_generic m dst v =
  (len F0124 v, store_bytes m dst (generic_bytes v), key F0124 v).
Proof.
  unfold is_u32. intros H. unfold Svb0._svb0_encode1_generic, generic_bytes.
  destruct (Z.leb_spec v 0xFFFF).
  - assert (E : b2z (negb (v =? 0)) + b2z (0xFF <? v) = key F0124 v).
    { rewrite <- svb0_code by lia.
      destruct (Z.ltb_spec 65535 v); [lia|]. change (b2z false) with 0. lia. }
    rewrite E. repeat f_equal.
    rewrite <- svb0_advance by lia.
    destruct (Z.ltb_spec 65535 v); [lia|]. change (b2z false) with 0. lia.
  - rewrite store8_four, le_bytes_4.
    rewrite !Z.shiftr_shiftr by lia. change (16 + 8) with 24.
    unfold len, width, key.
    destruct (Z.eqb_spec v 0), (Z.leb_spec v 255), (Z.leb_spec v 65535); try lia.
    reflexivity.
Qed.

Lemma svb0_generic_step_eq dp m v : is_u32 v ->
  Svb0.svb0_generic_step dp m v =
  (key F0124 v, dp + len F0124 v, store_bytes m dp (generic_bytes v)).
Proof.
  intros H. unfold Svb0.svb0_generic_step. now rewrite svb0_encode1_generic_eq.
Qed.

(** The bytes stored by a scalar step start with the payload. *)
Lemma payload_prefix_le4 f v :
  firstn (Z.to_nat (len f v)) (le_bytes 4 v) = payload f v.
Proof. reflexivity. Qed.

Lemma generic_bytes_length v : (length (generic_bytes v) <= 4)%nat.
Proof.
  unfold generic_bytes. destruct (v <=? 65535); rewrite le_bytes_length; lia.
Qed.

Lemma payload_prefix_generic f v : is_u32 v ->
  firstn (Z.to_nat (len f v)) (generic_bytes v) = payload f v /\
  len f v <= Z.of_nat (length (generic_bytes v)).
Proof.
  unfold is_u32. intros H. unfold payload, generic_bytes.
  destruct (Z.leb_spec v 0xFFFF).
  - assert (L : 0 <= len f v <= 2).
    { unfold len, width, key.
      destruct f; destruct (Z.eqb_spec v 0), (Z.leb_spec v 255), (Z.leb_spec v 65535);
        cbn; lia. }
    split; [|cbn; lia].
    assert (C : len f v = 0 \/ len f v = 1 \/ len f v = 2) by lia.
    destruct C as [-> | [-> | ->]]; reflexivity.
  - split; [reflexivity|]. pose proof (len_range f v). cbn. lia.
Qed.

(** ** The group encoders [SVB1_ENCODE8] and [SVB0_ENCODE8] *)

Lemma SVB1_ENCODE8_events c a b :
  Svb1.SVB1_ENCODE8 c a b = run_events (svb1_e8 a b) c.
Proof. reflexivity. Qed.

Lemma SVB0_ENCODE8_events c a b :
  Svb0.SVB0_ENCODE8 c a b = run_events (svb0_e8 a b) c.
Proof. reflexivity. Qed.

(** Unfolding the vector operations on xmmwords given byte by byte. *)
Ltac vec_eval :=
  cbv [svb1_keys svb0_keys svb1_lane svb0_lane
       _mm_set1_epi8 _mm_set1_epi16 _mm_min_epu8 _mm_packus_epi16
       _mm_packus_epi32 _mm_min_epi16 _mm_adds_epu16 _mm_slli_epi16
       _mm_movemask_epi8 map2 lanes unlanes chunks chunks_aux
       map combine flat_map app firstn skipn length repeat fst snd le_bytes].

Lemma svb1_keys_lanes a0 a1 a2 a3 a4 a5 a6 a7 a8 a9 a10 a11 a12 a13 a14 a15
                      c0 c1 c2 c3 c4 c5 c6 c7 c8 c9 c10 c11 c12 c13 c14 c15 :
  svb1_keys [a0; a1; a2; a3; a4; a5; a6; a7; a8; a9; a10; a11; a12; a13; a14; a15]
            [c0; c1; c2; c3; c4; c5; c6; c7; c8; c9; c10; c11; c12; c13; c14; c15] =
  movemask_from 0
    (svb1_lane a0 a1 a2 a3 ++ svb1_lane a4 a5 a6 a7 ++
     svb1_lane a8 a9 a10 a11 ++ svb1_lane a12 a13 a14 a15 ++
     svb1_lane c0 c1 c2 c3 ++ svb1_lane c4 c5 c6 c7 ++
     svb1_lane c8 c9 c10 c11 ++ svb1_lane c12 c13 c14 c15).
Proof. vec_eval. reflexivity. Qed.

Lemma svb0_keys_lanes a0 a1 a2 a3 a4 a5 a6 a7 a8 a9 a10 a11 a12 a13 a14 a15
                      c0 c1 c2 c3 c4 c5 c6 c7 c8 c9 c10 c11 c12 c13 c14 c15 :
  svb0_keys [a0; a1; a2; a3; a4; a5; a6; a7; a8; a9; a10; a11; a12; a13; a14; a15]
            [c0; c1; c2; c3; c4; c5; c6; c7; c8; c9; c10; c11; c12; c13; c14; c15] =
  movemask_from 0
    (svb0_lane a0 a1 a2 a3 ++ svb0_lane a4 a5 a6 a7 ++
     svb0_lane a8 a9 a10 a11 ++ svb0_lane a12 a13 a14 a15 ++
     svb0_lane c0 c1 c2 c3 ++ svb0_lane c4 c5 c6 c7 ++
     svb0_lane c8 c9 c10 c11 ++ svb0_lane c12 c13 c14 c15).
Proof. vec_eval. reflexivity. Qed.

Lemma min_norm a : is_u8 a -> Z.min (u8 1) a = if a =? 0 then 0 else 1.
Proof.
  unfold is_u8. intros H. change (u8 1) with 1.
  destruct (Z.eqb_spec a 0); lia.
Qed.

Lemma movemask_step i x y rest : 0 <= i ->
  movemask_from i (x :: y :: rest) =
  (Z.shiftr x 7 + 2 * Z.shiftr y 7) * 2 ^ i + movemask_from (i + 2) rest.
Proof.
  intros Hi. cbn [movemask_from].
  rewrite !Z.shiftl_mul_pow2 by lia.
  replace (i + 1 + 1) with (i + 2) by lia.
  rewrite Z.pow_add_r by lia. change (2 ^ 1) with 2. lia.
Qed.

(** The key generation of the vector path reads the key of a lane off
    which of its bytes are zero. *)
Lemma svb1_lane_key a0 a1 a2 a3 :
  is_u8 a0 -> is_u8 a1 -> is_u8 a2 -> is_u8 a3 ->
  exists x y, svb1_lane a0 a1 a2 a3 = [x; y] /\
              Z.shiftr x 7 + 2 * Z.shiftr y 7 = key_of_bytes F1234 a0 a1 a2 a3.
Proof.
  intros H0 H1 H2 H3. unfold svb1_lane, key_of_bytes.
  rewrite !min_norm by assumption.
  destruct (a0 =? 0), (a1 =? 0), (a2 =? 0), (a3 =? 0);
    (eexists; eexists; split; [vm_compute; reflexivity | vm_compute; reflexivity]).
Qed.

Lemma svb0_lane_key a0 a1 a2 a3 :
  is_u8 a0 -> is_u8 a1 -> is_u8 a2 -> is_u8 a3 ->
  exists x y, svb0_lane a0 a1 a2 a3 = [x; y] /\
              Z.shiftr x 7 + 2 * Z.shiftr y 7 = key_of_bytes F0124 a0 a1 a2 a3.
Proof.
  intros H0 H1 H2 H3. unfold svb0_lane, key_of_bytes.
  rewrite !min_norm by assumption.
  destruct (a0 =? 0), (a1 =? 0), (a2 =? 0), (a3 =? 0);
    (eexists; eexists; split; [vm_compute; reflexivity | vm_compute; reflexivity]).
Qed.

(** The key read off the bytes is the key of the value. *)
Lemma key_of_bytes_value f v : is_u32 v ->
  key_of_bytes f (u8 v) (u8 (Z.shiftr v 8)) (u8 (Z.shiftr v 16)) (u8 (Z.shiftr v 24)) =
  key f v.
Proof.
  unfold is_u32. intros H. unfold key_of_bytes, key.
  destruct f.
  - destruct (Z.eqb_spec (u8 (Z.shiftr v 24)) 0); cbn [negb].
    2:{ destruct (Z.leb_spec v 255); [arith|].
        destruct (Z.leb_spec v 65535); [arith|].
        destruct (Z.leb_spec v 16777215); [arith|]. reflexivity. }
    destruct (Z.eqb_spec (u8 (Z.shiftr v 16)) 0); cbn [negb].
    2:{ destruct (Z.leb_spec v 255); [arith|].
        destruct (Z.leb_spec v 65535); [arith|].
        destruct (Z.leb_spec v 16777215); [|arith]. reflexivity. }
    destruct (Z.eqb_spec (u8 (Z.shiftr v 8)) 0); cbn [negb].
    2:{ destruct (Z.leb_spec v 255); [arith|].
        destruct (Z.leb_spec v 65535); [|arith]. reflexivity. }
    destruct (Z.leb_spec v 255); [reflexivity|arith].
  - destruct (Z.eqb_spec (u8 (Z.shiftr v 24)) 0); cbn [negb orb].
    2:{ destruct (Z.eqb_spec v 0); [arith|].
        destruct (Z.leb_spec v 255); [arith|].
        destruct (Z.leb_spec v 65535); [arith|]. reflexivity. }
    destruct (Z.eqb_spec (u8 (Z.shiftr v 16)) 0); cbn [negb].
    2:{ destruct (Z.eqb_spec v 0); [arith|].
        destruct (Z.leb_spec v 255); [arith|].
        destruct (Z.leb_spec v 65535); [arith|]. reflexivity. }
    destruct (Z.eqb_spec (u8 (Z.shiftr v 8)) 0); cbn [negb].
    2:{ destruct (Z.eqb_spec v 0); [arith|].
        destruct (Z.leb_spec v 255); [arith|].
        destruct (Z.leb_spec v 65535); [|arith]. reflexivity. }
    destruct (Z.eqb_spec (u8 v) 0); cbn [negb].
    + destruct (Z.eqb_spec v 0); [reflexivity|arith].
    + destruct (Z.eqb_spec v 0); [arith|].
      destruct (Z.leb_spec v 255); [reflexivity|arith].
Qed.

Lemma unlanes4_bytes v0 v1 v2 v3 :
  unlanes 4 [v0; v1; v2; v3] =
  [u8 v0; u8 (Z.shiftr v0 8); u8 (Z.shiftr v0 16); u8 (Z.shiftr v0 24);
   u8 v1; u8 (Z.shiftr v1 8); u8 (Z.shiftr v1 16); u8 (Z.shiftr v1 24);
   u8 v2; u8 (Z.shiftr v2 8); u8 (Z.shiftr v2 16); u8 (Z.shiftr v2 24);
   u8 v3; u8 (Z.shiftr v3 8); u8 (Z.shiftr v3 16); u8 (Z.shiftr v3 24)].
Proof.
  unfold unlanes. cbn [flat_map]. rewrite !le_bytes_4. reflexivity.
Qed.

Ltac lane_key lem :=
  match goal with
  | |- context [movemask_from ?i (?lane ?a ?b ?c ?d ++ ?rest)] =>
      let x := fresh "x" in let y := fresh "y" in
      let E := fresh "E" in let K := fresh "K" in
      destruct (lem a b c d) as (x & y & E & K); try apply u8_range;
      rewrite E; cbn [app]; rewrite movemask_step by lia; rewrite K;
      rewrite key_of_bytes_value by assumption; clear E K x y
  end.

(** The sixteen key bits of a group are the keys of its eight values,
    two bits each, the first value lowest. *)
Lemma svb1_keys_values v0 v1 v2 v3 v4 v5 v6 v7 :
  is_u32 v0 -> is_u32 v1 -> is_u32 v2 -> is_u32 v3 ->
  is_u32 v4 -> is_u32 v5 -> is_u32 v6 -> is_u32 v7 ->
  svb1_keys (unlanes 4 [v0; v1; v2; v3]) (unlanes 4 [v4; v5; v6; v7]) =
  pack_keys (map (key F1234) [v0; v1; v2; v3; v4; v5; v6; v7]).
Proof.
  intros. rewrite !unlanes4_bytes, svb1_keys_lanes.
  rewrite <- (app_nil_r (svb1_lane (u8 v7) _ _ _)).
  do 8 lane_key svb1_lane_key.
  cbn [movemask_from map pack_keys fold_right]. lia.
Qed.

Lemma svb0_keys_values v0 v1 v2 v3 v4 v5 v6 v7 :
  is_u32 v0 -> is_u32 v1 -> is_u32 v2 -> is_u32 v3 ->
  is_u32 v4 -> is_u32 v5 -> is_u32 v6 -> is_u32 v7 ->
  svb0_keys (unlanes 4 [v0; v1; v2; v3]) (unlanes 4 [v4; v5; v6; v7]) =
  pack_keys (map (key F0124) [v0; v1; v2; v3; v4; v5; v6; v7]).
Proof.
  intros. rewrite !unlanes4_bytes, svb0_keys_lanes.
  rewrite <- (app_nil_r (svb0_lane (u8 v7) _ _ _)).
  do 8 lane_key svb0_lane_key.
  cbn [movemask_from map pack_keys fold_right]. lia.
Qed.

(** The tables: for the keys [k0 .. k3] of a half-group, the length
    entry is the sum of the widths, and the shuffle moves the payloads of
    the four lanes to the front. *)
Ltac enum4 k :=
  let H := fresh in
  assert (H : k = 0 \/ k = 1 \/ k = 2 \/ k = 3) by lia;
  destruct H as [-> | [-> | [-> | ->]]].

Lemma svb1_tables k0 k1 k2 k3 b0 b1 b2 b3 b4 b5 b6 b7 b8 b9 b10 b11 b12 b13 b14 b15 :
  0 <= k0 <= 3 -> 0 <= k1 <= 3 -> 0 <= k2 <= 3 -> 0 <= k3 <= 3 ->
  let b := [b0; b1; b2; b3; b4; b5; b6; b7; b8; b9; b10; b11; b12; b13; b14; b15] in
  let l := nth (Z.to_nat (k0 + 4 * k1 + 16 * k2 + 64 * k3)) Svb1.svb1_len_table 0 in
  let row := firstn 16 (skipn (Z.to_nat (16 * (k0 + 4 * k1 + 16 * k2))) Svb1.svb1_enc_table) in
  l = width F1234 k0 + width F1234 k1 + width F1234 k2 + width F1234 k3 /\
  firstn (Z.to_nat l) (_mm_shuffle_epi8 b row) = half_payload F1234 k0 k1 k2 k3 b.
Proof.
  intros H0 H1 H2 H3.
  enum4 k0; enum4 k1; enum4 k2; enum4 k3; vm_compute; split; reflexivity.
Qed.

Lemma svb0_tables k0 k1 k2 k3 b0 b1 b2 b3 b4 b5 b6 b7 b8 b9 b10 b11 b12 b13 b14 b15 :
  0 <= k0 <= 3 -> 0 <= k1 <= 3 -> 0 <= k2 <= 3 -> 0 <= k3 <= 3 ->
  let b := [b0; b1; b2; b3; b4; b5; b6; b7; b8; b9; b10; b11; b12; b13; b14; b15] in
  let l := nth (Z.to_nat (k0 + 4 * k1 + 16 * k2 + 64 * k3)) Svb0.svb0_len_table 0 in
  let row := firstn 16 (skipn (Z.to_nat (16 * (k0 + 4 * k1 + 16 * k2))) Svb0.svb0_enc_table) in
  l = width F0124 k0 + width F0124 k1 + width F0124 k2 + width F0124 k3 /\
  firstn (Z.to_nat l) (_mm_shuffle_epi8 b row) = half_payload F0124 k0 k1 k2 k3 b.
Proof.
  intros H0 H1 H2 H3.
  enum4 k0; enum4 k1; enum4 k2; enum4 k3; vm_compute; split; reflexivity.
Qed.

Lemma key_index_arith k0 k1 k2 k3 k4 k5 k6 k7 :
  0 <= k0 <= 3 -> 0 <= k1 <= 3 -> 0 <= k2 <= 3 -> 0 <= k3 <= 3 ->
  0 <= k4 <= 3 -> 0 <= k5 <= 3 -> 0 <= k6 <= 3 -> 0 <= k7 <= 3 ->
  let keys := pack_keys [k0; k1; k2; k3; k4; k5; k6; k7] in
  Z.land (Z.shiftl keys 4) 0x03F0 = 16 * (k0 + 4 * k1 + 16 * k2) /\
  Z.land (Z.shiftr keys 4) 0x03F0 = 16 * (k4 + 4 * k5 + 16 * k6) /\
  Z.land keys 0xFF = k0 + 4 * k1 + 16 * k2 + 64 * k3 /\
  Z.shiftr keys 8 = k4 + 4 * k5 + 16 * k6 + 64 * k7 /\
  le_bytes 2 (u16 keys) = [pack_keys [k0; k1; k2; k3]; pack_keys [k4; k5; k6; k7]].
Proof.
  intros. subst keys. cbn [pack_keys fold_right].
  change 0x03F0 with ((2 ^ 6 - 1) * 2 ^ 4).
  change 0xFF with ((2 ^ 8 - 1) * 2 ^ 0).
  rewrite !land_field by lia.
  cbn [le_bytes].
  split; [arith|]. split; [arith|]. split; [arith|]. split; [arith|].
  f_equal; [|f_equal]; arith.
Qed.

Lemma payloads_of_half f v0 v1 v2 v3 :
  half_payload f (key f v0) (key f v1) (key f v2) (key f v3) (unlanes 4 [v0; v1; v2; v3])
  = data_block f [v0; v1; v2; v3].
Proof.
  unfold half_payload, data_block. cbn [flat_map]. rewrite app_nil_r.
  unfold unlanes. cbn [flat_map]. rewrite app_nil_r.
  assert (L : forall x r, firstn 4 (le_bytes 4 x ++ r) = le_bytes 4 x)
    by (intros; reflexivity).
  assert (S4 : forall x r, skipn 4 (le_bytes 4 x ++ r) = r) by (intros; reflexivity).
  rewrite L.
  change 8%nat with (4 + 4)%nat at 1. change 12%nat with (4 + (4 + 4))%nat.
  rewrite <- !skipn_skipn, !S4, !L.
  replace (firstn 4 (le_bytes 4 v3)) with (le_bytes 4 v3) by reflexivity.
  reflexivity.
Qed.

Lemma shuffle_length a b : length (_mm_shuffle_epi8 a b) = length b.
Proof. unfold _mm_shuffle_epi8. apply length_map. Qed.

Lemma table_row_length (t : list Z) i : (i + 16 <= length t)%nat ->
  length (firstn 16 (skipn i t)) = 16%nat.
Proof. intros. rewrite length_firstn, length_skipn. lia. Qed.

(** [SVB1_ENCODE8] on two xmmwords holding eight values: the stores and
    what they leave in the stream. *)
Lemma svb1_e8_values v0 v1 v2 v3 v4 v5 v6 v7 :
  is_u32 v0 -> is_u32 v1 -> is_u32 v2 -> is_u32 v3 ->
  is_u32 v4 -> is_u32 v5 -> is_u32 v6 -> is_u32 v7 ->
  exists wa wb,
    svb1_e8 (unlanes 4 [v0; v1; v2; v3]) (unlanes 4 [v4; v5; v6; v7]) =
    [ Emit wa (sum (map (len F1234) [v0; v1; v2; v3]));
      Emit wb (sum (map (len F1234) [v4; v5; v6; v7]));
      Key (key_block F1234 [v0; v1; v2; v3; v4; v5; v6; v7]) ] /\
    length wa = 16%nat /\ length wb = 16%nat /\
    firstn (Z.to_nat (sum (map (len F1234) [v0; v1; v2; v3]))) wa
      = data_block F1234 [v0; v1; v2; v3] /\
    firstn (Z.to_nat (sum (map (len F1234) [v4; v5; v6; v7]))) wb
      = data_block F1234 [v4; v5; v6; v7].
Proof.
  intros.
  pose proof (key_range F1234 v0). pose proof (key_range F1234 v1).
  pose proof (key_range F1234 v2). pose proof (key_range F1234 v3).
  pose proof (key_range F1234 v4). pose proof (key_range F1234 v5).
  pose proof (key_range F1234 v6). pose proof (key_range F1234 v7).
  unfold svb1_e8, e8_events. rewrite svb1_keys_values by assumption.
  cbn [map].
  destruct (key_index_arith (key F1234 v0) (key F1234 v1) (key F1234 v2) (key F1234 v3)
              (key F1234 v4) (key F1234 v5) (key F1234 v6) (key F1234 v7))
    as (E1 & E2 & E3 & E4 & E5); try assumption.
  rewrite E1, E2, E3, E4, E5.
  rewrite <- !payloads_of_half.
  rewrite !unlanes4_bytes.
  edestruct (svb1_tables (key F1234 v0) (key F1234 v1) (key F1234 v2) (key F1234 v3))
    as [La Pa]; try assumption.
  edestruct (svb1_tables (key F1234 v4) (key F1234 v5) (key F1234 v6) (key F1234 v7))
    as [Lb Pb]; try assumption.
  do 2 eexists. split; [|split; [|split; [|split]]].
  - f_equal; [|f_equal]; f_equal.
    + rewrite La. unfold sum, len. cbn [fold_right]. lia.
    + rewrite Lb. unfold sum, len. cbn [fold_right]. lia.
  - rewrite shuffle_length. apply table_row_length.
    change (length Svb1.svb1_enc_table) with 1024%nat. lia.
  - rewrite shuffle_length. apply table_row_length.
    change (length Svb1.svb1_enc_table) with 1024%nat. lia.
  - rewrite <- Pa. do 2 f_equal. rewrite La. unfold sum, len. cbn [map fold_right]. lia.
  - rewrite <- Pb. do 2 f_equal. rewrite Lb. unfold sum, len. cbn [map fold_right]. lia.
Qed.

Lemma svb0_e8_values v0 v1 v2 v3 v4 v5 v6 v7 :
  is_u32 v0 -> is_u32 v1 -> is_u32 v2 -> is_u32 v3 ->
  is_u32 v4 -> is_u32 v5 -> is_u32 v6 -> is_u32 v7 ->
  exists wa wb,
    svb0_e8 (unlanes 4 [v0; v1; v2; v3]) (unlanes 4 [v4; v5; v6; v7]) =
    [ Emit wa (sum (map (len F0124) [v0; v1; v2; v3]));
      Emit wb (sum (map (len F0124) [v4; v5; v6; v7]));
      Key (key_block F0124 [v0; v1; v2; v3; v4; v5; v6; v7]) ] /\
    length wa = 16%nat /\ length wb = 16%nat /\
    firstn (Z.to_nat (sum (map (len F0124) [v0; v1; v2; v3]))) wa
      = data_block F0124 [v0; v1; v2; v3] /\
    firstn (Z.to_nat (sum (map (len F0124) [v4; v5; v6; v7]))) wb
      = data_block F0124 [v4; v5; v6; v7].
Proof.
  intros.
  pose proof (key_range F0124 v0). pose proof (key_range F0124 v1).
  pose proof (key_range F0124 v2). pose proof (key_range F0124 v3).
  pose proof (key_range F0124 v4). pose proof (key_range F0124 v5).
  pose proof (key_range F0124 v6). pose proof (key_range F0124 v7).
  unfold svb0_e8, e8_events. rewrite svb0_keys_values by assumption.
  cbn [map].
  destruct (key_index_arith (key F0124 v0) (key F0124 v1) (key F0124 v2) (key F0124 v3)
              (key F0124 v4) (key F0124 v5) (key F0124 v6) (key F0124 v7))
    as (E1 & E2 & E3 & E4 & E5); try assumption.
  rewrite E1, E2, E3, E4, E5.
  rewrite <- !payloads_of_half.
  rewrite !unlanes4_bytes.
  edestruct (svb0_tables (key F0124 v0) (key F0124 v1) (key F0124 v2) (key F0124 v3))
    as [La Pa]; try assumption.
  edestruct (svb0_tables (key F0124 v4) (key F0124 v5) (key F0124 v6) (key F0124 v7))
    as [Lb Pb]; try assumption.
  do 2 eexists. split; [|split; [|split; [|split]]].
  - f_equal; [|f_equal]; f_equal.
    + rewrite La. unfold sum, len. cbn [fold_right]. lia.
    + rewrite Lb. unfold sum, len. cbn [fold_right]. lia.
  - rewrite shuffle_length. apply table_row_length.
    change (length Svb0.svb0_enc_table) with 1024%nat. lia.
  - rewrite shuffle_length. apply table_row_length.
    change (length Svb0.svb0_enc_table) with 1024%nat. lia.
  - rewrite <- Pa. do 2 f_equal. rewrite La. unfold sum, len. cbn [map fold_right]. lia.
  - rewrite <- Pb. do 2 f_equal. rewrite Lb. unfold sum, len. cbn [map fold_right]. lia.
Qed.

(** ** Stores relative to the cursors *)

Lemma run_events_app es1 es2 c :
  run_events (es1 ++ es2) c = run_events es2 (run_events es1 c).
Proof. unfold run_events. apply fold_left_app. Qed.

Lemma run_events_cons e es c :
  run_events (e :: es) c = run_events es (run_event c e).
Proof. reflexivity. Qed.

Lemma adv_app es1 es2 : adv (es1 ++ es2) = adv es1 + adv es2.
Proof.
  induction es1 as [|[w l|bs] r IH]; cbn [adv app] in *; lia.
Qed.

Lemma keys_of_app es1 es2 : keys_of (es1 ++ es2) = keys_of es1 ++ keys_of es2.
Proof. unfold keys_of. apply flat_map_app. Qed.

Lemma data_of_app es1 es2 : data_of (es1 ++ es2) = data_of es1 ++ data_of es2.
Proof. unfold data_of. apply flat_map_app. Qed.

Lemma adv_nonneg es : Forall wf_event es -> 0 <= adv es.
Proof.
  induction 1 as [|[w l|bs] r H _ IH]; cbn [adv wf_event] in *; lia.
Qed.

Lemma adv_le_span es : Forall wf_event es -> 0 <= adv es <= span es.
Proof.
  induction 1 as [|[w l|bs] r H _ IH]; cbn [adv span wf_event] in *; lia.
Qed.

Lemma span_app es1 es2 : Forall wf_event es1 ->
  span (es1 ++ es2) = Z.max (span es1) (adv es1 + span es2) \/
  span es2 <= 0 /\ span (es1 ++ es2) <= Z.max (span es1) (adv es1 + span es2).
Proof.
  induction 1 as [|[w l|bs] r H _ IH]; cbn [adv span app wf_event] in *; lia.
Qed.

Lemma span_nonneg es : 0 <= span es.
Proof. induction es as [|[w l|bs] r IH]; cbn [span]; lia. Qed.

Lemma span_app_le es1 es2 b1 b2 : Forall wf_event es1 ->
  span es1 <= b1 -> adv es1 <= b1 -> span es2 <= b2 -> 0 <= b2 ->
  span (es1 ++ es2) <= b1 + b2.
Proof.
  intros W H1 H2 H3 H4. pose proof (span_nonneg es2).
  destruct (span_app es1 es2 W) as [-> | [? ?]]; lia.
Qed.

Lemma data_of_length es : Forall wf_event es ->
  Z.of_nat (length (data_of es)) = adv es.
Proof.
  induction 1 as [|[w l|bs] r H _ IH]; cbn [data_of flat_map adv wf_event] in *.
  - reflexivity.
  - fold (data_of r). rewrite length_app, length_firstn. lia.
  - fold (data_of r). cbn [app]. exact IH.
Qed.

(** *** Pointers *)

Lemma run_events_data_ptr es : forall c,
  data_ptr (run_events es c) = data_ptr c + adv es.
Proof.
  induction es as [|[w l|bs] r IH]; intros c.
  - cbn. lia.
  - rewrite run_events_cons, IH. cbn [run_event data_ptr adv]. lia.
  - rewrite run_events_cons, IH. cbn [run_event data_ptr adv]. lia.
Qed.

Lemma run_events_key_ptr es : forall c,
  key_ptr (run_events es c) = key_ptr c + Z.of_nat (length (keys_of es)).
Proof.
  induction es as [|[w l|bs] r IH]; intros c.
  - cbn. lia.
  - rewrite run_events_cons, IH. cbn [run_event key_ptr keys_of flat_map app]. reflexivity.
  - rewrite run_events_cons, IH. cbn [run_event key_ptr keys_of flat_map].
    rewrite length_app. fold (keys_of r). lia.
Qed.

(** *** Frame: nothing is stored outside the key bytes and the span. *)

Lemma run_events_frame es : forall c p,
  Forall wf_event es ->
  (p < key_ptr c \/ key_ptr c + Z.of_nat (length (keys_of es)) <= p) ->
  (p < data_ptr c \/ data_ptr c + span es <= p) ->
  buf (run_events es c) p = buf c p.
Proof.
  induction es as [|[w l|bs] r IH]; intros c p W Hk Hd.
  - reflexivity.
  - inversion W as [|? ? We Wr]; subst. cbn [wf_event] in We.
    rewrite run_events_cons, IH; auto.
    + cbn [run_event buf]. apply store_bytes_out.
      cbn [span] in Hd. lia.
    + cbn [run_event data_ptr]. cbn [span] in Hd. lia.
  - inversion W as [|? ? We Wr]; subst.
    cbn [keys_of flat_map] in Hk. fold (keys_of r) in Hk. rewrite length_app in Hk.
    rewrite run_events_cons, IH; auto.
    + cbn [run_event buf]. apply store_bytes_out. lia.
    + cbn [run_event key_ptr]. lia.
Qed.

(** *** Content: with the key bytes below the data, the buffer holds the
    key bytes and the payloads. *)

Lemma holds_store m a bs : holds (store_bytes m a bs) a bs.
Proof. apply load_store_bytes. Qed.

Lemma holds_firstn m a bs n : holds m a bs -> holds m a (firstn n bs).
Proof.
  intros H. rewrite <- (firstn_skipn n bs) in H. apply holds_app in H. tauto.
Qed.

Lemma run_events_content es : forall c,
  Forall wf_event es ->
  key_ptr c + Z.of_nat (length (keys_of es)) <= data_ptr c ->
  holds (buf (run_events es c)) (key_ptr c) (keys_of es) /\
  holds (buf (run_events es c)) (data_ptr c) (data_of es).
Proof.
  induction es as [|[w l|bs] r IH]; intros c W Hs.
  - split; reflexivity.
  - inversion W as [|? ? We Wr]; subst. cbn [wf_event] in We.
    cbn [keys_of flat_map app] in *. fold (keys_of r) in *.
    cbn [data_of flat_map]. fold (data_of r).
    rewrite run_events_cons.
    destruct (IH (run_event c (Emit w l)) Wr) as [Hk Hd];
      [cbn [run_event key_ptr data_ptr]; lia|].
    cbn [run_event key_ptr data_ptr] in Hk, Hd.
    split; [exact Hk|].
    apply holds_app. split.
    + apply holds_ext with (m1 := store_bytes (buf c) (data_ptr c) w).
      * intros p Hp. symmetry.
        rewrite length_firstn in Hp.
        apply (run_events_frame r (run_event c (Emit w l)) p Wr);
          cbn [run_event key_ptr data_ptr]; lia.
      * apply holds_firstn, holds_store.
    + rewrite length_firstn.
      replace (data_ptr c + Z.of_nat (Nat.min (Z.to_nat l) (length w)))
        with (data_ptr c + l) by lia.
      exact Hd.
  - inversion W as [|? ? We Wr]; subst.
    cbn [keys_of flat_map] in *. fold (keys_of r) in *. rewrite length_app in Hs.
    cbn [data_of flat_map app]. fold (data_of r).
    rewrite run_events_cons.
    destruct (IH (run_event c (Key bs)) Wr) as [Hk Hd];
      [cbn [run_event key_ptr data_ptr]; lia|].
    cbn [run_event key_ptr data_ptr] in Hk, Hd.
    split; [|exact Hd].
    apply holds_app. split; [|exact Hk].
    apply holds_ext with (m1 := store_bytes (buf c) (key_ptr c) bs).
    + intros p Hp. symmetry.
      pose proof (span_nonneg r).
      apply (run_events_frame r (run_event c (Key bs)) p Wr);
        cbn [run_event key_ptr data_ptr]; lia.
    + apply holds_store.
Qed.

(** *** Agreement: two runs from different buffers agree wherever the
    buffers agreed and wherever a key byte or a payload byte went. *)

Lemma store_bytes_agree m1 m2 a bs p :
  (m1 p = m2 p \/ a <= p < a + Z.of_nat (length bs)) ->
  store_bytes m1 a bs p = store_bytes m2 a bs p.
Proof.
  intros H. rewrite !store_bytes_at.
  destruct ((a <=? p) && (p <? a + Z.of_nat (length bs))) eqn:E; auto.
  destruct H as [H|H]; auto.
  apply andb_false_iff in E. destruct E as [E|E]; lia.
Qed.

Lemma run_events_agree es : forall c1 c2 p,
  Forall wf_event es ->
  key_ptr c1 = key_ptr c2 -> data_ptr c1 = data_ptr c2 ->
  (buf c1 p = buf c2 p \/
   key_ptr c1 <= p < key_ptr c1 + Z.of_nat (length (keys_of es)) \/
   data_ptr c1 <= p < data_ptr c1 + adv es) ->
  buf (run_events es c1) p = buf (run_events es c2) p.
Proof.
  induction es as [|[w l|bs] r IH]; intros c1 c2 p W Ek Ed H.
  - cbn in *. destruct H as [H|[H|H]]; auto; lia.
  - inversion W as [|? ? We Wr]; subst. cbn [wf_event] in We.
    rewrite !run_events_cons. apply IH; auto;
      cbn [run_event key_ptr data_ptr buf]; try lia.
    cbn [keys_of flat_map app adv] in H. fold (keys_of r) in H.
    rewrite <- Ed.
    destruct H as [H|[H|H]].
    + left. apply store_bytes_agree; auto.
    + right; left. exact H.
    + destruct (Z.lt_ge_cases p (data_ptr c1 + l)).
      * left. apply store_bytes_agree. right; lia.
      * right; right. lia.
  - inversion W as [|? ? We Wr]; subst.
    rewrite !run_events_cons. apply IH; auto;
      cbn [run_event key_ptr data_ptr buf]; try lia.
    cbn [keys_of flat_map adv] in H. fold (keys_of r) in H.
    rewrite length_app in H. rewrite <- Ek.
    destruct H as [H|[H|H]].
    + left. apply store_bytes_agree; auto.
    + destruct (Z.lt_ge_cases p (key_ptr c1 + Z.of_nat (length bs))).
      * left. apply store_bytes_agree. right; lia.
      * right; left. lia.
    + right; right. exact H.
Qed.

(** ** Loops *)

Lemma iter_S {St} n (body : St -> St) s : iter (S n) body s = body (iter n body s).
Proof.
  revert s. induction n; intros s; [reflexivity|].
  change (iter (S (S n)) body s) with (iter (S n) body (body s)).
  rewrite IHn. reflexivity.
Qed.

(** A [do ... while] loop whose condition first fails after [n] passes
    runs [n] passes. *)
Lemma do_while_iter {St} (body : St -> St) (cond : St -> bool) :
  forall n fuel s, (1 <= n <= fuel)%nat ->
    (forall j, (1 <= j < n)%nat -> cond (iter j body s) = true) ->
    cond (iter n body s) = false ->
    do_while fuel body cond s = iter n body s.
Proof.
  induction n as [|n IH]; intros fuel s Hn Ht Hf; [lia|].
  destruct fuel as [|fuel]; [lia|]. cbn [do_while].
  destruct n as [|n].
  - cbn [iter] in Hf. rewrite Hf. reflexivity.
  - assert (H1 : cond (body s) = true) by (apply (Ht 1%nat); lia).
    rewrite H1.
    change (iter (S (S n)) body s) with (iter (S n) body (body s)).
    apply IH; [lia| |exact Hf].
    intros j Hj. apply (Ht (S j)). lia.
Qed.

(** A [while] loop whose condition first fails after [n] passes runs [n]
    passes. *)
Lemma while_iter {St} (cond : St -> bool) (body : St -> St) :
  forall n fuel s, (n <= fuel)%nat ->
    (forall j, (j < n)%nat -> cond (iter j body s) = true) ->
    (n < fuel -> cond (iter n body s) = false)%nat ->
    while fuel cond body s = iter n body s.
Proof.
  induction n as [|n IH]; intros fuel s Hn Ht Hf.
  - destruct fuel; [reflexivity|]. cbn [while iter] in *. now rewrite Hf by lia.
  - destruct fuel as [|fuel]; [lia|]. cbn [while].
    assert (H0 : cond s = true) by (apply (Ht 0%nat); lia).
    rewrite H0.
    change (iter (S n) body s) with (iter n body (body s)).
    apply IH; [lia| |].
    + intros j Hj. apply (Ht (S j)). lia.
    + intros Hlt. apply Hf. lia.
Qed.

(** Masks on a count. *)
Lemma land_not7 count : 0 <= count < 2 ^ 64 ->
  Z.land count (u64 (Z.lnot 7)) = 8 * (count / 8).
Proof.
  intros H. change (u64 (Z.lnot 7)) with ((2 ^ 61 - 1) * 2 ^ 3).
  rewrite land_field by lia.
  change (2 ^ 3) with 8. change (2 ^ 61) with 2305843009213693952.
  change (2 ^ 64) with 18446744073709551616 in H.
  Z.div_mod_to_equations. lia.
Qed.

Lemma land_not63 count : 0 <= count < 2 ^ 64 ->
  Z.land count (u64 (Z.lnot 63)) = 64 * (count / 64).
Proof.
  intros H. change (u64 (Z.lnot 63)) with ((2 ^ 58 - 1) * 2 ^ 6).
  rewrite land_field by lia.
  change (2 ^ 6) with 64. change (2 ^ 58) with 288230376151711744.
  change (2 ^ 64) with 18446744073709551616 in H.
  Z.div_mod_to_equations. lia.
Qed.

Lemma land_7 count : Z.land count 7 = count mod 8.
Proof. change 7 with (Z.ones 3). now rewrite Z.land_ones by lia. Qed.

Lemma land_63 count : Z.land count 63 = count mod 64.
Proof. change 63 with (Z.ones 6). now rewrite Z.land_ones by lia. Qed.

Lemma land_56 count : Z.land count (Z.lxor 63 7) = 8 * ((count / 8) mod 8).
Proof.
  change (Z.lxor 63 7) with ((2 ^ 3 - 1) * 2 ^ 3).
  rewrite land_field by lia. change (2 ^ 3) with 8. lia.
Qed.

Lemma key_block_len_eq count : 0 <= count < 2 ^ 64 - 3 ->
  _svb_key_block_len count = key_block_len count.
Proof.
  intros H. unfold _svb_key_block_len, key_block_len.
  rewrite u64_small by lia. now rewrite Z.shiftr_div_pow2 by lia.
Qed.

(** ** Packed keys *)

Lemma pack_keys_app a k : pack_keys (a ++ [k]) = pack_keys a + k * 4 ^ Z.of_nat (length a).
Proof.
  induction a as [|x r IH].
  - cbn. lia.
  - cbn [app pack_keys fold_right length] in *. fold (pack_keys (r ++ [k])).
    fold (pack_keys r). rewrite IH. rewrite Nat2Z.inj_succ, Z.pow_succ_r by lia. lia.
Qed.

Lemma pack_keys_range ks : Forall (fun k => 0 <= k <= 3) ks ->
  0 <= pack_keys ks < 4 ^ Z.of_nat (length ks).
Proof.
  induction 1 as [|k r Hk _ IH].
  - cbn. lia.
  - cbn [pack_keys fold_right length]. fold (pack_keys r).
    rewrite Nat2Z.inj_succ, Z.pow_succ_r by lia. lia.
Qed.

Lemma keys_in_range f vs : Forall (fun k => 0 <= k <= 3) (map (key f) vs).
Proof. apply Forall_map, Forall_forall. intros; apply key_range. Qed.

Lemma firstn_snoc {A} (l : list A) j d : (j < length l)%nat ->
  firstn (S j) l = firstn j l ++ [nth j l d].
Proof.
  revert j. induction l as [|x r IH]; intros j H; cbn [length] in H; [lia|].
  destruct j; [reflexivity|].
  cbn [firstn nth app]. f_equal. apply IH. lia.
Qed.

Lemma fvals_length sf inp in_ previous n : length (fvals sf inp in_ previous n) = n.
Proof. unfold fvals. now rewrite length_map, length_seq. Qed.

Lemma fvals_nth sf inp in_ previous n j : (j < n)%nat ->
  nth j (fvals sf inp in_ previous n) 0 = fval sf inp in_ previous (Z.of_nat j).
Proof.
  intros H. unfold fvals.
  rewrite nth_indep with (d' := fval sf inp in_ previous (Z.of_nat 0))
    by (now rewrite length_map, length_seq).
  rewrite (map_nth (fun i => fval sf inp in_ previous (Z.of_nat i))).
  now rewrite seq_nth.
Qed.

(** The key block of at most eight values, as the tail of the SSE4.1
    encoders stores it. *)
Lemma key_block_tail f vs : (1 <= length vs <= 7)%nat ->
  let keys := pack_keys (map (key f) vs) in
  key_block f vs =
  if (4 <? Z.of_nat (length vs)) then [u8 keys; u8 (Z.shiftr keys 8)] else [u8 keys].
Proof.
  intros H keys. subst keys.
  pose proof (keys_in_range f vs) as R.
  unfold key_block.
  destruct vs as [|v0 [|v1 [|v2 [|v3 [|v4 [|v5 [|v6 [|v7 r]]]]]]]];
    cbn [length] in H; try lia; clear H;
    cbn [map] in *;
    repeat match goal with
           | H : Forall _ (_ :: _) |- _ => inversion H; clear H; subst
           end;
    cbn [map chunks chunks_aux length firstn skipn pack_keys fold_right Z.of_nat
         Pos.of_succ_nat Pos.succ Z.ltb Z.compare Pos.compare Pos.compare_cont];
    repeat f_equal; arith.
Qed.

Lemma keys_of_emits {A} (g : A -> list Z) (h : A -> Z) (vs : list A) :
  keys_of (map (fun v => Emit (g v) (h v)) vs) = [].
Proof. induction vs; cbn [map keys_of flat_map app] in *; auto. Qed.

Lemma store_tail_keys_bytes kp m cnt keys :
  store_tail_keys kp m cnt keys =
  store_bytes m kp (if 4 <? cnt then [u8 keys; u8 (Z.shiftr keys 8)] else [u8 keys]).
Proof. unfold store_tail_keys. destruct (4 <? cnt); reflexivity. Qed.

(** ** From the loops to their events *)

Section LayerA.

Variable f : format.
Variable e8 : m128 -> m128 -> list event.
Variable ENCODE8 : cursor -> m128 -> m128 -> cursor.
Variable ENCODE1 : Z -> Z -> mem -> Z -> Z -> Z * Z * mem.
Variable encode1_generic : Z -> mem -> Z -> Z * Z * mem.

Hypothesis H8 : forall c a b, ENCODE8 c a b = run_events (e8 a b) c.
Hypothesis H1 : forall keys dp m v shift,
  is_u32 v -> 0 <= shift <= 12 -> 0 <= keys < 2 ^ shift ->
  ENCODE1 keys dp m v shift =
  (keys + key f v * 2 ^ shift, dp + len f v, store_bytes m dp (le_bytes 4 v)).
Hypothesis Hg : forall dp m v, is_u32 v ->
  encode1_generic dp m v = (key f v, dp + len f v, store_bytes m dp (generic_bytes v)).

(** The scalar tail of the SSE4.1 encoders. *)
Lemma x64_tail_d_events sf inp in_ cnt previous c :
  1 <= cnt <= 7 ->
  (forall i, 0 <= i < cnt -> is_u32 (fval sf inp in_ previous i)) ->
  let c' := x64_tail_d ENCODE1 sf inp in_ cnt previous c in
  let r := run_events (ev_tail f (fvals sf inp in_ previous (Z.to_nat cnt))) c in
  data_ptr c' = data_ptr r /\ buf c' = buf r.
Proof.
  intros Hc Hv. cbv zeta. unfold x64_tail_d.
  destruct (Z.eqb_spec cnt 0); [lia|]. cbn [negb].
  set (vs := fvals sf inp in_ previous (Z.to_nat cnt)).
  assert (Lv : length vs = Z.to_nat cnt) by apply fvals_length.
  set (emits := fun l => map (fun v => Emit (le_bytes 4 v) (len f v)) l).
  match goal with
  | |- context [do_while _ ?b ?cd ?s0] => set (body := b); set (cond := cd); set (s0' := s0)
  end.
  assert (It : forall j, (j <= Z.to_nat cnt)%nat ->
    iter j body s0' =
    (Z.of_nat j, pack_keys (map (key f) (firstn j vs)),
     (if (j =? 0)%nat then previous else rd inp (in_ + Z.of_nat j - 1)),
     data_ptr (run_events (emits (firstn j vs)) c),
     buf (run_events (emits (firstn j vs)) c))).
  { induction j as [|j IH]; intros Hj; [reflexivity|].
    rewrite iter_S, IH by lia. unfold body at 1.
    assert (Ej : nth j vs 0 = fval sf inp in_ previous (Z.of_nat j))
      by (apply fvals_nth; lia).
    assert (Ef : sf (rd inp (in_ + Z.of_nat j))
                    (if (j =? 0)%nat then previous else rd inp (in_ + Z.of_nat j - 1))
                 = nth j vs 0).
    { rewrite Ej. unfold fval.
      destruct j; [reflexivity|].
      destruct (Z.eqb_spec (Z.of_nat (S j)) 0); [lia|]. reflexivity. }
    rewrite Ef.
    rewrite H1.
    - rewrite (firstn_snoc vs j 0) by lia.
      unfold emits. rewrite !map_app. cbn [map].
      rewrite run_events_app. cbn [run_events fold_left run_event data_ptr buf].
      rewrite pack_keys_app, length_map, length_firstn.
      replace (Nat.min j (length vs)) with j
        by lia.
      replace (2 ^ (Z.of_nat j * 2)) with (4 ^ Z.of_nat j)
        by (rewrite Z.mul_comm, Z.pow_mul_r by lia; reflexivity).
      replace (Z.of_nat j + 1) with (Z.of_nat (S j)) by lia.
      destruct (S j =? 0)%nat eqn:E; [apply Nat.eqb_eq in E; lia|].
      replace (in_ + Z.of_nat (S j) - 1) with (in_ + Z.of_nat j) by lia.
      reflexivity.
    - rewrite Ej. apply Hv. lia.
    - lia.
    - pose proof (pack_keys_range (map (key f) (firstn j vs)) (keys_in_range f _)) as R.
      rewrite length_map, length_firstn in R.
      replace (Nat.min j (length vs)) with j in R
        by lia.
      replace (2 ^ (Z.of_nat j * 2)) with (4 ^ Z.of_nat j)
        by (rewrite Z.mul_comm, Z.pow_mul_r by lia; reflexivity).
      exact R. }
  rewrite (do_while_iter body cond (Z.to_nat cnt)).
  - rewrite It by lia.
    assert (Ev : firstn (Z.to_nat cnt) vs = vs)
      by (apply firstn_all2; lia).
    rewrite Ev. unfold ev_tail. fold (emits vs).
    rewrite run_events_app. cbn [run_events fold_left run_event data_ptr buf].
    split; [reflexivity|].
    rewrite store_tail_keys_bytes.
    pose proof (run_events_key_ptr (emits vs) c) as Kp.
    unfold emits in Kp at 2. rewrite keys_of_emits in Kp. cbn [length] in Kp.
    rewrite Kp, Z.add_0_r.
    rewrite (key_block_tail f vs) by lia.
    cbv zeta. rewrite Lv.
    replace (Z.of_nat (Z.to_nat cnt)) with cnt by lia. reflexivity.
  - lia.
  - intros j Hj. rewrite It by lia. unfold cond. apply Z.ltb_lt. lia.
  - rewrite It by lia. unfold cond. apply Z.ltb_ge. lia.
Qed.

(** The 8-element loop of the SSE4.1 encoders with an anchor. *)
Lemma chunks_iter vf inp : forall k in0 prev0 c0,
  iter k
    (fun s : Z * m128 * cursor =>
       let '(in_, prev, c) := s in
       let src_a := load_elems 4 inp in_ in
       let src_b := load_elems 4 inp (in_ + 4) in
       let in_ := in_ + 8 in
       let diff_a := vf src_a prev in
       let diff_b := vf src_b src_a in
       let prev := src_b in
       (in_, prev, ENCODE8 c diff_a diff_b))
    (in0, prev0, c0) =
  (in0 + 8 * Z.of_nat k,
   (if (k =? 0)%nat then prev0 else load_elems 4 inp (in0 + 8 * Z.of_nat k - 4)),
   run_events (ev_chunks e8 vf inp in0 prev0 k) c0).
Proof.
  induction k as [|k IH]; intros in0 prev0 c0.
  - cbn [iter ev_chunks Nat.eqb run_events fold_left].
    now replace (in0 + 8 * Z.of_nat 0) with in0 by lia.
  - cbn [iter]. rewrite IH. cbn [ev_chunks Nat.eqb].
    rewrite run_events_app, H8.
    replace (in0 + 8 + 8 * Z.of_nat k) with (in0 + 8 * Z.of_nat (S k)) by lia.
    replace (if (k =? 0)%nat then load_elems 4 inp (in0 + 4)
             else load_elems 4 inp (in0 + 8 * Z.of_nat (S k) - 4))
      with (load_elems 4 inp (in0 + 8 * Z.of_nat (S k) - 4)); [reflexivity|].
    destruct k; cbn [Nat.eqb]; [f_equal; lia | reflexivity].
Qed.

Lemma enc_d_x64_events vf sf undef inp count out previous :
  0 <= count < 2 ^ 64 ->
  let k := Z.to_nat (count / 8) in
  let c1 := run_events (ev_chunks e8 vf inp 0 (_mm_insert_epi32 undef previous 3) k)
                       (Cursor 0 (_svb_key_block_len count) out) in
  let previous' :=
    if (k =? 0)%nat then previous
    else _mm_extract_epi32 (load_elems 4 inp (8 * Z.of_nat k - 4)) 3 in
  enc_d_x64 ENCODE8 ENCODE1 vf sf undef inp count out previous =
  (let c := x64_tail_d ENCODE1 sf inp (8 * Z.of_nat k) (count mod 8) previous' c1 in
   (data_ptr c, buf c)).
Proof.
  intros Hc. cbv zeta. unfold enc_d_x64.
  rewrite land_7.
  assert (Hk : 0 <= count / 8) by (apply Z.div_pos; lia).
  destruct (Z.leb_spec 8 count) as [H8c|H8c].
  - rewrite land_not7 by lia.
    match goal with
    | |- context [do_while _ ?b ?cd ?s0] => set (body := b); set (cond := cd)
    end.
    rewrite (do_while_iter body cond (Z.to_nat (count / 8))).
    + unfold body. rewrite chunks_iter.
      assert (Z.to_nat (count / 8) <> 0)%nat by (Z.div_mod_to_equations; lia).
      destruct (Z.to_nat (count / 8) =? 0)%nat eqn:E; [apply Nat.eqb_eq in E; lia|].
      cbn [Z.add]. reflexivity.
    + split; [Z.div_mod_to_equations; lia|].
      apply Z2Nat.inj_le; try lia. Z.div_mod_to_equations; lia.
    + intros j Hj. unfold body. rewrite chunks_iter. unfold cond.
      apply Z.ltb_lt. lia.
    + unfold body. rewrite chunks_iter. unfold cond. apply Z.ltb_ge. lia.
  - replace (count / 8) with 0 by (Z.div_mod_to_equations; lia).
    cbn [Z.to_nat ev_chunks run_events fold_left Nat.eqb Z.of_nat Z.mul].
    reflexivity.
Qed.

(** The key bit buffer of the portable encoders. *)
Lemma push_key_pending v pend kp m : (length pend <= 4)%nat ->
  Forall (fun k => 0 <= k <= 3) pend ->
  push_key (key f v) (pack_keys pend) (2 * Z.of_nat (length pend)) kp m =
  if (length pend =? 4)%nat
  then (pack_keys [key f v], 2 * Z.of_nat (length [key f v]), kp + 1,
        store_bytes m kp [pack_keys pend])
  else (pack_keys (pend ++ [key f v]), 2 * Z.of_nat (length (pend ++ [key f v])), kp, m).
Proof.
  intros L R. unfold push_key.
  pose proof (key_range f v) as Kr.
  pose proof (pack_keys_range pend R) as Pr.
  destruct (Nat.eqb_spec (length pend) 4) as [E|E].
  - rewrite E. cbn [Z.of_nat Pos.of_succ_nat Pos.succ Z.mul Pos.mul Z.eqb Pos.eqb negb].
    cbn [pack_keys fold_right length]. repeat f_equal. lia.
  - destruct (Z.eqb_spec (2 * Z.of_nat (length pend)) 8); [lia|]. cbn [negb].
    rewrite pack_keys_app, length_app. cbn [length].
    assert (C : (length pend = 0 \/ length pend = 1 \/ length pend = 2 \/ length pend = 3)%nat)
      by lia.
    assert (P4 : 2 ^ (2 * Z.of_nat (length pend)) = 4 ^ Z.of_nat (length pend))
      by (rewrite Z.pow_mul_r by lia; reflexivity).
    rewrite lor_shiftl_add by (rewrite ?P4; lia).
    rewrite P4.
    repeat f_equal.
    + destruct C as [C|[C|[C|C]]]; rewrite C in *; to_arith; cbn in Pr |- *;
        Z.div_mod_to_equations; lia.
    + destruct C as [C|[C|[C|C]]]; rewrite C in *; reflexivity.
Qed.

(** The element loop of the portable encoders. *)
Lemma generic_loop_events sf inp in_ cnt previous c :
  1 <= cnt ->
  (forall i, 0 <= i < cnt -> is_u32 (fval sf inp in_ previous i)) ->
  let c' := generic_loop encode1_generic sf inp in_ cnt previous c in
  let r := run_events (ev_gen f [] (fvals sf inp in_ previous (Z.to_nat cnt))) c in
  data_ptr c' = data_ptr r /\ buf c' = buf r.
Proof.
  intros Hc Hv. cbv zeta. unfold generic_loop.
  destruct (Z.eqb_spec cnt 0); [lia|]. cbn [negb].
  set (vs := fvals sf inp in_ previous (Z.to_nat cnt)).
  assert (Lv : length vs = Z.to_nat cnt) by apply fvals_length.
  match goal with
  | |- context [do_while _ ?b ?cd ?s0] => set (body := b); set (cond := cd); set (s0' := s0)
  end.
  assert (It : forall j, (j <= Z.to_nat cnt)%nat ->
    exists pend cj,
      iter j body s0' =
        (Z.of_nat j, pack_keys pend, 2 * Z.of_nat (length pend),
         (if (j =? 0)%nat then previous else rd inp (in_ + Z.of_nat j - 1)), cj) /\
      (length pend <= 4)%nat /\ Forall (fun k => 0 <= k <= 3) pend /\
      forall rest, run_events (ev_gen f pend rest) cj =
                   run_events (ev_gen f [] (firstn j vs ++ rest)) c).
  { induction j as [|j IH]; intros Hj.
    - exists [], c. cbn [length firstn app]. repeat split; auto; cbn; lia.
    - destruct IH as (pend & cj & E & L & R & Hrest); [lia|].
      rewrite iter_S, E. unfold body at 1.
      assert (Ej : nth j vs 0 = fval sf inp in_ previous (Z.of_nat j))
        by (apply fvals_nth; lia).
      assert (Ef : sf (rd inp (in_ + Z.of_nat j))
                      (if (j =? 0)%nat then previous else rd inp (in_ + Z.of_nat j - 1))
                   = nth j vs 0).
      { rewrite Ej. unfold fval.
        destruct j; [reflexivity|].
        destruct (Z.eqb_spec (Z.of_nat (S j)) 0); [lia|]. reflexivity. }
      rewrite Ef. rewrite Hg by (rewrite Ej; apply Hv; lia).
      rewrite push_key_pending by assumption.
      replace (Z.of_nat j + 1) with (Z.of_nat (S j)) by lia.
      replace (if (S j =? 0)%nat then previous else rd inp (in_ + Z.of_nat (S j) - 1))
        with (rd inp (in_ + Z.of_nat j)) by (cbn [Nat.eqb]; f_equal; lia).
      pose proof (key_range f (nth j vs 0)) as Kr.
      destruct (Nat.eqb_spec (length pend) 4) as [E4|E4].
      + eexists [key f (nth j vs 0)], _. split; [reflexivity|].
        split; [cbn; lia|]. split; [repeat constructor; lia|].
        intros rest. rewrite (firstn_snoc vs j 0) by lia.
        rewrite <- app_assoc. cbn [app]. rewrite <- Hrest.
        cbn [ev_gen]. rewrite E4. cbn [Nat.eqb].
        rewrite !run_events_cons. reflexivity.
      + eexists (pend ++ [key f (nth j vs 0)]), _. split; [reflexivity|].
        split; [rewrite length_app; cbn [length]; lia|].
        split; [apply Forall_app; split; auto|].
        intros rest. rewrite (firstn_snoc vs j 0) by lia.
        rewrite <- app_assoc. cbn [app]. rewrite <- Hrest.
        cbn [ev_gen].
        destruct (Nat.eqb_spec (length pend) 4); [lia|].
        rewrite !run_events_cons. reflexivity. }
  rewrite (do_while_iter body cond (Z.to_nat cnt)).
  - destruct (It (Z.to_nat cnt)) as (pend & cj & E & L & R & Hrest); [lia|].
    rewrite E.
    specialize (Hrest []). rewrite app_nil_r, firstn_all2 in Hrest by lia.
    rewrite <- Hrest. cbn [ev_gen run_events fold_left run_event data_ptr buf key_ptr].
    split; reflexivity.
  - lia.
  - intros j Hj. destruct (It j) as (pend & cj & E & _); [lia|].
    rewrite E. unfold cond. apply Z.ltb_lt. lia.
  - destruct (It (Z.to_nat cnt)) as (pend & cj & E & _); [lia|].
    rewrite E. unfold cond. apply Z.ltb_ge. lia.
Qed.

End LayerA.

(** ** Xmmwords of four 32-bit lanes *)

Lemma le_value_bytes4 a : is_u32 a -> le_value (le_bytes 4 a) = a.
Proof.
  unfold is_u32. intros H. rewrite le_value_bytes.
  change (8 * Z.of_nat 4) with 32. apply Z.mod_small; lia.
Qed.

Lemma lanes4_unlanes a0 a1 a2 a3 :
  is_u32 a0 -> is_u32 a1 -> is_u32 a2 -> is_u32 a3 ->
  lanes 4 (unlanes 4 [a0; a1; a2; a3]) = [a0; a1; a2; a3].
Proof.
  intros H0 H1 H2 H3.
  rewrite <- (le_value_bytes4 a0 H0) at 2. rewrite <- (le_value_bytes4 a1 H1) at 2.
  rewrite <- (le_value_bytes4 a2 H2) at 2. rewrite <- (le_value_bytes4 a3 H3) at 2.
  reflexivity.
Qed.

Lemma load_elems4 inp i :
  load_elems 4 inp i = unlanes 4 [rd inp i; rd inp (i + 1); rd inp (i + 2); rd inp (i + 3)].
Proof.
  unfold load_elems. cbn [Nat.div Nat.divmod fst seq map Z.of_nat Pos.of_succ_nat Pos.succ].
  now rewrite Z.add_0_r.
Qed.

Lemma unlanes4_length a0 a1 a2 a3 : length (unlanes 4 [a0; a1; a2; a3]) = 16%nat.
Proof. reflexivity. Qed.

Lemma unpacklo_epi32_lanes a0 a1 a2 a3 b0 b1 b2 b3 :
  _mm_unpacklo_epi32 (unlanes 4 [a0; a1; a2; a3]) (unlanes 4 [b0; b1; b2; b3]) =
  unlanes 4 [a0; b0; a1; b1].
Proof. reflexivity. Qed.

Lemma unpackhi_epi32_lanes a0 a1 a2 a3 b0 b1 b2 b3 :
  _mm_unpackhi_epi32 (unlanes 4 [a0; a1; a2; a3]) (unlanes 4 [b0; b1; b2; b3]) =
  unlanes 4 [a2; b2; a3; b3].
Proof. reflexivity. Qed.

Lemma unpacklo_epi64_lanes a0 a1 a2 a3 b0 b1 b2 b3 :
  _mm_unpacklo_epi64 (unlanes 4 [a0; a1; a2; a3]) (unlanes 4 [b0; b1; b2; b3]) =
  unlanes 4 [a0; a1; b0; b1].
Proof. reflexivity. Qed.

Lemma unpackhi_epi64_lanes a0 a1 a2 a3 b0 b1 b2 b3 :
  _mm_unpackhi_epi64 (unlanes 4 [a0; a1; a2; a3]) (unlanes 4 [b0; b1; b2; b3]) =
  unlanes 4 [a2; a3; b2; b3].
Proof. reflexivity. Qed.

(** [SVB_TRANSPOSE] transposes the 4x4 matrix of lanes. *)
Lemma SVB_TRANSPOSE_lanes a0 a1 a2 a3 b0 b1 b2 b3 c0 c1 c2 c3 d0 d1 d2 d3 :
  SVB_TRANSPOSE (unlanes 4 [a0; a1; a2; a3]) (unlanes 4 [b0; b1; b2; b3])
                (unlanes 4 [c0; c1; c2; c3]) (unlanes 4 [d0; d1; d2; d3]) =
  (unlanes 4 [a0; b0; c0; d0], unlanes 4 [a1; b1; c1; d1],
   unlanes 4 [a2; b2; c2; d2], unlanes 4 [a3; b3; c3; d3]).
Proof. reflexivity. Qed.

Lemma sub_epi32_lanes a0 a1 a2 a3 b0 b1 b2 b3 :
  is_u32 a0 -> is_u32 a1 -> is_u32 a2 -> is_u32 a3 ->
  is_u32 b0 -> is_u32 b1 -> is_u32 b2 -> is_u32 b3 ->
  _mm_sub_epi32 (unlanes 4 [a0; a1; a2; a3]) (unlanes 4 [b0; b1; b2; b3]) =
  unlanes 4 [_delta_encode_32 a0 b0; _delta_encode_32 a1 b1;
             _delta_encode_32 a2 b2; _delta_encode_32 a3 b3].
Proof.
  intros. unfold _mm_sub_epi32. rewrite !lanes4_unlanes by assumption. reflexivity.
Qed.

Lemma top_lane_unlanes a0 a1 a2 a3 : top_lane (unlanes 4 [a0; a1; a2; a3]) a3.
Proof. split; reflexivity. Qed.

Lemma top_lane_insert undef p : length undef = 16%nat ->
  top_lane (_mm_insert_epi32 undef p 3) p.
Proof.
  intros L. unfold _mm_insert_epi32.
  do 17 (destruct undef as [|? undef]; cbn [length] in L; try lia).
  split; reflexivity.
Qed.

Lemma alignr12_lanes a0 a1 a2 a3 prev p : top_lane prev p ->
  _mm_alignr_epi8 (unlanes 4 [a0; a1; a2; a3]) prev 12 = unlanes 4 [p; a0; a1; a2].
Proof.
  intros [L E]. unfold _mm_alignr_epi8.
  rewrite <- (firstn_skipn 12 prev) at 1. rewrite E.
  assert (L12 : length (firstn 12 prev) = 12%nat) by (rewrite length_firstn; lia).
  rewrite <- app_assoc.
  rewrite skipn_app, L12, Nat.sub_diag, skipn_all2 by lia.
  reflexivity.
Qed.

Lemma extract3_lanes a0 a1 a2 a3 : is_u32 a3 ->
  _mm_extract_epi32 (unlanes 4 [a0; a1; a2; a3]) 3 = a3.
Proof.
  intros H. unfold _mm_extract_epi32.
  change (firstn 4 (skipn (4 * 3) (unlanes 4 [a0; a1; a2; a3]))) with (le_bytes 4 a3).
  now apply le_value_bytes4.
Qed.

Lemma delta_encode_epi32_lanes a0 a1 a2 a3 prev p :
  is_u32 a0 -> is_u32 a1 -> is_u32 a2 -> is_u32 a3 -> is_u32 p -> top_lane prev p ->
  _mm_delta_encode_epi32 (unlanes 4 [a0; a1; a2; a3]) prev =
  unlanes 4 [_delta_encode_32 a0 p; _delta_encode_32 a1 a0;
             _delta_encode_32 a2 a1; _delta_encode_32 a3 a2].
Proof.
  intros. unfold _mm_delta_encode_epi32.
  rewrite (alignr12_lanes _ _ _ _ prev p) by assumption.
  now apply sub_epi32_lanes.
Qed.

Lemma zigzag_encode_alt v : is_u32 v ->
  _zigzag_encode_32 v =
  Z.lxor (u32 (v + v)) (if signed 32 v <? signed 32 0 then 0xFFFFFFFF else 0).
Proof.
  unfold is_u32. intros H. unfold _zigzag_encode_32. f_equal.
  change (signed 32 0) with 0.
  destruct (Z.lt_ge_cases v (2 ^ 31)).
  - rewrite signed_small by (change (32 - 1) with 31; lia).
    destruct (Z.ltb_spec v 0); [lia|]. arith.
  - rewrite signed_big by (change (32 - 1) with 31; lia).
    destruct (Z.ltb_spec (v - 2 ^ 32) 0); [|lia]. arith.
Qed.

Lemma lxor_bytes4 x y : 0 <= x -> 0 <= y ->
  map2 Z.lxor (le_bytes 4 x) (le_bytes 4 y) = le_bytes 4 (Z.lxor x y).
Proof.
  intros Hx Hy.
  assert (B : forall a b, Z.lxor (u8 a) (u8 b) = u8 (Z.lxor a b)).
  { intros a b. unfold u8. rewrite <- !Z.land_ones by lia.
    apply Z.bits_inj'; intros i Hi.
    rewrite !Z.land_spec, !Z.lxor_spec, !Z.land_spec.
    destruct (Z.testbit (Z.ones 8) i); now rewrite ?andb_true_r, ?andb_false_r. }
  rewrite !le_bytes_4. unfold map2. cbn [combine map fst snd].
  rewrite !B. rewrite <- !Z.shiftr_lxor. reflexivity.
Qed.

Lemma zigzag_encode_epi32_lanes a0 a1 a2 a3 :
  is_u32 a0 -> is_u32 a1 -> is_u32 a2 -> is_u32 a3 ->
  _mm_zigzag_encode_epi32 (unlanes 4 [a0; a1; a2; a3]) =
  unlanes 4 [_zigzag_encode_32 a0; _zigzag_encode_32 a1;
             _zigzag_encode_32 a2; _zigzag_encode_32 a3].
Proof.
  intros H0 H1 H2 H3. unfold _mm_zigzag_encode_epi32, _mm_cmpgt_epi32, _mm_add_epi32.
  rewrite !lanes4_unlanes by assumption.
  change (lanes 4 _mm_setzero_si128) with [0; 0; 0; 0].
  unfold map2. cbn [combine map fst snd].
  rewrite !zigzag_encode_alt by assumption.
  unfold _mm_xor_si128, unlanes. cbn [flat_map]. rewrite !app_nil_r.
  fold (@map2 Z Z Z Z.lxor).
  assert (M : forall (a b c d : list Z), length a = length c ->
            map2 Z.lxor (a ++ b) (c ++ d) = map2 Z.lxor a c ++ map2 Z.lxor b d).
  { intros a b c d L. unfold map2.
    revert c L. induction a as [|x a IH]; intros [|y c] L; cbn [length] in L;
      try lia; [reflexivity|].
    cbn [app combine map]. f_equal. apply IH. lia. }
  rewrite !M by (now rewrite !le_bytes_length).
  assert (P : forall v, 0 <= u32 (v + v)) by (intros; apply u32_range).
  assert (Q : forall v, 0 <= (if signed 32 v <? signed 32 0 then 0xFFFFFFFF else 0))
    by (intros v; destruct (signed 32 v <? signed 32 0); lia).
  rewrite !lxor_bytes4 by auto. reflexivity.
Qed.

(** ** The filtered values *)

Lemma fvals_app sf inp in_ p a n : (1 <= a)%nat ->
  fvals sf inp in_ p (a + n) =
  fvals sf inp in_ p a ++
  fvals sf inp (in_ + Z.of_nat a) (rd inp (in_ + Z.of_nat a - 1)) n.
Proof.
  intros Ha. unfold fvals. rewrite seq_app, map_app. f_equal.
  cbn [Nat.add].
  assert (G : forall m s, map (fun i => fval sf inp in_ p (Z.of_nat i)) (seq (a + s) m) =
          map (fun i => fval sf inp (in_ + Z.of_nat a) (rd inp (in_ + Z.of_nat a - 1))
                             (Z.of_nat i)) (seq s m)).
  { induction m as [|m IH]; intros s; [reflexivity|].
    cbn [seq map]. f_equal.
    - unfold fval.
      replace (in_ + Z.of_nat a + Z.of_nat s) with (in_ + Z.of_nat (a + s)) by lia.
      f_equal.
      destruct (Z.eqb_spec (Z.of_nat (a + s)) 0); [lia|].
      destruct (Z.eqb_spec (Z.of_nat s) 0); f_equal; lia.
    - replace (S (a + s)) with (a + S s)%nat by lia. apply IH. }
  rewrite <- (G n 0%nat). now rewrite Nat.add_0_r.
Qed.

Lemma fvals_8 sf inp in_ p :
  fvals sf inp in_ p 8 =
  [sf (rd inp in_) p; sf (rd inp (in_ + 1)) (rd inp in_);
   sf (rd inp (in_ + 2)) (rd inp (in_ + 1)); sf (rd inp (in_ + 3)) (rd inp (in_ + 2));
   sf (rd inp (in_ + 4)) (rd inp (in_ + 3)); sf (rd inp (in_ + 5)) (rd inp (in_ + 4));
   sf (rd inp (in_ + 6)) (rd inp (in_ + 5)); sf (rd inp (in_ + 7)) (rd inp (in_ + 6))].
Proof.
  unfold fvals, fval.
  cbn [seq map Z.of_nat Pos.of_succ_nat Pos.succ Z.eqb Pos.eqb].
  rewrite Z.add_0_r.
  replace (in_ + 1 - 1) with in_ by lia.
  replace (in_ + 2 - 1) with (in_ + 1) by lia.
  replace (in_ + 3 - 1) with (in_ + 2) by lia.
  replace (in_ + 4 - 1) with (in_ + 3) by lia.
  replace (in_ + 5 - 1) with (in_ + 4) by lia.
  replace (in_ + 6 - 1) with (in_ + 5) by lia.
  replace (in_ + 7 - 1) with (in_ + 6) by lia.
  reflexivity.
Qed.

(** The filtered values by index are the filtered list. *)
Lemma rd_cons v l i : 0 <= i -> rd (v :: l) (i + 1) = rd l i.
Proof.
  intros H. unfold rd.
  destruct (Z.ltb_spec (i + 1) 0); [lia|]. destruct (Z.ltb_spec i 0); [lia|].
  replace (Z.to_nat (i + 1)) with (S (Z.to_nat i)) by lia. reflexivity.
Qed.

Lemma rd_0 v l : rd (v :: l) 0 = v.
Proof. reflexivity. Qed.

Lemma fvals_deltas sf : forall l p,
  fvals sf l 0 p (length l) = deltas sf p l.
Proof.
  induction l as [|v r IH]; intros p; [reflexivity|].
  cbn [length deltas]. replace (S (length r)) with (1 + length r)%nat by lia.
  rewrite fvals_app by lia. cbn [Z.of_nat Pos.of_succ_nat Z.add Z.sub Z.opp Z.pos_sub app].
  change (fvals sf (v :: r) 0 p 1) with [sf v p]. cbn [app]. f_equal.
  rewrite rd_0. rewrite <- IH.
  unfold fvals. apply map_ext_in. intros i Hi. apply in_seq in Hi.
  unfold fval.
  replace (1 + Z.of_nat i) with (Z.of_nat i + 1) by lia.
  replace (0 + Z.of_nat i) with (Z.of_nat i) by lia.
  rewrite rd_cons by lia. f_equal.
  destruct (Z.eqb_spec (Z.of_nat i) 0) as [E|E]; [reflexivity|].
  replace (Z.of_nat i + 1 - 1) with (Z.of_nat i - 1 + 1) by lia.
  rewrite rd_cons by lia. reflexivity.
Qed.

Lemma rd_range inp i : Forall is_u32 inp -> is_u32 (rd inp i).
Proof.
  intros H. unfold rd. destruct (i <? 0); [unfold is_u32; lia|].
  destruct (Nat.lt_ge_cases (Z.to_nat i) (length inp)).
  - rewrite Forall_forall in H. apply H. now apply nth_In.
  - rewrite nth_overflow by lia. unfold is_u32; lia.
Qed.

(** ** From the events of the loops to events on the filtered values *)

Section LayerA2.

Variable f : format.
Variable e8 : m128 -> m128 -> list event.

Lemma ev_x64_app8 v0 v1 v2 v3 v4 v5 v6 v7 r :
  ev_x64 f e8 (v0 :: v1 :: v2 :: v3 :: v4 :: v5 :: v6 :: v7 :: r) =
  e8 (unlanes 4 [v0; v1; v2; v3]) (unlanes 4 [v4; v5; v6; v7]) ++ ev_x64 f e8 r.
Proof. reflexivity. Qed.

Lemma ev_chunks_vals vf sf inp : vf_ok vf sf -> Forall is_u32 inp ->
  forall k in_ prev p, is_u32 p -> top_lane prev p ->
  ev_chunks e8 vf inp in_ prev k = ev_x64 f e8 (fvals sf inp in_ p (8 * k)).
Proof.
  intros Hvf Hin. induction k as [|k IH]; intros in_ prev p Hp Ht; [reflexivity|].
  replace (8 * S k)%nat with (8 + 8 * k)%nat by lia.
  rewrite fvals_app by lia. rewrite fvals_8. cbn [app ev_chunks].
  rewrite ev_x64_app8.
  rewrite !load_elems4.
  rewrite (Hvf _ _ _ _ prev p); try apply rd_range; auto.
  replace (in_ + 4 + 1) with (in_ + 5) by lia.
  replace (in_ + 4 + 2) with (in_ + 6) by lia.
  replace (in_ + 4 + 3) with (in_ + 7) by lia.
  rewrite (Hvf _ _ _ _ _ (rd inp (in_ + 3))); try apply rd_range; auto;
    [|apply top_lane_unlanes].
  f_equal.
  change (Z.of_nat 8) with 8. replace (in_ + 8 - 1) with (in_ + 7) by lia.
  apply IH; [apply rd_range; auto|apply top_lane_unlanes].
Qed.

End LayerA2.

(** The vector filters compute the scalar ones. *)
Lemma vf_ok_delta : vf_ok _mm_delta_encode_epi32 _delta_encode_32.
Proof. unfold vf_ok. intros. now apply delta_encode_epi32_lanes. Qed.

Lemma vf_ok_delta_zigzag : vf_ok _mm_delta_zigzag_encode_epi32 _delta_zigzag_encode_32.
Proof.
  unfold vf_ok, _mm_delta_zigzag_encode_epi32, _delta_zigzag_encode_32. intros.
  rewrite (delta_encode_epi32_lanes _ _ _ _ prev p) by assumption.
  apply zigzag_encode_epi32_lanes; apply delta_encode_range.
Qed.

Lemma vf_ok_plain : vf_ok (fun v _ => no_vfilter v) (fun x _ => no_filter x).
Proof. unfold vf_ok. reflexivity. Qed.

Lemma vf_ok_zigzag :
  vf_ok (fun v _ => _mm_zigzag_encode_epi32 v) (fun x _ => _zigzag_encode_32 x).
Proof. unfold vf_ok. intros. now apply zigzag_encode_epi32_lanes. Qed.

(** ** The SSE4.1 encoders with an anchor as event lists *)

Section X64.

Variable f : format.
Variable ENCODE8 : cursor -> m128 -> m128 -> cursor.
Variable ENCODE1 : Z -> Z -> mem -> Z -> Z -> Z * Z * mem.

Hypothesis H8 : forall c a b, ENCODE8 c a b = run_events (e8 f a b) c.
Hypothesis H1 : forall keys dp m v shift,
  is_u32 v -> 0 <= shift <= 12 -> 0 <= keys < 2 ^ shift ->
  ENCODE1 keys dp m v shift =
  (keys + key f v * 2 ^ shift, dp + len f v, store_bytes m dp (le_bytes 4 v)).

Lemma ev_x64_tail vs : (1 <= length vs <= 7)%nat -> ev_x64 f (e8 f) vs = ev_tail f vs.
Proof.
  intros H.
  destruct vs as [|v0 [|v1 [|v2 [|v3 [|v4 [|v5 [|v6 [|v7 r]]]]]]]];
    cbn [length] in H; try lia; reflexivity.
Qed.

Lemma ev_x64_app : forall k a b, length a = (8 * k)%nat ->
  ev_x64 f (e8 f) (a ++ b) = ev_x64 f (e8 f) a ++ ev_x64 f (e8 f) b.
Proof.
  induction k as [|k IH]; intros a b L.
  - destruct a; [reflexivity|cbn [length] in L; lia].
  - destruct a as [|v0 [|v1 [|v2 [|v3 [|v4 [|v5 [|v6 [|v7 r]]]]]]]];
      cbn [length] in L; try lia.
    cbn [app]. rewrite !ev_x64_app8, <- app_assoc. f_equal.
    apply IH. lia.
Qed.

Lemma fvals_range sf inp in_ p n :
  (forall v q, is_u32 v -> is_u32 q -> is_u32 (sf v q)) ->
  Forall is_u32 inp -> is_u32 p ->
  Forall is_u32 (fvals sf inp in_ p n).
Proof.
  intros Hsf Hin Hp. unfold fvals. apply Forall_map, Forall_forall. intros i _.
  unfold fval. apply Hsf; [now apply rd_range|].
  destruct (Z.of_nat i =? 0); [assumption | now apply rd_range].
Qed.

Lemma enc_d_x64_values vf sf undef inp out previous :
  vf_ok vf sf ->
  (forall v q, is_u32 v -> is_u32 q -> is_u32 (sf v q)) ->
  Forall is_u32 inp -> is_u32 previous -> length undef = 16%nat ->
  Z.of_nat (length inp) < 2 ^ 64 ->
  enc_d_x64 ENCODE8 ENCODE1 vf sf undef inp (Z.of_nat (length inp)) out previous =
  (let c := run_events (ev_x64 f (e8 f) (deltas sf previous inp))
                       (Cursor 0 (_svb_key_block_len (Z.of_nat (length inp))) out) in
   (data_ptr c, buf c)).
Proof.
  intros Hvf Hsf Hin Hp Hu Hn.
  set (N := Z.of_nat (length inp)) in *.
  rewrite (enc_d_x64_events (e8 f) ENCODE8 ENCODE1 H8) by lia.
  cbv zeta.
  set (k := Z.to_nat (N / 8)).
  assert (Hk : Z.of_nat k = N / 8)
    by (subst k; rewrite Z2Nat.id; [reflexivity|apply Z.div_pos; lia]).
  clearbody k.
  rewrite (ev_chunks_vals f (e8 f) vf sf inp Hvf Hin k 0 _ previous Hp
             (top_lane_insert undef previous Hu)).
  set (c0 := Cursor 0 (_svb_key_block_len N) out).
  set (p' := if (k =? 0)%nat then previous
             else _mm_extract_epi32 (load_elems 4 inp (8 * Z.of_nat k - 4)) 3).
  assert (Lin : length inp = (8 * k + Z.to_nat (N mod 8))%nat)
    by (subst N; Z.div_mod_to_equations; lia).
  assert (Ep : (1 <= k)%nat -> p' = rd inp (0 + Z.of_nat (8 * k) - 1)).
  { intros H. subst p'. destruct (Nat.eqb_spec k 0); [lia|].
    rewrite load_elems4, extract3_lanes by (now apply rd_range). f_equal. lia. }
  rewrite <- (fvals_deltas sf inp previous).
  destruct (Z.eq_dec (N mod 8) 0) as [E0|E0].
  - rewrite E0. unfold x64_tail_d. cbn [Z.eqb negb].
    rewrite Lin, E0. cbn [Z.to_nat]. now rewrite Nat.add_0_r.
  - assert (Hc : 1 <= N mod 8 <= 7) by (Z.div_mod_to_equations; lia).
    assert (Hr : forall i, 0 <= i < N mod 8 ->
                 is_u32 (fval sf inp (8 * Z.of_nat k) p' i)).
    { intros i Hi. unfold fval. apply Hsf; [now apply rd_range|].
      destruct (i =? 0); [|now apply rd_range].
      subst p'. destruct (k =? 0)%nat; [assumption|].
      rewrite load_elems4, extract3_lanes; now apply rd_range. }
    destruct (x64_tail_d_events f ENCODE1 H1 sf inp (8 * Z.of_nat k) (N mod 8) p'
                (run_events (ev_x64 f (e8 f) (fvals sf inp 0 previous (8 * k))) c0)
                Hc Hr) as [Ed Eb].
    rewrite Ed, Eb. rewrite <- run_events_app.
    rewrite Lin.
    destruct (Nat.eq_dec k 0) as [K0|K0].
    + subst k. change (8 * 0)%nat with 0%nat.
      change (fvals sf inp 0 previous 0) with (@nil Z).
      cbn [ev_x64 app Nat.add]. subst p'. cbn [Nat.eqb].
      change (8 * Z.of_nat 0) with 0.
      rewrite ev_x64_tail by (rewrite fvals_length; lia). reflexivity.
    + rewrite fvals_app by lia.
      rewrite (ev_x64_app k) by (now rewrite fvals_length).
      rewrite <- Ep by lia.
      replace (0 + Z.of_nat (8 * k)) with (8 * Z.of_nat k) by lia.
      rewrite (ev_x64_tail (fvals _ _ _ _ (Z.to_nat (N mod 8))))
        by (rewrite fvals_length; lia).
      reflexivity.
Qed.

End X64.

(** ** The SSE4.1 encoders without an anchor *)

Lemma do_while_sim {S T} (R : S -> T -> Prop)
    (b1 : S -> S) (c1 : S -> bool) (b2 : T -> T) (c2 : T -> bool) :
  (forall s t, R s t -> R (b1 s) (b2 t)) ->
  (forall s t, R s t -> c1 s = c2 t) ->
  forall fuel s t, R s t -> R (do_while fuel b1 c1 s) (do_while fuel b2 c2 t).
Proof.
  intros Hb Hc. induction fuel as [|fuel IH]; intros s t H; [exact H|].
  cbn [do_while]. pose proof (Hb s t H) as H'.
  rewrite (Hc _ _ H'). destruct (c2 (b2 t)); auto.
Qed.

Lemma deltas_map sf p l : deltas (fun x _ => sf x) p l = map sf l.
Proof. revert p. induction l as [|v r IH]; intros p; cbn [deltas map]; congruence. Qed.

(** They are the encoders with an anchor for a filter that ignores it. *)
Lemma enc_x64_as_d ENCODE8 ENCODE1 vf sf undef inp count out :
  enc_x64 ENCODE8 ENCODE1 vf sf inp count out =
  enc_d_x64 ENCODE8 ENCODE1 (fun v _ => vf v) (fun x _ => sf x) undef inp count out 0.
Proof.
  unfold enc_x64, enc_d_x64.
  set (c0 := Cursor 0 (_svb_key_block_len count) out).
  assert (T : forall in_ cnt p c,
    x64_tail ENCODE1 sf inp in_ cnt c =
    x64_tail_d ENCODE1 (fun x _ => sf x) inp in_ cnt p c).
  { intros in_ cnt p c. unfold x64_tail, x64_tail_d.
    destruct (negb (cnt =? 0)); [|reflexivity].
    match goal with
    | |- context [@do_while (Z * Z * Z * mem) _ ?b1 ?c1 ?s1] =>
      match goal with
      | |- context [@do_while (Z * Z * Z * Z * mem) _ ?b2 ?c2 ?s2] =>
        pose proof (do_while_sim
          (fun (s : Z * Z * Z * mem) (t : Z * Z * Z * Z * mem) =>
             let '(i, keys, dp, m) := s in
             let '(i', keys', _, dp', m') := t in
             i = i' /\ keys = keys' /\ dp = dp' /\ m = m') b1 c1 b2 c2) as Sim;
        specialize (fun Hb Hc => Sim Hb Hc (Z.to_nat cnt) s1 s2)
      end
    end.
    match type of Sim with
    | _ -> _ -> _ -> ?R ?x ?y =>
        assert (G : R x y); [|clear Sim; cbv beta in G; destruct x as [[[i keys] dp] m];
                               destruct y as [[[[i' keys'] pr'] dp'] m'];
                               destruct G as (-> & -> & -> & ->); reflexivity]
    end.
    apply Sim.
    - intros [[[i keys] dp] m] [[[[i' keys'] pr'] dp'] m'] (-> & -> & -> & ->).
      destruct (ENCODE1 keys' dp' m' (sf (rd inp (in_ + i'))) (i' * 2)) as [[k d] mm].
      auto.
    - intros [[[i keys] dp] m] [[[[i' keys'] pr'] dp'] m'] (-> & -> & -> & ->).
      reflexivity.
    - cbv beta. auto. }
  destruct (8 <=? count).
  - match goal with
    | |- context [@do_while (Z * cursor) _ ?b1 ?c1 ?s1] =>
      match goal with
      | |- context [@do_while (Z * m128 * cursor) _ ?b2 ?c2 ?s2] =>
        pose proof (do_while_sim
          (fun (s : Z * cursor) (t : Z * m128 * cursor) =>
             let '(i, c) := s in let '(i', _, c') := t in i = i' /\ c = c')
          b1 c1 b2 c2) as Sim;
        specialize (fun Hb Hc => Sim Hb Hc (Z.to_nat count) s1 s2)
      end
    end.
    match type of Sim with
    | _ -> _ -> _ -> ?R ?x ?y =>
        assert (G : R x y); [|clear Sim; cbv beta in G; destruct x as [i c];
                               destruct y as [[i' pr'] c'];
                               destruct G as (-> & ->); apply f_equal2; f_equal; apply T]
    end.
    apply Sim.
    + intros [i c] [[i' pr'] c'] (-> & ->). auto.
    + intros [i c] [[i' pr'] c'] (-> & ->). reflexivity.
    + cbv beta. auto.
  - apply f_equal2; f_equal; apply T.
Qed.

(** ** The SSE4.1 delta-transpose encoders *)

Section DtX64.

Variable f : format.
Variable ENCODE8 : cursor -> m128 -> m128 -> cursor.
Variable ENCODE1 : Z -> Z -> mem -> Z -> Z -> Z * Z * mem.

Hypothesis H8 : forall c a b, ENCODE8 c a b = run_events (e8 f a b) c.
Hypothesis H1 : forall keys dp m v shift,
  is_u32 v -> 0 <= shift <= 12 -> 0 <= keys < 2 ^ shift ->
  ENCODE1 keys dp m v shift =
  (keys + key f v * 2 ^ shift, dp + len f v, store_bytes m dp (le_bytes 4 v)).

Lemma dt_block_x64_events inp in_ prev c :
  dt_block_x64 ENCODE8 inp in_ prev c =
  (dt_block_prev inp in_, run_events (ev_dt_block (e8 f) inp in_ prev) c).
Proof.
  unfold dt_block_x64, ev_dt_block, dt_block_prev, SVB_TRANSPOSE.
  cbv beta iota zeta.
  rewrite !H8. rewrite !run_events_app. reflexivity.
Qed.

Lemma dt_blocks_iter inp : forall k in0 prev0 c0,
  iter k
    (fun s : Z * m128 * cursor =>
       let '(in_, prev, c) := s in
       let '(prev, c) := dt_block_x64 ENCODE8 inp in_ prev c in
       (in_ + 64, prev, c))
    (in0, prev0, c0) =
  (in0 + 64 * Z.of_nat k,
   (if (k =? 0)%nat then prev0 else dt_block_prev inp (in0 + 64 * Z.of_nat k - 64)),
   run_events (ev_dt_blocks (e8 f) inp in0 prev0 k) c0).
Proof.
  induction k as [|k IH]; intros in0 prev0 c0.
  - cbn [iter ev_dt_blocks Nat.eqb run_events fold_left].
    now replace (in0 + 64 * Z.of_nat 0) with in0 by lia.
  - cbn [iter]. rewrite dt_block_x64_events, IH. cbn [ev_dt_blocks Nat.eqb].
    rewrite run_events_app.
    replace (in0 + 64 + 64 * Z.of_nat k) with (in0 + 64 * Z.of_nat (S k)) by lia.
    replace (if (k =? 0)%nat then dt_block_prev inp in0
             else dt_block_prev inp (in0 + 64 * Z.of_nat (S k) - 64))
      with (dt_block_prev inp (in0 + 64 * Z.of_nat (S k) - 64)); [reflexivity|].
    destruct k; cbn [Nat.eqb]; [f_equal; lia | reflexivity].
Qed.

Lemma chunks_iter_dt inp : forall k in0 prev0 c0,
  iter k
    (fun s : Z * m128 * cursor =>
       let '(in_, prev, c) := s in
       let src_a := load_elems 4 inp in_ in
       let src_b := load_elems 4 inp (in_ + 4) in
       let diff_a := _mm_delta_encode_epi32 src_a prev in
       let diff_b := _mm_delta_encode_epi32 src_b src_a in
       let prev := src_b in
       (in_ + 8, prev, ENCODE8 c diff_a diff_b))
    (in0, prev0, c0) =
  (in0 + 8 * Z.of_nat k,
   (if (k =? 0)%nat then prev0 else load_elems 4 inp (in0 + 8 * Z.of_nat k - 4)),
   run_events (ev_chunks (e8 f) _mm_delta_encode_epi32 inp in0 prev0 k) c0).
Proof.
  induction k as [|k IH]; intros in0 prev0 c0.
  - cbn [iter ev_chunks Nat.eqb run_events fold_left].
    now replace (in0 + 8 * Z.of_nat 0) with in0 by lia.
  - cbn [iter]. rewrite IH. cbn [ev_chunks Nat.eqb].
    rewrite run_events_app, H8.
    replace (in0 + 8 + 8 * Z.of_nat k) with (in0 + 8 * Z.of_nat (S k)) by lia.
    replace (if (k =? 0)%nat then load_elems 4 inp (in0 + 4)
             else load_elems 4 inp (in0 + 8 * Z.of_nat (S k) - 4))
      with (load_elems 4 inp (in0 + 8 * Z.of_nat (S k) - 4)); [reflexivity|].
    destruct k; cbn [Nat.eqb]; [f_equal; lia | reflexivity].
Qed.

Lemma enc_dt_x64_events undef inp count out previous :
  0 <= count < 2 ^ 64 ->
  let k64 := Z.to_nat (count / 64) in
  let k8 := Z.to_nat ((count / 8) mod 8) in
  let prev0 := _mm_insert_epi32 undef previous 3 in
  let prev1 := if (k64 =? 0)%nat then prev0
               else dt_block_prev inp (64 * Z.of_nat k64 - 64) in
  let in1 := 64 * Z.of_nat k64 in
  let prev2 := if (k8 =? 0)%nat then prev1
               else load_elems 4 inp (in1 + 8 * Z.of_nat k8 - 4) in
  let c2 := run_events (ev_dt_blocks (e8 f) inp 0 prev0 k64 ++
                        ev_chunks (e8 f) _mm_delta_encode_epi32 inp in1 prev1 k8)
                       (Cursor 0 (u32 (_svb_key_block_len count)) out) in
  let previous' := if 8 <=? count then _mm_extract_epi32 prev2 3 else previous in
  enc_dt_x64 ENCODE8 ENCODE1 undef inp count out previous =
  (let c := x64_tail_d ENCODE1 _delta_encode_32 inp (in1 + 8 * Z.of_nat k8)
                       (count mod 8) previous' c2 in
   (data_ptr c, buf c)).
Proof.
  intros Hc. cbv zeta. unfold enc_dt_x64.
  rewrite land_7, land_56.
  assert (Hk64 : 0 <= count / 64) by (apply Z.div_pos; lia).
  assert (Hk8 : 0 <= (count / 8) mod 8 < 8) by (apply Z.mod_pos_bound; lia).
  destruct (Z.leb_spec 8 count) as [H8c|H8c].
  - rewrite land_not63 by lia.
    match goal with
    | |- context [while _ ?cd ?b (0, ?p0, ?c0)] =>
        rewrite (while_iter cd b (Z.to_nat (count / 64)) (Z.to_nat count) (0, p0, c0))
    end.
    + rewrite dt_blocks_iter. cbn [Z.add].
      match goal with
      | |- context [while _ ?cd ?b (?i0, ?p0, ?c0)] =>
          rewrite (while_iter cd b (Z.to_nat ((count / 8) mod 8)) (Z.to_nat count)
                     (i0, p0, c0))
      end.
      * rewrite chunks_iter_dt. rewrite run_events_app.
        rewrite !Z2Nat.id by lia.
        replace (8 * ((count / 8) mod 8)) with (8 * ((count / 8) mod 8)) by lia.
        reflexivity.
      * apply Z2Nat.inj_le; try lia.
      * intros j Hj. rewrite chunks_iter_dt. apply negb_true_iff, Z.eqb_neq.
        rewrite Z2Nat.id by lia. lia.
      * intros _. rewrite chunks_iter_dt. apply negb_false_iff, Z.eqb_eq.
        rewrite !Z2Nat.id by lia. lia.
    + apply Z2Nat.inj_le; try lia. Z.div_mod_to_equations; lia.
    + intros j Hj. rewrite dt_blocks_iter. apply negb_true_iff, Z.eqb_neq. lia.
    + intros _. rewrite dt_blocks_iter. apply negb_false_iff, Z.eqb_eq.
      rewrite Z2Nat.id by lia. lia.
  - replace (count / 64) with 0 by (Z.div_mod_to_equations; lia).
    replace (count / 8) with 0 by (Z.div_mod_to_equations; lia).
    change (0 mod 8) with 0.
    cbn [Z.to_nat ev_dt_blocks ev_chunks app run_events fold_left Nat.eqb Z.of_nat Z.mul Z.add].
    reflexivity.
Qed.

End DtX64.

(** The tile order of a block given by index. *)
Lemma tile_order_map (g : nat -> Z) :
  tile_order (map g (seq 0 64)) =
  map g [0; 16; 32; 48; 1; 17; 33; 49; 2; 18; 34; 50; 3; 19; 35; 51; 4; 20; 36; 52; 5; 21; 37; 53; 6; 22; 38; 54; 7; 23; 39; 55; 8; 24; 40; 56; 9; 25; 41; 57; 10; 26; 42; 58; 11; 27; 43; 59; 12; 28; 44; 60; 13; 29; 45; 61; 14; 30; 46; 62; 15; 31; 47; 63]%nat.
Proof. reflexivity. Qed.

Section DtBlock.

Variable f : format.

Lemma ev_dt_block_values inp in_ prev p :
  Forall is_u32 inp -> is_u32 p -> top_lane prev p ->
  ev_dt_block (e8 f) inp in_ prev =
  ev_x64 f (e8 f) (tile_order (fvals _delta_encode_32 inp in_ p 64)).
Proof.
  intros Hin Hp Ht.
  unfold fvals. rewrite tile_order_map. cbn [map]. rewrite !ev_x64_app8.
  cbn [ev_x64]. rewrite app_nil_r.
  unfold ev_dt_block. rewrite !load_elems4, !SVB_TRANSPOSE_lanes.
  cbv beta iota zeta.
  rewrite (alignr12_lanes _ _ _ _ prev p Ht).
  rewrite !sub_epi32_lanes by (first [apply rd_range; assumption | assumption]).
  unfold fval.
  cbn [Z.of_nat Pos.of_succ_nat Pos.succ Z.eqb].
  rewrite <- !app_assoc.
  repeat (f_equal; try lia).
Qed.

Lemma dt_block_prev_top inp in_ :
  top_lane (dt_block_prev inp in_) (rd inp (in_ + 63)).
Proof.
  unfold dt_block_prev. rewrite !load_elems4, SVB_TRANSPOSE_lanes.
  replace (in_ + 63) with (in_ + 60 + 3) by lia. apply top_lane_unlanes.
Qed.

End DtBlock.

Lemma extract3_top prev p : top_lane prev p -> is_u32 p -> _mm_extract_epi32 prev 3 = p.
Proof.
  intros [L E] Hp. unfold _mm_extract_epi32. change (4 * 3)%nat with 12%nat.
  rewrite E. change (firstn 4 (le_bytes 4 p)) with (le_bytes 4 p).
  now apply le_value_bytes4.
Qed.

Lemma tile_order_length l : length (tile_order l) = 64%nat.
Proof. unfold tile_order. now rewrite length_map, length_seq. Qed.

Lemma transpose_blocks_short fuel d : (length d < 64)%nat -> transpose_blocks fuel d = d.
Proof.
  intros H. destruct fuel; [reflexivity|]. cbn [transpose_blocks].
  destruct (Nat.leb_spec 64 (length d)); [lia|reflexivity].
Qed.

Section DtValues.

Variable f : format.
Variable ENCODE8 : cursor -> m128 -> m128 -> cursor.
Variable ENCODE1 : Z -> Z -> mem -> Z -> Z -> Z * Z * mem.

Hypothesis H8 : forall c a b, ENCODE8 c a b = run_events (e8 f a b) c.
Hypothesis H1 : forall keys dp m v shift,
  is_u32 v -> 0 <= shift <= 12 -> 0 <= keys < 2 ^ shift ->
  ENCODE1 keys dp m v shift =
  (keys + key f v * 2 ^ shift, dp + len f v, store_bytes m dp (le_bytes 4 v)).

(** Chunks of eight and a scalar tail. *)
Lemma chunks_tail_values vf sf inp in_ prev p k cnt previous' c :
  vf_ok vf sf ->
  (forall v q, is_u32 v -> is_u32 q -> is_u32 (sf v q)) ->
  Forall is_u32 inp -> is_u32 p -> top_lane prev p ->
  0 <= cnt <= 7 ->
  previous' = (if (k =? 0)%nat then p else rd inp (in_ + 8 * Z.of_nat k - 1)) ->
  let c' := x64_tail_d ENCODE1 sf inp (in_ + 8 * Z.of_nat k) cnt previous'
              (run_events (ev_chunks (e8 f) vf inp in_ prev k) c) in
  let r := run_events (ev_x64 f (e8 f) (fvals sf inp in_ p (8 * k + Z.to_nat cnt))) c in
  data_ptr c' = data_ptr r /\ buf c' = buf r.
Proof.
  intros Hvf Hsf Hin Hp Ht Hc Ep. cbv zeta.
  rewrite (ev_chunks_vals f (e8 f) vf sf inp Hvf Hin k in_ prev p Hp Ht).
  destruct (Z.eq_dec cnt 0) as [E0|E0].
  - subst cnt. unfold x64_tail_d. cbn [Z.eqb negb Z.to_nat].
    rewrite Nat.add_0_r. split; reflexivity.
  - assert (Hr : forall i, 0 <= i < cnt ->
                 is_u32 (fval sf inp (in_ + 8 * Z.of_nat k) previous' i)).
    { intros i Hi. unfold fval. apply Hsf; [now apply rd_range|].
      destruct (i =? 0); [|now apply rd_range].
      subst previous'. destruct (k =? 0)%nat; [assumption|now apply rd_range]. }
    destruct (x64_tail_d_events f ENCODE1 H1 sf inp (in_ + 8 * Z.of_nat k) cnt previous'
                (run_events (ev_x64 f (e8 f) (fvals sf inp in_ p (8 * k))) c)
                ltac:(lia) Hr) as [Ed Eb].
    rewrite Ed, Eb. rewrite <- run_events_app.
    destruct (Nat.eq_dec k 0) as [K0|K0].
    + subst k. change (8 * 0)%nat with 0%nat.
      change (fvals sf inp in_ p 0) with (@nil Z).
      cbn [ev_x64 app Nat.add]. cbn [Nat.eqb] in Ep. subst previous'.
      change (8 * Z.of_nat 0) with 0. rewrite Z.add_0_r.
      rewrite ev_x64_tail by (rewrite fvals_length; lia). split; reflexivity.
    + rewrite fvals_app by lia.
      rewrite (ev_x64_app f k) by (now rewrite fvals_length).
      destruct (Nat.eqb_spec k 0); [lia|]. subst previous'.
      replace (in_ + Z.of_nat (8 * k)) with (in_ + 8 * Z.of_nat k) by lia.
      rewrite (ev_x64_tail f (fvals _ _ _ _ (Z.to_nat cnt)))
        by (rewrite fvals_length; lia).
      split; reflexivity.
Qed.

Lemma dt_blocks_values inp : Forall is_u32 inp ->
  forall k in_ prev p r fuel, (r < 64)%nat -> (k <= fuel)%nat ->
  is_u32 p -> top_lane prev p ->
  ev_dt_blocks (e8 f) inp in_ prev k ++
  ev_x64 f (e8 f)
    (fvals _delta_encode_32 inp (in_ + 64 * Z.of_nat k)
       (if (k =? 0)%nat then p else rd inp (in_ + 64 * Z.of_nat k - 1)) r) =
  ev_x64 f (e8 f)
    (transpose_blocks fuel (fvals _delta_encode_32 inp in_ p (64 * k + r))).
Proof.
  intros Hin. induction k as [|k IH]; intros in_ prev p r fuel Hr Hf Hp Ht.
  - cbn [ev_dt_blocks app Nat.eqb Nat.mul Nat.add]. change (64 * Z.of_nat 0) with 0.
    rewrite Z.add_0_r.
    now rewrite transpose_blocks_short by (rewrite fvals_length; lia).
  - destruct fuel as [|fuel]; [lia|].
    replace (64 * S k + r)%nat with (64 + (64 * k + r))%nat by lia.
    rewrite fvals_app by lia.
    cbn [transpose_blocks].
    rewrite length_app, fvals_length.
    destruct (Nat.leb_spec 64 (64 + length (fvals _delta_encode_32 inp
               (in_ + Z.of_nat 64) (rd inp (in_ + Z.of_nat 64 - 1)) (64 * k + r))));
      [|lia].
    rewrite firstn_app, firstn_all2 by (rewrite fvals_length; lia).
    rewrite fvals_length, Nat.sub_diag, firstn_O, app_nil_r.
    rewrite skipn_app, skipn_all2 by (rewrite fvals_length; lia).
    rewrite fvals_length, Nat.sub_diag, skipn_O. cbn [app].
    rewrite (ev_x64_app f 8) by (now rewrite tile_order_length).
    cbn [ev_dt_blocks]. rewrite <- app_assoc.
    rewrite (ev_dt_block_values f inp in_ prev p Hin Hp Ht). f_equal.
    change (Z.of_nat 64) with 64.
    rewrite <- (IH (in_ + 64) (dt_block_prev inp in_) (rd inp (in_ + 64 - 1)) r fuel);
      try lia; try (now apply rd_range).
    + cbn [Nat.eqb].
      replace (in_ + 64 + 64 * Z.of_nat k) with (in_ + 64 * Z.of_nat (S k)) by lia.
      replace (if (k =? 0)%nat then rd inp (in_ + 64 - 1)
               else rd inp (in_ + 64 * Z.of_nat (S k) - 1))
        with (rd inp (in_ + 64 * Z.of_nat (S k) - 1)); [reflexivity|].
      destruct k; cbn [Nat.eqb]; [f_equal; lia|reflexivity].
    + replace (in_ + 64 - 1) with (in_ + 63) by lia. apply dt_block_prev_top.
Qed.

Lemma enc_dt_x64_values undef inp out previous :
  Forall is_u32 inp -> is_u32 previous -> length undef = 16%nat ->
  Z.of_nat (length inp) < 2 ^ 64 ->
  enc_dt_x64 ENCODE8 ENCODE1 undef inp (Z.of_nat (length inp)) out previous =
  (let c := run_events (ev_x64 f (e8 f) (filtered DeltaTranspose previous inp))
              (Cursor 0 (u32 (_svb_key_block_len (Z.of_nat (length inp)))) out) in
   (data_ptr c, buf c)).
Proof.
  intros Hin Hp Hu Hn.
  set (N := Z.of_nat (length inp)) in *.
  rewrite (enc_dt_x64_events f ENCODE8 ENCODE1 H8) by lia. cbv zeta.
  set (k64 := Z.to_nat (N / 64)).
  set (k8 := Z.to_nat ((N / 8) mod 8)).
  assert (Hk64 : Z.of_nat k64 = N / 64)
    by (subst k64; rewrite Z2Nat.id; [reflexivity|apply Z.div_pos; lia]).
  assert (Hk8 : Z.of_nat k8 = (N / 8) mod 8)
    by (subst k8; rewrite Z2Nat.id; [reflexivity|apply Z.mod_pos_bound; lia]).
  clearbody k64 k8.
  assert (Lin : length inp = (64 * k64 + (8 * k8 + Z.to_nat (N mod 8)))%nat)
    by (subst N; Z.div_mod_to_equations; lia).
  assert (B8 : (k8 < 8)%nat) by (Z.div_mod_to_equations; lia).
  set (prev0 := _mm_insert_epi32 undef previous 3).
  assert (T0 : top_lane prev0 previous) by (now apply top_lane_insert).
  set (prev1 := if (k64 =? 0)%nat then prev0
                else dt_block_prev inp (64 * Z.of_nat k64 - 64)).
  set (p1 := if (k64 =? 0)%nat then previous else rd inp (0 + 64 * Z.of_nat k64 - 1)).
  assert (T1 : top_lane prev1 p1).
  { subst prev1 p1. destruct (k64 =? 0)%nat; [exact T0|].
    replace (0 + 64 * Z.of_nat k64 - 1) with (64 * Z.of_nat k64 - 64 + 63) by lia.
    apply dt_block_prev_top. }
  assert (P1 : is_u32 p1) by (subst p1; destruct (k64 =? 0)%nat; auto using rd_range).
  rewrite run_events_app.
  set (c1 := run_events (ev_dt_blocks (e8 f) inp 0 prev0 k64) _).
  destruct (chunks_tail_values _mm_delta_encode_epi32 _delta_encode_32 inp
              (64 * Z.of_nat k64) prev1 p1 k8 (N mod 8)
              (if 8 <=? N
               then _mm_extract_epi32
                      (if (k8 =? 0)%nat then prev1
                       else load_elems 4 inp (64 * Z.of_nat k64 + 8 * Z.of_nat k8 - 4)) 3
               else previous) c1 vf_ok_delta)
    as [Ed Eb]; auto.
  { intros; apply delta_encode_range. }
  { Z.div_mod_to_equations; lia. }
  { destruct (Z.leb_spec 8 N) as [G|G].
    - destruct (Nat.eqb_spec k8 0) as [K|K].
      + now apply extract3_top.
      + rewrite load_elems4, extract3_lanes by (now apply rd_range). f_equal. lia.
    - assert (k64 = 0%nat /\ k8 = 0%nat) as [-> ->] by (Z.div_mod_to_equations; lia).
      reflexivity. }
  rewrite Ed, Eb. subst c1. rewrite <- run_events_app.
  unfold filtered. rewrite <- (fvals_deltas _delta_encode_32 inp previous).
  replace (64 * Z.of_nat k64) with (0 + 64 * Z.of_nat k64) by lia.
  assert (E := dt_blocks_values inp Hin k64 0 prev0 previous
                 (8 * k8 + Z.to_nat (N mod 8)) (length inp)).
  rewrite <- Lin in E. fold p1 in E.
  rewrite <- E; auto; try (Z.div_mod_to_equations; lia).
Qed.

End DtValues.

(** ** The portable encoders as event lists *)

Section Generic.

Variable f : format.
Variable encode1_generic : Z -> mem -> Z -> Z * Z * mem.

Hypothesis Hg : forall dp m v, is_u32 v ->
  encode1_generic dp m v = (key f v, dp + len f v, store_bytes m dp (generic_bytes v)).

Lemma enc_d_generic_values sf inp out previous :
  (forall v q, is_u32 v -> is_u32 q -> is_u32 (sf v q)) ->
  Forall is_u32 inp -> is_u32 previous ->
  enc_d_generic encode1_generic sf inp (Z.of_nat (length inp)) out previous =
  (let c := run_events (ev_generic f 0 (deltas sf previous inp))
                       (Cursor 0 (_svb_key_block_len (Z.of_nat (length inp))) out) in
   (data_ptr c, buf c)).
Proof.
  intros Hsf Hin Hp. unfold enc_d_generic. cbv zeta.
  rewrite <- (fvals_deltas sf inp previous).
  destruct inp as [|v0 r] eqn:E.
  - reflexivity.
  - rewrite <- E in *.
    assert (L : 1 <= Z.of_nat (length inp)) by (subst inp; cbn [length]; lia).
    destruct (generic_loop_events f encode1_generic Hg sf inp 0 (Z.of_nat (length inp))
                previous (Cursor 0 (_svb_key_block_len (Z.of_nat (length inp))) out) L)
      as [Ed Eb].
    { intros i Hi. pose proof (fvals_range sf inp 0 previous 1 Hsf Hin Hp).
      unfold fval. apply Hsf; [now apply rd_range|].
      destruct (i =? 0); [assumption|now apply rd_range]. }
    rewrite Ed, Eb. rewrite Nat2Z.id.
    cbn [ev_generic].
    destruct (fvals sf inp 0 previous (length inp)) eqn:F; [|reflexivity].
    apply (f_equal (@length Z)) in F. rewrite fvals_length in F.
    cbn [length] in F. lia.
Qed.

Lemma enc_generic_values sf inp out :
  (forall v, is_u32 v -> is_u32 (sf v)) ->
  Forall is_u32 inp ->
  enc_generic encode1_generic sf inp (Z.of_nat (length inp)) out =
  (let c := run_events (ev_generic f 0 (map sf inp))
                       (Cursor 0 (_svb_key_block_len (Z.of_nat (length inp))) out) in
   (data_ptr c, buf c)).
Proof.
  intros Hsf Hin.
  change (enc_generic encode1_generic sf inp (Z.of_nat (length inp)) out)
    with (enc_d_generic encode1_generic (fun v _ => sf v) inp (Z.of_nat (length inp)) out 0).
  rewrite enc_d_generic_values; auto.
  - now rewrite deltas_map.
  - unfold is_u32; lia.
Qed.

(** The encode pass over a list of values, from any state of the key bit
    buffer. *)
Lemma push_fold : forall vs pend c,
  Forall is_u32 vs -> (length pend <= 4)%nat -> Forall (fun k => 0 <= k <= 3) pend ->
  exists pend' c',
    fold_left
      (fun (s : Z * Z * cursor) v =>
         let '(keys, shift, c) := s in
         let '(code, dp, m) := encode1_generic (data_ptr c) (buf c) v in
         let '(keys, shift, kp, m) := push_key code keys shift (key_ptr c) m in
         (keys, shift, Cursor kp dp m))
      vs (pack_keys pend, 2 * Z.of_nat (length pend), c) =
    (pack_keys pend', 2 * Z.of_nat (length pend'), c') /\
    run_events (ev_gen f pend vs) c = run_events [Key [pack_keys pend']] c'.
Proof.
  induction vs as [|v r IH]; intros pend c Hv L R.
  - exists pend, c. split; reflexivity.
  - inversion Hv as [|? ? Hv0 Hr]; subst.
    cbn [fold_left]. rewrite Hg by assumption.
    rewrite push_key_pending by assumption.
    pose proof (key_range f v) as Kr.
    cbn [ev_gen]. destruct (Nat.eqb_spec (length pend) 4) as [E4|E4].
    + destruct (IH [key f v]
                  (Cursor (key_ptr c + 1) (data_ptr c + len f v)
                     (store_bytes (store_bytes (buf c) (data_ptr c) (generic_bytes v))
                        (key_ptr c) [pack_keys pend])) Hr)
        as (pend' & c' & E & Er); [cbn; lia|repeat constructor; lia|].
      exists pend', c'. split; [exact E|].
      rewrite !run_events_cons. exact Er.
    + destruct (IH (pend ++ [key f v])
                  (Cursor (key_ptr c) (data_ptr c + len f v)
                     (store_bytes (buf c) (data_ptr c) (generic_bytes v))) Hr)
        as (pend' & c' & E & Er);
        [rewrite length_app; cbn [length]; lia|apply Forall_app; split; auto|].
      exists pend', c'. split; [exact E|].
      rewrite !run_events_cons. exact Er.
Qed.

(** The element loop for any count. *)
Lemma generic_loop_values sf inp in_ cnt previous c :
  (forall v q, is_u32 v -> is_u32 q -> is_u32 (sf v q)) ->
  Forall is_u32 inp -> is_u32 previous -> 0 <= cnt ->
  let c' := generic_loop encode1_generic sf inp in_ cnt previous c in
  let r := run_events (ev_generic f 0 (fvals sf inp in_ previous (Z.to_nat cnt))) c in
  data_ptr c' = data_ptr r /\ buf c' = buf r.
Proof.
  intros Hsf Hin Hp Hc. cbv zeta.
  destruct (Z.eq_dec cnt 0) as [E|E].
  - subst cnt. split; reflexivity.
  - destruct (generic_loop_events f encode1_generic Hg sf inp in_ cnt previous c) as [Ed Eb];
      [lia| |].
    { intros i Hi. unfold fval. apply Hsf; [now apply rd_range|].
      destruct (i =? 0); [assumption|now apply rd_range]. }
    rewrite Ed, Eb. cbn [ev_generic].
    destruct (fvals sf inp in_ previous (Z.to_nat cnt)) eqn:F; [|split; reflexivity].
    apply (f_equal (@length Z)) in F. rewrite fvals_length in F.
    cbn [length] in F. lia.
Qed.

Lemma nth_range (l : list Z) i : Forall is_u32 l -> is_u32 (nth i l 0).
Proof.
  intros H. destruct (Nat.lt_ge_cases i (length l)).
  - rewrite Forall_forall in H. apply H. now apply nth_In.
  - rewrite nth_overflow by lia. unfold is_u32; lia.
Qed.

Lemma tile_order_range l : Forall is_u32 l -> Forall is_u32 (tile_order l).
Proof.
  intros H. unfold tile_order. apply Forall_map, Forall_forall.
  intros k _. now apply nth_range.
Qed.

(** The first pass of the 64-element loop fills the tile with the
    deltas in tile order. *)
Lemma dt_first_pass inp in_ previous :
  exists tile,
    fold_left
      (fun s j => let '(in_, previous, tile) := s in
         let '(previous, tile) :=
           fold_left
             (fun t i => let '(previous, tile) := t in
                let dw := rd inp (in_ + i) in
                (dw, store8 tile (i * 4 + j) (_delta_encode_32 dw previous)))
             (map Z.of_nat (seq 0 16)) (previous, tile) in
         (in_ + 16, previous, tile))
      (map Z.of_nat (seq 0 4)) (in_, previous, (fun _ => 0) : mem) =
    (in_ + 64, rd inp (in_ + 63), tile) /\
    map tile (map Z.of_nat (seq 0 64)) =
    tile_order (fvals _delta_encode_32 inp in_ previous 64).
Proof.
  eexists. split.
  - cbn [fold_left map seq Z.of_nat Pos.of_succ_nat Pos.succ].
    replace (in_ + 16 + 16 + 16 + 16) with (in_ + 64) by lia.
    replace (in_ + 16 + 16 + 16 + 15) with (in_ + 63) by lia.
    reflexivity.
  - unfold fvals. rewrite tile_order_map.
    cbn [map seq Z.of_nat Pos.of_succ_nat Pos.succ].
    unfold store8.
    cbn [Z.eqb Pos.eqb Z.mul Pos.mul Z.add Pos.add Pos.succ Pos.add_carry].
    unfold fval. cbn [Z.of_nat Pos.of_succ_nat Pos.succ Z.eqb].
    repeat (f_equal; try lia).
Qed.

Lemma dt_block_generic_events inp in_ previous c :
  Forall is_u32 inp -> is_u32 previous ->
  dt_block_generic encode1_generic inp in_ previous c =
  (in_ + 64, rd inp (in_ + 63),
   run_events (ev_gen f [] (tile_order (fvals _delta_encode_32 inp in_ previous 64))) c).
Proof.
  intros Hin Hp. unfold dt_block_generic.
  destruct (dt_first_pass inp in_ previous) as (tile & E1 & Et).
  match goal with
  | |- context [fold_left ?st (map Z.of_nat (seq 0 4)) ?s0] =>
      replace (fold_left st (map Z.of_nat (seq 0 4)) s0)
        with (in_ + 64, rd inp (in_ + 63), tile) by (symmetry; exact E1)
  end.
  rewrite <- Et.
  match goal with
  | |- context [fold_left ?st (map Z.of_nat (seq 0 64)) ?s0] =>
      assert (Ef : fold_left st (map Z.of_nat (seq 0 64)) s0 =
                   fold_left
                     (fun (s : Z * Z * cursor) v =>
                        let '(keys, shift, c) := s in
                        let '(code, dp, m) := encode1_generic (data_ptr c) (buf c) v in
                        let '(keys, shift, kp, m) := push_key code keys shift (key_ptr c) m in
                        (keys, shift, Cursor kp dp m))
                     (map tile (map Z.of_nat (seq 0 64))) s0)
  end.
  { generalize (map Z.of_nat (seq 0 64)). intros l. generalize (0, 0, c).
    induction l as [|a l IH]; intros s; [reflexivity|].
    cbn [map fold_left]. apply IH. }
  rewrite Ef.
  destruct (push_fold (map tile (map Z.of_nat (seq 0 64))) [] c) as (pend' & c' & E & Er);
    [|cbn; lia|constructor|].
  { rewrite Et. apply tile_order_range, fvals_range; auto.
    intros; apply delta_encode_range. }
  change (pack_keys [], 2 * Z.of_nat (length (@nil Z)), c) with (0, 0, c) in E.
  rewrite E, Er. reflexivity.
Qed.

Lemma ev_generic_app k a b : length a = 64%nat ->
  ev_generic f (S k) (a ++ b) = ev_gen f [] a ++ ev_generic f k b.
Proof.
  intros L. cbn [ev_generic].
  rewrite firstn_app, firstn_all2 by lia.
  rewrite L, Nat.sub_diag, firstn_O, app_nil_r.
  rewrite skipn_app, skipn_all2 by lia.
  now rewrite L, Nat.sub_diag, skipn_O.
Qed.

Lemma dt_blocks_generic inp : Forall is_u32 inp ->
  forall k in_ p c, is_u32 p ->
  exists ck,
    iter k (fun s : Z * Z * cursor =>
              let '(in_, previous, c) := s in
              dt_block_generic encode1_generic inp in_ previous c) (in_, p, c) =
    (in_ + 64 * Z.of_nat k,
     (if (k =? 0)%nat then p else rd inp (in_ + 64 * Z.of_nat k - 1)), ck) /\
    forall r fuel, (r < 64)%nat -> (k <= fuel)%nat ->
      run_events
        (ev_generic f 0
           (fvals _delta_encode_32 inp (in_ + 64 * Z.of_nat k)
              (if (k =? 0)%nat then p else rd inp (in_ + 64 * Z.of_nat k - 1)) r)) ck =
      run_events
        (ev_generic f k
           (transpose_blocks fuel (fvals _delta_encode_32 inp in_ p (64 * k + r)))) c.
Proof.
  intros Hin. induction k as [|k IH]; intros in_ p c Hp.
  - exists c. cbn [iter Nat.eqb]. change (64 * Z.of_nat 0) with 0. rewrite Z.add_0_r.
    split; [reflexivity|]. intros r fuel Hr _.
    cbn [Nat.mul Nat.add].
    now rewrite transpose_blocks_short by (rewrite fvals_length; lia).
  - cbn [iter]. rewrite dt_block_generic_events by assumption.
    destruct (IH (in_ + 64) (rd inp (in_ + 63))
                (run_events
                   (ev_gen f [] (tile_order (fvals _delta_encode_32 inp in_ p 64))) c))
      as (ck & Ei & Er); [now apply rd_range|].
    exists ck.
    assert (Ep : (if (k =? 0)%nat then rd inp (in_ + 63)
                  else rd inp (in_ + 64 + 64 * Z.of_nat k - 1)) =
                 rd inp (in_ + 64 * Z.of_nat (S k) - 1)).
    { destruct k; cbn [Nat.eqb]; apply (f_equal (rd inp)); lia. }
    rewrite Ep in Ei, Er.
    replace (in_ + 64 + 64 * Z.of_nat k) with (in_ + 64 * Z.of_nat (S k)) in Ei, Er by lia.
    cbn [Nat.eqb]. split; [exact Ei|].
    intros r fuel Hr Hf. destruct fuel as [|fuel]; [lia|].
    rewrite (Er r fuel) by lia.
    replace (64 * S k + r)%nat with (64 + (64 * k + r))%nat by lia.
    rewrite (fvals_app _delta_encode_32 inp in_ p 64) by lia.
    cbn [transpose_blocks].
    rewrite length_app, fvals_length.
    destruct (Nat.leb_spec 64 (64 + length (fvals _delta_encode_32 inp
               (in_ + Z.of_nat 64) (rd inp (in_ + Z.of_nat 64 - 1)) (64 * k + r))));
      [|lia].
    rewrite firstn_app, firstn_all2 by (rewrite fvals_length; lia).
    rewrite fvals_length, Nat.sub_diag, firstn_O, app_nil_r.
    rewrite skipn_app, skipn_all2 by (rewrite fvals_length; lia).
    rewrite fvals_length, Nat.sub_diag, skipn_O. cbn [app].
    rewrite ev_generic_app by apply tile_order_length.
    rewrite run_events_app.
    change (Z.of_nat 64) with 64.
    replace (in_ + 64 - 1) with (in_ + 63) by lia. reflexivity.
Qed.

Lemma enc_dt_generic_values inp out previous :
  Forall is_u32 inp -> is_u32 previous ->
  Z.of_nat (length inp) < 2 ^ 64 ->
  enc_dt_generic encode1_generic inp (Z.of_nat (length inp)) out previous =
  (let c := run_events
              (ev_generic f (length inp / 64) (filtered DeltaTranspose previous inp))
              (Cursor 0 (_svb_key_block_len (Z.of_nat (length inp))) out) in
   (data_ptr c, buf c)).
Proof.
  intros Hin Hp Hn.
  set (N := Z.of_nat (length inp)) in *.
  unfold enc_dt_generic. cbv zeta.
  rewrite land_not63, land_63 by lia.
  set (k := (length inp / 64)%nat).
  assert (Hk : Z.of_nat k = N / 64) by (subst k N; now rewrite Nat2Z.inj_div).
  clearbody k.
  set (c0 := Cursor 0 (_svb_key_block_len N) out).
  assert (Lin : length inp = (64 * k + Z.to_nat (N mod 64))%nat)
    by (subst N; Z.div_mod_to_equations; lia).
  assert (Hr : (Z.to_nat (N mod 64) < 64)%nat) by (Z.div_mod_to_equations; lia).
  unfold filtered. rewrite <- (fvals_deltas _delta_encode_32 inp previous).
  destruct (dt_blocks_generic inp Hin k 0 previous c0 Hp) as (ck & Ei & Er).
  specialize (Er (Z.to_nat (N mod 64)) (length inp) Hr ltac:(lia)).
  rewrite <- Lin in Er. rewrite <- Er.
  destruct (Z.eqb_spec (64 * (N / 64)) 0) as [E0|E0]; cbn [negb].
  - assert (k = 0%nat) by lia. subst k.
    replace (N mod 64) with N by (Z.div_mod_to_equations; lia).
    cbn [iter] in Ei. injection Ei as <-.
    cbn [Nat.eqb]. change (0 + 64 * Z.of_nat 0) with 0.
    destruct (generic_loop_values _delta_encode_32 inp 0 N previous c0) as [Ed Eb]; auto;
      [intros; apply delta_encode_range|lia|].
    now rewrite Ed, Eb.
  - rewrite (do_while_iter _ _ k).
    + rewrite Ei.
      assert (K0 : (k =? 0)%nat = false) by (apply Nat.eqb_neq; lia).
      rewrite K0.
      destruct (generic_loop_values _delta_encode_32 inp (0 + 64 * Z.of_nat k) (N mod 64)
                  (rd inp (0 + 64 * Z.of_nat k - 1)) ck) as [Ed Eb]; auto;
        [intros; apply delta_encode_range|now apply rd_range|
         Z.div_mod_to_equations; lia|].
      now rewrite Ed, Eb.
    + subst N. Z.div_mod_to_equations; lia.
    + intros j Hj.
      destruct (dt_blocks_generic inp Hin j 0 previous c0 Hp) as (cj & Ej & _).
      rewrite Ej. apply negb_true_iff, Z.eqb_neq. lia.
    + rewrite Ei. apply negb_false_iff, Z.eqb_eq. lia.
Qed.

End Generic.

(** ** Event lists against the stream format *)

Lemma chunks_aux_fuel {A} k : (1 <= k)%nat ->
  forall f1 f2 (l : list A), (length l <= f1)%nat -> (length l <= f2)%nat ->
  chunks_aux f1 k l = chunks_aux f2 k l.
Proof.
  intros Hk. induction f1 as [|f1 IH]; intros f2 l H1 H2.
  - destruct l; [|cbn [length] in H1; lia]. destruct f2; reflexivity.
  - destruct f2 as [|f2]; [destruct l; [reflexivity|cbn [length] in H2; lia]|].
    cbn [chunks_aux]. destruct l as [|a l]; [reflexivity|].
    f_equal. apply IH; rewrite length_skipn; cbn [length] in *; lia.
Qed.

Lemma chunks_cons {A} k (l : list A) : (1 <= k)%nat -> l <> [] ->
  chunks k l = firstn k l :: chunks k (skipn k l).
Proof.
  intros Hk Hl. unfold chunks. destruct l as [|a l]; [congruence|].
  cbn [length chunks_aux]. f_equal.
  apply chunks_aux_fuel; auto; rewrite length_skipn; cbn [length]; lia.
Qed.

Lemma chunks_app_one {A} k (a b : list A) : (1 <= k)%nat -> length a = k ->
  chunks k (a ++ b) = a :: chunks k b.
Proof.
  intros Hk L. rewrite chunks_cons; auto.
  - rewrite firstn_app, firstn_all2 by lia.
    rewrite L, Nat.sub_diag, firstn_O, app_nil_r.
    rewrite skipn_app, skipn_all2 by lia.
    now rewrite L, Nat.sub_diag, skipn_O.
  - destruct a; [cbn [length] in L; lia|discriminate].
Qed.

Lemma chunks_app {A} k : (1 <= k)%nat ->
  forall j (a b : list A), length a = (j * k)%nat ->
  chunks k (a ++ b) = chunks k a ++ chunks k b.
Proof.
  intros Hk. induction j as [|j IH]; intros a b L.
  - destruct a; [reflexivity|cbn [length] in L; lia].
  - assert (L1 : length (firstn k a) = k) by (rewrite length_firstn; lia).
    rewrite <- (firstn_skipn k a), <- app_assoc.
    rewrite (chunks_app_one k (firstn k a) (skipn k a ++ b)) by auto.
    rewrite (chunks_app_one k (firstn k a) (skipn k a)) by auto.
    rewrite IH by (rewrite length_skipn; lia). reflexivity.
Qed.

Lemma chunks_one {A} k (l : list A) : (1 <= length l <= k)%nat -> chunks k l = [l].
Proof.
  intros H. rewrite chunks_cons; [|lia|destruct l; [cbn [length] in H; lia|discriminate]].
  rewrite firstn_all2, skipn_all2 by lia. reflexivity.
Qed.

Lemma chunks_length {A} k : (1 <= k)%nat -> forall n (l : list A), (length l <= n)%nat ->
  length (chunks k l) = ((length l + (k - 1)) / k)%nat.
Proof.
  intros Hk. induction n as [|n IH]; intros l H.
  - destruct l; [|cbn [length] in H; lia]. cbn [length chunks chunks_aux].
    rewrite Nat.div_small; lia.
  - destruct l as [|a l]; [cbn [length chunks chunks_aux]; rewrite Nat.div_small; lia|].
    rewrite chunks_cons by (auto; discriminate). cbn [length].
    rewrite IH by (rewrite length_skipn; cbn [length] in *; lia).
    rewrite length_skipn. cbn [length].
    destruct (Nat.le_gt_cases k (S (length l))) as [G|G].
    + replace (S (length l) + (k - 1))%nat with (S (length l) - k + (k - 1) + 1 * k)%nat by lia.
      rewrite Nat.div_add by lia. lia.
    + replace (S (length l) - k)%nat with 0%nat by lia.
      rewrite (Nat.div_small (0 + (k - 1))) by lia.
      replace (S (length l) + (k - 1))%nat with (S (length l) - 1 + 1 * k)%nat by lia.
      rewrite Nat.div_add by lia. rewrite Nat.div_small by lia. lia.
Qed.

Lemma key_block_app f a b j : length a = (j * 4)%nat ->
  key_block f (a ++ b) = key_block f a ++ key_block f b.
Proof.
  intros L. unfold key_block. rewrite map_app.
  rewrite (chunks_app 4 ltac:(lia) j) by (now rewrite length_map).
  apply map_app.
Qed.

Lemma key_block_length f vs :
  Z.of_nat (length (key_block f vs)) = key_block_len (Z.of_nat (length vs)).
Proof.
  unfold key_block, key_block_len. rewrite length_map.
  rewrite (chunks_length 4 ltac:(lia) (length (map (key f) vs))) by lia.
  rewrite length_map. rewrite Nat2Z.inj_div.
  replace (Z.of_nat (length vs + (4 - 1))) with (Z.of_nat (length vs) + 3) by lia.
  reflexivity.
Qed.

Lemma data_block_app f a b : data_block f (a ++ b) = data_block f a ++ data_block f b.
Proof. apply flat_map_app. Qed.

Lemma sum_app a b : sum (a ++ b) = sum a + sum b.
Proof. unfold sum. induction a as [|x a IH]; cbn [app fold_right] in *; lia. Qed.

Lemma data_block_length f vs :
  Z.of_nat (length (data_block f vs)) = sum (map (len f) vs).
Proof.
  unfold sum, data_block. induction vs as [|v r IH]; [reflexivity|].
  cbn [flat_map map fold_right] in *.
  rewrite length_app, Nat2Z.inj_add, payload_length. lia.
Qed.

Lemma sum_len_bounds f vs : 0 <= sum (map (len f) vs) <= 4 * Z.of_nat (length vs).
Proof.
  unfold sum. induction vs as [|v r IH]; [cbn; lia|].
  cbn [map fold_right length] in *. pose proof (len_range f v).
  lia.
Qed.

Lemma data_of_emit w l es : data_of (Emit w l :: es) = firstn (Z.to_nat l) w ++ data_of es.
Proof. reflexivity. Qed.

Lemma data_of_key bs es : data_of (Key bs :: es) = data_of es.
Proof. reflexivity. Qed.

Lemma keys_of_emit w l es : keys_of (Emit w l :: es) = keys_of es.
Proof. reflexivity. Qed.

Lemma keys_of_key bs es : keys_of (Key bs :: es) = bs ++ keys_of es.
Proof. reflexivity. Qed.

Lemma data_block_cons f v r : data_block f (v :: r) = payload f v ++ data_block f r.
Proof. reflexivity. Qed.

(** *** Composition *)

Lemma encodes_nil f : encodes f [] [].
Proof. split; [|split; [|split]]; cbn; auto; lia. Qed.

Lemma encodes_adv f es vs : encodes f es vs -> adv es = sum (map (len f) vs).
Proof.
  intros (W & D & _). rewrite <- data_of_length by assumption.
  rewrite D. apply data_block_length.
Qed.

Lemma encodes_app f es1 es2 a b j : length a = (j * 4)%nat ->
  encodes f es1 a -> encodes f es2 b -> encodes f (es1 ++ es2) (a ++ b).
Proof.
  intros L H1 H2. pose proof (encodes_adv f es1 a H1) as A1.
  destruct H1 as (W1 & D1 & K1 & S1), H2 as (W2 & D2 & K2 & S2).
  split; [|split; [|split]].
  - apply Forall_app; auto.
  - now rewrite data_of_app, data_block_app, D1, D2.
  - now rewrite keys_of_app, (key_block_app f a b j L), K1, K2.
  - rewrite length_app, Nat2Z.inj_add, Z.mul_add_distr_l.
    apply span_app_le; auto; try lia.
    pose proof (adv_le_span es1 W1). lia.
Qed.

(** *** The group of eight *)

Lemma e8_values f v0 v1 v2 v3 v4 v5 v6 v7 :
  is_u32 v0 -> is_u32 v1 -> is_u32 v2 -> is_u32 v3 ->
  is_u32 v4 -> is_u32 v5 -> is_u32 v6 -> is_u32 v7 ->
  encodes f (e8 f (unlanes 4 [v0; v1; v2; v3]) (unlanes 4 [v4; v5; v6; v7]))
          [v0; v1; v2; v3; v4; v5; v6; v7].
Proof.
  intros.
  assert (E : exists wa wb,
    e8 f (unlanes 4 [v0; v1; v2; v3]) (unlanes 4 [v4; v5; v6; v7]) =
    [ Emit wa (sum (map (len f) [v0; v1; v2; v3]));
      Emit wb (sum (map (len f) [v4; v5; v6; v7]));
      Key (key_block f [v0; v1; v2; v3; v4; v5; v6; v7]) ] /\
    length wa = 16%nat /\ length wb = 16%nat /\
    firstn (Z.to_nat (sum (map (len f) [v0; v1; v2; v3]))) wa
      = data_block f [v0; v1; v2; v3] /\
    firstn (Z.to_nat (sum (map (len f) [v4; v5; v6; v7]))) wb
      = data_block f [v4; v5; v6; v7]).
  { destruct f; [now apply svb1_e8_values|now apply svb0_e8_values]. }
  destruct E as (wa & wb & -> & La & Lb & Da & Db).
  pose proof (sum_len_bounds f [v0; v1; v2; v3]) as Ba.
  pose proof (sum_len_bounds f [v4; v5; v6; v7]) as Bb.
  cbn [length Z.of_nat Pos.of_succ_nat Pos.succ] in Ba, Bb.
  split; [|split; [|split]].
  - repeat constructor; cbn [wf_event]; lia.
  - cbn [data_of flat_map]. rewrite Da, Db, ?app_nil_r.
    rewrite <- data_block_app. reflexivity.
  - cbn [keys_of flat_map app]. apply app_nil_r.
  - cbn [span length]. rewrite La, Lb. cbn [length Z.of_nat Pos.of_succ_nat Pos.succ]. lia.
Qed.

(** *** The scalar tail of the SSE4.1 encoders *)

Lemma tail_emits f vs :
  let es := map (fun v => Emit (le_bytes 4 v) (len f v)) vs in
  Forall wf_event es /\ data_of es = data_block f vs /\
  span es <= 4 * Z.of_nat (length vs).
Proof.
  induction vs as [|v r IH]; cbv zeta in *; [cbn; split; [|split]; auto; lia|].
  destruct IH as (W & D & S). pose proof (len_range f v).
  cbn [map]. split; [|split].
  - constructor; [cbn [wf_event]; rewrite le_bytes_length; lia|exact W].
  - now rewrite data_of_emit, data_block_cons, D.
  - cbn [span length]. rewrite le_bytes_length.
    match goal with |- context [span ?x] => pose proof (span_nonneg x) end. lia.
Qed.

Lemma ev_tail_values f vs : encodes f (ev_tail f vs) vs.
Proof.
  unfold ev_tail. destruct (tail_emits f vs) as (W & D & S).
  split; [|split; [|split]].
  - apply Forall_app; split; [exact W|repeat constructor].
  - rewrite data_of_app, D. cbn [data_of flat_map]. now rewrite app_nil_r.
  - rewrite keys_of_app, keys_of_emits. cbn [keys_of flat_map app]. now rewrite app_nil_r.
  - replace (4 * Z.of_nat (length vs)) with (4 * Z.of_nat (length vs) + 0) by lia.
    apply span_app_le; auto; cbn [span]; try lia.
    pose proof (adv_le_span _ W). lia.
Qed.

Lemma ev_x64_values f : forall n vs, (length vs <= n)%nat -> Forall is_u32 vs ->
  encodes f (ev_x64 f (e8 f) vs) vs.
Proof.
  induction n as [|n IH]; intros vs L Hv.
  - destruct vs; [apply encodes_nil|cbn [length] in L; lia].
  - destruct vs as [|v0 [|v1 [|v2 [|v3 [|v4 [|v5 [|v6 [|v7 r]]]]]]]];
      try apply encodes_nil;
      try (rewrite ev_x64_tail by (cbn [length]; lia); apply ev_tail_values).
    rewrite ev_x64_app8.
    repeat match goal with
           | H : Forall _ (_ :: _) |- _ => inversion H; clear H; subst
           end.
    change (v0 :: v1 :: v2 :: v3 :: v4 :: v5 :: v6 :: v7 :: r)
      with ([v0; v1; v2; v3; v4; v5; v6; v7] ++ r).
    apply (encodes_app f _ _ _ _ 2%nat); [reflexivity|now apply e8_values|].
    apply IH; [cbn [length] in L; lia|assumption].
Qed.

(** *** The element loop of the portable encoders *)

Lemma ev_gen_values f : forall vs pend,
  Forall is_u32 vs -> (length pend <= 4)%nat -> (pend <> [] \/ vs <> []) ->
  Forall wf_event (ev_gen f pend vs) /\
  data_of (ev_gen f pend vs) = data_block f vs /\
  keys_of (ev_gen f pend vs) = map pack_keys (chunks 4 (pend ++ map (key f) vs)) /\
  span (ev_gen f pend vs) <= 4 * Z.of_nat (length vs).
Proof.
  induction vs as [|v r IH]; intros pend Hv Lp Ne.
  - destruct Ne as [Ne|Ne]; [|congruence].
    cbn [ev_gen map]. rewrite app_nil_r.
    rewrite chunks_one by (destruct pend; [congruence|cbn [length] in *; lia]).
    split; [|split; [|split]];
      [repeat constructor|reflexivity|reflexivity|cbn [span length]; lia].
  - inversion Hv as [|? ? Hv0 Hr]; subst.
    destruct (payload_prefix_generic f v Hv0) as [Pp Pl].
    pose proof (len_range f v) as Lr.
    pose proof (generic_bytes_length v) as Lg.
    cbn [ev_gen]. destruct (Nat.eqb_spec (length pend) 4) as [E4|E4].
    + destruct (IH [key f v] Hr) as (W & D & K & S); [cbn; lia|left; discriminate|].
      split; [|split; [|split]].
      * constructor; [cbn [wf_event]; lia|]. constructor; [exact I|exact W].
      * now rewrite data_of_emit, data_of_key, data_block_cons, D, Pp.
      * rewrite keys_of_emit, keys_of_key, K.
        cbn [map]. rewrite (chunks_app_one 4 pend) by (auto; lia). reflexivity.
      * cbn [span length]. rewrite Nat2Z.inj_succ. lia.
    + destruct (IH (pend ++ [key f v]) Hr) as (W & D & K & S);
        [rewrite length_app; cbn [length]; lia|left; destruct pend; discriminate|].
      split; [|split; [|split]].
      * constructor; [cbn [wf_event]; lia|exact W].
      * now rewrite data_of_emit, data_block_cons, D, Pp.
      * rewrite keys_of_emit, K.
        cbn [map]. now rewrite <- app_assoc.
      * cbn [span length]. rewrite Nat2Z.inj_succ. lia.
Qed.

Lemma ev_gen_encodes f vs : Forall is_u32 vs -> vs <> [] -> encodes f (ev_gen f [] vs) vs.
Proof.
  intros Hv Ne. destruct (ev_gen_values f vs [] Hv) as (W & D & K & S); [cbn; lia|now right|].
  split; [|split; [|split]]; auto.
Qed.

Lemma Forall_firstn' {A} (P : A -> Prop) n : forall l, Forall P l -> Forall P (firstn n l).
Proof.
  induction n as [|n IH]; intros l H; [constructor|].
  destruct H; cbn [firstn]; constructor; auto.
Qed.

Lemma Forall_skipn' {A} (P : A -> Prop) n : forall l, Forall P l -> Forall P (skipn n l).
Proof.
  induction n as [|n IH]; intros l H; [exact H|].
  destruct H; cbn [skipn]; [constructor|auto].
Qed.

Lemma ev_generic_values f : forall k vs, Forall is_u32 vs -> (64 * k <= length vs)%nat ->
  encodes f (ev_generic f k vs) vs.
Proof.
  induction k as [|k IH]; intros vs Hv L.
  - cbn [ev_generic]. destruct vs as [|v r]; [apply encodes_nil|].
    apply ev_gen_encodes; [assumption|discriminate].
  - cbn [ev_generic]. rewrite <- (firstn_skipn 64 vs) at 3.
    assert (L1 : length (firstn 64 vs) = 64%nat) by (rewrite length_firstn; lia).
    apply (encodes_app f _ _ _ _ 16%nat); [exact L1| |].
    + apply ev_gen_encodes; [now apply Forall_firstn'|].
      destruct (firstn 64 vs); [cbn [length] in L1; lia|discriminate].
    + apply IH; [now apply Forall_skipn'|rewrite length_skipn; lia].
Qed.

(** ** The twenty encoders as event lists *)

Lemma svb1_tail_step_add keys dp m v shift :
  is_u32 v -> 0 <= shift <= 12 -> 0 <= keys < 2 ^ shift ->
  Svb1.svb1_tail_step keys dp m v shift =
  (keys + key F1234 v * 2 ^ shift, dp + len F1234 v, store_bytes m dp (le_bytes 4 v)).
Proof.
  intros Hv Hs Hk. rewrite svb1_tail_step_eq by assumption.
  pose proof (key_range F1234 v) as Kr.
  assert (P : 0 < 2 ^ shift <= 2 ^ 12)
    by (split; [apply Z.pow_pos_nonneg; lia|apply Z.pow_le_mono_r; lia]).
  assert (E : u32 (Z.shiftl (key F1234 v) shift) = Z.shiftl (key F1234 v) shift).
  { rewrite Z.shiftl_mul_pow2 by lia. apply u32_small. pow2_consts; nia. }
  rewrite E. now rewrite lor_shiftl_add by lia.
Qed.

Lemma SVB0_ENCODE1_add keys dp m v shift :
  is_u32 v -> 0 <= shift <= 12 -> 0 <= keys < 2 ^ shift ->
  Svb0.SVB0_ENCODE1 keys dp m v shift =
  (keys + key F0124 v * 2 ^ shift, dp + len F0124 v, store_bytes m dp (le_bytes 4 v)).
Proof.
  intros Hv Hs Hk. rewrite SVB0_ENCODE1_eq by assumption.
  pose proof (key_range F0124 v) as Kr.
  assert (P : 0 < 2 ^ shift <= 2 ^ 12)
    by (split; [apply Z.pow_pos_nonneg; lia|apply Z.pow_le_mono_r; lia]).
  assert (E : u64 (Z.shiftl (key F0124 v) shift) = Z.shiftl (key F0124 v) shift).
  { rewrite Z.shiftl_mul_pow2 by lia. apply u64_small. pow2_consts; nia. }
  rewrite E. rewrite lor_shiftl_add by lia.
  rewrite u32_small by (pow2_consts; nia). reflexivity.
Qed.

Lemma map_no_filter l : map no_filter l = l.
Proof. apply map_id. Qed.

Lemma no_filter_range v : is_u32 v -> is_u32 (no_filter v).
Proof. auto. Qed.

(** Every encoder performs the stores of its event list, from the key
    pointer [out] and the data pointer [out + data_start]. *)
Lemma encode_events b f flt undef inp out previous :
  Forall is_u32 inp -> is_u32 previous -> length undef = 16%nat ->
  Z.of_nat (length inp) < 2 ^ 64 ->
  encode b f flt undef inp (Z.of_nat (length inp)) out previous =
  (let c := run_events (events b f flt previous inp)
              (Cursor 0 (data_start b flt (Z.of_nat (length inp))) out) in
   (data_ptr c, buf c)).
Proof.
  intros Hin Hp Hu Hn.
  destruct b, f, flt; unfold encode, events, data_start, filtered;
    unfold svb1_enc_x64, svb1z_enc_x64, svb1d_enc_x64, svb1dz_enc_x64, svb1dt_enc_x64,
           svb0_enc_x64, svb0z_enc_x64, svb0d_enc_x64, svb0dz_enc_x64, svb0dt_enc_x64,
           svb1_enc_generic, svb1z_enc_generic, svb1d_enc_generic, svb1dz_enc_generic,
           svb1dt_enc_generic, svb0_enc_generic, svb0z_enc_generic, svb0d_enc_generic,
           svb0dz_enc_generic, svb0dt_enc_generic.
  (* SSE4.1, 1234 *)
  - rewrite (enc_x64_as_d _ _ _ _ undef).
    rewrite (enc_d_x64_values F1234 _ _ SVB1_ENCODE8_events svb1_tail_step_add
               _ _ undef inp out 0 vf_ok_plain); auto; [|unfold is_u32; lia].
    now rewrite deltas_map, map_no_filter.
  - rewrite (enc_x64_as_d _ _ _ _ undef).
    rewrite (enc_d_x64_values F1234 _ _ SVB1_ENCODE8_events svb1_tail_step_add
               _ _ undef inp out 0 vf_ok_zigzag); auto;
      [|intros; now apply zigzag_encode_range|unfold is_u32; lia].
    now rewrite deltas_map.
  - apply (enc_d_x64_values F1234 _ _ SVB1_ENCODE8_events svb1_tail_step_add
             _ _ undef inp out previous vf_ok_delta); auto.
    intros; apply delta_encode_range.
  - apply (enc_d_x64_values F1234 _ _ SVB1_ENCODE8_events svb1_tail_step_add
             _ _ undef inp out previous vf_ok_delta_zigzag); auto.
    intros; apply delta_zigzag_encode_range.
  - apply (enc_dt_x64_values F1234 _ _ SVB1_ENCODE8_events svb1_tail_step_add); auto.
  (* SSE4.1, 0124 *)
  - rewrite (enc_x64_as_d _ _ _ _ undef).
    rewrite (enc_d_x64_values F0124 _ _ SVB0_ENCODE8_events SVB0_ENCODE1_add
               _ _ undef inp out 0 vf_ok_plain); auto; [|unfold is_u32; lia].
    now rewrite deltas_map, map_no_filter.
  - rewrite (enc_x64_as_d _ _ _ _ undef).
    rewrite (enc_d_x64_values F0124 _ _ SVB0_ENCODE8_events SVB0_ENCODE1_add
               _ _ undef inp out 0 vf_ok_zigzag); auto;
      [|intros; now apply zigzag_encode_range|unfold is_u32; lia].
    now rewrite deltas_map.
  - apply (enc_d_x64_values F0124 _ _ SVB0_ENCODE8_events SVB0_ENCODE1_add
             _ _ undef inp out previous vf_ok_delta); auto.
    intros; apply delta_encode_range.
  - apply (enc_d_x64_values F0124 _ _ SVB0_ENCODE8_events SVB0_ENCODE1_add
             _ _ undef inp out previous vf_ok_delta_zigzag); auto.
    intros; apply delta_zigzag_encode_range.
  - apply (enc_dt_x64_values F0124 _ _ SVB0_ENCODE8_events SVB0_ENCODE1_add); auto.
  (* portable, 1234 *)
  - rewrite (enc_generic_values F1234 _ svb1_generic_step_eq) by auto.
    now rewrite map_no_filter.
  - apply (enc_generic_values F1234 _ svb1_generic_step_eq); auto.
    intros; now apply zigzag_encode_range.
  - apply (enc_d_generic_values F1234 _ svb1_generic_step_eq); auto.
    intros; apply delta_encode_range.
  - apply (enc_d_generic_values F1234 _ svb1_generic_step_eq); auto.
    intros; apply delta_zigzag_encode_range.
  - apply (enc_dt_generic_values F1234 _ svb1_generic_step_eq); auto.
  (* portable, 0124 *)
  - rewrite (enc_generic_values F0124 _ svb0_generic_step_eq) by auto.
    now rewrite map_no_filter.
  - apply (enc_generic_values F0124 _ svb0_generic_step_eq); auto.
    intros; now apply zigzag_encode_range.
  - apply (enc_d_generic_values F0124 _ svb0_generic_step_eq); auto.
    intros; apply delta_encode_range.
  - apply (enc_d_generic_values F0124 _ svb0_generic_step_eq); auto.
    intros; apply delta_zigzag_encode_range.
  - apply (enc_dt_generic_values F0124 _ svb0_generic_step_eq); auto.
Qed.

(** *** The filtered values *)

Lemma deltas_length sf : forall l p, length (deltas sf p l) = length l.
Proof. induction l as [|v r IH]; intros p; cbn [deltas length]; auto. Qed.

Lemma deltas_range sf : (forall v q, is_u32 v -> is_u32 q -> is_u32 (sf v q)) ->
  forall l p, Forall is_u32 l -> is_u32 p -> Forall is_u32 (deltas sf p l).
Proof.
  intros Hsf. induction l as [|v r IH]; intros p Hl Hp; cbn [deltas]; [constructor|].
  inversion Hl; subst. constructor; auto.
Qed.

Lemma transpose_blocks_length : forall fuel d, length (transpose_blocks fuel d) = length d.
Proof.
  induction fuel as [|fuel IH]; intros d; [reflexivity|].
  cbn [transpose_blocks]. destruct (Nat.leb_spec 64 (length d)); [|reflexivity].
  rewrite length_app, tile_order_length, IH, length_skipn. lia.
Qed.

Lemma transpose_blocks_range : forall fuel d, Forall is_u32 d ->
  Forall is_u32 (transpose_blocks fuel d).
Proof.
  induction fuel as [|fuel IH]; intros d H; [exact H|].
  cbn [transpose_blocks]. destruct (64 <=? length d)%nat; [|exact H].
  apply Forall_app. split.
  - apply tile_order_range. now apply Forall_firstn'.
  - apply IH. now apply Forall_skipn'.
Qed.

Lemma tile_order_sum g l : length l = 64%nat ->
  sum (map g (tile_order l)) = sum (map g l).
Proof.
  intros L.
  assert (E : l = map (fun i => nth i l 0) (seq 0 64)).
  { apply (nth_ext _ _ 0 0); [now rewrite length_map, length_seq|].
    intros n Hn. rewrite L in Hn.
    rewrite (nth_indep (map (fun i => nth i l 0) (seq 0 64)) 0
               ((fun i => nth i l 0) 0%nat))
      by (now rewrite length_map, length_seq).
    rewrite (map_nth (fun i => nth i l 0)). now rewrite seq_nth. }
  set (h := fun i => nth i l 0) in E. clearbody h. subst l.
  rewrite tile_order_map.
  unfold sum. cbn [seq map fold_right]. lia.
Qed.

Lemma transpose_blocks_sum g : forall fuel d,
  sum (map g (transpose_blocks fuel d)) = sum (map g d).
Proof.
  induction fuel as [|fuel IH]; intros d; [reflexivity|].
  cbn [transpose_blocks]. destruct (Nat.leb_spec 64 (length d)); [|reflexivity].
  rewrite map_app, sum_app, IH.
  rewrite tile_order_sum by (rewrite length_firstn; lia).
  rewrite <- sum_app, <- map_app. now rewrite firstn_skipn.
Qed.

Lemma filter_values_length flt p l : length (filter_values flt p l) = length l.
Proof.
  destruct flt; unfold filter_values, filtered;
    rewrite ?length_map, ?deltas_length; reflexivity.
Qed.

Lemma filter_values_range flt p l : Forall is_u32 l -> is_u32 p ->
  Forall is_u32 (filter_values flt p l).
Proof.
  intros Hl Hp. destruct flt; unfold filter_values, filtered; auto.
  - apply Forall_map. eapply Forall_impl; [|exact Hl].
    intros; now apply zigzag_encode_range.
  - apply deltas_range; auto. intros; apply delta_encode_range.
  - apply deltas_range; auto. intros; apply delta_zigzag_encode_range.
  - apply deltas_range; auto. intros; apply delta_encode_range.
Qed.

Lemma filtered_values flt p l :
  filtered flt p l =
  match flt with
  | DeltaTranspose => transpose_blocks (length l) (filter_values flt p l)
  | _ => filter_values flt p l
  end.
Proof. destruct flt; reflexivity. Qed.

Lemma filtered_length flt p l : length (filtered flt p l) = length l.
Proof.
  rewrite filtered_values.
  destruct flt; rewrite ?transpose_blocks_length; apply filter_values_length.
Qed.

Lemma filtered_range flt p l : Forall is_u32 l -> is_u32 p ->
  Forall is_u32 (filtered flt p l).
Proof.
  intros Hl Hp. rewrite filtered_values.
  destruct flt; try apply transpose_blocks_range; now apply filter_values_range.
Qed.

Lemma filtered_sum g flt p l :
  sum (map g (filtered flt p l)) = sum (map g (filter_values flt p l)).
Proof.
  rewrite filtered_values. destruct flt; try reflexivity. apply transpose_blocks_sum.
Qed.

(** The event list of every encoder lays down the stream of the
    filtered values. *)
Lemma events_encode b f flt previous inp :
  Forall is_u32 inp -> is_u32 previous ->
  encodes f (events b f flt previous inp) (filtered flt previous inp).
Proof.
  intros Hin Hp. pose proof (filtered_range flt previous inp Hin Hp) as R.
  pose proof (filtered_length flt previous inp) as L.
  destruct b; unfold events.
  - apply (ev_x64_values f (length inp)); [lia|exact R].
  - apply ev_generic_values; [exact R|].
    rewrite L. destruct flt; try lia.
    pose proof (Nat.div_mod_eq (length inp) 64). lia.
Qed.

(** ** What the encoders return and leave in the buffer *)

Lemma data_start_le b flt n : 0 <= n < 2 ^ 64 - 3 ->
  0 <= data_start b flt n <= key_block_len n.
Proof.
  intros H. rewrite <- key_block_len_eq by lia.
  assert (0 <= _svb_key_block_len n).
  { rewrite key_block_len_eq by lia. unfold key_block_len. apply Z.div_pos; lia. }
  destruct b, flt; cbn [data_start]; try lia.
  pose proof (u32_range (_svb_key_block_len n)).
  unfold u32 in *. pose proof (Z.mod_le (_svb_key_block_len n) (2 ^ 32)). lia.
Qed.

Lemma data_start_eq b flt n : 0 <= n < 2 ^ 64 - 3 ->
  (b = X64 -> flt = DeltaTranspose -> n < 2 ^ 34 - 3) ->
  data_start b flt n = key_block_len n.
Proof.
  intros H R. rewrite <- key_block_len_eq by lia.
  destruct b, flt; cbn [data_start]; try reflexivity.
  specialize (R eq_refl eq_refl).
  apply u32_small. rewrite key_block_len_eq by lia. unfold key_block_len.
  pow2_consts. split; [apply Z.div_pos; lia|].
  apply Z.div_lt_upper_bound; lia.
Qed.

Section Encoded.

Variables (b : build) (f : format) (flt : filter).
Variables (undef : m128) (inp : list Z) (out : mem) (previous : Z).

Hypothesis Hin : Forall is_u32 inp.
Hypothesis Hp : is_u32 previous.
Hypothesis Hu : length undef = 16%nat.
Hypothesis Hn : Z.of_nat (length inp) < 2 ^ 64 - 3.

Local Abbreviation N := (Z.of_nat (length inp)).
Local Abbreviation es := (events b f flt previous inp).
Local Abbreviation fv := (filtered flt previous inp).
Local Abbreviation c0 := (Cursor 0 (data_start b flt N) out).

Lemma encode_run :
  encode b f flt undef inp N out previous =
  (data_start b flt N + sum (map (len f) fv), buf (run_events es c0)).
Proof.
  rewrite encode_events by (auto; lia). cbv zeta.
  rewrite run_events_data_ptr. cbn [data_ptr].
  rewrite (encodes_adv f _ fv) by (now apply events_encode). reflexivity.
Qed.

Lemma events_keys_length : Z.of_nat (length (keys_of es)) = key_block_len N.
Proof.
  destruct (events_encode b f flt previous inp Hin Hp) as (_ & _ & K & _).
  rewrite K, key_block_length. now rewrite filtered_length.
Qed.

(** The returned pointer: where the data block starts plus the payload
    widths of the filter outputs. *)
Lemma encode_length :
  fst (encode b f flt undef inp N out previous) =
  data_start b flt N + sum (map (len f) (filter_values flt previous inp)).
Proof. rewrite encode_run. cbn [fst]. now rewrite filtered_sum. Qed.

(** Nothing is stored at or past the key block length plus four bytes
    per element. *)
Lemma encode_frame p : key_block_len N + 4 * N <= p ->
  snd (encode b f flt undef inp N out previous) p = out p.
Proof.
  intros H. rewrite encode_run. cbn [snd].
  destruct (events_encode b f flt previous inp Hin Hp) as (W & _ & _ & S).
  pose proof (data_start_le b flt N ltac:(lia)) as D.
  assert (L : Z.of_nat (length fv) = N) by (now rewrite filtered_length).
  pose proof events_keys_length as K.
  rewrite run_events_frame; auto; right; cbn [key_ptr data_ptr]; lia.
Qed.

(** With the data block where the format puts it, the buffer holds the
    stream of the filter outputs. *)
Lemma encode_stream :
  (b = X64 -> flt = DeltaTranspose -> N < 2 ^ 34 - 3) ->
  fst (encode b f flt undef inp N out previous) = Z.of_nat (length (stream f fv)) /\
  holds (snd (encode b f flt undef inp N out previous)) 0 (stream f fv).
Proof.
  intros R. rewrite encode_run. cbn [fst snd].
  destruct (events_encode b f flt previous inp Hin Hp) as (W & D & K & S).
  pose proof events_keys_length as KL.
  assert (E : data_start b flt N = key_block_len N)
    by (apply data_start_eq; auto; lia).
  unfold stream. rewrite length_app, Nat2Z.inj_add, data_block_length.
  rewrite <- K, KL, E. split; [reflexivity|].
  destruct (run_events_content es c0 W) as [Hk Hd].
  { cbn [key_ptr data_ptr]. lia. }
  cbn [key_ptr data_ptr] in Hk, Hd. rewrite D in Hd. rewrite E in Hk, Hd.
  apply holds_app. split; [exact Hk|].
  replace (0 + Z.of_nat (length (keys_of es))) with (key_block_len N) by lia.
  exact Hd.
Qed.

End Encoded.

(** The returned length and every byte below it do not depend on what
    the buffer (or the undefined register of the SSE4.1 build) held. *)
Lemma encode_agree b f flt undef1 undef2 inp out1 out2 previous p :
  Forall is_u32 inp -> is_u32 previous ->
  length undef1 = 16%nat -> length undef2 = 16%nat ->
  Z.of_nat (length inp) < 2 ^ 64 - 3 ->
  let r1 := encode b f flt undef1 inp (Z.of_nat (length inp)) out1 previous in
  let r2 := encode b f flt undef2 inp (Z.of_nat (length inp)) out2 previous in
  fst r1 = fst r2 /\ (0 <= p < fst r1 -> snd r1 p = snd r2 p).
Proof.
  intros Hin Hp H1 H2 Hn. cbv zeta.
  rewrite !encode_run by auto. cbn [fst snd]. split; [reflexivity|].
  intros Hr.
  destruct (events_encode b f flt previous inp Hin Hp) as (W & D & K & S).
  pose proof (events_keys_length b f flt inp previous Hin Hp) as KL.
  pose proof (data_start_le b flt (Z.of_nat (length inp)) ltac:(lia)) as DS.
  apply run_events_agree; auto.
  cbn [key_ptr data_ptr]. right.
  rewrite (encodes_adv f _ (filtered flt previous inp)) by (now apply events_encode).
  rewrite KL. lia.
Qed.

(** *** The last key byte *)

Lemma ev_gen_last f : forall vs pend,
  exists es' x, ev_gen f pend vs = es' ++ [Key [x]].
Proof.
  induction vs as [|v r IH]; intros pend.
  - exists [], (pack_keys pend). reflexivity.
  - cbn [ev_gen]. destruct (length pend =? 4)%nat.
    + destruct (IH [key f v]) as (es' & x & ->).
      exists (Emit (generic_bytes v) (len f v) :: Key [pack_keys pend] :: es'), x.
      reflexivity.
    + destruct (IH (pend ++ [key f v])) as (es' & x & ->).
      exists (Emit (generic_bytes v) (len f v) :: es'), x. reflexivity.
Qed.

Lemma ev_generic_last f : forall k vs, vs <> [] -> (64 * k < length vs)%nat ->
  exists es' bs, ev_generic f k vs = es' ++ [Key bs] /\ bs <> [].
Proof.
  induction k as [|k IH]; intros vs Ne L.
  - cbn [ev_generic]. destruct vs as [|v r]; [congruence|].
    destruct (ev_gen_last f (v :: r) []) as (es' & x & ->).
    exists es', [x]. split; [reflexivity|discriminate].
  - cbn [ev_generic].
    destruct (IH (skipn 64 vs)) as (es' & bs & -> & Nb).
    + intros E. apply (f_equal (@length Z)) in E. rewrite length_skipn in E.
      cbn [length] in E. lia.
    + rewrite length_skipn. lia.
    + exists (ev_gen f [] (firstn 64 vs) ++ es'), bs.
      split; [now rewrite app_assoc|exact Nb].
Qed.

Lemma key_block_nonempty f vs : vs <> [] -> key_block f vs <> [].
Proof.
  intros Ne E. apply (f_equal (@length Z)) in E.
  apply (f_equal Z.of_nat) in E. rewrite key_block_length in E.
  unfold key_block_len in E. cbn [length Z.of_nat] in E.
  destruct vs; [congruence|]. cbn [length] in E. Z.div_mod_to_equations. lia.
Qed.

Lemma ev_x64_last f : forall n vs, (length vs <= n)%nat -> (length vs mod 8 <> 0)%nat ->
  exists es' bs, ev_x64 f (e8 f) vs = es' ++ [Key bs] /\ bs <> [].
Proof.
  induction n as [|n IH]; intros vs L M.
  - destruct vs; [cbn in M; congruence|cbn [length] in L; lia].
  - destruct vs as [|v0 [|v1 [|v2 [|v3 [|v4 [|v5 [|v6 [|v7 r]]]]]]]];
      try (cbn in M; congruence);
      try (rewrite ev_x64_tail by (cbn [length]; lia); unfold ev_tail;
           eexists; eexists; split; [reflexivity|apply key_block_nonempty; discriminate]).
    rewrite ev_x64_app8.
    destruct (IH r) as (es' & bs & -> & Nb).
    + cbn [length] in L. lia.
    + cbn [length] in M.
      replace (S (S (S (S (S (S (S (S (length r)))))))))%nat with (length r + 1 * 8)%nat in M
        by lia.
      now rewrite Nat.Div0.mod_add in M.
    + eexists; eexists. split; [now rewrite app_assoc|exact Nb].
Qed.

Lemma events_last b f flt previous inp : (length inp mod 4 <> 0)%nat ->
  exists es' bs, events b f flt previous inp = es' ++ [Key bs] /\ bs <> [].
Proof.
  intros M. pose proof (filtered_length flt previous inp) as L.
  assert (M8 : (length inp mod 8 <> 0)%nat).
  { intros E. apply M. pose proof (Nat.div_mod_eq (length inp) 8).
    pose proof (Nat.div_mod_eq (length inp) 4).
    pose proof (Nat.mod_upper_bound (length inp) 4). lia. }
  assert (M64 : (64 * (length inp / 64) < length inp)%nat).
  { pose proof (Nat.div_mod_eq (length inp) 64).
    pose proof (Nat.div_mod_eq (length inp) 4).
    pose proof (Nat.mod_upper_bound (length inp) 4). lia. }
  assert (Ne : filtered flt previous inp <> []).
  { intros E. rewrite E in L. cbn [length] in L. rewrite <- L in M. cbn in M. congruence. }
  destruct b; unfold events.
  - apply (ev_x64_last f (length inp)); rewrite L; auto.
  - apply ev_generic_last; [exact Ne|]. rewrite L. destruct flt; try lia.
Qed.

Lemma last_of_app {A} (l1 bs l2 : list A) x d :
  l1 ++ bs = l2 ++ [x] -> bs <> [] -> last bs d = x.
Proof.
  intros E Nb. rewrite (app_removelast_last d Nb) in E.
  rewrite app_assoc in E. apply app_inj_tail in E. tauto.
Qed.

Lemma store_bytes_last m a bs : bs <> [] ->
  store_bytes m a bs (a + Z.of_nat (length bs) - 1) = last bs 0.
Proof.
  intros Nb. rewrite store_bytes_in
    by (destruct bs; [congruence|cbn [length]; lia]).
  rewrite (app_removelast_last 0 Nb) at 2.
  replace (Z.to_nat (a + Z.of_nat (length bs) - 1 - a)) with (length (removelast bs)).
  - rewrite app_nth2, Nat.sub_diag by lia. reflexivity.
  - rewrite (app_removelast_last 0 Nb) at 2. rewrite length_app. cbn [length]. lia.
Qed.

(** The keys of a group of fewer than four elements leave the upper
    bits of their byte clear. *)
Lemma key_block_last f vs : (length vs mod 4 <> 0)%nat ->
  exists l x, key_block f vs = l ++ [x] /\ 0 <= x < 4 ^ Z.of_nat (length vs mod 4).
Proof.
  intros M. set (q := (length vs / 4)%nat).
  pose proof (Nat.div_mod_eq (length vs) 4) as E.
  pose proof (Nat.mod_upper_bound (length vs) 4 ltac:(lia)) as B.
  unfold key_block.
  rewrite <- (firstn_skipn (q * 4) (map (key f) vs)).
  rewrite (chunks_app 4 ltac:(lia) q)
    by (rewrite length_firstn, length_map; subst q; lia).
  assert (Ls : length (skipn (q * 4) (map (key f) vs)) = (length vs mod 4)%nat)
    by (rewrite length_skipn, length_map; subst q; lia).
  rewrite (chunks_one 4 (skipn _ _)) by lia.
  rewrite map_app. cbn [map].
  eexists; eexists; split; [reflexivity|].
  rewrite <- Ls. apply pack_keys_range.
  apply Forall_skipn', keys_in_range.
Qed.

(** ** The filters *)

(** C9. For 32-bit [v] and [p], [_zigzag_decode_32] undoes
    [_zigzag_encode_32], [_delta_decode_32] undoes [_delta_encode_32] for
    the same anchor, everything modulo 2^32; and the encoder's
    [(val + val) ^ (arithmetic shift right by 31)] is the
    [(v << 1) ^ (v >> 31)] of the specification. *)
Theorem filter_identities v p : is_u32 v -> is_u32 p ->
  _zigzag_decode_32 (_zigzag_encode_32 v) = v /\
  _delta_decode_32 (_delta_encode_32 v p) p = v /\
  _zigzag_encode_32 v = zigzag_spec v.
Proof.
  intros Hv Hp. split; [|split].
  - now apply zigzag_roundtrip.
  - now apply delta_roundtrip.
  - apply zigzag_encode_spec.
Qed.

Lemma filter_identities_witness :
  _zigzag_decode_32 (_zigzag_encode_32 4294967295) = 4294967295 /\
  _delta_decode_32 (_delta_encode_32 4294967295 1) 1 = 4294967295 /\
  _zigzag_encode_32 4294967295 = zigzag_spec 4294967295.
Proof. apply (filter_identities 4294967295 1); unfold is_u32; lia. Defined.

(** ** The scalar encode steps *)

Lemma key_0124_table v : 0 <= v ->
  let k := key F0124 v in
  let w := len F0124 v in
  (k = 0 /\ w = 0 <-> v = 0) /\
  (k = 1 /\ w = 1 <-> 1 <= v <= 0xFF) /\
  (k = 2 /\ w = 2 <-> 0x100 <= v <= 0xFFFF) /\
  (k = 3 /\ w = 4 <-> 0xFFFF < v).
Proof.
  intros H. unfold len, width, key.
  destruct (Z.eqb_spec v 0); [cbn; lia|].
  destruct (Z.leb_spec v 0xFF); [cbn; lia|].
  destruct (Z.leb_spec v 0xFFFF); cbn; lia.
Qed.

Lemma key_1234_table v :
  let k := key F1234 v in
  (k = 0 <-> v <= 0xFF) /\
  (k = 1 <-> 0xFF < v <= 0xFFFF) /\
  (k = 2 <-> 0xFFFF < v <= 0xFFFFFF) /\
  (k = 3 <-> 0xFFFFFF < v).
Proof.
  unfold key.
  destruct (Z.leb_spec v 0xFF); [cbn; lia|].
  destruct (Z.leb_spec v 0xFFFF); [cbn; lia|].
  destruct (Z.leb_spec v 0xFFFFFF); cbn; lia.
Qed.

Lemma load_payload m dp bs n : (n <= length bs)%nat ->
  load_bytes (store_bytes m dp bs) dp n = firstn n bs.
Proof.
  intros H.
  pose proof (holds_firstn (store_bytes m dp bs) dp bs n (holds_store m dp bs)) as F.
  unfold holds in F. rewrite length_firstn in F.
  now replace (Nat.min n (length bs)) with n in F by lia.
Qed.

(** One use of [SVB0_ENCODE8] on eight values: the key bytes, stored
    last, and the two pointers; and the data bytes when the key pointer
    is at least two bytes below the data pointer. *)
Lemma svb0_group_stores c v0 v1 v2 v3 v4 v5 v6 v7 :
  is_u32 v0 -> is_u32 v1 -> is_u32 v2 -> is_u32 v3 ->
  is_u32 v4 -> is_u32 v5 -> is_u32 v6 -> is_u32 v7 ->
  let vs := [v0; v1; v2; v3; v4; v5; v6; v7] in
  let c' := Svb0.SVB0_ENCODE8 c (unlanes 4 [v0; v1; v2; v3]) (unlanes 4 [v4; v5; v6; v7]) in
  load_bytes (buf c') (key_ptr c) 2 = key_block F0124 vs /\
  key_ptr c' = key_ptr c + 2 /\
  data_ptr c' = data_ptr c + sum (map (len F0124) vs) /\
  (key_ptr c + 2 <= data_ptr c ->
   load_bytes (buf c') (data_ptr c) (Z.to_nat (sum (map (len F0124) vs))) =
     data_block F0124 vs).
Proof.
  intros H0 H1 H2 H3 H4 H5 H6 H7. cbv zeta.
  rewrite SVB0_ENCODE8_events.
  pose proof (e8_values F0124 v0 v1 v2 v3 v4 v5 v6 v7 H0 H1 H2 H3 H4 H5 H6 H7) as En.
  cbn [e8] in En.
  destruct (svb0_e8_values v0 v1 v2 v3 v4 v5 v6 v7 H0 H1 H2 H3 H4 H5 H6 H7)
    as (wa & wb & E & _).
  set (vs := [v0; v1; v2; v3; v4; v5; v6; v7]) in *.
  set (es := svb0_e8 (unlanes 4 [v0; v1; v2; v3]) (unlanes 4 [v4; v5; v6; v7])) in *.
  clearbody es.
  pose proof (encodes_adv F0124 es vs En) as A.
  destruct En as (W & D & K & S).
  assert (LK : length (key_block F0124 vs) = 2%nat).
  { apply Nat2Z.inj. rewrite key_block_length. reflexivity. }
  split; [|split; [|split]].
  - rewrite E. cbn [run_events fold_left run_event buf key_ptr data_ptr].
    rewrite <- LK. apply load_store_bytes.
  - rewrite run_events_key_ptr, K, LK. reflexivity.
  - rewrite run_events_data_ptr, A. reflexivity.
  - intros Hs.
    destruct (run_events_content es c W) as [_ Hd]; [rewrite K, LK; lia|].
    unfold holds in Hd. rewrite D in Hd.
    rewrite <- data_block_length, Nat2Z.id. exact Hd.
Qed.



(** C5, as the sources have it. Both scalar steps of the 1234 format
    yield the same code [k] for a 32-bit [v]: 0 if [v <= 0xFF], 1 if
    [0xFF < v <= 0xFFFF], 2 if [0xFFFF < v <= 0xFFFFFF], 3 otherwise
    (this is what the carry trick of [_svb1_encode1_x64] computes), and
    the data pointer advances by [k + 1].  [_svb1_encode1_x64] stores the
    four bytes of [v], little-endian; [_svb1_encode1_generic] stores the
    two low bytes, and the two high ones only when [v > 0xFFFF]; after
    either, the first [k + 1] bytes at the data pointer are the low-order
    bytes of [v]. *)
Theorem svb1_key_derivation v dp m : is_u32 v ->
  let r1 := Svb1._svb1_encode1_x64 m dp v in
  let r2 := Svb1._svb1_encode1_generic m dp v in
  let k := snd r1 in
  snd r2 = k /\
  (k = 0 <-> v <= 0xFF) /\
  (k = 1 <-> 0xFF < v <= 0xFFFF) /\
  (k = 2 <-> 0xFFFF < v <= 0xFFFFFF) /\
  (k = 3 <-> 0xFFFFFF < v) /\
  Svb1.svb1_tail_step 0 dp m v 0 = (k, dp + (k + 1), fst r1) /\
  Svb1.svb1_generic_step dp m v = (k, dp + (k + 1), fst r2) /\
  load_bytes (fst r1) dp 4 = le_bytes 4 v /\
  fst r2 = store_bytes m dp (if v <=? 0xFFFF then le_bytes 2 v else le_bytes 4 v) /\
  load_bytes (fst r2) dp (Z.to_nat (k + 1)) = firstn (Z.to_nat (k + 1)) (le_bytes 4 v).
Proof.
  intros Hv. cbv zeta.
  rewrite svb1_tail_step_add by (auto; lia).
  rewrite svb1_generic_step_eq by assumption.
  rewrite svb1_encode1_generic_eq by assumption.
  rewrite svb1_encode1_x64_code by assumption.
  rewrite svb1_encode1_x64_mem. cbn [fst snd].
  destruct (key_1234_table v) as (T0 & T1 & T2 & T3).
  destruct (payload_prefix_generic F1234 v Hv) as [Pg Lg].
  pose proof (key_range F1234 v) as Kr.
  assert (Lw : len F1234 v = key F1234 v + 1) by reflexivity.
  repeat (split; [solve [auto | lia]|]).
  split; [|split; [|split; [|split]]].
  - do 2 f_equal; lia.
  - now rewrite Lw.
  - apply (load_store_bytes m dp (le_bytes 4 v)).
  - reflexivity.
  - rewrite <- Lw. rewrite load_payload by lia. exact Pg.
Qed.

Lemma svb1_key_derivation_witness :
  let r1 := Svb1._svb1_encode1_x64 (fun _ => 0xFE) 0 0x10000 in
  let r2 := Svb1._svb1_encode1_generic (fun _ => 0xFE) 0 0x10000 in
  let k := snd r1 in
  snd r2 = k /\
  (k = 0 <-> 0x10000 <= 0xFF) /\
  (k = 1 <-> 0xFF < 0x10000 <= 0xFFFF) /\
  (k = 2 <-> 0xFFFF < 0x10000 <= 0xFFFFFF) /\
  (k = 3 <-> 0xFFFFFF < 0x10000) /\
  Svb1.svb1_tail_step 0 0 (fun _ => 0xFE) 0x10000 0 = (k, 0 + (k + 1), fst r1) /\
  Svb1.svb1_generic_step 0 (fun _ => 0xFE) 0x10000 = (k, 0 + (k + 1), fst r2) /\
  load_bytes (fst r1) 0 4 = le_bytes 4 0x10000 /\
  fst r2 = store_bytes (fun _ => 0xFE) 0
             (if 0x10000 <=? 0xFFFF then le_bytes 2 0x10000 else le_bytes 4 0x10000) /\
  load_bytes (fst r2) 0 (Z.to_nat (k + 1)) = firstn (Z.to_nat (k + 1)) (le_bytes 4 0x10000).
Proof. apply (svb1_key_derivation 0x10000 0 (fun _ => 0xFE)). unfold is_u32. lia. Defined.

(** [_svb1_encode1_generic] on the value 1 leaves the third and fourth
    byte at the data pointer as they were: it does not store the four
    bytes of the value. *)
Lemma svb1_generic_step_two_bytes :
  let m := fst (Svb1._svb1_encode1_generic (fun _ => 0xFE) 0 1) in
  load_bytes m 0 4 = [1; 0; 0xFE; 0xFE] /\ load_bytes m 0 4 <> le_bytes 4 1.
Proof. cbv zeta. split; [reflexivity|discriminate]. Qed.

(** ** Two concrete streams *)

Lemma is_u32_list l : forallb (fun v => (0 <=? v) && (v <? 2 ^ 32)) l = true ->
  Forall is_u32 l.
Proof.
  intros H. rewrite forallb_forall in H. apply Forall_forall. intros v Hv.
  specialize (H v Hv). unfold is_u32. lia.
Qed.

(** The stream both builds of a variant without anchor leave for an
    input short enough. *)
Lemma plain_stream b f flt undef inp out bytes :
  (flt = Plain \/ flt = Zigzag) ->
  forallb (fun v => (0 <=? v) && (v <? 2 ^ 32)) inp = true ->
  length undef = 16%nat -> Z.of_nat (length inp) < 2 ^ 34 - 3 ->
  stream f (filtered flt 0 inp) = bytes ->
  let r := encode b f flt undef inp (Z.of_nat (length inp)) out 0 in
  fst r = Z.of_nat (length bytes) /\ load_bytes (snd r) 0 (length bytes) = bytes.
Proof.
  intros Hf Hin Hu Hn Hs. cbv zeta.
  destruct (encode_stream b f flt undef inp out 0) as [E1 E2]; auto.
  - now apply is_u32_list.
  - unfold is_u32; lia.
  - lia.
  - rewrite Hs in E1, E2. split; [exact E1|exact E2].
Qed.

(** C7. On [0, 1, 255, 256, 65535, 65536, 16777215, 16777216] both
    builds of [svb1_enc] return [out + 19] and leave the key bytes
    [0x40, 0xE9] followed by the data bytes
    [00 01 FF 00 01 FF FF 00 00 01 FF FF FF 00 00 00 01], whatever the
    buffer held. *)
Theorem svb1_concrete_stream out :
  let inp := [0; 1; 255; 256; 65535; 65536; 16777215; 16777216] in
  let bytes := [0x40; 0xE9; 0x00; 0x01; 0xFF; 0x00; 0x01; 0xFF; 0xFF; 0x00; 0x00; 0x01;
                0xFF; 0xFF; 0xFF; 0x00; 0x00; 0x00; 0x01] in
  (fst (svb1_enc_x64 inp 8 out) = 19 /\
   load_bytes (snd (svb1_enc_x64 inp 8 out)) 0 19 = bytes) /\
  (fst (svb1_enc_generic inp 8 out) = 19 /\
   load_bytes (snd (svb1_enc_generic inp 8 out)) 0 19 = bytes).
Proof.
  intros inp bytes. split.
  - apply (plain_stream X64 F1234 Plain (repeat 0 16) inp out bytes);
      auto; reflexivity.
  - apply (plain_stream Generic F1234 Plain (repeat 0 16) inp out bytes);
      auto; reflexivity.
Qed.

(** C8, as the sources have it. On
    [0, 1, 255, 256, 65535, 65536, 16777215] both builds of [svb0_enc]
    return [out + 16] and leave the key bytes [0x94, 0x3E] (the codes
    0, 1, 1, 2 and 2, 3, 3 packed from the least significant bit up)
    followed by the data bytes
    [01 FF 00 01 FF FF 00 00 01 00 FF FF FF 00]. *)
Theorem svb0_concrete_stream out :
  let inp := [0; 1; 255; 256; 65535; 65536; 16777215] in
  let bytes := [0x94; 0x3E; 0x01; 0xFF; 0x00; 0x01; 0xFF; 0xFF; 0x00; 0x00; 0x01; 0x00;
                0xFF; 0xFF; 0xFF; 0x00] in
  (fst (svb0_enc_x64 inp 7 out) = 16 /\
   load_bytes (snd (svb0_enc_x64 inp 7 out)) 0 16 = bytes) /\
  (fst (svb0_enc_generic inp 7 out) = 16 /\
   load_bytes (snd (svb0_enc_generic inp 7 out)) 0 16 = bytes).
Proof.
  intros inp bytes. split.
  - apply (plain_stream X64 F0124 Plain (repeat 0 16) inp out bytes);
      auto; reflexivity.
  - apply (plain_stream Generic F0124 Plain (repeat 0 16) inp out bytes);
      auto; reflexivity.
Qed.

(** The key bytes [svb0_enc] leaves for that input are not [0x69, 0x0F]. *)
Lemma svb0_concrete_keys :
  let inp := [0; 1; 255; 256; 65535; 65536; 16777215] in
  load_bytes (snd (svb0_enc_x64 inp 7 (fun _ => 0xFE))) 0 2 = [0x94; 0x3E] /\
  load_bytes (snd (svb0_enc_generic inp 7 (fun _ => 0xFE))) 0 2 = [0x94; 0x3E] /\
  load_bytes (snd (svb0_enc_x64 inp 7 (fun _ => 0xFE))) 0 2 <> [0x69; 0x0F] /\
  load_bytes (snd (svb0_enc_generic inp 7 (fun _ => 0xFE))) 0 2 <> [0x69; 0x0F].
Proof.
  cbv zeta.
  assert (E1 : load_bytes (snd (svb0_enc_x64 [0; 1; 255; 256; 65535; 65536; 16777215] 7
                                  (fun _ => 0xFE))) 0 2 = [0x94; 0x3E])
    by (vm_compute; reflexivity).
  assert (E2 : load_bytes (snd (svb0_enc_generic [0; 1; 255; 256; 65535; 65536; 16777215] 7
                                  (fun _ => 0xFE))) 0 2 = [0x94; 0x3E])
    by (vm_compute; reflexivity).
  rewrite E1, E2. repeat split; discriminate.
Qed.

(** ** The key block length held in 32 bits

    [svb1dt_enc_x64] and [svb0dt_enc_x64] keep [key_block_len] in a
    [uint32_t]; every other encoder keeps it in a [size_t]. *)

Lemma deltas_zero : forall n, deltas _delta_encode_32 0 (repeat 0 n) = repeat 0 n.
Proof. induction n as [|n IH]; [reflexivity|]. cbn [repeat deltas]. now rewrite IH. Qed.

Lemma sum_len_repeat f : forall n,
  sum (map (len f) (repeat 0 n)) = len f 0 * Z.of_nat n.
Proof.
  unfold sum. induction n as [|n IH]; [cbn; lia|].
  cbn [repeat map fold_right]. rewrite IH. lia.
Qed.

Lemma Forall_repeat_zero n : Forall is_u32 (repeat 0 n).
Proof. apply Forall_forall. intros x Hx. apply repeat_spec in Hx. subst. unfold is_u32. lia. Qed.

Lemma dt_zeros_length b f n count undef out :
  length undef = 16%nat -> Z.of_nat n = count -> count < 2 ^ 64 - 3 ->
  fst (encode b f DeltaTranspose undef (repeat 0 n) count out 0) =
  data_start b DeltaTranspose count + len f 0 * count.
Proof.
  intros Hu Hc Hn. subst count.
  pose proof (encode_length b f DeltaTranspose undef (repeat 0 n) out 0
                (Forall_repeat_zero n)) as E.
  rewrite repeat_length in E. rewrite E; auto; [|unfold is_u32; lia].
  unfold filter_values. now rewrite deltas_zero, sum_len_repeat.
Qed.

Lemma encode_names u i c o p :
  svb1dt_enc_x64 u i c o p = encode X64 F1234 DeltaTranspose u i c o p /\
  svb0dt_enc_x64 u i c o p = encode X64 F0124 DeltaTranspose u i c o p /\
  svb1dt_enc_generic i c o p = encode Generic F1234 DeltaTranspose u i c o p /\
  svb0dt_enc_generic i c o p = encode Generic F0124 DeltaTranspose u i c o p.
Proof. repeat split. Qed.

Lemma svb1dt_zeros out n : Z.of_nat n = 17179869184 ->
  fst (svb1dt_enc_x64 (repeat 0 16) (repeat 0 n) 17179869184 out 0) = 17179869184 /\
  fst (svb1dt_enc_generic (repeat 0 n) 17179869184 out 0) = 4294967296 + 17179869184 /\
  key_block_len 17179869184 +
  sum (map (len F1234) (filter_values DeltaTranspose 0 (repeat 0 n))) =
  4294967296 + 17179869184.
Proof.
  intros Hn.
  destruct (encode_names (repeat 0 16) (repeat 0 n) 17179869184 out 0) as (E1 & _ & E2 & _).
  rewrite E1, E2.
  rewrite !(dt_zeros_length _ _ n 17179869184 (repeat 0 16) out eq_refl Hn eq_refl).
  unfold filter_values. rewrite deltas_zero, sum_len_repeat, Hn.
  split; [|split]; reflexivity.
Qed.

Lemma svb0dt_zeros out n : Z.of_nat n = 17179869184 ->
  fst (svb0dt_enc_x64 (repeat 0 16) (repeat 0 n) 17179869184 out 0) = 0 /\
  fst (svb0dt_enc_generic (repeat 0 n) 17179869184 out 0) = 4294967296.
Proof.
  intros Hn.
  destruct (encode_names (repeat 0 16) (repeat 0 n) 17179869184 out 0) as (_ & E1 & _ & E2).
  rewrite E1, E2.
  rewrite !(dt_zeros_length _ _ n 17179869184 (repeat 0 16) out eq_refl Hn eq_refl).
  split; reflexivity.
Qed.

(** C2, where it fails. On 2^34 zeros [svb1dt_enc_x64] returns
    [out + 2^34]: the key block length 2^32 is truncated to 0, so the
    data block starts at [out], and every element takes one byte.  The
    identity asks for [((N + 3) >> 2) + sum of the widths], which is
    [2^32 + 2^34]; the portable build returns that. *)
Theorem svb1dt_enc_x64_length_wraps out :
  let inp := repeat 0 (Z.to_nat 17179869184) in
  fst (svb1dt_enc_x64 (repeat 0 16) inp 17179869184 out 0) = 17179869184 /\
  fst (svb1dt_enc_generic inp 17179869184 out 0) = 4294967296 + 17179869184 /\
  key_block_len 17179869184 +
  sum (map (len F1234) (filter_values DeltaTranspose 0 inp)) = 4294967296 + 17179869184.
Proof. cbv zeta. apply svb1dt_zeros. apply Z2Nat.id. discriminate. Qed.

(** C6, where it fails. On 2^34 zeros [svb0dt_enc_x64] returns [out]
    (the truncated key block length is 0 and no element takes a byte)
    while [svb0dt_enc_generic] returns [out + 2^32]: the two builds
    disagree on the stream length. *)
Theorem svb0dt_builds_disagree out :
  let inp := repeat 0 (Z.to_nat 17179869184) in
  fst (svb0dt_enc_x64 (repeat 0 16) inp 17179869184 out 0) = 0 /\
  fst (svb0dt_enc_generic inp 17179869184 out 0) = 4294967296.
Proof. cbv zeta. apply svb0dt_zeros. apply Z2Nat.id. discriminate. Qed.

(** ** Inside the range of the 32-bit key block length *)

(** The length identity and the bound, for every encoder whose key
    block length is not truncated. *)
Lemma compress_bound_eq n : 0 <= n -> key_block_len n + 4 * n < 2 ^ 64 ->
  streamvbyte_compress_bound n = key_block_len n + 4 * n.
Proof.
  intros H0 H. unfold streamvbyte_compress_bound. cbv zeta.
  assert (0 <= key_block_len n) by (unfold key_block_len; apply Z.div_pos; lia).
  assert (n < 2 ^ 64 - 3) by (pow2_consts; lia).
  rewrite key_block_len_eq by lia.
  rewrite Z.shiftl_mul_pow2 by lia. change (2 ^ 2) with 4.
  rewrite (u64_small (n * 4)) by (pow2_consts; lia).
  rewrite u64_small by (pow2_consts; lia). lia.
Qed.

Lemma encoded_length_bound b f flt undef inp out previous :
  Forall is_u32 inp -> is_u32 previous -> length undef = 16%nat ->
  key_block_len (Z.of_nat (length inp)) + 4 * Z.of_nat (length inp) < 2 ^ 64 ->
  (b = X64 -> flt = DeltaTranspose -> Z.of_nat (length inp) < 2 ^ 34 - 3) ->
  let N := Z.of_nat (length inp) in
  let r := encode b f flt undef inp N out previous in
  fst r = Z.shiftr (N + 3) 2 + sum (map (len f) (filter_values flt previous inp)) /\
  fst r <= streamvbyte_compress_bound N /\
  streamvbyte_compress_bound N = Z.shiftr (N + 3) 2 + 4 * N.
Proof.
  intros Hin Hp Hu Hn R. cbv zeta.
  assert (0 <= key_block_len (Z.of_nat (length inp)))
    by (unfold key_block_len; apply Z.div_pos; lia).
  assert (Z.of_nat (length inp) < 2 ^ 64 - 3) by (pow2_consts; lia).
  rewrite encode_length by auto.
  rewrite data_start_eq by (auto; lia).
  pose proof (sum_len_bounds f (filter_values flt previous inp)) as B.
  rewrite filter_values_length in B.
  rewrite compress_bound_eq by lia.
  rewrite Z.shiftr_div_pow2 by lia. change (2 ^ 2) with 4.
  unfold key_block_len. lia.
Qed.

(** In that range the two builds of a variant return the same length
    and leave the same bytes below it. *)
Lemma builds_agree f flt undef inp out1 out2 previous p :
  Forall is_u32 inp -> is_u32 previous -> length undef = 16%nat ->
  Z.of_nat (length inp) < 2 ^ 62 ->
  (flt = DeltaTranspose -> Z.of_nat (length inp) < 2 ^ 34 - 3) ->
  let N := Z.of_nat (length inp) in
  let r1 := encode X64 f flt undef inp N out1 previous in
  let r2 := encode Generic f flt undef inp N out2 previous in
  fst r1 = fst r2 /\ (0 <= p < fst r1 -> snd r1 p = snd r2 p).
Proof.
  intros Hin Hp Hu Hn R. cbv zeta.
  destruct (encode_stream X64 f flt undef inp out1 previous) as [E1 H1];
    auto; try (pow2_consts; lia).
  destruct (encode_stream Generic f flt undef inp out2 previous) as [E2 H2];
    auto; try (pow2_consts; lia); try discriminate.
  split; [congruence|]. intros Hr.
  rewrite E1 in Hr.
  rewrite holds_nth in H1, H2.
  specialize (H1 (Z.to_nat p) ltac:(lia)). specialize (H2 (Z.to_nat p) ltac:(lia)).
  rewrite Z2Nat.id in H1, H2 by lia. cbn [Z.add] in H1, H2. congruence.
Qed.

(** ** Stores stay below the bound *)

Lemma encode_below_bound b f flt undef inp out previous p :
  Forall is_u32 inp -> is_u32 previous -> length undef = 16%nat ->
  key_block_len (Z.of_nat (length inp)) + 4 * Z.of_nat (length inp) < 2 ^ 64 ->
  streamvbyte_compress_bound (Z.of_nat (length inp)) <= p ->
  snd (encode b f flt undef inp (Z.of_nat (length inp)) out previous) p = out p.
Proof.
  intros Hin Hp Hu Hn Hb.
  assert (0 <= key_block_len (Z.of_nat (length inp)))
    by (unfold key_block_len; apply Z.div_pos; lia).
  rewrite compress_bound_eq in Hb by lia.
  apply encode_frame; auto. pow2_consts. lia.
Qed.

(** ** The last key byte and determinism *)

Lemma last_key_byte b f flt undef inp out previous :
  Forall is_u32 inp -> is_u32 previous -> length undef = 16%nat ->
  Z.of_nat (length inp) < 2 ^ 64 - 3 ->
  Z.of_nat (length inp) mod 4 <> 0 ->
  let N := Z.of_nat (length inp) in
  0 <= snd (encode b f flt undef inp N out previous) (key_block_len N - 1)
    < 4 ^ (N mod 4).
Proof.
  intros Hin Hp Hu Hn M. cbv zeta.
  rewrite encode_run by auto. cbn [snd].
  assert (Em : Z.of_nat (length inp mod 4) = Z.of_nat (length inp) mod 4)
    by (now rewrite Nat2Z.inj_mod).
  assert (Mn : (length inp mod 4 <> 0)%nat) by (intros E; rewrite E in Em; now apply M).
  destruct (events_last b f flt previous inp Mn) as (es' & bs & Ee & Nb).
  destruct (events_encode b f flt previous inp Hin Hp) as (_ & _ & K & _).
  pose proof (events_keys_length b f flt inp previous Hin Hp) as KL.
  rewrite Ee in K, KL |- *. rewrite keys_of_app in K, KL.
  cbn [keys_of flat_map] in K, KL. rewrite app_nil_r in K, KL.
  assert (Mf : (length (filtered flt previous inp) mod 4 <> 0)%nat)
    by (now rewrite filtered_length).
  destruct (key_block_last f _ Mf) as (l & x & Ek & Rx).
  rewrite filtered_length in Rx.
  rewrite Ek in K. pose proof (last_of_app _ _ _ _ 0 K Nb) as El.
  rewrite run_events_app. cbn [run_events fold_left run_event buf].
  rewrite run_events_key_ptr. cbn [key_ptr].
  rewrite length_app, Nat2Z.inj_add in KL.
  replace (key_block_len (Z.of_nat (length inp)) - 1)
    with (0 + Z.of_nat (length (keys_of es')) + Z.of_nat (length bs) - 1) by lia.
  rewrite store_bytes_last by assumption. rewrite El.
  rewrite <- Em. exact Rx.
Qed.

(** C10. For every encoder of both builds and every input whose length
    is not a multiple of four, the last key byte holds nothing above the
    codes of its [N mod 4] elements: shifted right by [2 * (N mod 4)] it
    is zero.  And the returned length and every byte of the stream below
    it are the same whatever the output buffer (and the undefined
    register the SSE4.1 delta variants start from) held: they depend on
    the input values, their number and the anchor only. *)
Theorem reserved_key_bits_zero b f flt undef1 undef2 inp out1 out2 previous :
  Forall is_u32 inp -> is_u32 previous ->
  length undef1 = 16%nat -> length undef2 = 16%nat ->
  Z.of_nat (length inp) < 2 ^ 64 - 3 ->
  let N := Z.of_nat (length inp) in
  let r1 := encode b f flt undef1 inp N out1 previous in
  let r2 := encode b f flt undef2 inp N out2 previous in
  (N mod 4 <> 0 -> Z.shiftr (snd r1 (key_block_len N - 1)) (2 * (N mod 4)) = 0) /\
  fst r1 = fst r2 /\
  (forall p, 0 <= p < fst r1 -> snd r1 p = snd r2 p).
Proof.
  intros Hin Hp H1 H2 Hn. cbv zeta. split; [|split].
  - intros M.
    pose proof (last_key_byte b f flt undef1 inp out1 previous Hin Hp H1 Hn M) as B.
    cbv zeta in B.
    pose proof (Z.mod_pos_bound (Z.of_nat (length inp)) 4 ltac:(lia)) as R.
    rewrite Z.shiftr_div_pow2 by lia.
    rewrite Z.pow_mul_r by lia. change (2 ^ 2) with 4.
    apply Z.div_small. exact B.
  - apply (encode_agree b f flt undef1 undef2 inp out1 out2 previous 0); auto.
  - intros p. apply (encode_agree b f flt undef1 undef2 inp out1 out2 previous p); auto.
Qed.

Lemma reserved_key_bits_zero_witness :
  let inp := [0; 1; 255; 256; 65535; 65536; 16777215] in
  let r1 := encode X64 F0124 DeltaZigzag (repeat 0 16) inp 7 (fun _ => 0xFE) 42 in
  let r2 := encode X64 F0124 DeltaZigzag (repeat 255 16) inp 7 (fun _ => 0xFD) 42 in
  (7 mod 4 <> 0 -> Z.shiftr (snd r1 (key_block_len 7 - 1)) (2 * (7 mod 4)) = 0) /\
  fst r1 = fst r2 /\
  (forall p, 0 <= p < fst r1 -> snd r1 p = snd r2 p).
Proof.
  apply (reserved_key_bits_zero X64 F0124 DeltaZigzag (repeat 0 16) (repeat 255 16)
           [0; 1; 255; 256; 65535; 65536; 16777215] (fun _ => 0xFE) (fun _ => 0xFD) 42).
  - apply is_u32_list. reflexivity.
  - unfold is_u32. lia.
  - reflexivity.
  - reflexivity.
  - reflexivity.
Defined.

Import ShortFormat.

(** ** [short_enc] as an event list *)

Lemma load_elems2 inp in_ : load_elems 2 inp in_ = unlanes 2 (elems inp in_ 8).
Proof. reflexivity. Qed.

Lemma enc_group_events inp in_ keys c :
  Short.enc_group inp in_ keys (data_ptr c) (buf c) =
  (let src := group_src (elems inp in_ 8) in
   let c' := run_events (group_events src) c in
   (_mm_avg_epu8 keys (group_mask src), data_ptr c', buf c')).
Proof.
  unfold Short.enc_group. rewrite load_elems2. fold (group_src (elems inp in_ 8)).
  cbv zeta. set (src := group_src (elems inp in_ 8)).
  fold (group_mask src). fold (group_desc src).
  unfold group_events.
  cbn [run_events fold_left run_event data_ptr buf].
  unfold _mm_storel_epi64, _mm_storeh_pi.
  reflexivity.
Qed.

Lemma elems_length inp i n : length (elems inp i n) = n.
Proof. unfold elems. now rewrite length_map, length_seq. Qed.

Lemma elems_snoc inp i n :
  elems inp i (S n) = elems inp i n ++ [rd inp (i + Z.of_nat n)].
Proof. unfold elems. now rewrite seq_S, map_app. Qed.

Lemma elems_skipn inp : forall n a, (a + n <= length inp)%nat ->
  elems inp (Z.of_nat a) n = firstn n (skipn a inp).
Proof.
  intros n a H. apply (nth_ext _ _ 0 0).
  - rewrite elems_length, length_firstn, length_skipn. lia.
  - intros j Hj. rewrite elems_length in Hj. unfold elems.
    rewrite (nth_indep _ 0 ((fun j => rd inp (Z.of_nat a + Z.of_nat j)) 0%nat))
      by (now rewrite length_map, length_seq).
    rewrite (map_nth (fun j => rd inp (Z.of_nat a + Z.of_nat j))), seq_nth by lia.
    rewrite nth_firstn. destruct (Nat.ltb_spec j n); [|lia].
    rewrite nth_skipn. unfold rd.
    destruct (Z.ltb_spec (Z.of_nat a + Z.of_nat (0 + j)) 0); [lia|].
    f_equal. lia.
Qed.

Lemma enc_groups_fold inp : forall (idxs : list nat) in_ keys c,
  fold_left
    (fun (t : Z * m128 * Z * mem) (_ : nat) =>
       let '(in_, keys, data, m) := t in
       let '(keys, data, m) := Short.enc_group inp in_ keys data m in
       (in_ + 8, keys, data, m))
    idxs (in_, keys, data_ptr c, buf c) =
  (let gs := map (fun i => elems inp (in_ + 8 * Z.of_nat i) 8) (seq 0 (length idxs)) in
   let c' := run_events (flat_map (fun g => group_events (group_src g)) gs) c in
   (in_ + 8 * Z.of_nat (length idxs),
    fold_left (fun k g => _mm_avg_epu8 k (group_mask (group_src g))) gs keys,
    data_ptr c', buf c')).
Proof.
  induction idxs as [|a r IH]; intros in_ keys c.
  - cbn [fold_left length seq map flat_map run_events]. f_equal. f_equal. f_equal. lia.
  - cbn [fold_left]. rewrite enc_group_events. cbv beta iota zeta.
    rewrite IH. cbv zeta. cbn [length seq map flat_map fold_left].
    rewrite <- seq_shift, map_map.
    rewrite run_events_app.
    replace (in_ + 8 * Z.of_nat 0) with in_ by lia.
    rewrite (map_ext (fun x => elems inp (in_ + 8 * Z.of_nat (S x)) 8)
                     (fun i => elems inp (in_ + 8 + 8 * Z.of_nat i) 8))
      by (intros; f_equal; lia).
    f_equal. f_equal. f_equal. lia.
Qed.

Lemma chunks8_elems inp in_ :
  chunks 8 (elems inp in_ 64) =
  map (fun i => elems inp (in_ + 8 * Z.of_nat i) 8) (seq 0 8).
Proof.
  unfold elems, chunks.
  cbn [seq map length chunks_aux firstn skipn].
  repeat (f_equal; try lia).
Qed.

Lemma length_map2 {A B C} (f : A -> B -> C) a b :
  length (map2 f a b) = Nat.min (length a) (length b).
Proof. unfold map2. now rewrite length_map, length_combine. Qed.

Lemma group_src_length g : length (group_src g) = 16%nat.
Proof. unfold group_src, _mm_shuffle_epi8. now rewrite length_map. Qed.

Lemma group_mask_length src : length src = 16%nat -> length (group_mask src) = 16%nat.
Proof.
  intros H. unfold group_mask, _mm_cmpeq_epi8. rewrite length_map2, H. reflexivity.
Qed.

Lemma group_keys_length gs : length (group_keys gs) = 16%nat.
Proof.
  unfold group_keys.
  assert (G : forall k, length k = 16%nat ->
    length (fold_left (fun k g => _mm_avg_epu8 k (group_mask (group_src g))) gs k) = 16%nat).
  { induction gs as [|g r IH]; intros k Hk; [exact Hk|].
    cbn [fold_left]. apply IH. unfold _mm_avg_epu8.
    rewrite length_map2, Hk, group_mask_length by apply group_src_length. reflexivity. }
  apply G. reflexivity.
Qed.

Lemma block_key_bytes_length gs :
  length (firstn 8 (_mm_xor_si128 (group_keys gs) Short.neg1)) = 8%nat.
Proof.
  rewrite length_firstn. unfold _mm_xor_si128. rewrite length_map2, group_keys_length.
  reflexivity.
Qed.

Lemma keys_of_groups (gs : list (list Z)) :
  keys_of (flat_map (fun g => group_events (group_src g)) gs) = [].
Proof. induction gs as [|g r IH]; [reflexivity|]. cbn [flat_map]. now rewrite keys_of_app, IH. Qed.

Lemma enc_block_unfold inp in_ count out data m :
  Short.enc_block inp (in_, count, out, data, m) =
  (let '(in_, keys, data, m) :=
    fold_left
      (fun (t : Z * m128 * Z * mem) (_ : nat) => let '(in_, keys, data, m) := t in
         let '(keys, data, m) := Short.enc_group inp in_ keys data m in
         (in_ + 8, keys, data, m))
      (seq 0 8) (in_, _mm_setzero_si128, data, m) in
  let m := _mm_storel_epi64 m out (_mm_xor_si128 keys Short.neg1) in
  (in_, u64 (count - 64), out + 8, data, m)).
Proof. reflexivity. Qed.

Lemma enc_block_events inp in_ count c :
  Short.enc_block inp (in_, count, key_ptr c, data_ptr c, buf c) =
  (let c' := run_events (block_events (elems inp in_ 64)) c in
   (in_ + 64, u64 (count - 64), key_ptr c', data_ptr c', buf c')).
Proof.
  rewrite enc_block_unfold. rewrite (enc_groups_fold inp (seq 0 8) in_ _ c).
  rewrite length_seq.
  assert (B : block_events (elems inp in_ 64) =
    flat_map (fun g => group_events (group_src g)) (chunks 8 (elems inp in_ 64)) ++
    [Key (firstn 8 (_mm_xor_si128 (group_keys (chunks 8 (elems inp in_ 64))) Short.neg1))])
    by reflexivity.
  rewrite B. clear B.
  rewrite chunks8_elems.
  generalize (map (fun i => elems inp (in_ + 8 * Z.of_nat i) 8) (seq 0 8)). intros gs.
  assert (G : fold_left (fun k g => _mm_avg_epu8 k (group_mask (group_src g))) gs
            _mm_setzero_si128 = group_keys gs) by reflexivity.
  cbv zeta. rewrite G. clear G.
  pose proof (block_key_bytes_length gs) as Lk.
  generalize dependent (_mm_xor_si128 (group_keys gs) Short.neg1). intros kb Lk.
  rewrite run_events_app.
  pose proof (run_events_key_ptr (flat_map (fun g => group_events (group_src g)) gs) c) as K8.
  rewrite keys_of_groups in K8. cbn [length] in K8.
  replace (key_ptr c + Z.of_nat 0) with (key_ptr c) in K8 by lia.
  generalize dependent (run_events (flat_map (fun g => group_events (group_src g)) gs) c).
  intros c8 K8.
  cbn [run_events fold_left run_event key_ptr data_ptr buf].
  rewrite Lk, K8. unfold _mm_storel_epi64.
  replace (in_ + 8 * Z.of_nat 8) with (in_ + 64) by lia.
  replace (key_ptr c + Z.of_nat 8) with (key_ptr c + 8) by lia.
  reflexivity.
Qed.

(** The loop over full blocks. *)
Lemma enc_blocks_iter inp : forall k a count c,
  64 * Z.of_nat k <= count < 2 ^ 64 ->
  (a + 64 * k <= length inp)%nat ->
  exists c',
    iter k (Short.enc_block inp) (Z.of_nat a, count, key_ptr c, data_ptr c, buf c) =
    (Z.of_nat (a + 64 * k), count - 64 * Z.of_nat k, key_ptr c', data_ptr c', buf c') /\
    forall fuel, (k <= fuel)%nat -> (length inp < a + 64 * (k + 1))%nat ->
      run_events (short_events fuel (skipn a inp)) c =
      run_events (tail_events (skipn (a + 64 * k) inp)) c'.
Proof.
  induction k as [|k IH]; intros a count c Hc Ha.
  - exists c. cbn [iter]. split.
    + replace (a + 64 * 0)%nat with a by lia.
      replace (count - 64 * Z.of_nat 0) with count by lia. reflexivity.
    + intros fuel _ L. replace (a + 64 * 0)%nat with a by lia.
      destruct fuel; cbn [short_events]; [reflexivity|].
      destruct (Nat.leb_spec 64 (length (skipn a inp))); [|reflexivity].
      rewrite length_skipn in *. lia.
  - cbn [iter]. rewrite enc_block_events. cbv zeta.
    set (c1 := run_events (block_events (elems inp (Z.of_nat a) 64)) c).
    destruct (IH (a + 64)%nat (u64 (count - 64)) c1) as (c' & Ei & Er).
    { rewrite u64_small by lia. lia. }
    { lia. }
    exists c'. split.
    + replace (Z.of_nat a + 64) with (Z.of_nat (a + 64)) by lia.
      rewrite Ei. rewrite u64_small by lia.
      replace (a + 64 + 64 * k)%nat with (a + 64 * S k)%nat by lia.
      replace (count - 64 - 64 * Z.of_nat k) with (count - 64 * Z.of_nat (S k)) by lia.
      reflexivity.
    + intros fuel Hf L. destruct fuel as [|fuel]; [lia|].
      cbn [short_events].
      destruct (Nat.leb_spec 64 (length (skipn a inp)));
        [|rewrite length_skipn in *; lia].
      rewrite run_events_app, skipn_skipn.
      rewrite <- elems_skipn by lia. fold c1.
      replace (64 + a)%nat with (a + 64)%nat by lia.
      rewrite (Er fuel) by lia.
      replace (a + 64 + 64 * k)%nat with (a + 64 * S k)%nat by lia. reflexivity.
Qed.

(** *** The element loop *)

Lemma hi_u16 w : is_u16 w -> hi w = w / 256.
Proof.
  unfold is_u16, hi. intros H. rewrite Z.shiftr_div_pow2 by lia.
  change (2 ^ 8) with 256. apply u8_small. pow2_consts. Z.div_mod_to_equations. lia.
Qed.

Lemma tail_key_bit w : is_u16 w ->
  Z.shiftr (u64 (w + 0xFF00)) 16 = b2z (wide w).
Proof.
  intros H. unfold wide. rewrite hi_u16 by assumption. unfold is_u16 in H.
  rewrite u64_small by (pow2_consts; lia).
  rewrite Z.shiftr_div_pow2 by lia. pow2_consts.
  destruct (Z.eqb_spec (w / 256) 0); cbn [negb b2z]; Z.div_mod_to_equations; lia.
Qed.

Lemma pack_bits_app a b : pack_bits (a ++ [b]) = pack_bits a + b2z b * 2 ^ Z.of_nat (length a).
Proof.
  unfold pack_bits. induction a as [|x a IH]; cbn [app fold_right length].
  - cbn. lia.
  - rewrite IH. rewrite Nat2Z.inj_succ, Z.pow_succ_r by lia. lia.
Qed.

Lemma pack_bits_range bs : 0 <= pack_bits bs < 2 ^ Z.of_nat (length bs).
Proof.
  unfold pack_bits. induction bs as [|b bs IH]; cbn [fold_right length]; [cbn; lia|].
  rewrite Nat2Z.inj_succ, Z.pow_succ_r by lia. destruct b; cbn [b2z]; lia.
Qed.

Lemma rd_u16 inp i : Forall is_u16 inp -> is_u16 (rd inp i).
Proof.
  intros H. unfold rd. destruct (i <? 0); [unfold is_u16; lia|].
  destruct (Nat.lt_ge_cases (Z.to_nat i) (length inp)).
  - rewrite Forall_forall in H. apply H. now apply nth_In.
  - rewrite nth_overflow by lia. unfold is_u16; lia.
Qed.

Lemma enc_tail_iter inp in_ : Forall is_u16 inp ->
  forall j c, (j <= 63)%nat ->
  iter j
    (fun s : Z * Z * Z * mem =>
       let '(i, keys, data, m) := s in
       let w := rd inp (in_ + i) in
       let m := store_bytes m data (le_bytes 2 w) in
       let k := Z.shiftr (u64 (w + 0xFF00)) 16 in
       let data := data + (1 + k) in
       let keys := Z.lor keys (u64 (Z.shiftl k i)) in
       (u32 (i + 1), keys, data, m))
    (0, 0, data_ptr c, buf c) =
  (let t := elems inp in_ j in
   let c' := run_events (map (fun w => Emit (le_bytes 2 w) (1 + b2z (wide w))) t) c in
   (Z.of_nat j, pack_bits (map wide t), data_ptr c', buf c')).
Proof.
  intros Hin. induction j as [|j IH]; intros c Hj; [reflexivity|].
  rewrite iter_S, IH by lia. cbv zeta.
  rewrite elems_snoc, !map_app, run_events_app. cbn [map].
  cbn [run_events fold_left run_event data_ptr buf].
  pose proof (rd_u16 inp (in_ + Z.of_nat j) Hin) as Hw.
  rewrite tail_key_bit by assumption.
  rewrite pack_bits_app, length_map, elems_length.
  pose proof (pack_bits_range (map wide (elems inp in_ j))) as R.
  rewrite length_map, elems_length in R.
  assert (P : 0 < 2 ^ Z.of_nat j <= 2 ^ 62)
    by (split; [apply Z.pow_pos_nonneg; lia|apply Z.pow_le_mono_r; lia]).
  assert (E : u64 (Z.shiftl (b2z (wide (rd inp (in_ + Z.of_nat j)))) (Z.of_nat j)) =
              Z.shiftl (b2z (wide (rd inp (in_ + Z.of_nat j)))) (Z.of_nat j)).
  { rewrite Z.shiftl_mul_pow2 by lia. apply u64_small.
    change (2 ^ 62) with 4611686018427387904 in P. pow2_consts.
    destruct (wide _); cbn [b2z]; lia. }
  rewrite E, lor_shiftl_add by lia.
  rewrite u32_small by (pow2_consts; lia).
  repeat f_equal. lia.
Qed.

(** [short_enc] performs the stores of its event list. *)
Lemma short_enc_events out inp : Forall is_u16 inp ->
  Z.of_nat (length inp) < 2 ^ 64 - 7 ->
  Short.short_enc out inp (Z.of_nat (length inp)) =
  (let c := run_events (short_events (length inp) inp)
              (Cursor 0 ((Z.of_nat (length inp) + 7) / 8) out) in
   (data_ptr c, buf c)).
Proof.
  intros Hin Hn. set (N := Z.of_nat (length inp)) in *.
  unfold Short.short_enc.
  rewrite u64_small by (pow2_consts; lia).
  rewrite Z.shiftr_div_pow2 by lia. change (2 ^ 3) with 8.
  set (c0 := Cursor 0 ((N + 7) / 8) out).
  set (k := (length inp / 64)%nat).
  assert (Hk : Z.of_nat k = N / 64) by (subst k N; now rewrite Nat2Z.inj_div).
  clearbody k.
  destruct (enc_blocks_iter inp k 0 N c0) as (c' & Ei & Er).
  { pow2_consts. Z.div_mod_to_equations. lia. }
  { subst N. Z.div_mod_to_equations. lia. }
  specialize (Er (length inp) ltac:(subst N; Z.div_mod_to_equations; lia)
                 ltac:(subst N; Z.div_mod_to_equations; lia)).
  cbn [skipn] in Er. rewrite Er. clear Er.
  cbn [Nat.add] in *.
  remember (N - 64 * Z.of_nat k) as r eqn:Er0.
  assert (Hr : 0 <= r < 64) by (subst r; Z.div_mod_to_equations; lia).
  assert (S0 : (if 64 <=? N
                then do_while (Z.to_nat N) (Short.enc_block inp)
                       (fun s => let '(_, count, _, _, _) := s in 64 <=? count)
                       (0, N, 0, (N + 7) / 8, out)
                else (0, N, 0, (N + 7) / 8, out)) =
               (Z.of_nat (64 * k), r, key_ptr c', data_ptr c', buf c')).
  { destruct (Z.leb_spec 64 N) as [G|G].
    - rewrite (do_while_iter _ _ k).
      + exact Ei.
      + subst N. Z.div_mod_to_equations. lia.
      + intros j Hj.
        destruct (enc_blocks_iter inp j 0 N c0) as (cj & Ej & _).
        { pow2_consts. Z.div_mod_to_equations. lia. }
        { subst N. Z.div_mod_to_equations. lia. }
        change (iter j (Short.enc_block inp) (0, N, 0, (N + 7) / 8, out))
          with (iter j (Short.enc_block inp)
                  (Z.of_nat 0, N, key_ptr c0, data_ptr c0, buf c0)).
        rewrite Ej. apply Z.leb_le. Z.div_mod_to_equations. lia.
      + change (iter k (Short.enc_block inp) (0, N, 0, (N + 7) / 8, out))
          with (iter k (Short.enc_block inp)
                  (Z.of_nat 0, N, key_ptr c0, data_ptr c0, buf c0)).
        rewrite Ei. apply Z.leb_gt. lia.
    - assert (k = 0%nat) by (Z.div_mod_to_equations; lia). subst k.
      cbn [iter] in Ei.
      change (0, N, 0, (N + 7) / 8, out)
        with (Z.of_nat 0, N, key_ptr c0, data_ptr c0, buf c0).
      rewrite Ei. reflexivity. }
  rewrite S0. clear S0 Ei.
  match goal with
  | |- context [while ?fu ?cd ?bd ?s0] =>
      assert (W : while fu cd bd s0 = iter (Z.to_nat r) bd s0)
  end.
  { apply while_iter; [lia| |lia].
    intros j Hj.
    pose proof (enc_tail_iter inp (Z.of_nat (64 * k)) Hin j c' ltac:(lia)) as T.
    cbv zeta in T. rewrite T. apply Z.ltb_lt. lia. }
  rewrite W.
  pose proof (enc_tail_iter inp (Z.of_nat (64 * k)) Hin (Z.to_nat r) c' ltac:(lia)) as T.
  cbv zeta in T. rewrite T. clear T W.
  assert (Et : elems inp (Z.of_nat (64 * k)) (Z.to_nat r) = skipn (64 * k) inp).
  { rewrite elems_skipn by (subst r N; lia).
    apply firstn_all2. rewrite length_skipn. subst r N. lia. }
  rewrite Et. unfold tail_events. rewrite run_events_app.
  cbn [run_events fold_left run_event data_ptr buf].
  rewrite u64_small by (pow2_consts; lia).
  rewrite Z.shiftr_div_pow2 by lia. change (2 ^ 3) with 8.
  unfold tail_keys.
  rewrite run_events_key_ptr, keys_of_emits. cbn [length].
  replace (key_ptr c' + Z.of_nat 0) with (key_ptr c') by lia.
  assert (Ln : Z.to_nat ((r + 7) / 8) = ((length (skipn (64 * k) inp) + 7) / 8)%nat).
  { rewrite length_skipn.
    replace (length inp - 64 * k)%nat with (Z.to_nat r) by (subst r N; lia).
    apply Nat2Z.inj. rewrite Nat2Z.inj_div, Nat2Z.inj_add.
    rewrite !Z2Nat.id by (try apply Z.div_pos; lia). reflexivity. }
  rewrite Ln. reflexivity.
Qed.

(** ** The group of eight of [short_enc] *)

Lemma group_src_bytes x0 x1 x2 x3 x4 x5 x6 x7 :
  group_src [x0; x1; x2; x3; x4; x5; x6; x7] =
  [hi x0; hi x1; hi x2; hi x3; hi x4; hi x5; hi x6; hi x7;
   lo x0; lo x1; lo x2; lo x3; lo x4; lo x5; lo x6; lo x7].
Proof. reflexivity. Qed.

Lemma slli16_lane b0 b1 : is_u8 b0 -> is_u8 b1 ->
  le_bytes 2 (u16 (Z.shiftl (le_value [b0; b1]) 8)) = [0; b0].
Proof.
  unfold is_u8. intros H0 H1. rewrite le_bytes_2. cbn [le_value].
  rewrite Z.shiftl_mul_pow2, Z.shiftr_div_pow2 by lia.
  unfold u16, u8. pow2_consts.
  f_equal; [|f_equal]; Z.div_mod_to_equations; lia.
Qed.

Lemma pack_byte a b : is_u8 a ->
  Z.lor (Z.land a (if 0 =? b then 255 else 0)) b = if b =? 0 then a else b.
Proof.
  unfold is_u8. intros H. rewrite (Z.eqb_sym 0 b).
  destruct (Z.eqb_spec b 0) as [->|n].
  - rewrite Z.lor_0_r. change 255 with (Z.ones 8). rewrite Z.land_ones by lia.
    apply Z.mod_small. lia.
  - now rewrite Z.land_0_r, Z.lor_0_l.
Qed.

Lemma group_pack_bytes b0 b1 b2 b3 b4 b5 b6 b7 b8 b9 b10 b11 b12 b13 b14 b15 :
  Forall is_u8 [b0; b1; b2; b3; b4; b5; b6; b7; b8; b9; b10; b11; b12; b13; b14; b15] ->
  group_pack [b0; b1; b2; b3; b4; b5; b6; b7; b8; b9; b10; b11; b12; b13; b14; b15] =
  [b0; if b1 =? 0 then b0 else b1; b2; if b3 =? 0 then b2 else b3;
   b4; if b5 =? 0 then b4 else b5; b6; if b7 =? 0 then b6 else b7;
   b8; if b9 =? 0 then b8 else b9; b10; if b11 =? 0 then b10 else b11;
   b12; if b13 =? 0 then b12 else b13; b14; if b15 =? 0 then b14 else b15].
Proof.
  intros H.
  repeat match goal with
         | H : Forall _ (_ :: _) |- _ => inversion H; clear H; subst
         end.
  unfold group_pack, _mm_slli_epi16, lanes, unlanes.
  cbn [chunks chunks_aux length firstn skipn map flat_map].
  rewrite (slli16_lane b0 b1), (slli16_lane b2 b3), (slli16_lane b4 b5),
    (slli16_lane b6 b7), (slli16_lane b8 b9), (slli16_lane b10 b11),
    (slli16_lane b12 b13), (slli16_lane b14 b15) by assumption.
  unfold group_mask.
  cbv [_mm_or_si128 _mm_and_si128 _mm_cmpeq_epi8 _mm_setzero_si128 map2 combine map
       repeat fst snd app].
  rewrite (pack_byte b0 b1), (pack_byte b2 b3), (pack_byte b4 b5), (pack_byte b6 b7),
    (pack_byte b8 b9), (pack_byte b10 b11), (pack_byte b12 b13), (pack_byte b14 b15)
    by assumption.
  rewrite !Z.land_0_l, !Z.lor_0_l. reflexivity.
Qed.

(** The count and the compacted high bytes of a group, for every
    pattern of zero high bytes. *)
Lemma group_store h0 h1 h2 h3 h4 h5 h6 h7 l0 l1 l2 l3 l4 l5 l6 l7 :
  Forall is_u8 [h0; h1; h2; h3; h4; h5; h6; h7; l0; l1; l2; l3; l4; l5; l6; l7] ->
  let src := [h0; h1; h2; h3; h4; h5; h6; h7; l0; l1; l2; l3; l4; l5; l6; l7] in
  let nz := List.filter (fun h => negb (h =? 0)) [h0; h1; h2; h3; h4; h5; h6; h7] in
  Z.shiftr (group_desc src) 7 = Z.of_nat (length nz) /\
  firstn (length nz)
    (firstn 8 (_mm_shuffle_epi8 (group_pack src) (group_shuf src))) = rev nz.
Proof.
  intros H. cbv zeta. rewrite group_pack_bytes by exact H. clear H.
  unfold group_shuf, group_desc, group_mask.
  cbv [_mm_cmpeq_epi8 _mm_setzero_si128 map2 combine map repeat fst snd].
  cbn [List.filter].
  rewrite !(Z.eqb_sym 0).
  destruct (Z.eqb_spec h0 0); destruct (Z.eqb_spec h1 0);
  destruct (Z.eqb_spec h2 0); destruct (Z.eqb_spec h3 0);
  destruct (Z.eqb_spec h4 0); destruct (Z.eqb_spec h5 0);
  destruct (Z.eqb_spec h6 0); destruct (Z.eqb_spec h7 0);
  subst; (split; vm_compute; reflexivity).
Qed.

(** *** The key bytes of a block *)

Lemma neg1_bytes : Short.neg1 = repeat 255 16.
Proof. vm_compute. reflexivity. Qed.

(** Eight rounds of [_mm_avg_epu8] shift the eight masks of a byte
    position into one byte; complemented, bit [i] says that round [i] saw
    a byte that is not zero. *)
Lemma avg_bits a1 a2 a3 a4 a5 a6 a7 a8 :
  Z.lxor
    (Z.shiftr (Z.shiftr (Z.shiftr (Z.shiftr (Z.shiftr (Z.shiftr (Z.shiftr (Z.shiftr
       (0 + (if 0 =? a1 then 255 else 0) + 1) 1
       + (if 0 =? a2 then 255 else 0) + 1) 1
       + (if 0 =? a3 then 255 else 0) + 1) 1
       + (if 0 =? a4 then 255 else 0) + 1) 1
       + (if 0 =? a5 then 255 else 0) + 1) 1
       + (if 0 =? a6 then 255 else 0) + 1) 1
       + (if 0 =? a7 then 255 else 0) + 1) 1
       + (if 0 =? a8 then 255 else 0) + 1) 1) 255 =
  pack_bits [negb (a1 =? 0); negb (a2 =? 0); negb (a3 =? 0); negb (a4 =? 0);
             negb (a5 =? 0); negb (a6 =? 0); negb (a7 =? 0); negb (a8 =? 0)].
Proof.
  rewrite !(Z.eqb_sym 0).
  destruct (a1 =? 0), (a2 =? 0), (a3 =? 0), (a4 =? 0),
           (a5 =? 0), (a6 =? 0), (a7 =? 0), (a8 =? 0); vm_compute; reflexivity.
Qed.

Lemma block_keys_bytes blk : length blk = 64%nat ->
  firstn 8 (_mm_xor_si128 (group_keys (chunks 8 blk)) Short.neg1) = block_keys blk.
Proof.
  intros L.
  do 64 (destruct blk as [|? blk]; [discriminate|]).
  destruct blk; [|discriminate]. clear L.
  unfold group_keys.
  cbn [chunks chunks_aux length firstn skipn fold_left].
  rewrite !group_src_bytes, neg1_bytes.
  unfold group_mask.
  cbv [_mm_cmpeq_epi8 _mm_setzero_si128 _mm_avg_epu8 _mm_xor_si128 map2 combine map
       repeat fst snd firstn].
  unfold block_keys. cbn [seq map nth Nat.mul Nat.add]. unfold wide.
  repeat (apply f_equal2; [apply avg_bits|]). reflexivity.
Qed.

(** ** The events of [short_enc] against the stream *)

Lemma hi_range x : is_u8 (hi x).
Proof. apply u8_range. Qed.

Lemma lo_range x : is_u8 (lo x).
Proof. apply u8_range. Qed.

Lemma group_events_values g : length g = 8%nat ->
  let es := group_events (group_src g) in
  Forall wf_event es /\ data_of es = group_data g /\ keys_of es = [] /\ span es <= 16.
Proof.
  intros L.
  do 8 (destruct g as [|? g]; [discriminate|]). destruct g; [|discriminate]. clear L.
  cbv zeta. rewrite group_src_bytes.
  destruct (group_store (hi z) (hi z0) (hi z1) (hi z2) (hi z3) (hi z4) (hi z5) (hi z6)
              (lo z) (lo z0) (lo z1) (lo z2) (lo z3) (lo z4) (lo z5) (lo z6))
    as [Ed Ew].
  { repeat constructor; apply u8_range. }
  cbv zeta in Ed, Ew. unfold group_events. rewrite Ed.
  set (nz := List.filter (fun h => negb (h =? 0))
               [hi z; hi z0; hi z1; hi z2; hi z3; hi z4; hi z5; hi z6]) in *.
  set (W := firstn 8 (_mm_shuffle_epi8 _ _)) in *.
  assert (Lw : (length W <= 8)%nat) by (subst W; rewrite length_firstn; lia).
  assert (Ln : (length nz <= length W)%nat).
  { apply (f_equal (@length Z)) in Ew. rewrite length_firstn, length_rev in Ew. lia. }
  clearbody W.
  split; [|split; [|split]].
  - repeat constructor; cbn [wf_event length skipn]; lia.
  - rewrite data_of_emit, data_of_emit. cbn [data_of flat_map].
    rewrite Nat2Z.id, Ew, app_nil_r. reflexivity.
  - reflexivity.
  - cbn [span length skipn]. lia.
Qed.

Lemma groups_events_values : forall gs, Forall (fun g => length g = 8%nat) gs ->
  let es := flat_map (fun g => group_events (group_src g)) gs in
  Forall wf_event es /\ data_of es = flat_map group_data gs /\
  span es <= 16 * Z.of_nat (length gs).
Proof.
  induction gs as [|g r IH]; intros H; cbv zeta.
  - cbn. split; [constructor|split; [reflexivity|lia]].
  - inversion H as [|? ? Hg Hr]; subst.
    destruct (group_events_values g Hg) as (W1 & D1 & K1 & S1).
    destruct (IH Hr) as (W2 & D2 & S2). cbv zeta in *.
    cbn [flat_map]. split; [|split].
    + apply Forall_app; auto.
    + now rewrite data_of_app, D1, D2.
    + cbn [length]. rewrite Nat2Z.inj_succ.
      replace (16 * Z.succ (Z.of_nat (length r))) with (16 + 16 * Z.of_nat (length r)) by lia.
      apply span_app_le; auto; try lia.
      pose proof (adv_le_span _ W1). lia.
Qed.

Lemma chunks_lengths {A} k : (1 <= k)%nat -> forall j (l : list A),
  length l = (j * k)%nat -> Forall (fun g => length g = k) (chunks k l).
Proof.
  intros Hk. induction j as [|j IH]; intros l L.
  - destruct l; [constructor|cbn [length] in L; lia].
  - rewrite <- (firstn_skipn k l).
    assert (L1 : length (firstn k l) = k) by (rewrite length_firstn; lia).
    rewrite chunks_app_one by auto. constructor; [exact L1|].
    apply IH. rewrite length_skipn. lia.
Qed.

Lemma block_events_values blk : length blk = 64%nat ->
  let es := block_events blk in
  Forall wf_event es /\ data_of es = block_data blk /\ keys_of es = block_keys blk /\
  span es <= 128.
Proof.
  intros L. cbv zeta. unfold block_events.
  rewrite block_keys_bytes by exact L.
  pose proof (chunks_lengths 8 ltac:(lia) 8 blk L) as Hg.
  pose proof (chunks_length 8 ltac:(lia) 64 blk ltac:(lia)) as Hl.
  rewrite L in Hl. change ((64 + (8 - 1)) / 8)%nat with 8%nat in Hl.
  destruct (groups_events_values _ Hg) as (W & D & S). cbv zeta in *.
  rewrite Hl in S. split; [|split; [|split]].
  - apply Forall_app. split; [exact W|repeat constructor].
  - rewrite data_of_app, D. cbn [data_of flat_map]. now rewrite app_nil_r.
  - rewrite keys_of_app, keys_of_groups. cbn [keys_of flat_map app]. now rewrite app_nil_r.
  - replace 128 with (128 + 0) by lia.
    apply span_app_le; auto; cbn [span]; try lia.
    pose proof (adv_le_span _ W). lia.
Qed.

Lemma tail_events_values t :
  let es := tail_events t in
  Forall wf_event es /\ data_of es = tail_data t /\ keys_of es = tail_keys t /\
  span es <= 2 * Z.of_nat (length t).
Proof.
  cbv zeta. unfold tail_events.
  assert (G : let es := map (fun w => Emit (le_bytes 2 w) (1 + b2z (wide w))) t in
              Forall wf_event es /\ data_of es = tail_data t /\
              span es <= 2 * Z.of_nat (length t)).
  { induction t as [|w r IH]; cbv zeta in *; [cbn; split; [constructor|split; [reflexivity|lia]]|].
    destruct IH as (W & D & S). cbn [map]. split; [|split].
    - constructor; [|exact W]. cbn [wf_event]. rewrite le_bytes_length.
      destruct (wide w); cbn [b2z]; lia.
    - rewrite data_of_emit, D. unfold tail_data. cbn [flat_map]. f_equal.
      destruct (wide w); reflexivity.
    - cbn [span length]. rewrite le_bytes_length.
      match goal with |- context [span ?x] => pose proof (span_nonneg x) end.
      destruct (wide w); cbn [b2z]; lia. }
  destruct G as (W & D & S). cbv zeta in *.
  split; [|split; [|split]].
  - apply Forall_app. split; [exact W|repeat constructor].
  - rewrite data_of_app, D. cbn [data_of flat_map]. now rewrite app_nil_r.
  - rewrite keys_of_app, keys_of_emits. cbn [keys_of flat_map app]. now rewrite app_nil_r.
  - replace (2 * Z.of_nat (length t)) with (2 * Z.of_nat (length t) + 0) by lia.
    apply span_app_le; auto; cbn [span]; try lia.
    pose proof (adv_le_span _ W). lia.
Qed.

Lemma short_events_values : forall fuel l,
  let es := short_events fuel l in
  Forall wf_event es /\
  data_of es = ShortFormat.data fuel l /\
  keys_of es = ShortFormat.keys fuel l /\
  span es <= 2 * Z.of_nat (length l).
Proof.
  induction fuel as [|fuel IH]; intros l; cbv zeta.
  - apply tail_events_values.
  - cbn [short_events ShortFormat.data ShortFormat.keys].
    destruct (Nat.leb_spec 64 (length l)) as [G|G]; [|apply tail_events_values].
    assert (L1 : length (firstn 64 l) = 64%nat) by (rewrite length_firstn; lia).
    destruct (block_events_values _ L1) as (W1 & D1 & K1 & S1).
    destruct (IH (skipn 64 l)) as (W2 & D2 & K2 & S2). cbv zeta in *.
    rewrite length_skipn in S2.
    split; [|split; [|split]].
    + apply Forall_app; auto.
    + now rewrite data_of_app, D1, D2.
    + now rewrite keys_of_app, K1, K2.
    + replace (2 * Z.of_nat (length l)) with (128 + 2 * Z.of_nat (length l - 64)) by lia.
      apply span_app_le; auto; try lia.
      pose proof (adv_le_span _ W1). lia.
Qed.

Lemma block_keys_length blk : length (block_keys blk) = 8%nat.
Proof. unfold block_keys. now rewrite length_map, length_seq. Qed.

Lemma short_keys_length : forall fuel l, (length l / 64 <= fuel)%nat ->
  Z.of_nat (length (ShortFormat.keys fuel l)) = (Z.of_nat (length l) + 7) / 8.
Proof.
  assert (T : forall l, Z.of_nat (length (tail_keys l)) = (Z.of_nat (length l) + 7) / 8).
  { intros l. unfold tail_keys. rewrite le_bytes_length.
    rewrite Nat2Z.inj_div, Nat2Z.inj_add. reflexivity. }
  induction fuel as [|fuel IH]; intros l H; cbn [ShortFormat.keys]; [apply T|].
  destruct (Nat.leb_spec 64 (length l)) as [G|G]; [|apply T].
  rewrite length_app, Nat2Z.inj_add, block_keys_length, IH.
  - rewrite length_skipn. Z.div_mod_to_equations. lia.
  - rewrite length_skipn.
    replace (length l) with ((length l - 64) + 1 * 64)%nat in H by lia.
    rewrite Nat.div_add in H by lia. lia.
Qed.

Lemma div64_le n : (n / 64 <= n)%nat.
Proof. pose proof (Nat.div_mod_eq n 64). lia. Qed.

(** *** What [short_enc] returns and leaves in the buffer *)

Section ShortEncoded.

Variables (out : mem) (inp : list Z).
Hypothesis Hin : Forall is_u16 inp.
Hypothesis Hn : Z.of_nat (length inp) < 2 ^ 64 - 7.

Local Abbreviation N := (Z.of_nat (length inp)).

Lemma short_enc_stream :
  fst (Short.short_enc out inp N) = Z.of_nat (length (ShortFormat.stream inp)) /\
  holds (snd (Short.short_enc out inp N)) 0 (ShortFormat.stream inp).
Proof.
  rewrite short_enc_events by assumption. cbv zeta. cbn [fst snd].
  destruct (short_events_values (length inp) inp) as (W & D & K & S). cbv zeta in *.
  pose proof (short_keys_length (length inp) inp
                (div64_le (length inp)))
    as KL.
  rewrite <- K in KL.
  set (es := short_events (length inp) inp) in *.
  set (c0 := Cursor 0 ((N + 7) / 8) out).
  destruct (run_events_content es c0 W) as [Hk Hd].
  { cbn [c0 key_ptr data_ptr]. lia. }
  cbn [c0 key_ptr data_ptr] in Hk, Hd.
  unfold ShortFormat.stream. rewrite <- K, <- D.
  split.
  - rewrite run_events_data_ptr. cbn [c0 data_ptr].
    rewrite length_app, Nat2Z.inj_add, KL, data_of_length by assumption. reflexivity.
  - apply holds_app. split; [exact Hk|].
    replace (0 + Z.of_nat (length (keys_of es))) with ((N + 7) / 8) by lia. exact Hd.
Qed.

Lemma short_enc_frame p : (N + 7) / 8 + 2 * N <= p ->
  snd (Short.short_enc out inp N) p = out p.
Proof.
  intros H. rewrite short_enc_events by assumption. cbv zeta. cbn [snd].
  destruct (short_events_values (length inp) inp) as (W & D & K & S). cbv zeta in *.
  pose proof (short_keys_length (length inp) inp
                (div64_le (length inp)))
    as KL.
  rewrite <- K in KL.
  rewrite run_events_frame; auto; right; cbn [key_ptr data_ptr]; lia.
Qed.

End ShortEncoded.

(** ** Key bits as [short_dec] reads them *)

Lemma testbit_pack_bits : forall bs j,
  Z.testbit (pack_bits bs) (Z.of_nat j) = nth j bs false.
Proof.
  unfold pack_bits. induction bs as [|b bs IH]; intros j.
  - cbn [fold_right]. rewrite Z.bits_0. now destruct j.
  - cbn [fold_right].
    set (r := fold_right (fun (b : bool) (acc : Z) => b2z b + 2 * acc) 0 bs) in *.
    replace (b2z b + 2 * r) with (2 * r + Z.b2z b)
      by (unfold b2z, Z.b2z; destruct b; lia).
    destruct j as [|j].
    + cbn [nth Z.of_nat]. apply Z.testbit_0_r.
    + cbn [nth]. rewrite Nat2Z.inj_succ, <- IH.
      apply Z.testbit_succ_r. lia.
Qed.

Lemma land_1_testbit x : Z.land x 1 = b2z (Z.testbit x 0).
Proof.
  change 1 with (Z.ones 1). rewrite Z.land_ones by lia.
  change (2 ^ 1) with 2. rewrite Z.bit0_mod. unfold b2z, Z.b2z.
  destruct (Z.testbit x 0); reflexivity.
Qed.

Lemma bit_testbit x i : 0 <= i -> Z.land (Z.shiftr x i) 1 = b2z (Z.testbit x i).
Proof.
  intros H. rewrite land_1_testbit, Z.shiftr_spec by lia. now rewrite Z.add_0_l.
Qed.

(** Splitting a conjunction at a byte boundary. *)
Lemma land_split8 x y : 0 <= x -> 0 <= y ->
  Z.land x y = Z.land (x mod 2 ^ 8) (y mod 2 ^ 8) + 2 ^ 8 * Z.land (x / 2 ^ 8) (y / 2 ^ 8).
Proof.
  intros Hx Hy.
  assert (R : 0 <= Z.land (x mod 2 ^ 8) (y mod 2 ^ 8) < 2 ^ 8).
  { replace (Z.land (x mod 2 ^ 8) (y mod 2 ^ 8)) with (Z.land x y mod 2 ^ 8);
      [apply Z.mod_pos_bound; lia|].
    rewrite <- !Z.land_ones by lia. apply Z.bits_inj'. intros n Hn.
    rewrite !Z.land_spec. destruct (Z.testbit x n), (Z.testbit y n),
      (Z.testbit (Z.ones 8) n); reflexivity. }
  rewrite (Z.mul_comm (2 ^ 8)), <- lor_shiftl_add by lia.
  apply Z.bits_inj'. intros n Hn.
  rewrite Z.lor_spec, !Z.land_spec.
  destruct (Z.lt_ge_cases n 8) as [L|G].
  - rewrite Z.shiftl_spec_low, orb_false_r by lia.
    now rewrite !Z.mod_pow2_bits_low by lia.
  - rewrite !Z.mod_pow2_bits_high by lia. cbn [andb orb].
    rewrite Z.shiftl_spec, Z.land_spec by lia.
    rewrite !Z.div_pow2_bits by lia.
    now replace (n - 8 + 8) with n by lia.
Qed.

Lemma le_value_ones n : le_value (repeat 1 (S n)) = 1 + 2 ^ 8 * le_value (repeat 1 n).
Proof. reflexivity. Qed.

Lemma le_value_nonneg : forall bs, Forall is_u8 bs -> 0 <= le_value bs.
Proof. intros bs H. pose proof (le_value_range bs H). lia. Qed.

(** Bit [i] of every byte of a word, picked by the mask [01 01 .. 01]. *)
Lemma land_ones_bytes i : 0 <= i <= 7 -> forall ks, Forall is_u8 ks ->
  Z.land (Z.shiftr (le_value ks) i) (le_value (repeat 1 (length ks))) =
  le_value (map (fun k => Z.land (Z.shiftr k i) 1) ks).
Proof.
  intros Hi. induction ks as [|k r IH]; intros H.
  - cbn [le_value length repeat map]. now rewrite Z.land_0_r.
  - inversion H as [|? ? Hk Hr]; subst. unfold is_u8 in Hk.
    pose proof (le_value_nonneg r Hr) as Rr.
    cbn [length map]. rewrite le_value_ones. cbn [le_value].
    assert (P8 : 2 ^ 8 = 256) by reflexivity.
    assert (Sx : 0 <= Z.shiftr (k + 2 ^ 8 * le_value r) i)
      by (apply Z.shiftr_nonneg; lia).
    assert (Sy : 0 <= le_value (repeat 1 (length r))).
    { apply le_value_nonneg. apply Forall_forall. intros x Hx.
      apply repeat_spec in Hx. subst. unfold is_u8. lia. }
    rewrite (land_split8 _ (1 + 2 ^ 8 * le_value (repeat 1 (length r)))) by lia.
    f_equal.
    + replace ((1 + 2 ^ 8 * le_value (repeat 1 (length r))) mod 2 ^ 8) with 1
        by (rewrite P8; Z.div_mod_to_equations; lia).
      rewrite !land_1_testbit. f_equal.
      rewrite Z.mod_pow2_bits_low by lia.
      rewrite !Z.shiftr_spec by lia. rewrite Z.add_0_l.
      rewrite (Z.mul_comm (2 ^ 8)), <- lor_shiftl_add by lia.
      rewrite Z.lor_spec, Z.shiftl_spec_low by lia. apply orb_false_r.
    + f_equal. rewrite <- IH by assumption. f_equal.
      * rewrite <- Z.shiftr_div_pow2 by lia.
        rewrite Z.shiftr_shiftr by lia.
        rewrite (Z.add_comm i 8), <- Z.shiftr_shiftr by lia. f_equal.
        rewrite Z.shiftr_div_pow2 by lia. rewrite P8. Z.div_mod_to_equations. lia.
      * rewrite P8. Z.div_mod_to_equations. lia.
Qed.

Lemma kx01_bytes : Short.kx01 = le_value (repeat 1 8).
Proof. reflexivity. Qed.

(** Byte [b] of a little-endian image. *)
Lemma le_bytes_nth : forall n x b, (b < n)%nat ->
  nth b (le_bytes n x) 0 = u8 (Z.shiftr x (8 * Z.of_nat b)).
Proof.
  induction n as [|n IH]; intros x b H; [lia|].
  cbn [le_bytes]. destruct b as [|b]; cbn [nth].
  - now rewrite Z.shiftr_0_r.
  - rewrite IH by lia. rewrite Z.shiftr_shiftr by lia. do 2 f_equal. lia.
Qed.

Lemma u8_testbit x m : 0 <= m < 8 -> Z.testbit (u8 x) m = Z.testbit x m.
Proof. intros H. unfold u8. apply Z.mod_pow2_bits_low. lia. Qed.

(** ** One group of [short_dec] *)

Ltac explode_list pre L :=
  let rec go :=
    (destruct pre as [|? pre]; cbn [length] in L;
     [ try discriminate L | try discriminate L; try go ]) in go.

(** The shuffle control of the decoder, for all 256 key patterns: from
    the sixteen bytes that end with the group, the two-byte images of the
    eight elements. *)
Lemma dec_group_table h0 h1 h2 h3 h4 h5 h6 h7 l0 l1 l2 l3 l4 l5 l6 l7 pre K :
  K = le_value (map (fun h => b2z (negb (h =? 0))) [h0; h1; h2; h3; h4; h5; h6; h7]) ->
  let nz := List.filter (fun h => negb (h =? 0)) [h0; h1; h2; h3; h4; h5; h6; h7] in
  length pre = (8 - length nz)%nat ->
  let rank := u64 (K * Short.kmul) in
  Z.shiftr (u64 (rank + rank)) 57 = Z.of_nat (length nz) /\
  _mm_shuffle_epi8 (pre ++ rev nz ++ [l0; l1; l2; l3; l4; l5; l6; l7])
    (_mm_unpacklo_epi8 Short.idx (_mm_cvtsi64_si128 (u64 (Short.kx88 - rank)))) =
  [l0; h0; l1; h1; l2; h2; l3; h3; l4; h4; l5; h5; l6; h6; l7; h7].
Proof.
  intros ->. cbv zeta. cbn [map List.filter].
  destruct (Z.eqb_spec h0 0); destruct (Z.eqb_spec h1 0);
  destruct (Z.eqb_spec h2 0); destruct (Z.eqb_spec h3 0);
  destruct (Z.eqb_spec h4 0); destruct (Z.eqb_spec h5 0);
  destruct (Z.eqb_spec h6 0); destruct (Z.eqb_spec h7 0);
  subst; cbn [negb b2z length rev app Nat.sub]; intros L;
  explode_list pre L; (split; vm_compute; reflexivity).
Qed.

Lemma store_bytes_app : forall xs ys m a,
  store_bytes m a (xs ++ ys) = store_bytes (store_bytes m a xs) (a + Z.of_nat (length xs)) ys.
Proof.
  induction xs as [|x xs IH]; intros ys m a.
  - cbn [app store_bytes length Z.of_nat]. now rewrite Z.add_0_r.
  - cbn [app store_bytes length]. rewrite IH. f_equal. lia.
Qed.

Lemma group_data_length g :
  length (group_data g) =
  (length (List.filter (fun h => negb (h =? 0)%Z) (map hi g)) + length g)%nat.
Proof. unfold group_data. now rewrite length_app, length_rev, length_map. Qed.

Lemma array_bytes_length l : length (array_bytes l) = (2 * length l)%nat.
Proof.
  unfold array_bytes. induction l as [|x l IH]; [reflexivity|].
  cbn [flat_map]. rewrite length_app, IH, le_bytes_length. cbn [length]. lia.
Qed.

Lemma array_bytes_app a b : array_bytes (a ++ b) = array_bytes a ++ array_bytes b.
Proof. unfold array_bytes. apply flat_map_app. Qed.

(** One pass of the inner loop: the group whose data starts at [gs], when
    the low bit of every key byte is the key bit of one of its
    elements. *)
Lemma dec_group_step inm keys out om g gs :
  length g = 8%nat ->
  Z.land keys Short.kx01 = le_value (map (fun x => b2z (wide x)) g) ->
  holds inm gs (group_data g) ->
  Short.dec_group inm (keys, gs - 16, out, om) =
  (Z.shiftr keys 1, gs + Z.of_nat (length (group_data g)) - 16, out + 16,
   store_bytes om out (array_bytes g)).
Proof.
  intros Lg Hk Hh.
  destruct g as [|x0 [|x1 [|x2 [|x3 [|x4 [|x5 [|x6 [|x7 [|]]]]]]]]]; try discriminate Lg.
  clear Lg.
  pose proof (group_data_length [x0; x1; x2; x3; x4; x5; x6; x7]) as Lgd.
  unfold holds in Hh. unfold group_data in Hh, Lgd |- *.
  cbn [map] in Hh, Lgd, Hk |- *. unfold wide in Hk.
  set (nz := List.filter (fun h => negb (h =? 0))
               [hi x0; hi x1; hi x2; hi x3; hi x4; hi x5; hi x6; hi x7]) in *.
  assert (Ln : (length nz <= 8)%nat).
  { unfold nz. etransitivity; [apply filter_length_le|]. reflexivity. }
  cbn [length] in Lgd. rewrite Lgd in Hh |- *.
  set (pre := load_bytes inm (gs - Z.of_nat (8 - length nz)) (8 - length nz)).
  pose proof (dec_group_table (hi x0) (hi x1) (hi x2) (hi x3) (hi x4) (hi x5) (hi x6) (hi x7)
                (lo x0) (lo x1) (lo x2) (lo x3) (lo x4) (lo x5) (lo x6) (lo x7)
                pre (Z.land keys Short.kx01)) as T.
  cbv zeta in T. fold nz in T.
  specialize (T Hk ltac:(unfold pre; apply load_bytes_length)).
  destruct T as [T1 T2].
  unfold Short.dec_group. cbv zeta. rewrite T1.
  unfold _mm_loadu_si128, _mm_storeu_si128.
  assert (E : load_bytes inm (gs - 16 + (8 + Z.of_nat (length nz))) 16 =
              pre ++ rev nz ++ [lo x0; lo x1; lo x2; lo x3; lo x4; lo x5; lo x6; lo x7]).
  { replace 16%nat with ((8 - length nz) + (length nz + 8))%nat by lia.
    rewrite load_bytes_app. f_equal.
    - unfold pre. f_equal. lia.
    - rewrite <- Hh. f_equal. lia. }
  rewrite E, T2.
  replace (gs - 16 + (8 + Z.of_nat (length nz)))
    with (gs + Z.of_nat (length nz + 8) - 16) by lia.
  unfold array_bytes. cbn [flat_map app]. rewrite !le_bytes_2. reflexivity.
Qed.

(** The inner loop over the groups of a block. *)
Lemma dec_groups_fold inm : forall gs (idxs : list nat) keys out om ds,
  length idxs = length gs ->
  Forall (fun g => length g = 8%nat) gs ->
  holds inm ds (flat_map group_data gs) ->
  (forall i, (i < length gs)%nat ->
     Z.land (Z.shiftr keys (Z.of_nat i)) Short.kx01 =
     le_value (map (fun x => b2z (wide x)) (nth i gs []))) ->
  fold_left (fun t (_ : nat) => Short.dec_group inm t) idxs (keys, ds - 16, out, om) =
  (Z.shiftr keys (Z.of_nat (length gs)),
   ds + Z.of_nat (length (flat_map group_data gs)) - 16,
   out + 16 * Z.of_nat (length gs),
   store_bytes om out (array_bytes (concat gs))).
Proof.
  induction gs as [|g gs IH]; intros idxs keys out om ds Li Hg Hh Hk.
  - destruct idxs; [|discriminate]. cbn [fold_left length flat_map concat Z.of_nat].
    rewrite Z.shiftr_0_r. cbn [array_bytes flat_map store_bytes].
    repeat f_equal; lia.
  - destruct idxs as [|i0 idxs]; [discriminate|]. cbn [fold_left].
    inversion Hg as [|? ? Lg Hg']; subst.
    cbn [flat_map] in Hh. apply holds_app in Hh. destruct Hh as [H1 H2].
    rewrite (dec_group_step inm keys out om g ds Lg); [|exact (Hk 0%nat ltac:(cbn [length]; lia))|exact H1].
    rewrite IH; [| cbn [length] in Li; lia | exact Hg' | exact H2 |].
    + cbn [length flat_map concat]. rewrite array_bytes_app, store_bytes_app.
      rewrite array_bytes_length, Lg, Z.shiftr_shiftr by lia.
      rewrite length_app.
      replace (1 + Z.of_nat (length gs)) with (Z.of_nat (S (length gs))) by lia.
      replace (ds + Z.of_nat (length (group_data g)) +
               Z.of_nat (length (flat_map group_data gs)) - 16)
        with (ds + Z.of_nat (length (group_data g) + length (flat_map group_data gs)) - 16)
        by lia.
      replace (out + 16 + 16 * Z.of_nat (length gs))
        with (out + 16 * Z.of_nat (S (length gs))) by lia.
      replace (out + Z.of_nat (2 * 8)) with (out + 16) by lia.
      reflexivity.
    + intros i Hi. rewrite Z.shiftr_shiftr by lia.
      replace (1 + Z.of_nat i) with (Z.of_nat (S i)) by lia.
      apply (Hk (S i)). cbn [length]. lia.
Qed.

Lemma bit_pack_bits bs i :
  Z.land (Z.shiftr (pack_bits bs) (Z.of_nat i)) 1 = b2z (nth i bs false).
Proof. rewrite bit_testbit by lia. now rewrite testbit_pack_bits. Qed.

Lemma block_keys_range blk : Forall is_u8 (block_keys blk).
Proof.
  unfold block_keys. apply Forall_forall. intros k Hk.
  apply in_map_iff in Hk. destruct Hk as (j & <- & _).
  pose proof (pack_bits_range (map (fun i => wide (nth (8 * i + j) blk 0)) (seq 0 8))) as R.
  rewrite length_map, length_seq in R. exact R.
Qed.

Lemma concat_chunks8 (blk : list Z) : length blk = 64%nat -> concat (chunks 8 blk) = blk.
Proof.
  intros L.
  do 64 (destruct blk as [|? blk]; [discriminate|]).
  destruct blk; [|discriminate]. reflexivity.
Qed.

(** Bit [i] of key byte [j] of a block is the key bit of element
    [8i + j]: the low bits of the key word shifted [i] times are the key
    bits of group [i]. *)
Lemma block_key_bits blk i : length blk = 64%nat -> (i < 8)%nat ->
  Z.land (Z.shiftr (le_value (block_keys blk)) (Z.of_nat i)) Short.kx01 =
  le_value (map (fun x => b2z (wide x)) (nth i (chunks 8 blk) [])).
Proof.
  intros L Hi.
  pose proof (land_ones_bytes (Z.of_nat i) ltac:(lia) (block_keys blk)
                (block_keys_range blk)) as E.
  rewrite block_keys_length, <- kx01_bytes in E. rewrite E. clear E.
  f_equal.
  do 64 (destruct blk as [|? blk]; [discriminate|]).
  destruct blk; [|discriminate]. clear L.
  unfold block_keys. cbn [seq map]. rewrite !bit_pack_bits.
  do 8 (destruct i as [|i]; [reflexivity|]). lia.
Qed.

Lemma dec_block_step inm blk kp ds count out om :
  length blk = 64%nat ->
  holds inm kp (block_keys blk) ->
  holds inm ds (block_data blk) ->
  Short.dec_block inm (kp, count, ds - 16, out, om) =
  (kp + 8, u64 (count - 64), ds + Z.of_nat (length (block_data blk)) - 16, out + 128,
   store_bytes om out (array_bytes blk)).
Proof.
  intros L Hk Hd. unfold Short.dec_block.
  unfold holds in Hk. rewrite block_keys_length in Hk. rewrite Hk.
  pose proof (chunks_lengths 8 ltac:(lia) 8 blk L) as Hg.
  pose proof (chunks_length 8 ltac:(lia) 64 blk ltac:(lia)) as Hl.
  rewrite L in Hl. change ((64 + (8 - 1)) / 8)%nat with 8%nat in Hl.
  rewrite (dec_groups_fold inm (chunks 8 blk) (seq 0 8) _ out om ds);
    [|rewrite length_seq; now rewrite Hl|exact Hg|exact Hd|].
  - rewrite Hl, concat_chunks8 by exact L. unfold block_data.
    repeat f_equal.
  - intros i Hi. apply block_key_bits; [exact L|lia].
Qed.

Lemma tuple5_eq {A B C D E} (a a' : A) (b b' : B) (c c' : C) (d d' : D) (e e' : E) :
  a = a' -> b = b' -> c = c' -> d = d' -> e = e' -> (a, b, c, d, e) = (a', b', c', d', e').
Proof. now intros -> -> -> -> ->. Qed.

Lemma firstn_add' {A} (l : list A) : forall a b,
  firstn (a + b) l = firstn a l ++ firstn b (skipn a l).
Proof.
  induction l as [|x l IH]; intros a b.
  - now rewrite skipn_nil, !firstn_nil.
  - destruct a as [|a]; [reflexivity|].
    cbn [Nat.add firstn skipn app]. f_equal. apply IH.
Qed.

(** The block loop of [short_dec]. *)
Lemma dec_blocks_iter inm : forall k fuel l kp ds out om count,
  (k <= fuel)%nat -> (64 * k <= length l)%nat ->
  64 * Z.of_nat k <= count < 2 ^ 64 ->
  holds inm kp (keys fuel l) -> holds inm ds (data fuel l) ->
  exists D,
    iter k (Short.dec_block inm) (kp, count, ds - 16, out, om) =
      (kp + 8 * Z.of_nat k, count - 64 * Z.of_nat k, ds + D - 16, out + 128 * Z.of_nat k,
       store_bytes om out (array_bytes (firstn (64 * k) l))) /\
    holds inm (kp + 8 * Z.of_nat k) (keys (fuel - k) (skipn (64 * k) l)) /\
    holds inm (ds + D) (data (fuel - k) (skipn (64 * k) l)) /\
    Z.of_nat (length (data fuel l)) =
      D + Z.of_nat (length (data (fuel - k) (skipn (64 * k) l))).
Proof.
  induction k as [|k IH]; intros fuel l kp ds out om count Hf Hl Hc Hk Hd.
  - exists 0. cbn [iter]. rewrite Nat.sub_0_r. change (64 * 0)%nat with 0%nat.
    cbn [skipn firstn]. split; [|split; [|split]].
    + cbn [array_bytes flat_map store_bytes]. apply tuple5_eq; try reflexivity; lia.
    + replace (kp + 8 * Z.of_nat 0) with kp by lia. exact Hk.
    + replace (ds + 0) with ds by lia. exact Hd.
    + lia.
  - destruct fuel as [|fuel]; [lia|].
    cbn [keys data] in Hk, Hd.
    destruct (Nat.leb_spec 64 (length l)) as [G|G]; [|lia].
    apply holds_app in Hk. destruct Hk as [Hk1 Hk2].
    apply holds_app in Hd. destruct Hd as [Hd1 Hd2].
    rewrite block_keys_length in Hk2.
    assert (Lb : length (firstn 64 l) = 64%nat) by (rewrite length_firstn; lia).
    cbn [iter]. rewrite (dec_block_step inm (firstn 64 l)) by assumption.
    cbn [keys data].
    destruct (Nat.leb_spec 64 (length l)) as [G'|G']; [|lia]. clear G'.
    rewrite length_app.
    set (B := length (block_data (firstn 64 l))) in *.
    destruct (IH fuel (skipn 64 l) (kp + 8) (ds + Z.of_nat B) (out + 128)
                (store_bytes om out (array_bytes (firstn 64 l))) (u64 (count - 64)))
      as (D & Ei & Ek & Ed & El).
    { lia. }
    { rewrite length_skipn. lia. }
    { rewrite u64_small by lia. lia. }
    { exact Hk2. }
    { exact Hd2. }
    rewrite skipn_skipn in Ek, Ed, El.
    replace (64 * k + 64)%nat with (64 * S k)%nat in Ek, Ed, El by lia.
    exists (Z.of_nat B + D). split; [|split; [|split]].
    + rewrite Ei. rewrite u64_small by lia.
      replace (64 * S k)%nat with (64 + 64 * k)%nat by lia.
      rewrite firstn_add', array_bytes_app, store_bytes_app, array_bytes_length, Lb.
      apply tuple5_eq; try reflexivity; lia.
    + cbn [Nat.sub]. replace (kp + 8 * Z.of_nat (S k)) with (kp + 8 + 8 * Z.of_nat k) by lia.
      exact Ek.
    + cbn [Nat.sub]. replace (ds + (Z.of_nat B + D)) with (ds + Z.of_nat B + D) by lia.
      exact Ed.
    + cbn [Nat.sub]. lia.
Qed.

(** *** The element loop *)

Lemma tail_data_app a b : tail_data (a ++ b) = tail_data a ++ tail_data b.
Proof. unfold tail_data. apply flat_map_app. Qed.

Lemma tail_keys_length t :
  Z.of_nat (length (tail_keys t)) = (Z.of_nat (length t) + 7) / 8.
Proof.
  unfold tail_keys. rewrite le_bytes_length.
  now rewrite Nat2Z.inj_div, Nat2Z.inj_add.
Qed.

(** Bit [j mod 8] of key byte [j / 8] is the key bit of element [j]. *)
Lemma tail_key_bit_at t j : (j < length t)%nat ->
  Z.land (Z.shiftr (nth (Z.to_nat (Z.of_nat j / 8)) (tail_keys t) 0) (Z.of_nat j mod 8)) 1 =
  b2z (wide (nth j t 0)).
Proof.
  intros H.
  assert (Hb : (Z.to_nat (Z.of_nat j / 8) < (length t + 7) / 8)%nat).
  { apply Nat2Z.inj_lt. rewrite Nat2Z.inj_div, Nat2Z.inj_add.
    rewrite Z2Nat.id by (Z.div_mod_to_equations; lia).
    cbn [Z.of_nat Pos.of_succ_nat Pos.succ]. Z.div_mod_to_equations. lia. }
  unfold tail_keys. rewrite le_bytes_nth by exact Hb.
  rewrite Z2Nat.id by (Z.div_mod_to_equations; lia).
  rewrite bit_testbit by (Z.div_mod_to_equations; lia).
  rewrite u8_testbit by (Z.div_mod_to_equations; lia).
  rewrite Z.shiftr_spec by (Z.div_mod_to_equations; lia).
  replace (Z.of_nat j mod 8 + 8 * (Z.of_nat j / 8)) with (Z.of_nat j)
    by (Z.div_mod_to_equations; lia).
  rewrite testbit_pack_bits.
  rewrite (nth_indep _ false (wide 0)) by (now rewrite length_map).
  now rewrite map_nth.
Qed.

Lemma dec_tail_iter inm out t kp ds om :
  (length t <= 63)%nat ->
  holds inm kp (tail_keys t) -> holds inm ds (tail_data t) ->
  forall j, (j <= length t)%nat ->
  exists K,
    iter j
      (fun s : Z * Z * Z * Z * mem =>
         let '(i, keys, in_, data, om) := s in
         let '(keys, in_) :=
           if Z.land i 7 =? 0 then (inm in_, in_ + 1) else (keys, in_) in
         let '(data, om) :=
           if negb (Z.land keys 1 =? 0)
           then (data + 2, store_bytes om (out + 2 * i) (load_bytes inm data 2))
           else (data + 1, store_bytes om (out + 2 * i) (le_bytes 2 (inm data))) in
         let keys := Z.shiftr keys 1 in
         (u32 (i + 1), keys, in_, data, om))
      (0, 0, kp, ds, om) =
    (Z.of_nat j, K, kp + (Z.of_nat j + 7) / 8,
     ds + Z.of_nat (length (tail_data (firstn j t))),
     store_bytes om out (array_bytes (firstn j t))) /\
    (Z.of_nat j mod 8 <> 0 ->
     K = Z.shiftr (nth (Z.to_nat (Z.of_nat j / 8)) (tail_keys t) 0) (Z.of_nat j mod 8)).
Proof.
  intros Lt Hk Hd. induction j as [|j IH]; intros Hj.
  - exists 0. cbn [iter firstn]. split.
    + apply tuple5_eq; try reflexivity; unfold tail_data;
        cbn [flat_map length Z.of_nat]; Z.div_mod_to_equations; lia.
    + intros H. now contradiction H.
  - destruct (IH ltac:(lia)) as (K & E & HK). clear IH.
    rewrite iter_S, E. clear E. cbv beta iota zeta.
    rewrite land_7.
    set (x := nth j t 0).
    set (B := nth (Z.to_nat (Z.of_nat j / 8)) (tail_keys t) 0) in *.
    set (m := Z.of_nat j mod 8) in *.
    assert (Hm : 0 <= m < 8) by (subst m; Z.div_mod_to_equations; lia).
    pose proof (tail_key_bit_at t j ltac:(lia)) as Hbit. fold B m x in Hbit.
    assert (EB : inm (kp + Z.of_nat j / 8) = B).
    { pose proof (proj1 (holds_nth inm kp (tail_keys t)) Hk (Z.to_nat (Z.of_nat j / 8))) as P.
      rewrite Z2Nat.id in P by (Z.div_mod_to_equations; lia).
      apply P. apply Nat2Z.inj_lt. rewrite tail_keys_length.
      rewrite Z2Nat.id by (Z.div_mod_to_equations; lia).
      Z.div_mod_to_equations. lia. }
    assert (EK : (if m =? 0
                  then (inm (kp + (Z.of_nat j + 7) / 8), kp + (Z.of_nat j + 7) / 8 + 1)
                  else (K, kp + (Z.of_nat j + 7) / 8)) =
                 (Z.shiftr B m, kp + (Z.of_nat (S j) + 7) / 8)).
    { destruct (Z.eqb_spec m 0) as [e|ne].
      - replace ((Z.of_nat j + 7) / 8) with (Z.of_nat j / 8)
          by (subst m; Z.div_mod_to_equations; lia).
        rewrite EB, e, Z.shiftr_0_r. f_equal.
        subst m. Z.div_mod_to_equations. lia.
      - rewrite (HK ne). f_equal. f_equal.
        subst m. Z.div_mod_to_equations. lia. }
    rewrite EK. clear EK. cbv beta iota zeta.
    rewrite Hbit.
    (* the bytes of element [j] in the stream *)
    assert (Et : t = firstn j t ++ [x] ++ skipn (S j) t).
    { unfold x. rewrite app_assoc, <- (firstn_snoc t j 0) by lia.
      symmetry. apply firstn_skipn. }
    assert (Hx : holds inm (ds + Z.of_nat (length (tail_data (firstn j t))))
                   (tail_data [x])).
    { rewrite Et in Hd at 1. rewrite !tail_data_app in Hd.
      apply holds_app in Hd. destruct Hd as [_ Hd].
      apply holds_app in Hd. now destruct Hd as [Hd _]. }
    set (d := ds + Z.of_nat (length (tail_data (firstn j t)))) in *.
    assert (Lf : length (firstn j t) = j) by (rewrite length_firstn; lia).
    exists (Z.shiftr (Z.shiftr B m) 1). split.
    + rewrite (firstn_snoc t j 0) by lia. fold x.
      rewrite tail_data_app, array_bytes_app, store_bytes_app, array_bytes_length, Lf.
      rewrite length_app.
      replace (array_bytes [x]) with (le_bytes 2 x)
        by (unfold array_bytes; cbn [flat_map]; now rewrite app_nil_r).
      unfold tail_data in Hx |- *. cbn [flat_map] in Hx |- *.
      rewrite !app_nil_r in *. unfold wide in *.
      rewrite u32_small by (pow2_consts; lia).
      replace (out + 2 * Z.of_nat j) with (out + Z.of_nat (2 * j)) by lia.
      destruct (hi x =? 0) eqn:Hh; cbn [negb b2z Z.eqb] in *.
      * unfold holds in Hx. cbn [length load_bytes] in Hx.
        injection Hx as Hx. rewrite Hx.
        assert (E2 : le_bytes 2 (lo x) = le_bytes 2 x).
        { rewrite !le_bytes_2. apply Z.eqb_eq in Hh. fold (lo x) (hi x). rewrite Hh.
          f_equal; [apply u8_small, u8_range|].
          f_equal. pose proof (u8_range x) as R. fold (lo x) in R.
          rewrite Z.shiftr_div_pow2 by lia. change (2 ^ 8) with 256.
          change (2 ^ 8) with 256 in R. rewrite Z.div_small by lia. reflexivity. }
        rewrite E2. apply tuple5_eq; try reflexivity; try lia.
        subst d. unfold tail_data, wide. cbn [length]. lia.
      * unfold holds in Hx. cbn [length] in Hx. rewrite Hx.
        rewrite le_bytes_2. apply tuple5_eq; try reflexivity; try lia.
        subst d. unfold tail_data, wide. cbn [length]. lia.
    + intros Hne. rewrite Z.shiftr_shiftr by lia.
      replace (Z.of_nat (S j) / 8) with (Z.of_nat j / 8)
        by (subst m; Z.div_mod_to_equations; lia).
      replace (Z.of_nat (S j) mod 8) with (m + 1)
        by (subst m; Z.div_mod_to_equations; lia).
      reflexivity.
Qed.

(** ** [short_dec] on a stream of the format *)

Lemma short_keys_tail fuel l : (length l < 64)%nat -> keys fuel l = tail_keys l.
Proof.
  intros H. destruct fuel; cbn [keys]; [reflexivity|].
  destruct (Nat.leb_spec 64 (length l)); [lia|reflexivity].
Qed.

Lemma short_data_tail fuel l : (length l < 64)%nat -> data fuel l = tail_data l.
Proof.
  intros H. destruct fuel; cbn [data]; [reflexivity|].
  destruct (Nat.leb_spec 64 (length l)); [lia|reflexivity].
Qed.

(** From a buffer that holds the stream of [inp], [short_dec] stores the
    array [inp] and returns the end of the stream. *)
Lemma short_dec_stream om inm inp :
  Z.of_nat (length inp) < 2 ^ 64 - 7 ->
  holds inm 0 (stream inp) ->
  Short.short_dec om inm (Z.of_nat (length inp)) =
  (Z.of_nat (length (stream inp)), store_bytes om 0 (array_bytes inp)).
Proof.
  intros Hn Hs. set (N := Z.of_nat (length inp)) in *.
  unfold stream in Hs |- *. apply holds_app in Hs. destruct Hs as [Hk Hd].
  pose proof (short_keys_length (length inp) inp (div64_le (length inp))) as KL.
  fold N in KL. rewrite length_app, Nat2Z.inj_add, KL.
  rewrite Z.add_0_l, KL in Hd.
  unfold Short.short_dec.
  rewrite u64_small by (pow2_consts; lia).
  rewrite Z.shiftr_div_pow2 by lia. change (2 ^ 3) with 8.
  set (ds := (N + 7) / 8) in *.
  set (k := (length inp / 64)%nat).
  assert (Hk64 : Z.of_nat k = N / 64) by (subst k N; now rewrite Nat2Z.inj_div).
  clearbody k.
  assert (Hkl : (64 * k <= length inp)%nat) by (subst N; Z.div_mod_to_equations; lia).
  assert (Hkf : (k <= length inp)%nat) by lia.
  destruct (dec_blocks_iter inm k (length inp) inp 0 ds 0 om N Hkf Hkl
              ltac:(pow2_consts; Z.div_mod_to_equations; lia) Hk Hd)
    as (D & Ei & Ek & Ed & El).
  set (t := skipn (64 * k) inp) in *.
  assert (Lt : (length t < 64)%nat).
  { subst t. rewrite length_skipn. subst N. Z.div_mod_to_equations. lia. }
  rewrite (short_keys_tail _ t) in Ek by exact Lt.
  rewrite (short_data_tail _ t) in Ed, El by exact Lt.
  rewrite !Z.add_0_l in Ei, Ek.
  remember (N - 64 * Z.of_nat k) as r eqn:Er0.
  assert (Hr : r = Z.of_nat (length t)).
  { subst r t. rewrite length_skipn. subst N. lia. }
  set (om1 := store_bytes om 0 (array_bytes (firstn (64 * k) inp))) in *.
  assert (S0 : (if 64 <=? N
                then
                  let '(in_, count, data, out, om0) :=
                    do_while (Z.to_nat N) (Short.dec_block inm)
                      (fun s => let '(_, count, _, _, _) := s in 64 <=? count)
                      (0, N, ds - 16, 0, om) in
                  (in_, count, data + 16, out, om0)
                else (0, N, ds, 0, om)) =
               (8 * Z.of_nat k, r, ds + D, 128 * Z.of_nat k, om1)).
  { destruct (Z.leb_spec 64 N) as [G|G].
    - rewrite (do_while_iter _ _ k).
      + rewrite Ei. apply tuple5_eq; try reflexivity; lia.
      + subst N. Z.div_mod_to_equations. lia.
      + intros j Hj.
        destruct (dec_blocks_iter inm j (length inp) inp 0 ds 0 om N
                    ltac:(lia) ltac:(lia)
                    ltac:(pow2_consts; Z.div_mod_to_equations; lia) Hk Hd)
          as (Dj & Ej & _).
        rewrite Ej. apply Z.leb_le. Z.div_mod_to_equations. lia.
      + rewrite Ei. apply Z.leb_gt. Z.div_mod_to_equations. lia.
    - assert (k = 0%nat) by (Z.div_mod_to_equations; lia). subst k.
      cbn [iter] in Ei. injection Ei as _ E1.
      subst om1. change (64 * 0)%nat with 0%nat. cbn [firstn array_bytes flat_map store_bytes].
      apply tuple5_eq; try reflexivity; lia. }
  rewrite S0. clear S0 Ei. cbv beta iota zeta.
  assert (Lt' : (length t <= 63)%nat) by lia.
  match goal with
  | |- context [while ?fu ?cd ?bd ?s0] =>
      assert (W : while fu cd bd s0 = iter (length t) bd s0)
  end.
  { apply while_iter; [lia| |lia].
    intros j Hj.
    destruct (dec_tail_iter inm (128 * Z.of_nat k) t (8 * Z.of_nat k) (ds + D) om1
                Lt' Ek Ed j ltac:(lia)) as (K & T & _).
    cbv beta iota zeta in T. rewrite T. apply Z.ltb_lt. lia. }
  rewrite W. clear W.
  destruct (dec_tail_iter inm (128 * Z.of_nat k) t (8 * Z.of_nat k) (ds + D) om1
              Lt' Ek Ed (length t) ltac:(lia)) as (K & T & _).
  cbv beta iota zeta in T. rewrite T. clear T.
  rewrite firstn_all.
  f_equal; [lia|].
  subst om1 t.
  replace (128 * Z.of_nat k) with (0 + Z.of_nat (length (array_bytes (firstn (64 * k) inp))))
    by (rewrite array_bytes_length, length_firstn; lia).
  rewrite <- store_bytes_app, <- array_bytes_app, firstn_skipn. reflexivity.
Qed.

(** Reading an array back from its bytes. *)
Lemma out_array_holds : forall l m a, Forall is_u16 l -> holds m a (array_bytes l) ->
  map (fun i => le_value (load_bytes m (a + 2 * Z.of_nat i) 2)) (seq 0 (length l)) = l.
Proof.
  induction l as [|x l IH]; intros m a Hl Hh; [reflexivity|].
  inversion Hl as [|? ? Hx Hl']; subst.
  change (array_bytes (x :: l)) with (le_bytes 2 x ++ array_bytes l) in Hh.
  apply holds_app in Hh. destruct Hh as [H1 H2].
  rewrite le_bytes_length in H2. unfold holds in H1. rewrite le_bytes_length in H1.
  cbn [length seq map]. f_equal.
  - replace (a + 2 * Z.of_nat 0) with a by lia. rewrite H1.
    rewrite le_value_bytes. apply Z.mod_small. exact Hx.
  - rewrite <- seq_shift, map_map.
    rewrite <- (IH m (a + Z.of_nat 2) Hl' H2) at 2.
    apply map_ext. intros i. do 2 f_equal. lia.
Qed.

Lemma out_array_store om inp : Forall is_u16 inp ->
  Short.out_array (store_bytes om 0 (array_bytes inp)) (length inp) = inp.
Proof.
  intros H. unfold Short.out_array.
  etransitivity;
    [|apply (out_array_holds inp (store_bytes om 0 (array_bytes inp)) 0 H);
      apply load_store_bytes].
  apply map_ext. intros i. reflexivity.
Qed.

(** ** Where [short_dec] stores, whatever it reads *)

Lemma dec_group_shape inm keys data out om :
  exists keys' data' w, length w = 16%nat /\
    Short.dec_group inm (keys, data, out, om) =
    (keys', data', out + 16, store_bytes om out w).
Proof.
  unfold Short.dec_group. cbv zeta. unfold _mm_storeu_si128.
  do 3 eexists. split; [|reflexivity].
  unfold _mm_shuffle_epi8. rewrite length_map. reflexivity.
Qed.

Lemma dec_groups_shape inm : forall (idxs : list nat) keys data out om,
  exists keys' data' om',
    fold_left (fun t (_ : nat) => Short.dec_group inm t) idxs (keys, data, out, om) =
    (keys', data', out + 16 * Z.of_nat (length idxs), om') /\
    forall p, p < out \/ out + 16 * Z.of_nat (length idxs) <= p -> om' p = om p.
Proof.
  induction idxs as [|i idxs IH]; intros keys data out om.
  - exists keys, data, om. cbn [fold_left length Z.of_nat]. split; [|reflexivity].
    replace (out + 16 * 0) with out by lia. reflexivity.
  - cbn [fold_left].
    destruct (dec_group_shape inm keys data out om) as (k1 & d1 & w & Lw & E1).
    rewrite E1.
    destruct (IH k1 d1 (out + 16) (store_bytes om out w)) as (k2 & d2 & m2 & E2 & F2).
    exists k2, d2, m2. rewrite E2. cbn [length]. split.
    + replace (out + 16 + 16 * Z.of_nat (length idxs))
        with (out + 16 * Z.of_nat (S (length idxs))) by lia.
      reflexivity.
    + intros p Hp. rewrite F2 by lia. apply store_bytes_out. rewrite Lw. lia.
Qed.

Lemma dec_block_shape inm in_ count data out om :
  exists data' om',
    Short.dec_block inm (in_, count, data, out, om) =
    (in_ + 8, u64 (count - 64), data', out + 128, om') /\
    forall p, p < out \/ out + 128 <= p -> om' p = om p.
Proof.
  unfold Short.dec_block.
  destruct (dec_groups_shape inm (seq 0 8) (le_value (load_bytes inm in_ 8)) data out om)
    as (k' & d' & m' & E & F).
  rewrite E. exists d', m'. split; [reflexivity|exact F].
Qed.

Lemma dec_blocks_shape inm : forall k in_ count data out om,
  64 * Z.of_nat k <= count < 2 ^ 64 ->
  exists data' om',
    iter k (Short.dec_block inm) (in_, count, data, out, om) =
    (in_ + 8 * Z.of_nat k, count - 64 * Z.of_nat k, data', out + 128 * Z.of_nat k, om') /\
    forall p, p < out \/ out + 128 * Z.of_nat k <= p -> om' p = om p.
Proof.
  induction k as [|k IH]; intros in_ count data out om Hc.
  - exists data, om. cbn [iter]. split; [|reflexivity].
    apply tuple5_eq; try reflexivity; lia.
  - cbn [iter].
    destruct (dec_block_shape inm in_ count data out om) as (d1 & m1 & E1 & F1).
    rewrite E1.
    destruct (IH (in_ + 8) (u64 (count - 64)) d1 (out + 128) m1) as (d2 & m2 & E2 & F2).
    { rewrite u64_small by lia. lia. }
    exists d2, m2. rewrite E2. split.
    + rewrite u64_small by lia. apply tuple5_eq; try reflexivity; lia.
    + intros p Hp. rewrite F2 by lia. apply F1. lia.
Qed.

Lemma dec_tail_shape inm out in_ data om : forall j, (j <= 63)%nat ->
  exists K in' data' om',
    iter j
      (fun s : Z * Z * Z * Z * mem =>
         let '(i, keys, in_, data, om) := s in
         let '(keys, in_) :=
           if Z.land i 7 =? 0 then (inm in_, in_ + 1) else (keys, in_) in
         let '(data, om) :=
           if negb (Z.land keys 1 =? 0)
           then (data + 2, store_bytes om (out + 2 * i) (load_bytes inm data 2))
           else (data + 1, store_bytes om (out + 2 * i) (le_bytes 2 (inm data))) in
         let keys := Z.shiftr keys 1 in
         (u32 (i + 1), keys, in_, data, om))
      (0, 0, in_, data, om) =
    (Z.of_nat j, K, in', data', om') /\
    forall p, p < out \/ out + 2 * Z.of_nat j <= p -> om' p = om p.
Proof.
  induction j as [|j IH]; intros Hj.
  - exists 0, in_, data, om. split; reflexivity.
  - destruct (IH ltac:(lia)) as (K & i1 & d1 & m1 & E & F). clear IH.
    rewrite iter_S, E. clear E. cbv beta iota zeta.
    rewrite u32_small by (pow2_consts; lia).
    replace (Z.of_nat j + 1) with (Z.of_nat (S j)) by lia.
    destruct (Z.land (Z.of_nat j) 7 =? 0);
      cbv beta iota zeta;
      match goal with
      | |- context [negb ?b] => destruct b
      end; cbn [negb]; cbv beta iota zeta;
      do 4 eexists; (split; [reflexivity|]);
      intros p Hp;
      rewrite store_bytes_out by (rewrite ?load_bytes_length, ?le_bytes_length; lia);
      apply F; lia.
Qed.

(** ** The vector decoding filters of [svb_internal.h] *)

Lemma map2_app {A B C} (f : A -> B -> C) : forall (a b : list A) (c d : list B),
  length a = length c -> map2 f (a ++ b) (c ++ d) = map2 f a c ++ map2 f b d.
Proof.
  intros a b c d L. unfold map2.
  revert c L. induction a as [|x a IH]; intros [|y c] L; cbn [length] in L;
    try lia; [reflexivity|].
  cbn [app combine map]. f_equal. apply IH. lia.
Qed.

Lemma land_bytes4 x y :
  map2 Z.land (le_bytes 4 x) (le_bytes 4 y) = le_bytes 4 (Z.land x y).
Proof.
  assert (B : forall a b, Z.land (u8 a) (u8 b) = u8 (Z.land a b)).
  { intros a b. unfold u8. rewrite <- !Z.land_ones by lia.
    apply Z.bits_inj'; intros i Hi. rewrite !Z.land_spec.
    destruct (Z.testbit a i), (Z.testbit b i), (Z.testbit (Z.ones 8) i); reflexivity. }
  rewrite !le_bytes_4. unfold map2. cbn [combine map fst snd].
  rewrite !B. rewrite <- !Z.shiftr_land. reflexivity.
Qed.

Lemma and_unlanes4 a0 a1 a2 a3 b0 b1 b2 b3 :
  _mm_and_si128 (unlanes 4 [a0; a1; a2; a3]) (unlanes 4 [b0; b1; b2; b3]) =
  unlanes 4 [Z.land a0 b0; Z.land a1 b1; Z.land a2 b2; Z.land a3 b3].
Proof.
  unfold _mm_and_si128, unlanes. cbn [flat_map]. rewrite !app_nil_r.
  rewrite !map2_app by (now rewrite !le_bytes_length).
  now rewrite !land_bytes4.
Qed.

Lemma xor_unlanes4 a0 a1 a2 a3 b0 b1 b2 b3 :
  0 <= a0 -> 0 <= a1 -> 0 <= a2 -> 0 <= a3 ->
  0 <= b0 -> 0 <= b1 -> 0 <= b2 -> 0 <= b3 ->
  _mm_xor_si128 (unlanes 4 [a0; a1; a2; a3]) (unlanes 4 [b0; b1; b2; b3]) =
  unlanes 4 [Z.lxor a0 b0; Z.lxor a1 b1; Z.lxor a2 b2; Z.lxor a3 b3].
Proof.
  intros. unfold _mm_xor_si128, unlanes. cbn [flat_map]. rewrite !app_nil_r.
  rewrite !map2_app by (now rewrite !le_bytes_length).
  now rewrite !lxor_bytes4 by assumption.
Qed.

Lemma land_1_range a : 0 <= a -> is_u32 (Z.land 1 a).
Proof.
  intros H. rewrite Z.land_comm, land_1. unfold is_u32.
  pose proof (Z.mod_pos_bound a 2 ltac:(lia)). lia.
Qed.

Lemma zigzag_decode_alt v : is_u32 v ->
  _zigzag_decode_32 v =
  Z.lxor (Z.shiftr v 1) (if Z.land 1 v =? 1 then 0xFFFFFFFF else 0).
Proof.
  unfold is_u32. intros H. unfold _zigzag_decode_32. f_equal.
  rewrite (Z.land_comm 1 v), !land_1.
  pose proof (Z.mod_pos_bound v 2 ltac:(lia)).
  destruct (Z.eqb_spec (v mod 2) 1) as [e|ne].
  - rewrite e. reflexivity.
  - replace (v mod 2) with 0 by lia. reflexivity.
Qed.

(** [_mm_zigzag_decode_epi32] applies [_zigzag_decode_32] to each lane. *)
Lemma zigzag_decode_epi32_lanes a0 a1 a2 a3 :
  is_u32 a0 -> is_u32 a1 -> is_u32 a2 -> is_u32 a3 ->
  _mm_zigzag_decode_epi32 (unlanes 4 [a0; a1; a2; a3]) =
  unlanes 4 [_zigzag_decode_32 a0; _zigzag_decode_32 a1;
             _zigzag_decode_32 a2; _zigzag_decode_32 a3].
Proof.
  intros H0 H1 H2 H3. unfold _mm_zigzag_decode_epi32. cbv zeta.
  change (_mm_set1_epi32 1) with (unlanes 4 [1; 1; 1; 1]).
  rewrite and_unlanes4.
  unfold _mm_cmpeq_epi32, _mm_srli_epi32.
  assert (R : forall a, is_u32 a -> 0 <= a) by (unfold is_u32; intros; lia).
  rewrite !lanes4_unlanes by (try apply land_1_range; auto; unfold is_u32; lia).
  unfold map2. cbn [combine map fst snd].
  rewrite xor_unlanes4.
  - now rewrite !zigzag_decode_alt by assumption.
  - apply Z.shiftr_nonneg; auto.
  - apply Z.shiftr_nonneg; auto.
  - apply Z.shiftr_nonneg; auto.
  - apply Z.shiftr_nonneg; auto.
  - destruct (_ =? _); lia.
  - destruct (_ =? _); lia.
  - destruct (_ =? _); lia.
  - destruct (_ =? _); lia.
Qed.

Lemma add_epi32_lanes a0 a1 a2 a3 b0 b1 b2 b3 :
  is_u32 a0 -> is_u32 a1 -> is_u32 a2 -> is_u32 a3 ->
  is_u32 b0 -> is_u32 b1 -> is_u32 b2 -> is_u32 b3 ->
  _mm_add_epi32 (unlanes 4 [a0; a1; a2; a3]) (unlanes 4 [b0; b1; b2; b3]) =
  unlanes 4 [u32 (a0 + b0); u32 (a1 + b1); u32 (a2 + b2); u32 (a3 + b3)].
Proof.
  intros. unfold _mm_add_epi32. rewrite !lanes4_unlanes by assumption. reflexivity.
Qed.

Lemma slli4_lanes a0 a1 a2 a3 :
  _mm_slli_si128 (unlanes 4 [a0; a1; a2; a3]) 4 = unlanes 4 [0; a0; a1; a2].
Proof. reflexivity. Qed.

Lemma slli8_lanes a0 a1 a2 a3 :
  _mm_slli_si128 (unlanes 4 [a0; a1; a2; a3]) 8 = unlanes 4 [0; 0; a0; a1].
Proof. reflexivity. Qed.

Lemma broadcast_top prev p : is_u32 p -> top_lane prev p ->
  _mm_shuffle_epi32 prev (_MM_SHUFFLE 3 3 3 3) = unlanes 4 [p; p; p; p].
Proof.
  intros Hp [L E]. unfold _mm_shuffle_epi32.
  assert (E3 : nth 3 (lanes 4 prev) 0 = p).
  { do 17 (destruct prev as [|? prev]; cbn [length] in L; try lia).
    cbn [skipn] in E. unfold lanes, chunks.
    cbn [length chunks_aux firstn skipn map nth]. rewrite E.
    now apply le_value_bytes4. }
  cbn [map]. change (Z.to_nat (Z.land (Z.shiftr (_MM_SHUFFLE 3 3 3 3) (2 * 0)) 3)) with 3%nat.
  change (Z.to_nat (Z.land (Z.shiftr (_MM_SHUFFLE 3 3 3 3) (2 * 1)) 3)) with 3%nat.
  change (Z.to_nat (Z.land (Z.shiftr (_MM_SHUFFLE 3 3 3 3) (2 * 2)) 3)) with 3%nat.
  change (Z.to_nat (Z.land (Z.shiftr (_MM_SHUFFLE 3 3 3 3) (2 * 3)) 3)) with 3%nat.
  now rewrite E3.
Qed.

Lemma u32_is_u32 x : is_u32 (u32 x).
Proof. apply u32_range. Qed.

(** [_mm_delta_decode_epi32] is the running sum that [_delta_decode_32]
    computes element by element, started from the top lane of [prev]. *)
Lemma delta_decode_epi32_lanes a0 a1 a2 a3 prev p :
  is_u32 a0 -> is_u32 a1 -> is_u32 a2 -> is_u32 a3 -> is_u32 p -> top_lane prev p ->
  _mm_delta_decode_epi32 (unlanes 4 [a0; a1; a2; a3]) prev =
  (let s0 := _delta_decode_32 a0 p in
   let s1 := _delta_decode_32 a1 s0 in
   let s2 := _delta_decode_32 a2 s1 in
   let s3 := _delta_decode_32 a3 s2 in
   unlanes 4 [s0; s1; s2; s3]).
Proof.
  intros H0 H1 H2 H3 Hp Ht. unfold _mm_delta_decode_epi32. cbv zeta.
  rewrite (broadcast_top prev p Hp Ht), slli4_lanes.
  assert (Z0 : is_u32 0) by (unfold is_u32; lia).
  rewrite (add_epi32_lanes a0 a1 a2 a3) by assumption.
  rewrite slli8_lanes.
  rewrite !add_epi32_lanes by (try apply u32_is_u32; assumption).
  unfold _delta_decode_32, is_u32, u32 in *.
  f_equal. repeat (apply f_equal2; [Z.div_mod_to_equations; lia|]). reflexivity.
Qed.

(** ** No store at or past the bound *)

Lemma short_bound_eq n : 0 <= n < 2 ^ 32 ->
  Short.short_compress_bound n = 2 * n + (n + 7) / 8.
Proof.
  intros H. unfold Short.short_compress_bound. cbv zeta.
  rewrite u32_small by lia.
  rewrite Z.shiftl_mul_pow2, Z.shiftr_div_pow2 by lia.
  change (2 ^ 1) with 2. change (2 ^ 3) with 8.
  rewrite (u64_small (n * 2)) by (pow2_consts; lia).
  rewrite (u64_small (n + 7)) by (pow2_consts; lia).
  rewrite u64_small by (pow2_consts; Z.div_mod_to_equations; lia). lia.
Qed.



(** *** Past the range of [short_compress_bound] *)

Lemma nth_firstn_zeros : forall m j k, nth k (firstn j (repeat 0 m)) 0 = 0.
Proof.
  induction m as [|m IH]; intros j k; cbn [repeat].
  - rewrite firstn_nil. now destruct k.
  - destruct j as [|j]; [now destruct k|].
    cbn [firstn]. destruct k as [|k]; [reflexivity|]. cbn [nth]. apply IH.
Qed.

Lemma Forall_u16_zeros n : Forall is_u16 (repeat 0 n).
Proof.
  apply Forall_forall. intros x Hx. apply repeat_spec in Hx. subst.
  unfold is_u16. lia.
Qed.

(** The first key byte [short_enc] stores for an array of at least 64
    zeros is zero. *)
Lemma short_enc_zeros_first_byte out n count :
  Z.of_nat n = count -> 64 <= count < 2 ^ 64 - 7 ->
  snd (Short.short_enc out (repeat 0 n) count) 0 = 0.
Proof.
  intros <- H.
  pose proof (short_enc_stream out (repeat 0 n) (Forall_u16_zeros n)) as S.
  rewrite repeat_length in S. destruct (S ltac:(lia)) as [_ Hh]. clear S.
  pose proof (short_keys_length (length (repeat 0 n)) (repeat 0 n)
                (div64_le (length (repeat 0 n)))) as KL.
  rewrite repeat_length in KL.
  assert (K8 : (8 <= length (ShortFormat.keys n (repeat 0%Z n)))%nat).
  { apply Nat2Z.inj_le. rewrite KL. Z.div_mod_to_equations. lia. }
  rewrite holds_nth in Hh. specialize (Hh 0%nat).
  unfold ShortFormat.stream in Hh. rewrite repeat_length in Hh.
  rewrite length_app in Hh. specialize (Hh ltac:(lia)).
  cbn [Z.of_nat Z.add] in Hh. rewrite Hh.
  rewrite app_nth1 by lia.
  destruct n as [|n']; [lia|]. cbn [ShortFormat.keys].
  rewrite repeat_length.
  destruct (Nat.leb_spec 64 (S n')) as [G|G]; [|lia].
  rewrite app_nth1 by (rewrite block_keys_length; lia).
  unfold block_keys. cbn [seq map nth].
  rewrite !nth_firstn_zeros. reflexivity.
Qed.


(** ** Round trip of the 16-bit codec *)

(** C1. For every array [inp] of 16-bit values whose count [N] leaves
    [(uint64_t)N + 7] without wrap-around, whatever the output buffers
    held before: [short_dec], run with count [N] on the buffer
    [short_enc] wrote, stores exactly [inp], and the pointer it returns
    is at the same offset from the start of the stream as the pointer the
    encoder returned. *)
Theorem short_round_trip (inp : list Z) (out om : mem) :
  Forall is_u16 inp ->
  Z.of_nat (length inp) < 2 ^ 64 - 7 ->
  let n := Z.of_nat (length inp) in
  let enc := Short.short_enc out inp n in
  let dec := Short.short_dec om (snd enc) n in
  Short.out_array (snd dec) (length inp) = inp /\ fst dec = fst enc.
Proof.
  intros Hin Hn. cbv zeta.
  destruct (short_enc_stream out inp Hin Hn) as [El Eh].
  rewrite (short_dec_stream om _ inp Hn Eh). cbn [fst snd].
  split; [apply out_array_store; exact Hin|].
  symmetry. exact El.
Qed.

Lemma short_round_trip_witness :
  Short.out_array
    (snd (Short.short_dec (fun _ => 0xFD)
            (snd (Short.short_enc (fun _ => 0xFE) [0; 0xFF; 0x100; 0xFFFF; 7; 0x8000] 6)) 6))
    6 = [0; 0xFF; 0x100; 0xFFFF; 7; 0x8000] /\
  fst (Short.short_dec (fun _ => 0xFD)
         (snd (Short.short_enc (fun _ => 0xFE) [0; 0xFF; 0x100; 0xFFFF; 7; 0x8000] 6)) 6) =
  fst (Short.short_enc (fun _ => 0xFE) [0; 0xFF; 0x100; 0xFFFF; 7; 0x8000] 6).
Proof.
  apply (short_round_trip [0; 0xFF; 0x100; 0xFFFF; 7; 0x8000] (fun _ => 0xFE) (fun _ => 0xFD)).
  - repeat constructor; unfold is_u16; lia.
  - reflexivity.
Defined.

(** * Further properties of the code

    ** The filters of [svb_internal.h] *)

(** X1. Each scalar decoding filter undoes its encoding filter on every
    32-bit value, whatever the anchor: zigzag, delta and delta-zigzag. *)
Theorem scalar_filters_invert (v p : Z) :
  is_u32 v ->
  _zigzag_decode_32 (_zigzag_encode_32 v) = v /\
  _delta_decode_32 (_delta_encode_32 v p) p = v /\
  _delta_zigzag_decode_32 (_delta_zigzag_encode_32 v p) p = v.
Proof.
  intros H. split; [|split].
  - now apply zigzag_roundtrip.
  - now apply delta_roundtrip.
  - unfold _delta_zigzag_decode_32, _delta_zigzag_encode_32.
    rewrite zigzag_roundtrip by apply delta_encode_range.
    now apply delta_roundtrip.
Qed.

Lemma scalar_filters_invert_witness :
  _zigzag_decode_32 (_zigzag_encode_32 0xFFFFFFFE) = 0xFFFFFFFE /\
  _delta_decode_32 (_delta_encode_32 0xFFFFFFFE 7) 7 = 0xFFFFFFFE /\
  _delta_zigzag_decode_32 (_delta_zigzag_encode_32 0xFFFFFFFE 7) 7 = 0xFFFFFFFE.
Proof.
  apply (scalar_filters_invert 0xFFFFFFFE 7). unfold is_u32. lia.
Defined.

(** X2. The zigzag code of a 32-bit value read as a signed number [s]:
    [2s] when [s] is not negative, [-2s - 1] when it is.  A value within
    [2^k] of zero on either side so gets a code below [2^(k+1)]. *)
Theorem zigzag_code_of_signed (v : Z) :
  is_u32 v ->
  _zigzag_encode_32 v =
  (if signed 32 v <? 0 then - 2 * signed 32 v - 1 else 2 * signed 32 v).
Proof.
  unfold is_u32. intros H.
  destruct (Z.lt_ge_cases v (2 ^ 31)) as [L|G].
  - rewrite zigzag_encode_low by lia.
    rewrite signed_small by (change (32 - 1) with 31; lia).
    destruct (Z.ltb_spec v 0); lia.
  - rewrite zigzag_encode_high by lia.
    rewrite signed_big by (change (32 - 1) with 31; lia).
    destruct (Z.ltb_spec (v - 2 ^ 32) 0); lia.
Qed.

Lemma zigzag_code_of_signed_witness :
  _zigzag_encode_32 0xFFFFFFFD =
  (if signed 32 0xFFFFFFFD <? 0 then - 2 * signed 32 0xFFFFFFFD - 1
   else 2 * signed 32 0xFFFFFFFD).
Proof.
  apply (zigzag_code_of_signed 0xFFFFFFFD). unfold is_u32. lia.
Defined.

(** X3. The vector encoding filters compute the scalar ones lane by
    lane: zigzag on each lane; delta of each lane against the lane below
    it, the lowest against the top lane of [prev]; delta-zigzag
    likewise. *)
Theorem vector_encode_filters_by_lane (a0 a1 a2 a3 p : Z) (prev : m128) :
  is_u32 a0 -> is_u32 a1 -> is_u32 a2 -> is_u32 a3 -> is_u32 p -> top_lane prev p ->
  let v := unlanes 4 [a0; a1; a2; a3] in
  _mm_zigzag_encode_epi32 v =
    unlanes 4 (map _zigzag_encode_32 [a0; a1; a2; a3]) /\
  _mm_delta_encode_epi32 v prev =
    unlanes 4 (deltas _delta_encode_32 p [a0; a1; a2; a3]) /\
  _mm_delta_zigzag_encode_epi32 v prev =
    unlanes 4 (deltas _delta_zigzag_encode_32 p [a0; a1; a2; a3]).
Proof.
  intros H0 H1 H2 H3 Hp Ht. cbv zeta. cbn [map deltas]. split; [|split].
  - now apply zigzag_encode_epi32_lanes.
  - now apply delta_encode_epi32_lanes.
  - unfold _mm_delta_zigzag_encode_epi32.
    rewrite (delta_encode_epi32_lanes a0 a1 a2 a3 prev p) by assumption.
    apply zigzag_encode_epi32_lanes; apply delta_encode_range.
Qed.

Lemma vector_encode_filters_by_lane_witness :
  _mm_zigzag_encode_epi32 (unlanes 4 [5; 3; 0xFFFFFFFF; 70000]) =
    unlanes 4 (map _zigzag_encode_32 [5; 3; 0xFFFFFFFF; 70000]) /\
  _mm_delta_encode_epi32 (unlanes 4 [5; 3; 0xFFFFFFFF; 70000]) (unlanes 4 [0; 0; 0; 42]) =
    unlanes 4 (deltas _delta_encode_32 42 [5; 3; 0xFFFFFFFF; 70000]) /\
  _mm_delta_zigzag_encode_epi32 (unlanes 4 [5; 3; 0xFFFFFFFF; 70000])
      (unlanes 4 [0; 0; 0; 42]) =
    unlanes 4 (deltas _delta_zigzag_encode_32 42 [5; 3; 0xFFFFFFFF; 70000]).
Proof.
  apply (vector_encode_filters_by_lane 5 3 0xFFFFFFFF 70000 42 (unlanes 4 [0; 0; 0; 42]));
    try (unfold is_u32; lia).
  apply top_lane_unlanes.
Defined.

(** The running sums of [_delta_decode_32] from the anchor [p]. *)
Lemma delta_decode_chain a0 a1 a2 a3 p :
  (let s0 := _delta_decode_32 a0 p in
   let s1 := _delta_decode_32 a1 s0 in
   let s2 := _delta_decode_32 a2 s1 in
   let s3 := _delta_decode_32 a3 s2 in
   [s0; s1; s2; s3]) =
  [u32 (p + a0); u32 (p + a0 + a1); u32 (p + a0 + a1 + a2); u32 (p + a0 + a1 + a2 + a3)].
Proof.
  cbv zeta. unfold _delta_decode_32, u32.
  repeat (apply f_equal2; [Z.div_mod_to_equations; lia|]). reflexivity.
Qed.

(** X4. The vector decoding filters: zigzag decoding of each lane, and
    the prefix sums of the lanes started from the top lane of [prev],
    each reduced to 32 bits. *)
Theorem vector_decode_filters_by_lane (a0 a1 a2 a3 p : Z) (prev : m128) :
  is_u32 a0 -> is_u32 a1 -> is_u32 a2 -> is_u32 a3 -> is_u32 p -> top_lane prev p ->
  let v := unlanes 4 [a0; a1; a2; a3] in
  _mm_zigzag_decode_epi32 v =
    unlanes 4 (map _zigzag_decode_32 [a0; a1; a2; a3]) /\
  _mm_delta_decode_epi32 v prev =
    unlanes 4 [u32 (p + a0); u32 (p + a0 + a1); u32 (p + a0 + a1 + a2);
               u32 (p + a0 + a1 + a2 + a3)].
Proof.
  intros H0 H1 H2 H3 Hp Ht. cbv zeta. cbn [map]. split.
  - now apply zigzag_decode_epi32_lanes.
  - rewrite (delta_decode_epi32_lanes a0 a1 a2 a3 prev p) by assumption.
    cbv zeta. f_equal. apply (delta_decode_chain a0 a1 a2 a3 p).
Qed.

Lemma vector_decode_filters_by_lane_witness :
  _mm_zigzag_decode_epi32 (unlanes 4 [5; 3; 0xFFFFFFFF; 70000]) =
    unlanes 4 (map _zigzag_decode_32 [5; 3; 0xFFFFFFFF; 70000]) /\
  _mm_delta_decode_epi32 (unlanes 4 [5; 3; 0xFFFFFFFF; 70000]) (unlanes 4 [0; 0; 0; 42]) =
    unlanes 4 [u32 (42 + 5); u32 (42 + 5 + 3); u32 (42 + 5 + 3 + 0xFFFFFFFF);
               u32 (42 + 5 + 3 + 0xFFFFFFFF + 70000)].
Proof.
  apply (vector_decode_filters_by_lane 5 3 0xFFFFFFFF 70000 42 (unlanes 4 [0; 0; 0; 42]));
    try (unfold is_u32; lia).
  apply top_lane_unlanes.
Defined.

(** X5. On a register of four 32-bit lanes, each vector decoding filter
    undoes its encoding filter, for the same [prev]. *)
Theorem vector_filters_invert (a0 a1 a2 a3 p : Z) (prev : m128) :
  is_u32 a0 -> is_u32 a1 -> is_u32 a2 -> is_u32 a3 -> is_u32 p -> top_lane prev p ->
  let v := unlanes 4 [a0; a1; a2; a3] in
  _mm_zigzag_decode_epi32 (_mm_zigzag_encode_epi32 v) = v /\
  _mm_delta_decode_epi32 (_mm_delta_encode_epi32 v prev) prev = v /\
  _mm_delta_zigzag_decode_epi32 (_mm_delta_zigzag_encode_epi32 v prev) prev = v.
Proof.
  intros H0 H1 H2 H3 Hp Ht. cbv zeta.
  assert (D : _mm_delta_decode_epi32 (_mm_delta_encode_epi32 (unlanes 4 [a0; a1; a2; a3]) prev)
                prev = unlanes 4 [a0; a1; a2; a3]).
  { rewrite (delta_encode_epi32_lanes a0 a1 a2 a3 prev p) by assumption.
    rewrite (delta_decode_epi32_lanes _ _ _ _ prev p)
      by (try apply delta_encode_range; assumption).
    cbv zeta. now rewrite !delta_roundtrip by assumption. }
  assert (Z : forall b0 b1 b2 b3, is_u32 b0 -> is_u32 b1 -> is_u32 b2 -> is_u32 b3 ->
            _mm_zigzag_decode_epi32 (_mm_zigzag_encode_epi32 (unlanes 4 [b0; b1; b2; b3])) =
            unlanes 4 [b0; b1; b2; b3]).
  { intros b0 b1 b2 b3 B0 B1 B2 B3.
    rewrite zigzag_encode_epi32_lanes by assumption.
    rewrite zigzag_decode_epi32_lanes by (now apply zigzag_encode_range).
    now rewrite !zigzag_roundtrip by assumption. }
  split; [|split].
  - now apply Z.
  - exact D.
  - unfold _mm_delta_zigzag_decode_epi32, _mm_delta_zigzag_encode_epi32.
    rewrite (delta_encode_epi32_lanes a0 a1 a2 a3 prev p) by assumption.
    rewrite Z by apply delta_encode_range.
    rewrite <- (delta_encode_epi32_lanes a0 a1 a2 a3 prev p) by assumption.
    exact D.
Qed.

Lemma vector_filters_invert_witness :
  _mm_zigzag_decode_epi32 (_mm_zigzag_encode_epi32 (unlanes 4 [5; 3; 0xFFFFFFFF; 70000])) =
    unlanes 4 [5; 3; 0xFFFFFFFF; 70000] /\
  _mm_delta_decode_epi32
    (_mm_delta_encode_epi32 (unlanes 4 [5; 3; 0xFFFFFFFF; 70000]) (unlanes 4 [0; 0; 0; 42]))
    (unlanes 4 [0; 0; 0; 42]) = unlanes 4 [5; 3; 0xFFFFFFFF; 70000] /\
  _mm_delta_zigzag_decode_epi32
    (_mm_delta_zigzag_encode_epi32 (unlanes 4 [5; 3; 0xFFFFFFFF; 70000])
       (unlanes 4 [0; 0; 0; 42]))
    (unlanes 4 [0; 0; 0; 42]) = unlanes 4 [5; 3; 0xFFFFFFFF; 70000].
Proof.
  apply (vector_filters_invert 5 3 0xFFFFFFFF 70000 42 (unlanes 4 [0; 0; 0; 42]));
    try (unfold is_u32; lia).
  apply top_lane_unlanes.
Defined.

(** X6. [SVB_TRANSPOSE] transposes the 4x4 matrix of 32-bit lanes of
    its four rows, and applying it to its own result gives the rows
    back. *)
Theorem SVB_TRANSPOSE_involutive
    (a0 a1 a2 a3 b0 b1 b2 b3 c0 c1 c2 c3 d0 d1 d2 d3 : Z) :
  let r0 := unlanes 4 [a0; a1; a2; a3] in
  let r1 := unlanes 4 [b0; b1; b2; b3] in
  let r2 := unlanes 4 [c0; c1; c2; c3] in
  let r3 := unlanes 4 [d0; d1; d2; d3] in
  SVB_TRANSPOSE r0 r1 r2 r3 =
    (unlanes 4 [a0; b0; c0; d0], unlanes 4 [a1; b1; c1; d1],
     unlanes 4 [a2; b2; c2; d2], unlanes 4 [a3; b3; c3; d3]) /\
  (let '(t0, t1, t2, t3) := SVB_TRANSPOSE r0 r1 r2 r3 in SVB_TRANSPOSE t0 t1 t2 t3) =
    (r0, r1, r2, r3).
Proof.
  cbv zeta. rewrite SVB_TRANSPOSE_lanes. split; [reflexivity|].
  apply SVB_TRANSPOSE_lanes.
Qed.

(** X7. The unaligned accessors: a 16-bit or 32-bit store followed by a
    load of the same width at the same address yields the stored value
    reduced to that width, and the store changes no byte outside the
    two or four it covers. *)
Theorem unaligned_store_then_load (m : mem) (p v q : Z) :
  svb_loadu_u16 (svb_storeu_u16 m p v) p = u16 v /\
  svb_loadu_u32 (svb_storeu_u32 m p v) p = u32 v /\
  (q < p \/ p + 2 <= q -> svb_storeu_u16 m p v q = m q) /\
  (q < p \/ p + 4 <= q -> svb_storeu_u32 m p v q = m q).
Proof.
  unfold svb_loadu_u16, svb_loadu_u32, svb_storeu_u16, svb_storeu_u32.
  split; [|split; [|split]].
  - rewrite <- (le_bytes_length 2 v) at 2. rewrite load_store_bytes.
    now rewrite le_value_bytes.
  - rewrite <- (le_bytes_length 4 v) at 2. rewrite load_store_bytes.
    now rewrite le_value_bytes.
  - intros H. apply store_bytes_out. rewrite le_bytes_length. lia.
  - intros H. apply store_bytes_out. rewrite le_bytes_length. lia.
Qed.

Lemma unaligned_store_then_load_witness :
  svb_loadu_u16 (svb_storeu_u16 (fun _ => 0xFE) 10 0x12345) 10 = u16 0x12345 /\
  svb_loadu_u32 (svb_storeu_u32 (fun _ => 0xFE) 10 0x123456789) 10 = u32 0x123456789 /\
  svb_storeu_u16 (fun _ => 0xFE) 10 0x12345 12 = 0xFE /\
  svb_storeu_u32 (fun _ => 0xFE) 10 0x123456789 14 = 0xFE.
Proof.
  destruct (unaligned_store_then_load (fun _ => 0xFE) 10 0x12345 12) as (A & _ & C & _).
  destruct (unaligned_store_then_load (fun _ => 0xFE) 10 0x123456789 14) as (_ & B & _ & D).
  split; [exact A|split; [exact B|split]].
  - apply C. right. lia.
  - apply D. right. lia.
Defined.

(** ** The 32-bit encoders *)

(** X8. What every encoder writes: the key block of the filter outputs,
    four 2-bit keys per byte, followed at once by their payloads, and the
    returned pointer is the end of that stream.  This holds for both
    builds of the ten variants, for the [dt] variants of the SSE4.1 build
    as long as the key block length fits their 32-bit variable. *)
Theorem svb_encoder_writes_stream (b : build) (f : format) (flt : filter)
    (undef : m128) (inp : list Z) (out : mem) (previous : Z) :
  Forall is_u32 inp -> is_u32 previous -> length undef = 16%nat ->
  Z.of_nat (length inp) < 2 ^ 64 - 3 ->
  (b = X64 -> flt = DeltaTranspose -> Z.of_nat (length inp) < 2 ^ 34 - 3) ->
  let r := encode b f flt undef inp (Z.of_nat (length inp)) out previous in
  let vs := filtered flt previous inp in
  fst r = Z.of_nat (length (Format.stream f vs)) /\
  load_bytes (snd r) 0 (length (Format.stream f vs)) =
    key_block f vs ++ data_block f vs.
Proof.
  intros Hin Hp Hu Hn Hdt. cbv zeta.
  destruct (encode_stream b f flt undef inp out previous Hin Hp Hu Hn Hdt) as [E H].
  split; [exact E|exact H].
Qed.

Lemma svb_encoder_writes_stream_witness :
  fst (encode X64 F0124 DeltaZigzag (repeat 0 16) [100; 99; 99; 70000; 0] 5
         (fun _ => 0xFE) 42) =
    Z.of_nat (length (Format.stream F0124 (filtered DeltaZigzag 42 [100; 99; 99; 70000; 0]))) /\
  load_bytes
    (snd (encode X64 F0124 DeltaZigzag (repeat 0 16) [100; 99; 99; 70000; 0] 5
            (fun _ => 0xFE) 42)) 0
    (length (Format.stream F0124 (filtered DeltaZigzag 42 [100; 99; 99; 70000; 0]))) =
  key_block F0124 (filtered DeltaZigzag 42 [100; 99; 99; 70000; 0]) ++
  data_block F0124 (filtered DeltaZigzag 42 [100; 99; 99; 70000; 0]).
Proof.
  apply (svb_encoder_writes_stream X64 F0124 DeltaZigzag (repeat 0 16)
           [100; 99; 99; 70000; 0] (fun _ => 0xFE) 42).
  - apply is_u32_list. reflexivity.
  - unfold is_u32. lia.
  - reflexivity.
  - reflexivity.
  - intros _ H. discriminate H.
Defined.

Lemma sum_len_1234_lower vs : Z.of_nat (length vs) <= sum (map (len F1234) vs).
Proof.
  unfold sum. induction vs as [|v r IH]; [reflexivity|].
  cbn [length map fold_right].
  assert (1 <= len F1234 v).
  { unfold len, width. pose proof (key_range F1234 v). lia. }
  lia.
Qed.

(** X9. The length an encoder returns is at most
    [streamvbyte_compress_bound], for both builds of the ten variants,
    whenever that bound does not wrap; and it is at least the key block
    length (plus one byte per element in the 1234 format, where every
    element has a payload), for the [dt] variants of the SSE4.1 build
    as long as the key block length fits their 32-bit variable. *)
Theorem svb_encoded_length_bounds (b : build) (f : format) (flt : filter)
    (undef : m128) (inp : list Z) (out : mem) (previous : Z) :
  Forall is_u32 inp -> is_u32 previous -> length undef = 16%nat ->
  key_block_len (Z.of_nat (length inp)) + 4 * Z.of_nat (length inp) < 2 ^ 64 ->
  let n := Z.of_nat (length inp) in
  let r := encode b f flt undef inp n out previous in
  fst r <= streamvbyte_compress_bound n /\
  ((b = X64 -> flt = DeltaTranspose -> n < 2 ^ 34 - 3) ->
   _svb_key_block_len n + (match f with F1234 => n | F0124 => 0 end) <= fst r).
Proof.
  intros Hin Hp Hu Hn. cbv zeta.
  assert (K0 : 0 <= key_block_len (Z.of_nat (length inp)))
    by (unfold key_block_len; apply Z.div_pos; lia).
  assert (Hn' : Z.of_nat (length inp) < 2 ^ 64 - 3) by (pow2_consts; lia).
  rewrite (encode_length b f flt undef inp out previous Hin Hp Hu Hn').
  pose proof (data_start_le b flt (Z.of_nat (length inp)) ltac:(lia)) as D.
  pose proof (sum_len_bounds f (filter_values flt previous inp)) as S0.
  pose proof (sum_len_1234_lower (filter_values flt previous inp)) as S1.
  rewrite filter_values_length in S0, S1.
  split.
  - rewrite compress_bound_eq by lia. lia.
  - intros Hdt. rewrite data_start_eq by (auto; lia).
    rewrite key_block_len_eq by lia.
    destruct f; lia.
Qed.

Lemma svb_encoded_length_bounds_witness :
  fst (encode X64 F1234 DeltaTranspose (repeat 0 16) [100; 99; 99; 70000; 0] 5
         (fun _ => 0xFE) 42) <= streamvbyte_compress_bound 5 /\
  _svb_key_block_len 5 + 5 <=
    fst (encode X64 F1234 DeltaTranspose (repeat 0 16) [100; 99; 99; 70000; 0] 5
           (fun _ => 0xFE) 42).
Proof.
  destruct (svb_encoded_length_bounds X64 F1234 DeltaTranspose (repeat 0 16)
              [100; 99; 99; 70000; 0] (fun _ => 0xFE) 42) as [U L].
  - apply is_u32_list. reflexivity.
  - unfold is_u32. lia.
  - reflexivity.
  - reflexivity.
  - split; [exact U|]. apply L. intros _ _. reflexivity.
Defined.

(** X10. The SSE4.1 build and the portable build of a variant return the
    same length and leave the same bytes in the stream, whatever the two
    buffers held before. *)
Theorem x64_and_generic_agree (f : format) (flt : filter) (undef : m128)
    (inp : list Z) (out1 out2 : mem) (previous p : Z) :
  Forall is_u32 inp -> is_u32 previous -> length undef = 16%nat ->
  Z.of_nat (length inp) < 2 ^ 62 ->
  (flt = DeltaTranspose -> Z.of_nat (length inp) < 2 ^ 34 - 3) ->
  0 <= p < fst (encode X64 f flt undef inp (Z.of_nat (length inp)) out1 previous) ->
  fst (encode X64 f flt undef inp (Z.of_nat (length inp)) out1 previous) =
    fst (encode Generic f flt undef inp (Z.of_nat (length inp)) out2 previous) /\
  snd (encode X64 f flt undef inp (Z.of_nat (length inp)) out1 previous) p =
    snd (encode Generic f flt undef inp (Z.of_nat (length inp)) out2 previous) p.
Proof.
  intros Hin Hp Hu Hn Hdt Hr.
  pose proof (builds_agree f flt undef inp out1 out2 previous p Hin Hp Hu Hn Hdt) as B.
  cbv zeta in B. destruct B as [E A]. split; [exact E|exact (A Hr)].
Qed.

Lemma x64_and_generic_agree_witness :
  fst (encode X64 F1234 DeltaTranspose (repeat 0 16) [100; 99; 99; 70000; 0] 5
         (fun _ => 0xFE) 42) =
    fst (encode Generic F1234 DeltaTranspose (repeat 0 16) [100; 99; 99; 70000; 0] 5
           (fun _ => 0xFD) 42) /\
  snd (encode X64 F1234 DeltaTranspose (repeat 0 16) [100; 99; 99; 70000; 0] 5
         (fun _ => 0xFE) 42) 3 =
    snd (encode Generic F1234 DeltaTranspose (repeat 0 16) [100; 99; 99; 70000; 0] 5
           (fun _ => 0xFD) 42) 3.
Proof.
  apply (x64_and_generic_agree F1234 DeltaTranspose (repeat 0 16)
           [100; 99; 99; 70000; 0] (fun _ => 0xFE) (fun _ => 0xFD) 42 3).
  - apply is_u32_list. reflexivity.
  - unfold is_u32. lia.
  - reflexivity.
  - reflexivity.
  - intros _. reflexivity.
  - vm_compute. split; [discriminate|reflexivity].
Defined.

(** X11. The stream does not depend on what the output buffer held, nor
    on the uninitialised register the delta variants of the SSE4.1 build
    insert the anchor into. *)
Theorem svb_stream_ignores_prior_state (b : build) (f : format) (flt : filter)
    (undef1 undef2 : m128) (inp : list Z) (out1 out2 : mem) (previous p : Z) :
  Forall is_u32 inp -> is_u32 previous ->
  length undef1 = 16%nat -> length undef2 = 16%nat ->
  Z.of_nat (length inp) < 2 ^ 64 - 3 ->
  0 <= p < fst (encode b f flt undef1 inp (Z.of_nat (length inp)) out1 previous) ->
  fst (encode b f flt undef1 inp (Z.of_nat (length inp)) out1 previous) =
    fst (encode b f flt undef2 inp (Z.of_nat (length inp)) out2 previous) /\
  snd (encode b f flt undef1 inp (Z.of_nat (length inp)) out1 previous) p =
    snd (encode b f flt undef2 inp (Z.of_nat (length inp)) out2 previous) p.
Proof.
  intros Hin Hp Hu1 Hu2 Hn Hr.
  pose proof (encode_agree b f flt undef1 undef2 inp out1 out2 previous p
                Hin Hp Hu1 Hu2 Hn) as B.
  cbv zeta in B. destruct B as [E A]. split; [exact E|exact (A Hr)].
Qed.

Lemma svb_stream_ignores_prior_state_witness :
  fst (encode X64 F1234 Delta (repeat 0 16) [100; 99; 99; 70000; 0] 5
         (fun _ => 0xFE) 42) =
    fst (encode X64 F1234 Delta (repeat 0xAB 16) [100; 99; 99; 70000; 0] 5
           (fun _ => 0xFD) 42) /\
  snd (encode X64 F1234 Delta (repeat 0 16) [100; 99; 99; 70000; 0] 5
         (fun _ => 0xFE) 42) 3 =
    snd (encode X64 F1234 Delta (repeat 0xAB 16) [100; 99; 99; 70000; 0] 5
           (fun _ => 0xFD) 42) 3.
Proof.
  apply (svb_stream_ignores_prior_state X64 F1234 Delta (repeat 0 16) (repeat 0xAB 16)
           [100; 99; 99; 70000; 0] (fun _ => 0xFE) (fun _ => 0xFD) 42 3).
  - apply is_u32_list. reflexivity.
  - unfold is_u32. lia.
  - reflexivity.
  - reflexivity.
  - reflexivity.
  - vm_compute. split; [discriminate|reflexivity].
Defined.

(** X12. With a count of zero every encoder, and [short_enc] and
    [short_dec], returns the pointer it was given and stores nothing;
    the input array is not looked at. *)
Theorem zero_count_stores_nothing (b : build) (f : format) (flt : filter)
    (undef : m128) (inp : list Z) (out inm : mem) (previous : Z) :
  encode b f flt undef inp 0 out previous = (0, out) /\
  Short.short_enc out inp 0 = (0, out) /\
  Short.short_dec out inm 0 = (0, out).
Proof.
  split; [destruct b, f, flt; reflexivity|split; reflexivity].
Qed.

(** X13. One use of [SVB1_ENCODE8] or [SVB0_ENCODE8] on eight values,
    with the key pointer at least two bytes below the data pointer:
    the key pointer moves by two and the data pointer by the widths of
    the eight values; the two key bytes and the payloads are in place;
    and no byte is touched outside the two key bytes and the 32 bytes
    from the old data pointer. *)
Theorem group_encoder_stores (f : format) (c : cursor) (v0 v1 v2 v3 v4 v5 v6 v7 p : Z) :
  is_u32 v0 -> is_u32 v1 -> is_u32 v2 -> is_u32 v3 ->
  is_u32 v4 -> is_u32 v5 -> is_u32 v6 -> is_u32 v7 ->
  key_ptr c + 2 <= data_ptr c ->
  let vs := [v0; v1; v2; v3; v4; v5; v6; v7] in
  let c' := (match f with
             | F1234 => Svb1.SVB1_ENCODE8
             | F0124 => Svb0.SVB0_ENCODE8
             end) c (unlanes 4 [v0; v1; v2; v3]) (unlanes 4 [v4; v5; v6; v7]) in
  key_ptr c' = key_ptr c + 2 /\
  data_ptr c' = data_ptr c + sum (map (len f) vs) /\
  load_bytes (buf c') (key_ptr c) 2 = key_block f vs /\
  load_bytes (buf c') (data_ptr c) (length (data_block f vs)) = data_block f vs /\
  ((p < key_ptr c \/ key_ptr c + 2 <= p) -> (p < data_ptr c \/ data_ptr c + 32 <= p) ->
   buf c' p = buf c p).
Proof.
  intros H0 H1 H2 H3 H4 H5 H6 H7 Hs. cbv zeta.
  assert (Ec : forall a b,
            (match f with
             | F1234 => Svb1.SVB1_ENCODE8
             | F0124 => Svb0.SVB0_ENCODE8
             end) c a b = run_events (e8 f a b) c).
  { intros a b. destruct f; [apply SVB1_ENCODE8_events|apply SVB0_ENCODE8_events]. }
  rewrite Ec. clear Ec.
  set (vs := [v0; v1; v2; v3; v4; v5; v6; v7]).
  set (es := e8 f (unlanes 4 [v0; v1; v2; v3]) (unlanes 4 [v4; v5; v6; v7])).
  pose proof (e8_values f v0 v1 v2 v3 v4 v5 v6 v7 H0 H1 H2 H3 H4 H5 H6 H7) as En.
  fold es vs in En.
  pose proof (encodes_adv f es vs En) as A.
  destruct En as (W & D & K & S).
  assert (LK : length (keys_of es) = 2%nat).
  { rewrite K. apply Nat2Z.inj. rewrite key_block_length. reflexivity. }
  destruct (run_events_content es c W) as [Hk Hd]; [rewrite LK; lia|].
  split; [|split; [|split; [|split]]].
  - rewrite run_events_key_ptr, LK. reflexivity.
  - rewrite run_events_data_ptr, A. reflexivity.
  - unfold holds in Hk. rewrite LK, K in Hk. exact Hk.
  - unfold holds in Hd. rewrite D in Hd. exact Hd.
  - intros Pk Pd. apply run_events_frame; [exact W|rewrite LK; lia|].
    change (Z.of_nat (length vs)) with 8 in S. lia.
Qed.

Lemma group_encoder_stores_witness :
  key_ptr (Svb0.SVB0_ENCODE8 (Cursor 0 2 (fun _ => 0xFE))
             (unlanes 4 [0; 1; 256; 65536]) (unlanes 4 [16777216; 0; 255; 65535])) = 0 + 2 /\
  data_ptr (Svb0.SVB0_ENCODE8 (Cursor 0 2 (fun _ => 0xFE))
              (unlanes 4 [0; 1; 256; 65536]) (unlanes 4 [16777216; 0; 255; 65535])) =
    2 + sum (map (len F0124) [0; 1; 256; 65536; 16777216; 0; 255; 65535]) /\
  load_bytes (buf (Svb0.SVB0_ENCODE8 (Cursor 0 2 (fun _ => 0xFE))
                     (unlanes 4 [0; 1; 256; 65536]) (unlanes 4 [16777216; 0; 255; 65535])))
    0 2 = key_block F0124 [0; 1; 256; 65536; 16777216; 0; 255; 65535] /\
  load_bytes (buf (Svb0.SVB0_ENCODE8 (Cursor 0 2 (fun _ => 0xFE))
                     (unlanes 4 [0; 1; 256; 65536]) (unlanes 4 [16777216; 0; 255; 65535])))
    2 (length (data_block F0124 [0; 1; 256; 65536; 16777216; 0; 255; 65535])) =
    data_block F0124 [0; 1; 256; 65536; 16777216; 0; 255; 65535] /\
  buf (Svb0.SVB0_ENCODE8 (Cursor 0 2 (fun _ => 0xFE))
         (unlanes 4 [0; 1; 256; 65536]) (unlanes 4 [16777216; 0; 255; 65535])) 34 = 0xFE.
Proof.
  destruct (group_encoder_stores F0124 (Cursor 0 2 (fun _ => 0xFE))
              0 1 256 65536 16777216 0 255 65535 34) as (A & B & C & D & E);
    try (unfold is_u32; lia); [cbn [key_ptr data_ptr]; lia|].
  split; [exact A|split; [exact B|split; [exact C|split; [exact D|]]]].
  apply E; cbn [key_ptr data_ptr]; right; lia.
Defined.

Lemma last_cons_anchor (v : Z) : forall r p, last (v :: r) p = last r v.
Proof.
  intros r. revert v. induction r as [|w r IH]; intros v p; [reflexivity|].
  change (last (v :: w :: r) p) with (last (w :: r) p).
  rewrite (IH w p). symmetry. apply IH.
Qed.

Lemma deltas_app sf : forall a c p,
  deltas sf p (a ++ c) = deltas sf p a ++ deltas sf (last a p) c.
Proof.
  induction a as [|v r IH]; intros c p; [reflexivity|].
  cbn [app deltas]. rewrite IH, last_cons_anchor. reflexivity.
Qed.

Lemma filtered_app flt a c p : flt <> DeltaTranspose ->
  filtered flt p (a ++ c) = filtered flt p a ++ filtered flt (last a p) c.
Proof.
  intros H. destruct flt; unfold filtered; try contradiction.
  - reflexivity.
  - apply map_app.
  - apply deltas_app.
  - apply deltas_app.
Qed.

Lemma last_is_u32 : forall a p, Forall is_u32 a -> is_u32 p -> is_u32 (last a p).
Proof.
  induction a as [|v r IH]; intros p Ha Hp; [exact Hp|].
  inversion Ha as [|? ? Hv Hr]; subst.
  rewrite last_cons_anchor. now apply IH.
Qed.

(** X14. Encoding in two calls: when the first piece has a multiple of
    four elements and the second call is given the last element of the
    first piece as its anchor, the stream of the whole array is made of
    the two key blocks followed by the two data blocks, and its length
    is the sum of the two lengths (every variant but [dt]). *)
Theorem encoding_in_pieces (b : build) (f : format) (flt : filter) (undef : m128)
    (a c : list Z) (out0 out1 out2 : mem) (previous : Z) (j : nat) :
  flt <> DeltaTranspose ->
  Forall is_u32 a -> Forall is_u32 c -> is_u32 previous -> length undef = 16%nat ->
  length a = (j * 4)%nat ->
  Z.of_nat (length (a ++ c)) < 2 ^ 64 - 3 ->
  let whole := encode b f flt undef (a ++ c) (Z.of_nat (length (a ++ c))) out0 previous in
  let first := encode b f flt undef a (Z.of_nat (length a)) out1 previous in
  let second := encode b f flt undef c (Z.of_nat (length c)) out2 (last a previous) in
  let ka := _svb_key_block_len (Z.of_nat (length a)) in
  let kc := _svb_key_block_len (Z.of_nat (length c)) in
  fst whole = fst first + fst second /\
  load_bytes (snd whole) 0 (Z.to_nat (fst whole)) =
    load_bytes (snd first) 0 (Z.to_nat ka) ++
    load_bytes (snd second) 0 (Z.to_nat kc) ++
    load_bytes (snd first) ka (Z.to_nat (fst first - ka)) ++
    load_bytes (snd second) kc (Z.to_nat (fst second - kc)).
Proof.
  intros Hf Ha Hc Hp Hu Hj Hn. cbv zeta.
  assert (Hac : Forall is_u32 (a ++ c)) by (apply Forall_app; auto).
  pose proof (last_is_u32 a previous Ha Hp) as Hl.
  rewrite length_app, Nat2Z.inj_add in Hn.
  assert (Hna : Z.of_nat (length a) < 2 ^ 64 - 3) by lia.
  assert (Hnc : Z.of_nat (length c) < 2 ^ 64 - 3) by lia.
  assert (Hn' : Z.of_nat (length (a ++ c)) < 2 ^ 64 - 3)
    by (rewrite length_app, Nat2Z.inj_add; lia).
  assert (Hdt : forall n, b = X64 -> flt = DeltaTranspose -> n < 2 ^ 34 - 3)
    by (intros n _ E; contradiction).
  destruct (encode_stream b f flt undef (a ++ c) out0 previous Hac Hp Hu Hn' (Hdt _))
    as [E0 H0].
  destruct (encode_stream b f flt undef a out1 previous Ha Hp Hu Hna (Hdt _)) as [E1 H1].
  destruct (encode_stream b f flt undef c out2 (last a previous) Hc Hl Hu Hnc (Hdt _))
    as [E2 H2].
  set (whole := encode b f flt undef (a ++ c) (Z.of_nat (length (a ++ c))) out0 previous)
    in *.
  clearbody whole.
  rewrite (filtered_app flt a c previous Hf) in E0, H0.
  set (fa := filtered flt previous a) in *.
  set (fc := filtered flt (last a previous) c) in *.
  assert (Lfa : length fa = (j * 4)%nat) by (unfold fa; now rewrite filtered_length).
  unfold Format.stream in *.
  rewrite (key_block_app f fa fc j Lfa), data_block_app in E0, H0.
  rewrite !key_block_len_eq by lia.
  assert (Ka : key_block_len (Z.of_nat (length a)) = Z.of_nat (length (key_block f fa))).
  { rewrite key_block_length. unfold fa. now rewrite filtered_length. }
  assert (Kc : key_block_len (Z.of_nat (length c)) = Z.of_nat (length (key_block f fc))).
  { rewrite key_block_length. unfold fc. now rewrite filtered_length. }
  rewrite Ka, Kc, E0, E1, E2. rewrite !length_app, !Nat2Z.inj_add.
  split; [lia|].
  apply holds_app in H1. destruct H1 as [H1k H1d].
  apply holds_app in H2. destruct H2 as [H2k H2d].
  rewrite Z.add_0_l in H1d, H2d.
  unfold holds in H0, H1k, H1d, H2k, H2d.
  rewrite !Nat2Z.id.
  replace (Z.to_nat (Z.of_nat (length (key_block f fa)) + Z.of_nat (length (data_block f fa)) -
                     Z.of_nat (length (key_block f fa))))
    with (length (data_block f fa)) by lia.
  replace (Z.to_nat (Z.of_nat (length (key_block f fc)) + Z.of_nat (length (data_block f fc)) -
                     Z.of_nat (length (key_block f fc))))
    with (length (data_block f fc)) by lia.
  rewrite H1k, H1d, H2k, H2d.
  rewrite (app_assoc (key_block f fa)).
  rewrite <- H0 at 1. f_equal.
  rewrite !length_app. lia.
Qed.

Lemma encoding_in_pieces_witness :
  fst (encode X64 F1234 Delta (repeat 0 16) ([100; 99; 99; 70000] ++ [0; 5]) 6
         (fun _ => 0xFE) 42) =
    fst (encode X64 F1234 Delta (repeat 0 16) [100; 99; 99; 70000] 4 (fun _ => 0xFD) 42) +
    fst (encode X64 F1234 Delta (repeat 0 16) [0; 5] 2 (fun _ => 0xFC)
           (last [100; 99; 99; 70000] 42)) /\
  load_bytes
    (snd (encode X64 F1234 Delta (repeat 0 16) ([100; 99; 99; 70000] ++ [0; 5]) 6
            (fun _ => 0xFE) 42)) 0
    (Z.to_nat (fst (encode X64 F1234 Delta (repeat 0 16) ([100; 99; 99; 70000] ++ [0; 5]) 6
                      (fun _ => 0xFE) 42))) =
  load_bytes
    (snd (encode X64 F1234 Delta (repeat 0 16) [100; 99; 99; 70000] 4 (fun _ => 0xFD) 42))
    0 (Z.to_nat (_svb_key_block_len 4)) ++
  load_bytes
    (snd (encode X64 F1234 Delta (repeat 0 16) [0; 5] 2 (fun _ => 0xFC)
            (last [100; 99; 99; 70000] 42)))
    0 (Z.to_nat (_svb_key_block_len 2)) ++
  load_bytes
    (snd (encode X64 F1234 Delta (repeat 0 16) [100; 99; 99; 70000] 4 (fun _ => 0xFD) 42))
    (_svb_key_block_len 4)
    (Z.to_nat
       (fst (encode X64 F1234 Delta (repeat 0 16) [100; 99; 99; 70000] 4 (fun _ => 0xFD) 42) -
        _svb_key_block_len 4)) ++
  load_bytes
    (snd (encode X64 F1234 Delta (repeat 0 16) [0; 5] 2 (fun _ => 0xFC)
            (last [100; 99; 99; 70000] 42)))
    (_svb_key_block_len 2)
    (Z.to_nat
       (fst (encode X64 F1234 Delta (repeat 0 16) [0; 5] 2 (fun _ => 0xFC)
               (last [100; 99; 99; 70000] 42)) -
        _svb_key_block_len 2)).
Proof.
  apply (encoding_in_pieces X64 F1234 Delta (repeat 0 16) [100; 99; 99; 70000] [0; 5]
           (fun _ => 0xFE) (fun _ => 0xFD) (fun _ => 0xFC) 42 1).
  - discriminate.
  - apply is_u32_list. reflexivity.
  - apply is_u32_list. reflexivity.
  - unfold is_u32. lia.
  - reflexivity.
  - reflexivity.
  - reflexivity.
Defined.

(** X15. No encoder stores below the start of the output buffer: every
    byte at a negative offset from [out] is after the call what it was
    before, for both builds of the ten variants and for [short_enc]. *)
Theorem no_store_below_start (b : build) (f : format) (flt : filter) (undef : m128)
    (inp inp16 : list Z) (out : mem) (previous p : Z) :
  Forall is_u32 inp -> is_u32 previous -> length undef = 16%nat ->
  Z.of_nat (length inp) < 2 ^ 64 - 3 ->
  Forall is_u16 inp16 -> Z.of_nat (length inp16) < 2 ^ 64 - 7 ->
  p < 0 ->
  snd (encode b f flt undef inp (Z.of_nat (length inp)) out previous) p = out p /\
  snd (Short.short_enc out inp16 (Z.of_nat (length inp16))) p = out p.
Proof.
  intros Hin Hp Hu Hn Hin16 Hn16 Hneg. split.
  - rewrite (encode_run b f flt undef inp out previous Hin Hp Hu Hn). cbn [snd].
    destruct (events_encode b f flt previous inp Hin Hp) as (W & _ & _ & _).
    pose proof (data_start_le b flt (Z.of_nat (length inp)) ltac:(lia)) as D.
    rewrite run_events_frame; auto; left; cbn [key_ptr data_ptr]; lia.
  - rewrite short_enc_events by assumption. cbv zeta. cbn [snd].
    destruct (short_events_values (length inp16) inp16) as (W & _ & _ & _).
    assert (0 <= (Z.of_nat (length inp16) + 7) / 8) by (apply Z.div_pos; lia).
    rewrite run_events_frame; auto; left; cbn [key_ptr data_ptr]; lia.
Qed.

Lemma no_store_below_start_witness :
  snd (encode X64 F1234 DeltaTranspose (repeat 0 16) [100; 99; 99; 70000; 0] 5
         (fun _ => 0xFE) 42) (-1) = 0xFE /\
  snd (Short.short_enc (fun _ => 0xFE) [0; 0xFF; 0x100; 0xFFFF] 4) (-1) = 0xFE.
Proof.
  apply (no_store_below_start X64 F1234 DeltaTranspose (repeat 0 16)
           [100; 99; 99; 70000; 0] [0; 0xFF; 0x100; 0xFFFF] (fun _ => 0xFE) 42 (-1)).
  - apply is_u32_list. reflexivity.
  - unfold is_u32. lia.
  - reflexivity.
  - reflexivity.
  - repeat constructor; unfold is_u16; lia.
  - reflexivity.
  - reflexivity.
Defined.

(** ** The 16-bit codec *)

(** X16. What [short_enc] writes: the key bytes and then the data bytes
    of the format, full blocks of 64 elements laid out group by group and
    the rest element by element; the returned pointer is the end of that
    stream. *)
Theorem short_enc_writes_stream (out : mem) (inp : list Z) :
  Forall is_u16 inp ->
  Z.of_nat (length inp) < 2 ^ 64 - 7 ->
  let r := Short.short_enc out inp (Z.of_nat (length inp)) in
  fst r = Z.of_nat (length (ShortFormat.stream inp)) /\
  load_bytes (snd r) 0 (length (ShortFormat.stream inp)) =
    ShortFormat.keys (length inp) inp ++ ShortFormat.data (length inp) inp.
Proof.
  intros Hin Hn. cbv zeta.
  destruct (short_enc_stream out inp Hin Hn) as [E H].
  split; [exact E|exact H].
Qed.

Lemma short_enc_writes_stream_witness :
  fst (Short.short_enc (fun _ => 0xFE) [0; 0xFF; 0x100; 0xFFFF; 7; 0x8000] 6) =
    Z.of_nat (length (ShortFormat.stream [0; 0xFF; 0x100; 0xFFFF; 7; 0x8000])) /\
  load_bytes (snd (Short.short_enc (fun _ => 0xFE) [0; 0xFF; 0x100; 0xFFFF; 7; 0x8000] 6)) 0
    (length (ShortFormat.stream [0; 0xFF; 0x100; 0xFFFF; 7; 0x8000])) =
  ShortFormat.keys 6 [0; 0xFF; 0x100; 0xFFFF; 7; 0x8000] ++
  ShortFormat.data 6 [0; 0xFF; 0x100; 0xFFFF; 7; 0x8000].
Proof.
  apply (short_enc_writes_stream (fun _ => 0xFE) [0; 0xFF; 0x100; 0xFFFF; 7; 0x8000]).
  - repeat constructor; unfold is_u16; lia.
  - reflexivity.
Defined.

(** X17. [short_dec] on any buffer that holds the stream of an array,
    however it got there: it stores the array and returns the end of the
    stream. *)
Theorem short_dec_reads_stream (om inm : mem) (inp : list Z) :
  Forall is_u16 inp ->
  Z.of_nat (length inp) < 2 ^ 64 - 7 ->
  load_bytes inm 0 (length (ShortFormat.stream inp)) = ShortFormat.stream inp ->
  let r := Short.short_dec om inm (Z.of_nat (length inp)) in
  fst r = Z.of_nat (length (ShortFormat.stream inp)) /\
  Short.out_array (snd r) (length inp) = inp.
Proof.
  intros Hin Hn Hs. cbv zeta.
  rewrite (short_dec_stream om inm inp Hn Hs). cbn [fst snd].
  split; [reflexivity|now apply out_array_store].
Qed.

Lemma short_dec_reads_stream_witness :
  fst (Short.short_dec (fun _ => 0xFD)
         (store_bytes (fun _ => 0) 0 (ShortFormat.stream [0; 0xFF; 0x100; 0xFFFF])) 4) =
    Z.of_nat (length (ShortFormat.stream [0; 0xFF; 0x100; 0xFFFF])) /\
  Short.out_array
    (snd (Short.short_dec (fun _ => 0xFD)
            (store_bytes (fun _ => 0) 0 (ShortFormat.stream [0; 0xFF; 0x100; 0xFFFF])) 4))
    4 = [0; 0xFF; 0x100; 0xFFFF].
Proof.
  apply (short_dec_reads_stream (fun _ => 0xFD)
           (store_bytes (fun _ => 0) 0 (ShortFormat.stream [0; 0xFF; 0x100; 0xFFFF]))
           [0; 0xFF; 0x100; 0xFFFF]).
  - repeat constructor; unfold is_u16; lia.
  - reflexivity.
  - apply load_store_bytes.
Defined.

(** X18. [short_dec] stores nothing outside the [2N] bytes of the
    output array, whatever the input buffer holds (a stream of the
    format or not), although its block loop stores sixteen bytes at a
    time. *)
Theorem short_dec_stores_only_array (om inm : mem) (n p : Z) :
  0 <= n < 2 ^ 64 ->
  p < 0 \/ 2 * n <= p ->
  snd (Short.short_dec om inm n) p = om p.
Proof.
  intros Hn Hp. unfold Short.short_dec.
  set (ds := Z.shiftr (u64 (n + 7)) 3).
  set (k := Z.to_nat (n / 64)).
  assert (Hk : Z.of_nat k = n / 64) by (subst k; rewrite Z2Nat.id; [reflexivity|apply Z.div_pos; lia]).
  clearbody k.
  remember (n - 64 * Z.of_nat k) as r eqn:Er.
  assert (Hr : 0 <= r < 64) by (subst r; Z.div_mod_to_equations; lia).
  assert (S0 : exists in1 d1 om1,
            (if 64 <=? n
             then
               let '(in_, count, data, out, om0) :=
                 do_while (Z.to_nat n) (Short.dec_block inm)
                   (fun s => let '(_, count, _, _, _) := s in 64 <=? count)
                   (0, n, ds - 16, 0, om) in
               (in_, count, data + 16, out, om0)
             else (0, n, ds, 0, om)) = (in1, r, d1, 128 * Z.of_nat k, om1) /\
            forall q, q < 0 \/ 128 * Z.of_nat k <= q -> om1 q = om q).
  { destruct (Z.leb_spec 64 n) as [G|G].
    - destruct (dec_blocks_shape inm k 0 n (ds - 16) 0 om
                  ltac:(Z.div_mod_to_equations; lia)) as (d1 & m1 & E1 & F1).
      rewrite (do_while_iter _ _ k).
      + rewrite E1. exists (0 + 8 * Z.of_nat k), (d1 + 16), m1. split.
        * apply tuple5_eq; try reflexivity; lia.
        * intros q Hq. apply F1. lia.
      + Z.div_mod_to_equations. lia.
      + intros j Hj.
        destruct (dec_blocks_shape inm j 0 n (ds - 16) 0 om
                    ltac:(Z.div_mod_to_equations; lia)) as (dj & mj & Ej & _).
        rewrite Ej. apply Z.leb_le. Z.div_mod_to_equations. lia.
      + rewrite E1. apply Z.leb_gt. Z.div_mod_to_equations. lia.
    - assert (k = 0%nat) by (Z.div_mod_to_equations; lia). subst k.
      exists 0, ds, om. split; [|reflexivity].
      apply tuple5_eq; try reflexivity; lia. }
  destruct S0 as (in1 & d1 & om1 & S0 & F0).
  rewrite S0. clear S0. cbv beta iota zeta.
  match goal with
  | |- context [while ?fu ?cd ?bd ?s0] =>
      assert (W : while fu cd bd s0 = iter (Z.to_nat r) bd s0)
  end.
  { apply while_iter; [lia| |lia].
    intros j Hj.
    destruct (dec_tail_shape inm (128 * Z.of_nat k) in1 d1 om1 j ltac:(lia))
      as (K & i2 & d2 & m2 & T & _).
    cbv beta iota zeta in T. rewrite T. apply Z.ltb_lt. lia. }
  rewrite W. clear W.
  destruct (dec_tail_shape inm (128 * Z.of_nat k) in1 d1 om1 (Z.to_nat r) ltac:(lia))
    as (K & i2 & d2 & m2 & T & F).
  cbv beta iota zeta in T. rewrite T. cbn [snd].
  rewrite F by lia. apply F0. lia.
Qed.

Lemma short_dec_stores_only_array_witness :
  snd (Short.short_dec (fun _ => 0xFD) (fun a => a mod 251) 70) 140 = 0xFD.
Proof.
  apply (short_dec_stores_only_array (fun _ => 0xFD) (fun a => a mod 251) 70 140).
  - split; [lia|reflexivity].
  - right. lia.
Defined.

Lemma filter_hi_wide g :
  length (List.filter (fun h => negb (h =? 0)) (map hi g)) = length (List.filter wide g).
Proof.
  induction g as [|x g IH]; [reflexivity|].
  cbn [map List.filter]. unfold wide at 1.
  destruct (hi x =? 0); cbn [negb length]; now rewrite IH.
Qed.

Lemma tail_data_length t :
  length (tail_data t) = (length t + length (List.filter wide t))%nat.
Proof.
  unfold tail_data. induction t as [|x t IH]; [reflexivity|].
  cbn [flat_map List.filter]. rewrite length_app, IH.
  destruct (wide x); cbn [length]; lia.
Qed.

Lemma groups_data_length gs :
  length (flat_map group_data gs) =
  (length (concat gs) + length (List.filter wide (concat gs)))%nat.
Proof.
  induction gs as [|g gs IH]; [reflexivity|].
  cbn [flat_map concat].
  rewrite !length_app, IH, group_data_length, filter_hi_wide, filter_app, length_app. lia.
Qed.

Lemma short_data_length : forall fuel l,
  length (ShortFormat.data fuel l) = (length l + length (List.filter wide l))%nat.
Proof.
  induction fuel as [|fuel IH]; intros l; cbn [ShortFormat.data]; [apply tail_data_length|].
  destruct (Nat.leb_spec 64 (length l)) as [G|G]; [|apply tail_data_length].
  rewrite length_app, IH. unfold block_data. rewrite groups_data_length.
  rewrite concat_chunks8 by (rewrite length_firstn; lia).
  rewrite <- (firstn_skipn 64 l) at 5 6.
  rewrite filter_app, !length_app. lia.
Qed.

Lemma wide_u16 x : is_u16 x -> wide x = (256 <=? x).
Proof.
  intros H. unfold wide. rewrite hi_u16 by exact H. unfold is_u16 in H.
  destruct (Z.leb_spec 256 x), (Z.eqb_spec (x / 256) 0); cbn [negb];
    try reflexivity; exfalso; Z.div_mod_to_equations; lia.
Qed.

Lemma filter_wide_u16 l : Forall is_u16 l ->
  List.filter wide l = List.filter (fun x => 256 <=? x) l.
Proof.
  intros H. apply filter_ext_in. intros x Hx.
  apply wide_u16. rewrite Forall_forall in H. now apply H.
Qed.

(** X19. The length [short_enc] returns: one key bit per element,
    rounded up to bytes, one byte per element, and one more byte for
    every element above 255; it never exceeds
    [short_compress_bound]. *)
Theorem short_encoded_length (out : mem) (inp : list Z) :
  Forall is_u16 inp ->
  Z.of_nat (length inp) < 2 ^ 32 ->
  let n := Z.of_nat (length inp) in
  fst (Short.short_enc out inp n) =
    (n + 7) / 8 + n + Z.of_nat (length (List.filter (fun x => 256 <=? x) inp)) /\
  fst (Short.short_enc out inp n) <= Short.short_compress_bound n.
Proof.
  intros Hin Hn. cbv zeta.
  assert (Hn' : Z.of_nat (length inp) < 2 ^ 64 - 7) by (pow2_consts; lia).
  destruct (short_enc_stream out inp Hin Hn') as [E _].
  rewrite E. unfold ShortFormat.stream.
  rewrite length_app, Nat2Z.inj_add.
  rewrite (short_keys_length (length inp) inp (div64_le (length inp))).
  rewrite short_data_length, filter_wide_u16 by exact Hin.
  rewrite short_bound_eq by lia.
  pose proof (filter_length_le (fun x => 256 <=? x) inp).
  split; lia.
Qed.

Lemma short_encoded_length_witness :
  fst (Short.short_enc (fun _ => 0xFE) [0; 0xFF; 0x100; 0xFFFF; 7; 0x8000] 6) =
    (6 + 7) / 8 + 6 +
    Z.of_nat (length (List.filter (fun x => 256 <=? x) [0; 0xFF; 0x100; 0xFFFF; 7; 0x8000])) /\
  fst (Short.short_enc (fun _ => 0xFE) [0; 0xFF; 0x100; 0xFFFF; 7; 0x8000] 6) <=
    Short.short_compress_bound 6.
Proof.
  apply (short_encoded_length (fun _ => 0xFE) [0; 0xFF; 0x100; 0xFFFF; 7; 0x8000]).
  - repeat constructor; unfold is_u16; lia.
  - reflexivity.
Defined.

(** X20. A pass of the loop of [short_test_roundtrip] finds nothing
    wrong, whatever the array: the two returned pointers agree, the
    decoded bytes equal the input bytes, and both sentinels are
    intact. *)
Theorem short_test_pass_succeeds (x : list Z) :
  Forall is_u16 x ->
  Z.of_nat (length x) < 2 ^ 32 ->
  Short.short_test_pass x (Z.of_nat (length x)) = 0.
Proof.
  intros Hin Hn.
  assert (Hn' : Z.of_nat (length x) < 2 ^ 64 - 7) by (pow2_consts; lia).
  unfold Short.short_test_pass. cbv zeta.
  destruct (short_enc_stream (fun _ => 0xFE) x Hin Hn') as [E H].
  pose proof (short_enc_frame (fun _ => 0xFE) x Hin Hn'
                (Short.short_compress_bound (Z.of_nat (length x)))) as F.
  rewrite short_bound_eq in F by lia. specialize (F ltac:(lia)).
  rewrite <- (short_bound_eq (Z.of_nat (length x))) in F by lia.
  destruct (Short.short_enc (fun _ => 0xFE) x (Z.of_nat (length x))) as [e b1].
  cbn [fst snd] in E, H, F.
  rewrite (short_dec_stream (fun _ => 0xFD) b1 x Hn' H).
  rewrite E, Z.eqb_refl. cbn [negb].
  rewrite Nat2Z.id, firstn_all.
  replace (Z.to_nat (Z.of_nat (length x) * 2)) with (length (array_bytes x))
    by (rewrite array_bytes_length; lia).
  rewrite load_store_bytes.
  destruct (list_eq_dec Z.eq_dec (flat_map (le_bytes 2) x) (array_bytes x)) as [_|ne];
    [|now contradiction ne].
  rewrite F. cbn [Z.eqb Pos.eqb negb].
  rewrite store_bytes_out by (rewrite array_bytes_length; lia).
  reflexivity.
Qed.

Lemma short_test_pass_succeeds_witness :
  Short.short_test_pass [0; 0xFF; 0x100; 0xFFFF; 7; 0x8000] 6 = 0.
Proof.
  apply (short_test_pass_succeeds [0; 0xFF; 0x100; 0xFFFF; 7; 0x8000]).
  - repeat constructor; unfold is_u16; lia.
  - reflexivity.
Defined.

(** ** The input pattern of [test.c] *)

Lemma pattern_byte_zero b j mask i : 0 <= j -> 0 < mask < 256 ->
  Z.testbit i j = b ->
  (pattern_byte i j mask =? 0) = b.
Proof.
  intros Hj Hm Hb. unfold pattern_byte.
  rewrite bit_testbit by lia. rewrite Hb.
  destruct b; cbn [b2z].
  - reflexivity.
  - change (u8 (0 - 1)) with (Z.ones 8). rewrite Z.land_comm, Z.land_ones by lia.
    change (2 ^ 8) with 256. rewrite Z.mod_small by lia.
    rewrite u8_small by (change (2 ^ 8) with 256; lia).
    apply Z.eqb_neq. lia.
Qed.

(** X21. The rows [main] fills [buf0] with run through every pattern of
    zero and non-zero bytes: for each choice of sixteen positions there
    is a row index below [0x10000] whose row is zero exactly there. *)
Theorem pattern_rows_cover (z : list bool) :
  length z = 16%nat ->
  exists i, 0 <= i < 0x10000 /\ map (fun b => b =? 0) (pattern_row i) = z.
Proof.
  intros L. exists (pack_bits z). split.
  - pose proof (pack_bits_range z) as R. rewrite L in R. exact R.
  - do 17 (destruct z as [|? z]; cbn [length] in L; try lia). clear L.
    unfold pattern_row, pattern_masks, map2.
    cbn [seq map combine fst snd].
    repeat (apply f_equal2;
            [apply pattern_byte_zero;
             [lia|lia|rewrite testbit_pack_bits; reflexivity]|]).
    reflexivity.
Qed.

Lemma pattern_rows_cover_witness :
  exists i, 0 <= i < 0x10000 /\
    map (fun b => b =? 0) (pattern_row i) =
    [true; false; false; true; false; false; false; false;
     true; true; false; false; false; false; false; true].
Proof.
  apply (pattern_rows_cover
           [true; false; false; true; false; false; false; false;
            true; true; false; false; false; false; false; true]).
  reflexivity.
Defined.
